(* ===== verification/_CoqProject ===== *)
-Q . S2P
Prelude.v
Text.v
Addr.v
Posix.v
PosixModel.v
Utils.v
Registry.v
RegistrySpec.v
RegistryThreads.v
Bincode.v
Listener.v
Inheriter.v
Executioner.v
Ecdysis.v
EcdysisSpec.v
Ownership.v
Handover.v
Handshake.v
UpgradeThreads.v
UpgradeSpec.v
UpgradeTiming.v
Lineage.v
Supervisor.v
SystemdSockets.v
TokioEcdysis.v
TokioSpec.v
SeqpacketSpec.v
Monitor.v
MonitorSpec.v
MonitorTask.v
Builder.v
BuilderSpec.v
Lifecycle.v
IpParse.v
Echo.v
EchoSpec.v
Service.v
