(* ===== verification/Prelude.v ===== *)
(** * Ecdysis: graceful restarts, verified

    Ecdysis lets a server replace its own binary without closing a listening
    socket. The running process starts the new binary, passes it its listening
    sockets, waits until the new process says that it is ready, and then stops
    accepting and ends; if the new process fails, the old one carries on.

    ** The program's parts, and the files that model them

    - [src/registry.rs], the list of sockets a process has inherited and the
      list it uses: [Registry.v] (both lists behind their mutexes, every
      operation on the state registry and operating system) and
      [RegistrySpec.v] (the abstract registry of addresses and sockets, and the
      refinement); [RegistryThreads.v] runs calls at the same time, one locked
      section at a time.
    - [src/utils.rs], close-on-exec, [dup], [close], the pidfile: [Utils.v].
    - [src/listener.rs] and [src/seqpacket.rs], what the registry needs of each
      kind of listener, as the classes [Listener] and [TryFromRawFd]:
      [Listener.v]; the seqpacket listener as a stream is in [TokioEcdysis.v],
      its theorem in [SeqpacketSpec.v].
    - [src/executioner.rs], the upgrade as the parent sees it: [Executioner.v]
      is the sequential start (pipes, [fork], the hook before [exec], the
      child's environment), [UpgradeThreads.v] the caller and its three threads
      as atomic steps over the child, a clock and the shared flag [UPGRADING],
      [UpgradeSpec.v] their theorems, [UpgradeTiming.v] how long they take when
      they are punctual.
    - [src/inheriter.rs], what a child does first: [Inheriter.v], with the
      serialization of the list behind the interface of [Bincode.v].
    - [src/lib.rs], the object [Ecdysis]: [Ecdysis.v] (every method on the state
      object and operating system), [EcdysisSpec.v], and [Ownership.v] (who owns
      which descriptor, as a small logic of triples). [Handover.v] composes
      parent and child, [Handshake.v] accounts for the pipes between them,
      and [Lineage.v] is the whole: all generations of a program with their
      objects and threads, running at once.
    - [src/tokio_ecdysis/supervisor.rs], how listeners are told to stop:
      [Supervisor.v]. [systemd_sockets.rs]: [SystemdSockets.v].
    - [src/tokio_ecdysis/mod.rs]: the object [TokioEcdysis] in
      [TokioEcdysis.v] and [TokioSpec.v]; its upgrader and monitor, with
      [trigger.rs] and [systemd_notify.rs], in [Monitor.v] and [MonitorSpec.v];
      the builder in [Builder.v] and [BuilderSpec.v]. [Monitor.v] reads the
      monitor as one function, [MonitorTask.v] as the future that is polled, and
      shows that they are the same. [Lifecycle.v] puts the function over the
      thread model.
    - [examples/tokio_echo.rs]: [Echo.v] and [EchoSpec.v], on [IpParse.v];
      [Service.v] is its whole process: the polled monitor, the threads of every
      call of [upgrade] with their children, the accept loops, the connections
      and the end of [main], under one scheduler.

    Shared by all: this file (results, the state monad with unwinding, [?] and
    destructors, tactics, lists), [Text.v] (decimal numbers as Rust prints and
    parses them), [Addr.v] (socket addresses, paths up to spelling),
    [Posix.v] (the operating system as classes of operations and laws) and
    [PosixModel.v] (one small system that satisfies them, for the witnesses).

    ** How code is translated

    A method on [self] that talks to the system is a function of the monad [M]
    on the pair of both; it returns, panics or leaves the process, and the state
    survives in each case. A [Result] is [result], [?] is the notation [←?], and
    a value dropped on an early return is written out with [owning] (dropped on
    an error), [dropping] (dropped in any case) or [unwinding] (dropped on a
    panic). Descriptors are numbers into a table from numbers to open file
    descriptions with their close-on-exec flag; two descriptors are the same
    socket when their descriptions are equal. Integers are [Z] with their bounds:
    [i32] for descriptors, [u32] for the example's counter with its overflow
    written out, [u64] for the microseconds told to systemd. Futures and
    streams are poll functions. Threads and tasks are step functions, and a
    theorem about them is about every sequence of steps.

    What is not under [src/] is a class of operations with laws taken from its
    documentation: the system calls, [bincode], tokio's watch channel, its
    reactor and signals, the seqpacket library. Laws for the calls that change
    descriptors, files and the environment say what they change and that they
    change nothing else; every class has an instance for which the laws are
    proved. Texts of [Debug] and [Display] are function arguments.

    ** What the theorems show

    - Registry: every interleaving of registry operations with other
      descriptor activity refines the abstract registry; calls made at the
      same time answer as if made one after the other; no operation panics; a
      path is found under every spelling that is equal as a path.
    - Upgrade: the start either fails without a trace in the descriptor table or
      leaves exactly two pipe ends and a child with exactly the registered
      sockets. [Ok] is returned only for a child that reported "OK", was not
      killed and was seen running afterwards (and, without failures, for every
      such child that still runs); a timeout only for one that is dead;
      the call ends in at most 54 steps plus the bytes sent, and, when its
      threads are punctual, no system call fails and no program the child has
      started holds the ready pipe, within the five seconds the child is given
      and within half a second of its report.
    - Handover: the child's registry is the parent's, socket by socket, and a
      socket survives any number of generations that ask for it: whatever
      upgrades fail and children crash, a live process that has reported ready
      has it at every moment; each end of the two pipes is held once, by the
      process the threads expect it in.
    - Ecdysis: each listen call returns the inherited socket or a new registered
      one; [ready] reports once; every descriptor has one owner after any
      sequence of calls.
    - Supervisor, monitor, builder: a stream follows the latest command at every
      poll; the listeners are stopped exactly once, with the right condition;
      systemd hears READY, RELOADING and STOPPING in a legal order; the triggers
      are those that were registered; polling the future to its end gives what
      the function gives.
    - The whole process: in every interleaving the accept loops are told to make
      way for another process only when the call the future awaited was given the
      sockets the registry used when it was made, and started a child with them
      that reported and was not killed; until
      then they take every connection, whatever upgrade is under way; and what
      the serving half does is what the example's model does.
    - Example: the greeting counts the upgrades; connections are echoed
      faithfully and not cut by a graceful exit; the process ends.
    - Defects are theorems too: a failed start that blocks every later upgrade,
      overlapping calls that kill a ready child, a call that never returns while
      a helper of the dead child holds the pipe, a socket lost when [dup] fails,
      one that an upgrade misses while a concurrent call holds it, a name of
      systemd's that can be taken twice.

    ** Fuel and bounds

    The loop that empties the watch channel ends at its second round
    ([drain_spec]), the one inside [until_stopped] at its third; so [drain 2] and
    [stopped_poll 3] are those loops. [monitor n w] runs [n] rounds of at most
    [w] polls and says so when it is still running: theorems hold for all [n] and
    [w], since the future may wait forever. [wait_child] makes at most ten rounds
    of half a second before it kills. The example's clock is in milliseconds.

    ** Not modelled, and why

    In [Lineage] a child starts no program before it is ready (one that does
    can write to the ready pipe for it, see [UpgradeSpec]), and the snapshot
    of the registry is taken where the child is started. In [UpgradeThreads] a
    child starts programs only after [Ecdysis::new] has closed the listener
    pipe, so they never hold its read end. A connection's task in [Echo] is
    written from the documentation of tokio's [write_all] and [copy]. Logging; the texts of
    [Display] and [Debug] (but for the one in [Monitor.v]); failure to create a thread (the crate does not handle it) and
    of [SIGKILL] to a child of one's own; tokio's cooperative budget, which
    can end a poll early but not change its result; weak memory (the threads
    share one atomic, whose accesses are totally ordered, and the pipes);
    destructors that run after the example's [main] panics. The bytes of
    [bincode] are the library's. The integration tests start the example and
    send it signals: they are tests of what is proved here, not code to
    verify. [Default] implementations only call [new]. *)

From stdpp Require Export base numbers strings gmap sets list.

(** ** Rust's [Result], and the ways a Rust computation can end *)

Inductive result (A E : Type) : Type :=
| Ok (a : A)
| Err (e : E).
Arguments Ok {A E} a.
Arguments Err {A E} e.

(** [io::Error]: an OS error carries its errno, a custom one its message. *)
Inductive io_error : Type :=
| OsError (errno : Z)
| CustomError (msg : string).

(** A call returns, panics (unwinding with a message) or leaves the process
    through [std::process::exit]. *)
Inductive outcome (A : Type) : Type :=
| Ret (a : A)
| Panic (msg : string)
| Exit (code : Z).
Arguments Ret {A} a.
Arguments Panic {A} msg.
Arguments Exit {A} code.

#[export] Instance result_eq_dec {A E} `{EqDecision A, EqDecision E} :
  EqDecision (result A E).
Proof. solve_decision. Defined.
#[export] Instance io_error_eq_dec : EqDecision io_error.
Proof. solve_decision. Defined.
#[export] Instance outcome_eq_dec {A} `{EqDecision A} : EqDecision (outcome A).
Proof. solve_decision. Defined.

Definition is_ok {A E} (r : result A E) : bool :=
  match r with Ok _ => true | Err _ => false end.

Definition res_map {A B E} (f : A -> B) (r : result A E) : result B E :=
  match r with Ok a => Ok (f a) | Err e => Err e end.

Definition map_err {A E F} (f : E -> F) (r : result A E) : result A F :=
  match r with Ok a => Ok a | Err e => Err (f e) end.

Definition res_ok {A E} (r : result A E) : option A :=
  match r with Ok a => Some a | Err _ => None end.

(** ** The state monad with unwinding *)

Definition M (S A : Type) : Type := S -> outcome A * S.

#[export] Instance M_ret S : MRet (M S) := fun A a s => (Ret a, s).
#[export] Instance M_bind S : MBind (M S) := fun A B f m s =>
  match m s with
  | (Ret a, s') => f a s'
  | (Panic p, s') => (Panic p, s')
  | (Exit c, s') => (Exit c, s')
  end.

Declare Scope ecd_scope.
Delimit Scope ecd_scope with ecd.
Open Scope ecd_scope.

(** Rust's [?]: return early with the error. *)
Definition bindq {S A B E} (m : M S (result A E))
    (f : A -> M S (result B E)) : M S (result B E) :=
  r ← m; match r with Ok a => f a | Err e => mret (Err e) end.

Notation "x ←? m ; k" := (bindq m (fun x => k))
  (at level 20, m at level 100, k at level 200, only parsing) : ecd_scope.
Notation "' x ←? m ; k" := (bindq m (fun x => k))
  (at level 20, x pattern, m at level 100, k at level 200, only parsing) : ecd_scope.

Definition get {S} : M S S := fun s => (Ret s, s).
Definition gets {S A} (f : S -> A) : M S A := fun s => (Ret (f s), s).
Definition put {S} (s' : S) : M S unit := fun _ => (Ret tt, s').
Definition panic {S A} (msg : string) : M S A := fun s => (Panic msg, s).
Definition exit {S A} (code : Z) : M S A := fun s => (Exit code, s).

(** A call into the environment: a function of the state that cannot unwind. *)
Definition call {S A} (f : S -> A * S) : M S A :=
  fun s => let '(a, s') := f s in (Ret a, s').

Definition expect {S A E} (msg : string) (r : result A E) : M S A :=
  match r with Ok a => mret a | Err _ => panic msg end.
Definition expect_some {S A} (msg : string) (o : option A) : M S A :=
  match o with Some a => mret a | None => panic msg end.

(** Scope exit: the destructor [d] runs when [m] returns and when it unwinds
    (the destructors modelled here never unwind themselves); [process::exit]
    runs no destructor. *)
Definition dropping {S A} (m : M S A) (d : M S unit) : M S A := fun s =>
  match m s with
  | (Ret a, s') => (Ret a, (d s').2)
  | (Panic p, s') => (Panic p, (d s').2)
  | (Exit c, s') => (Exit c, s')
  end.

(** A local that [m] moves into its result on success: its destructor [d] runs
    when [m] fails or unwinds. *)
Definition owning {S A E} (d : M S unit) (m : M S (result A E)) : M S (result A E) := fun s =>
  match m s with
  | (Ret (Ok a), s') => (Ret (Ok a), s')
  | (Ret (Err e), s') => (Ret (Err e), (d s').2)
  | (Panic p, s') => (Panic p, (d s').2)
  | (Exit c, s') => (Exit c, s')
  end.

(** A local that [m] returns along with its result: its destructor [d] runs only
    when [m] unwinds. *)
Definition unwinding {S A} (d : M S unit) (m : M S A) : M S A := fun s =>
  match m s with
  | (Panic p, s') => (Panic p, (d s').2)
  | r => r
  end.

(** ** Objects over the operating system

    A method of an object of type [O] in a process whose operating-system
    state is [K] runs in [M (O * K)]. [kern] runs a call that touches only the
    operating system, [field] a method of a component of the object. *)

Definition kern {O K A} (m : M K A) : M (O * K) A := fun '(o, k) =>
  let '(r, k') := m k in (r, (o, k')).

Definition field {O P K A} (g : O -> P) (s : P -> O -> O)
    (m : M (P * K) A) : M (O * K) A := fun '(o, k) =>
  let '(r, (p', k')) := m (g o, k) in (r, (s p' o, k')).

Definition self {O K} : M (O * K) O := gets fst.
Definition set_self {O K} (o : O) : M (O * K) unit := fun '(_, k) => (Ret tt, (o, k)).

(** [std::sync::Mutex]: unwinding while the guard is held poisons it, and
    [lock().expect(msg)] panics on a poisoned one. *)
Record Mutex (A : Type) : Type := MkMutex { m_val : A; m_poisoned : bool }.
Arguments MkMutex {A} m_val m_poisoned.
Arguments m_val {A} m.
Arguments m_poisoned {A} m.

Definition mutex_new {A} (a : A) : Mutex A := MkMutex a false.

Definition locked {A K B} (msg : string) (body : M (A * K) B) : M (Mutex A * K) B :=
  fun '(m, k) =>
    if m_poisoned m then (Panic msg, (m, k))
    else match body (m_val m, k) with
         | (Ret b, (a', k')) => (Ret b, (MkMutex a' false, k'))
         | (Panic p, (a', k')) => (Panic p, (MkMutex a' true, k'))
         | (Exit c, (a', k')) => (Exit c, (MkMutex a' false, k'))
         end.

Fixpoint for_each {S A} (f : A -> M S unit) (l : list A) : M S unit :=
  match l with
  | [] => mret tt
  | x :: l' => _ ← f x; for_each f l'
  end.

(** ** Equations of the monad, for symbolic execution *)

Section monad_laws.
Context {S : Type}.

Lemma run_ret {A} (a : A) (s : S) : (mret a : M S A) s = (Ret a, s).
Proof. done. Qed.

Lemma run_bind {A B} (m : M S A) (f : A -> M S B) s a s' :
  m s = (Ret a, s') -> (m ≫= f) s = f a s'.
Proof. intros E. unfold mbind, M_bind. by rewrite E. Qed.

Lemma run_bind_panic {A B} (m : M S A) (f : A -> M S B) s p s' :
  m s = (Panic p, s') -> (m ≫= f) s = (Panic p, s').
Proof. intros E. unfold mbind, M_bind. by rewrite E. Qed.

Lemma run_bindq_ok {A B E} (m : M S (result A E)) (f : A -> M S (result B E)) s a s' :
  m s = (Ret (Ok a), s') -> bindq m f s = f a s'.
Proof. intros H. unfold bindq. by rewrite (run_bind _ _ _ _ _ H). Qed.

Lemma run_bindq_err {A B E} (m : M S (result A E)) (f : A -> M S (result B E)) s e s' :
  m s = (Ret (Err e), s') -> bindq m f s = (Ret (Err e), s').
Proof. intros H. unfold bindq. by rewrite (run_bind _ _ _ _ _ H). Qed.

Lemma run_bindq_panic {A B E} (m : M S (result A E)) (f : A -> M S (result B E)) s p s' :
  m s = (Panic p, s') -> bindq m f s = (Panic p, s').
Proof. intros H. unfold bindq. by apply run_bind_panic. Qed.

Lemma run_dropping_ret {A} (m : M S A) (d : M S unit) s a s' :
  m s = (Ret a, s') -> dropping m d s = (Ret a, (d s').2).
Proof. intros E. unfold dropping. by rewrite E. Qed.

Lemma run_owning_ok {A E} (d : M S unit) (m : M S (result A E)) s a s' :
  m s = (Ret (Ok a), s') -> owning d m s = (Ret (Ok a), s').
Proof. intros H. unfold owning. by rewrite H. Qed.

Lemma run_owning_err {A E} (d : M S unit) (m : M S (result A E)) s e s' :
  m s = (Ret (Err e), s') -> owning d m s = (Ret (Err e), (d s').2).
Proof. intros H. unfold owning. by rewrite H. Qed.

Lemma bind_assoc_run {A B C} (m : M S A) (f : A -> M S B) (g : B -> M S C) s :
  ((m ≫= f) ≫= g) s = (m ≫= (fun a => f a ≫= g)) s.
Proof. unfold mbind, M_bind. by destruct (m s) as [[] ?]. Qed.

Lemma run_inv_bind {A B} (m : M S A) (f : A -> M S B) s b s' :
  (m ≫= f) s = (Ret b, s') ->
  exists a s1, m s = (Ret a, s1) /\ f a s1 = (Ret b, s').
Proof. unfold mbind, M_bind. destruct (m s) as [[] ?]; naive_solver. Qed.
End monad_laws.

Lemma run_kern {O K A} (m : M K A) (o : O) k r k' :
  m k = (r, k') -> kern m (o, k) = (r, (o, k')).
Proof. intros E. unfold kern. by rewrite E. Qed.

Lemma run_field {O P K A} (g : O -> P) (st : P -> O -> O) (m : M (P * K) A) o k r p' k' :
  m (g o, k) = (r, (p', k')) -> field g st m (o, k) = (r, (st p' o, k')).
Proof. intros E. unfold field. by rewrite E. Qed.

Lemma run_locked {A K B} msg (body : M (A * K) B) (a : A) k b a' k' :
  body (a, k) = (Ret b, (a', k')) ->
  locked msg body (MkMutex a false, k) = (Ret b, (MkMutex a' false, k')).
Proof. intros E. unfold locked. cbn. by rewrite E. Qed.

(** [peel n] proves the first [n] conjuncts of the goal, each by [done]. *)
Tactic Notation "peel" integer(n) := do n (split; [done|]).

(** [split_bools] takes the boolean hypotheses that are conjunctions and
    negations apart. *)
Ltac split_bools :=
  repeat match goal with
  | Hb : andb ?x ?y = true |- _ => destruct (andb_prop x y Hb); clear Hb
  | Hb : negb ?x = true |- _ => apply negb_true_iff in Hb
  end.

(** [mstep H] executes one bind whose first call is described by [H]. *)
Ltac mstep H :=
  first
    [ rewrite (run_bind _ _ _ _ _ H)
    | rewrite (run_bindq_ok _ _ _ _ _ H)
    | rewrite (run_bindq_err _ _ _ _ _ H)
    | rewrite (run_bind_panic _ _ _ _ _ H)
    | rewrite (run_bindq_panic _ _ _ _ _ H) ].

(** [msimpl] unfolds the monad's plumbing in the goal. *)
Ltac munfold :=
  unfold bindq, kern, field, self, set_self, expect, expect_some,
    mbind, M_bind, mret, M_ret, get, gets, put, panic, exit, call.
Ltac msimpl := munfold; cbn.

(** [NoDup] of an explicit list, from disequalities in the context. *)
Ltac solve_nodup :=
  repeat (apply NoDup_cons_2;
    [rewrite ?not_elem_of_cons; repeat split; first [apply not_elem_of_nil | congruence]|]);
  apply NoDup_nil_2.

Lemma NoDup4 {A} (a b c d : A) :
  NoDup [a; b; c; d] -> a <> b /\ a <> c /\ a <> d /\ b <> c /\ b <> d /\ c <> d.
Proof. rewrite !NoDup_cons, !not_elem_of_cons. naive_solver. Qed.

#[global] Arguments bool_decide : simpl never.

Create HintDb ecd.
#[export] Hint Resolve run_kern run_locked run_field : ecd.
