(* ===== verification/Text.v ===== *)
(** * Text: the integer formatting, parsing and splitting of [std]

    The crate passes descriptor numbers and process ids through strings (the
    environment of the child, the pidfile, systemd's variables and
    notifications). This file models the pieces of [std] it uses for that:
    [format!] of an integer, [str::parse::<i32>] with its error kinds,
    [str::split] on a character and [join]; and proves that printing then
    parsing gives the integer back, and that splitting a join gives the parts
    back. A Rust string is its list of bytes, [String.string]. *)

From S2P Require Import Prelude.
From Stdlib Require Import Ascii.
Local Open Scope Z_scope.

Definition i32_min : Z := - 2 ^ 31.
Definition i32_max : Z := 2 ^ 31 - 1.
Definition u64_max : Z := 2 ^ 64 - 1.

Definition in_i32 (z : Z) : Prop := i32_min <= z <= i32_max.

(** ** Printing *)

Definition digit_char (d : Z) : ascii := ascii_of_nat (48 + Z.to_nat d).

Fixpoint fmt_nonneg_aux (fuel : nat) (n : Z) (acc : string) : string :=
  match fuel with
  | O => acc
  | S f =>
    let acc' := String (digit_char (n mod 10)) acc in
    if n <? 10 then acc' else fmt_nonneg_aux f (n / 10) acc'
  end.

(** One digit per iteration: [Z.log2 n + 1] iterations are enough. *)
Definition fmt_nonneg (n : Z) : string :=
  fmt_nonneg_aux (S (Z.to_nat (Z.log2 n))) n "".

(** [format!("{}", z)] *)
Definition fmt_int (z : Z) : string :=
  if z <? 0 then String "-" (fmt_nonneg (- z)) else fmt_nonneg z.

(** ** Parsing *)

Inductive IntErrorKind : Type := Empty | InvalidDigit | PosOverflow | NegOverflow.

#[export] Instance IntErrorKind_eq_dec : EqDecision IntErrorKind.
Proof. solve_decision. Defined.

Definition digit_val (c : ascii) : option Z :=
  let n := Z.of_nat (nat_of_ascii c) in
  if (48 <=? n) && (n <=? 57) then Some (n - 48) else None.

(** The checked accumulation of [i32::from_str]: the digit is looked at before
    the multiplication's overflow. *)
Fixpoint parse_pos (hi : Z) (s : string) (acc : Z) : result Z IntErrorKind :=
  match s with
  | EmptyString => Ok acc
  | String c s' =>
    match digit_val c with
    | None => Err InvalidDigit
    | Some d =>
      if hi <? acc * 10 then Err PosOverflow
      else if hi <? acc * 10 + d then Err PosOverflow
      else parse_pos hi s' (acc * 10 + d)
    end
  end.

Fixpoint parse_neg (lo : Z) (s : string) (acc : Z) : result Z IntErrorKind :=
  match s with
  | EmptyString => Ok acc
  | String c s' =>
    match digit_val c with
    | None => Err InvalidDigit
    | Some d =>
      if acc * 10 <? lo then Err NegOverflow
      else if acc * 10 - d <? lo then Err NegOverflow
      else parse_neg lo s' (acc * 10 - d)
    end
  end.

(** [str::parse::<i32>] *)
Definition parse_i32 (s : string) : result Z IntErrorKind :=
  match s with
  | EmptyString => Err Empty
  | String c EmptyString =>
    if bool_decide (c = "+"%char \/ c = "-"%char) then Err InvalidDigit
    else parse_pos i32_max s 0
  | String c s' =>
    if bool_decide (c = "+"%char) then parse_pos i32_max s' 0
    else if bool_decide (c = "-"%char) then parse_neg i32_min s' 0
    else parse_pos i32_max s 0
  end.

(** ** Splitting and joining *)

(** [s.split(c).collect::<Vec<_>>()]: never empty. *)
Fixpoint split_on (c : ascii) (s : string) : list string :=
  match s with
  | EmptyString => [EmptyString]
  | String d s' =>
    if bool_decide (d = c) then EmptyString :: split_on c s'
    else match split_on c s' with
         | w :: ws => String d w :: ws
         | [] => [String d EmptyString]
         end
  end.

(** [parts.join(sep)] for a one-character separator. *)
Fixpoint join_with (c : ascii) (l : list string) : string :=
  match l with
  | [] => EmptyString
  | [w] => w
  | w :: ws => w +:+ String c (join_with c ws)
  end.

Fixpoint char_in (c : ascii) (s : string) : bool :=
  match s with
  | EmptyString => false
  | String d s' => bool_decide (d = c) || char_in c s'
  end.

(** ** Lemmas *)

Lemma digit_val_char d : 0 <= d < 10 -> digit_val (digit_char d) = Some d.
Proof.
  intros H. unfold digit_val, digit_char.
  rewrite nat_ascii_embedding by lia.
  replace (Z.of_nat (48 + Z.to_nat d)) with (48 + d) by lia.
  destruct (Z.leb_spec 48 (48 + d)), (Z.leb_spec (48 + d) 57); try lia.
  cbn. f_equal. lia.
Qed.

Lemma parse_pos_fmt_aux hi fuel n acc v :
  0 <= n < 10 ^ Z.of_nat fuel -> n <= hi -> v = n ->
  parse_pos hi (fmt_nonneg_aux fuel n acc) 0 = parse_pos hi acc v.
Proof.
  revert n acc v.
  induction fuel as [|f IH]; intros n acc v Hn Hhi ->.
  { cbn in Hn. by replace n with 0 by lia. }
  pose proof (Z.mod_pos_bound n 10 ltac:(lia)) as Hm.
  pose proof (Z.div_mod n 10 ltac:(lia)) as Hdm.
  cbn [fmt_nonneg_aux]. destruct (Z.ltb_spec n 10) as [Hlt|Hge].
  - cbn [parse_pos]. rewrite Z.mod_small by lia. rewrite digit_val_char by lia.
    destruct (Z.ltb_spec hi (0 * 10)), (Z.ltb_spec hi (0 * 10 + n)); try lia.
    by rewrite Z.mul_0_l, Z.add_0_l.
  - rewrite (IH (n / 10) _ (n / 10)).
    + cbn [parse_pos]. rewrite digit_val_char by lia.
      destruct (Z.ltb_spec hi (n / 10 * 10)), (Z.ltb_spec hi (n / 10 * 10 + n mod 10)); try lia.
      f_equal. lia.
    + rewrite Nat2Z.inj_succ, Z.pow_succ_r in Hn by lia.
      split; [apply Z.div_pos; lia|apply Z.div_lt_upper_bound; lia].
    + assert (n / 10 <= n) by (apply Z.div_le_upper_bound; lia). lia.
    + done.
Qed.

Lemma parse_neg_fmt_aux lo fuel n acc v :
  0 <= n < 10 ^ Z.of_nat fuel -> lo <= - n -> v = - n ->
  parse_neg lo (fmt_nonneg_aux fuel n acc) 0 = parse_neg lo acc v.
Proof.
  revert n acc v.
  induction fuel as [|f IH]; intros n acc v Hn Hlo ->.
  { cbn in Hn. by replace n with 0 by lia. }
  pose proof (Z.mod_pos_bound n 10 ltac:(lia)) as Hm.
  pose proof (Z.div_mod n 10 ltac:(lia)) as Hdm.
  cbn [fmt_nonneg_aux]. destruct (Z.ltb_spec n 10) as [Hlt|Hge].
  - cbn [parse_neg]. rewrite Z.mod_small by lia. rewrite digit_val_char by lia.
    destruct (Z.ltb_spec (0 * 10) lo), (Z.ltb_spec (0 * 10 - n) lo); try lia.
    by rewrite Z.mul_0_l, Z.sub_0_l.
  - rewrite (IH (n / 10) _ (- (n / 10))).
    + cbn [parse_neg]. rewrite digit_val_char by lia.
      destruct (Z.ltb_spec (- (n / 10) * 10) lo),
        (Z.ltb_spec (- (n / 10) * 10 - n mod 10) lo); try lia.
      f_equal. lia.
    + rewrite Nat2Z.inj_succ, Z.pow_succ_r in Hn by lia.
      split; [apply Z.div_pos; lia|apply Z.div_lt_upper_bound; lia].
    + assert (n / 10 <= n) by (apply Z.div_le_upper_bound; lia). lia.
    + done.
Qed.

Lemma fmt_fuel_enough n : 0 <= n -> 0 <= n < 10 ^ Z.of_nat (S (Z.to_nat (Z.log2 n))).
Proof.
  intros Hn. split; [done|].
  rewrite Nat2Z.inj_succ, Z2Nat.id by apply Z.log2_nonneg.
  destruct (decide (n = 0)) as [->|Hne]; [cbn; lia|].
  eapply Z.lt_le_trans; [apply Z.log2_spec; lia|].
  apply Z.pow_le_mono_l. lia.
Qed.

(** The first character of a printed number is a digit. *)
Lemma fmt_aux_head fuel n acc :
  0 <= n -> (fuel > 0)%nat ->
  exists d s, 0 <= d < 10 /\ fmt_nonneg_aux fuel n acc = String (digit_char d) s.
Proof.
  revert n acc. induction fuel as [|f IH]; intros n acc Hn Hf; [lia|].
  pose proof (Z.mod_pos_bound n 10 ltac:(lia)).
  cbn. destruct (Z.ltb_spec n 10); [eauto|].
  destruct f as [|f']; [cbn; eauto|].
  apply IH; [apply Z.div_pos; lia|lia].
Qed.

Lemma digit_not_sign d : 0 <= d < 10 -> digit_char d <> "+"%char /\ digit_char d <> "-"%char.
Proof.
  intros H. split; intros E; pose proof (digit_val_char d H) as Hd; rewrite E in Hd; done.
Qed.

Lemma parse_i32_digits s d :
  0 <= d < 10 ->
  parse_i32 (String (digit_char d) s) = parse_pos i32_max (String (digit_char d) s) 0.
Proof.
  intros Hd. destruct (digit_not_sign d Hd) as [Hp Hm].
  unfold parse_i32. destruct s.
  - by rewrite bool_decide_eq_false_2 by (intros [?|?]; done).
  - by rewrite !bool_decide_eq_false_2 by done.
Qed.

Lemma parse_i32_fmt_int z : in_i32 z -> parse_i32 (fmt_int z) = Ok z.
Proof.
  unfold in_i32. intros Hz. unfold fmt_int. destruct (Z.ltb_spec z 0) as [Hneg|Hpos].
  - destruct (fmt_aux_head (S (Z.to_nat (Z.log2 (- z)))) (- z) "" ltac:(lia) ltac:(lia))
      as (d & s & Hd & E).
    unfold fmt_nonneg. unfold parse_i32. rewrite E.
    rewrite bool_decide_eq_false_2 by done. rewrite bool_decide_eq_true_2 by done.
    rewrite <- E. erewrite parse_neg_fmt_aux; [|apply fmt_fuel_enough; lia|lia|done].
    cbn. f_equal. lia.
  - destruct (fmt_aux_head (S (Z.to_nat (Z.log2 z))) z "" ltac:(lia) ltac:(lia))
      as (d & s & Hd & E).
    unfold fmt_nonneg. rewrite E, parse_i32_digits by done. rewrite <- E.
    by erewrite parse_pos_fmt_aux; [|apply fmt_fuel_enough; lia|lia|done].
Qed.

Lemma parse_pos_bounds hi s acc v : 0 <= acc <= hi -> parse_pos hi s acc = Ok v -> 0 <= v <= hi.
Proof.
  revert acc. induction s as [|c s IH]; cbn; intros acc Ha; [by intros [= <-]|].
  unfold digit_val. destruct (_ && _) eqn:E; [|done].
  apply andb_prop in E as [E1%Z.leb_le E2%Z.leb_le].
  destruct (Z.ltb_spec hi (acc * 10)); [done|].
  destruct (Z.ltb_spec hi (acc * 10 + (Z.of_nat (nat_of_ascii c) - 48))); [done|].
  apply IH. lia.
Qed.

Lemma parse_neg_bounds lo s acc v : lo <= acc <= 0 -> parse_neg lo s acc = Ok v -> lo <= v <= 0.
Proof.
  revert acc. induction s as [|c s IH]; cbn; intros acc Ha; [by intros [= <-]|].
  unfold digit_val. destruct (_ && _) eqn:E; [|done].
  apply andb_prop in E as [E1%Z.leb_le E2%Z.leb_le].
  destruct (Z.ltb_spec (acc * 10) lo); [done|].
  destruct (Z.ltb_spec (acc * 10 - (Z.of_nat (nat_of_ascii c) - 48)) lo); [done|].
  apply IH. lia.
Qed.

(** Whatever the string, a parsed descriptor number is an [i32]. *)
Lemma parse_i32_in_range s v : parse_i32 s = Ok v -> in_i32 v.
Proof.
  unfold parse_i32, in_i32, i32_min, i32_max.
  destruct s as [|c [|c' s]]; [done|..]; repeat case_bool_decide; try done;
    (intros ?%parse_pos_bounds || intros ?%parse_neg_bounds); cbn in *; lia.
Qed.

Lemma split_on_nonempty c s : split_on c s <> [].
Proof. destruct s; cbn; [done|]. case_bool_decide; [done|]. by destruct (split_on c s). Qed.

Lemma split_on_no_sep c s : char_in c s = false -> split_on c s = [s].
Proof.
  induction s as [|d s IH]; cbn; [done|].
  intros [Hd Hs]%orb_false_elim. apply bool_decide_eq_false in Hd.
  rewrite bool_decide_eq_false_2 by done. by rewrite IH.
Qed.

Lemma split_on_app c w s :
  char_in c w = false -> split_on c (w +:+ String c s) = w :: split_on c s.
Proof.
  induction w as [|d w IH]; cbn [char_in]; intros H.
  - change ("" +:+ String c s) with (String c s). cbn [split_on].
    by rewrite bool_decide_eq_true_2.
  - change (String d w +:+ String c s) with (String d (w +:+ String c s)). cbn [split_on].
    apply orb_false_elim in H as [Hd Hw]. apply bool_decide_eq_false in Hd.
    rewrite bool_decide_eq_false_2 by done. by rewrite IH.
Qed.

Lemma split_join c l :
  l <> [] -> Forall (fun w => char_in c w = false) l -> split_on c (join_with c l) = l.
Proof.
  induction l as [|w l IH]; [done|]. intros _ [Hw Hl]%Forall_cons_1.
  destruct l as [|w' l]; cbn.
  - by apply split_on_no_sep.
  - rewrite split_on_app by done. f_equal. by apply IH.
Qed.

Lemma join_split c s : join_with c (split_on c s) = s.
Proof.
  induction s as [|d s IH]; [done|]. cbn [split_on].
  destruct (split_on c s) as [|w ws] eqn:E; [by destruct (split_on_nonempty c s)|].
  case_bool_decide as Hd; [subst d; by rewrite <- IH|].
  destruct ws; cbn in *; [by rewrite IH|by rewrite <- IH].
Qed.

(** ** Concatenation *)

Lemma string_app_empty_r (x : string) : x +:+ "" = x.
Proof.
  induction x as [|c x IH]; [done|].
  change (String c x +:+ "") with (String c (x +:+ "")). by rewrite IH.
Qed.

Lemma string_app_assoc (x y z : string) : (x +:+ y) +:+ z = x +:+ (y +:+ z).
Proof.
  induction x as [|c x IH]; [done|]. change (String c ((x +:+ y) +:+ z) = String c (x +:+ (y +:+ z))).
  by rewrite IH.
Qed.
