(* ===== verification/Addr.v ===== *)
(** * Addr: socket addresses and paths as [std] compares them

    The registry finds an inherited socket by comparing addresses with the
    derived [PartialEq] of [SockInfo]. For IP sockets that is equality of every
    field of [std::net::SocketAddr]; for Unix sockets it is equality of
    [PathBuf]s, which [std] defines on the paths' components, so that
    ["/run//a.sock"], ["/run/./a.sock"] and ["/run/a.sock"] are one address.
    This file models both, shows that path equality is an equivalence coarser
    than equality of strings and gives the normal form that decides it. *)

From S2P Require Import Prelude Text.
From Stdlib Require Import Ascii.

(** [std::net::SocketAddr]; addresses and ports as unsigned integers. *)
Inductive SocketAddr : Type :=
| V4 (ip port : Z)
| V6 (ip port flowinfo scope_id : Z).

#[export] Instance SocketAddr_eq_dec : EqDecision SocketAddr.
Proof. solve_decision. Defined.

(** [socket2::Domain] and [socket2::Type], as far as the crate names them. *)
Inductive Domain : Type := IPV4 | IPV6.
Inductive SockType : Type := STREAM | DGRAM.

Definition for_address (a : SocketAddr) : Domain :=
  match a with V4 _ _ => IPV4 | V6 _ _ _ _ => IPV6 end.

(** ** Paths *)

Inductive component : Type :=
| RootDir
| CurDir
| ParentDir
| Normal (name : string).

#[export] Instance component_eq_dec : EqDecision component.
Proof. solve_decision. Defined.

(** A segment between slashes: empty and "." segments are skipped. *)
Definition segment (w : string) : option component :=
  if bool_decide (w = "" \/ w = ".") then None
  else if bool_decide (w = "..") then Some ParentDir
  else Some (Normal w).

(** [Path::components] on Unix: a leading "/" is the root, a leading "." segment
    is kept as the current directory. *)
Definition components (p : string) : list component :=
  let segs := split_on "/" p in
  match segs with
  | "" :: _ :: _ => RootDir :: omap segment segs
  | "." :: _ => CurDir :: omap segment segs
  | _ => omap segment segs
  end.

(** [PartialEq for Path] *)
Definition path_eqb (p q : string) : bool := bool_decide (components p = components q).

Definition path_equiv (p q : string) : Prop := components p = components q.

(** [Path::parent], as the components of the parent: none for the empty path
    and for the root. *)
Definition path_parent (p : string) : option (list component) :=
  match rev (components p) with
  | [] | RootDir :: _ => None
  | _ :: r => Some (rev r)
  end.

#[export] Instance path_equiv_equivalence : Equivalence path_equiv.
Proof. split; [done|by intros ??|intros ???; unfold path_equiv; congruence]. Qed.

#[export] Instance path_equiv_dec p q : Decision (path_equiv p q).
Proof. unfold path_equiv. apply _. Defined.

Lemma path_eqb_true p q : path_eqb p q = true <-> path_equiv p q.
Proof. apply bool_decide_eq_true. Qed.

#[export] Instance path_eqb_proper : Proper (path_equiv ==> path_equiv ==> eq) path_eqb.
Proof. intros p p' Hp q q' Hq. unfold path_eqb. by rewrite Hp, Hq. Qed.

(** ** Appending a component: what makes two spellings equal *)

Fixpoint ends_in_slash (s : string) : bool :=
  match s with
  | EmptyString => false
  | String c EmptyString => bool_decide (c = "/"%char)
  | String _ s' => ends_in_slash s'
  end.

Lemma split_on_app_sep c p q :
  split_on c (p +:+ String c q) = split_on c p ++ split_on c q.
Proof.
  induction p as [|d p IH].
  - change ("" +:+ String c q) with (String c q). cbn [split_on].
    by rewrite bool_decide_eq_true_2.
  - change (String d p +:+ String c q) with (String d (p +:+ String c q)).
    cbn [split_on]. rewrite IH. case_bool_decide; [done|].
    destruct (split_on c p) eqn:E; [by destruct (split_on_nonempty c p)|done].
Qed.

(** The head of the component list, which depends on the first segment only. *)
Definition path_head (segs : list string) : list component :=
  match segs with
  | "" :: _ :: _ => [RootDir]
  | "." :: _ => [CurDir]
  | _ => []
  end.

Lemma components_head p :
  components p = path_head (split_on "/" p) ++ omap segment (split_on "/" p).
Proof.
  unfold components, path_head.
  destruct (split_on "/" p) as [|w [|w' ws]]; [done|..];
    destruct w as [|[[][][][][][][][]] [|]]; done.
Qed.

Lemma path_head_app segs segs' :
  segs <> [] -> segs <> [""] -> path_head (segs ++ segs') = path_head segs.
Proof.
  destruct segs as [|w [|w' ws]]; [done|intros _ Hne|done]; cbn.
  destruct w as [|[[][][][][][][][]] [|]]; done.
Qed.

(** [dir] followed by "/" and [q] has the components of [dir], then the
    segments of [q]. *)
Lemma components_join dir q :
  dir <> "" ->
  components (dir +:+ String "/" q) = components dir ++ omap segment (split_on "/" q).
Proof.
  intros Hd. rewrite !components_head, split_on_app_sep, omap_app, app_assoc.
  f_equal. f_equal. apply path_head_app; [apply split_on_nonempty|].
  intros E. apply Hd. by rewrite <- (join_split "/" dir), E.
Qed.

Lemma path_join_dot dir q :
  dir <> "" -> path_equiv (dir +:+ String "/" ("./" +:+ q)) (dir +:+ String "/" q).
Proof. intros. unfold path_equiv. rewrite !components_join by done. done. Qed.

Lemma path_join_slash dir q :
  dir <> "" -> path_equiv (dir +:+ String "/" (String "/" q)) (dir +:+ String "/" q).
Proof. intros. unfold path_equiv. rewrite !components_join by done. done. Qed.
