(* ===== verification/Posix.v ===== *)
(** * Posix: what the crate relies on the operating system for

    The crate is glue around system calls made through [nix], [os_pipe],
    [socket2], [tempfile] and [std]. None of that code is part of the
    repository, so it is a parameter: a process' operating-system state is an
    abstract type [K] with an observation [view : K -> kview], the operations
    are members of the classes below, and what POSIX and the crates' manuals
    document about them are the classes of laws ([FdLaws], [PipeLaws], ...),
    stated on the view. The choices POSIX leaves open (which free descriptor is
    taken, whether a call fails for want of resources) stay open: they are
    whatever the abstract operation returns. [PosixModel] gives an instance. *)

From S2P Require Import Prelude Text Addr.
Local Open Scope Z_scope.

(** An entry of the descriptor table: the open file description it refers to,
    which survives [dup], [fork] and [exec], and its close-on-exec flag, which
    belongs to the descriptor. *)
Record fdent : Type := Fd { fd_desc : N; fd_cloexec : bool }.

#[export] Instance fdent_eq_dec : EqDecision fdent.
Proof. solve_decision. Defined.

(** What can be observed of a process' operating-system state.
    - [v_fds]: its descriptor table;
    - [v_env]: its environment; [None] for a value that is not Unicode;
    - [v_files]: the contents of the files;
    - [v_pid], [v_args]: its process id and its argument vector;
    - [v_pipes]: for a read end, the bytes a reader gets before end of file;
    - [v_written]: for a write end, the bytes written to it. *)
Record kview : Type := KView {
  v_fds : gmap Z fdent;
  v_env : gmap string (option string);
  v_files : gmap string string;
  v_pid : Z;
  v_args : list string;
  v_pipes : gmap N string;
  v_written : gmap N string
}.

Definition set_fds (t : gmap Z fdent) (v : kview) : kview :=
  KView t (v_env v) (v_files v) (v_pid v) (v_args v) (v_pipes v) (v_written v).
Definition set_files (f : gmap string string) (v : kview) : kview :=
  KView (v_fds v) (v_env v) f (v_pid v) (v_args v) (v_pipes v) (v_written v).
Definition set_pipes (p : gmap N string) (v : kview) : kview :=
  KView (v_fds v) (v_env v) (v_files v) (v_pid v) (v_args v) p (v_written v).
Definition set_written (w : gmap N string) (v : kview) : kview :=
  KView (v_fds v) (v_env v) (v_files v) (v_pid v) (v_args v) (v_pipes v) w.

Class HasView (K : Type) := view : K -> kview.

Definition fds {K} `{HasView K} (k : K) : gmap Z fdent := v_fds (view k).

Definition EBADF : Z := 9.
Definition EMFILE : Z := 24.

(** ** Descriptors: [fcntl] and [close] as [nix] exposes them *)

Class FdOps (K : Type) := {
  (** [FdFlag::from_bits] *)
  fdflag_from_bits : Z -> option Z;
  (** [fcntl(fd, F_GETFD)] *)
  fcntl_getfd : Z -> K -> result Z Z;
  (** [fcntl(fd, F_SETFD(flags))] *)
  fcntl_setfd : Z -> Z -> K -> result unit Z * K;
  (** [fcntl(fd, F_DUPFD_CLOEXEC(min))] *)
  fcntl_dupfd_cloexec : Z -> Z -> K -> result Z Z * K;
  (** [close(fd)] *)
  sys_close : Z -> K -> result unit Z * K
}.

(** [FD_CLOEXEC] is the only descriptor flag there is. *)
Definition FD_CLOEXEC : Z := 1.
Definition flag_word (e : fdent) : Z := if fd_cloexec e then FD_CLOEXEC else 0.
Definition with_flags (w : Z) (e : fdent) : fdent := Fd (fd_desc e) (Z.testbit w 0).

Class FdLaws (K : Type) `{HasView K, FdOps K} : Prop := {
  from_bits_known w : w = 0 \/ w = FD_CLOEXEC -> fdflag_from_bits w = Some w;
  getfd_open fd k e : fds k !! fd = Some e -> fcntl_getfd fd k = Ok (flag_word e);
  getfd_bad fd k : fds k !! fd = None -> fcntl_getfd fd k = Err EBADF;
  setfd_open fd w k e : fds k !! fd = Some e ->
    exists k', fcntl_setfd fd w k = (Ok tt, k') /\
      view k' = set_fds (<[fd := with_flags w e]> (fds k)) (view k);
  dupfd_ok fd min k n k' : fcntl_dupfd_cloexec fd min k = (Ok n, k') ->
    exists e, fds k !! fd = Some e /\ min <= n <= i32_max /\ fds k !! n = None /\
      view k' = set_fds (<[n := Fd (fd_desc e) true]> (fds k)) (view k);
  dupfd_err fd min k e k' : fcntl_dupfd_cloexec fd min k = (Err e, k') -> view k' = view k;
  dupfd_bad fd min k : fds k !! fd = None ->
    exists e k', fcntl_dupfd_cloexec fd min k = (Err e, k');
  close_view fd k : view (sys_close fd k).2 = set_fds (delete fd (fds k)) (view k)
}.

(** ** Pipes: [os_pipe::pipe], with [read] and [write] as the crate uses them *)

Class PipeOps (K : Type) := {
  (** [os_pipe::pipe()]: both ends are close-on-exec *)
  os_pipe : K -> result (Z * Z) io_error * K;
  (** [PipeWriter::write_all] *)
  pipe_write_all : Z -> string -> K -> result unit io_error * K;
  (** what a process sees on the read end it holds once the other side has
      written bytes and closed *)
  pipe_deliver : N -> string -> K -> K
}.

Definition fresh_desc {K} `{HasView K} (d : N) (k : K) : Prop :=
  forall fd e, fds k !! fd = Some e -> fd_desc e <> d.

Class PipeLaws (K : Type) `{HasView K, PipeOps K} : Prop := {
  pipe_ok k r w k' : os_pipe k = (Ok (r, w), k') ->
    exists dr dw, r <> w /\ dr <> dw /\ 0 <= r <= i32_max /\ 0 <= w <= i32_max /\
      fds k !! r = None /\ fds k !! w = None /\ fresh_desc dr k /\ fresh_desc dw k /\
      fds k' = <[r := Fd dr true]> (<[w := Fd dw true]> (fds k)) /\
      v_env (view k') = v_env (view k) /\ v_files (view k') = v_files (view k) /\
      v_pid (view k') = v_pid (view k) /\ v_args (view k') = v_args (view k);
  pipe_err k e k' : os_pipe k = (Err e, k') -> view k' = view k;
  pipe_write_ok fd s k k' : pipe_write_all fd s k = (Ok tt, k') ->
    exists e, fds k !! fd = Some e /\
      view k' = set_written (<[fd_desc e := default "" (v_written (view k) !! fd_desc e) +:+ s]>
                               (v_written (view k))) (view k);
  pipe_write_err fd s k e k' : pipe_write_all fd s k = (Err e, k') ->
    fds k' = fds k /\ v_files (view k') = v_files (view k);
  pipe_deliver_view d s k :
    view (pipe_deliver d s k) = set_pipes (<[d := s]> (v_pipes (view k))) (view k)
}.

(** ** Processes: [fork], [exec] and the environment *)

Class ProcOps (K : Type) := {
  (** [fork()]: the child's state and the parent's *)
  sys_fork : K -> result K Z * K;
  (** [chdir], in the forked child *)
  sys_chdir : string -> K -> result unit Z * K;
  (** [execve] with an environment: the new image's state *)
  sys_exec : string -> list string -> gmap string (option string) -> K -> result K Z;
  (** [env::current_dir()] *)
  env_current_dir : K -> result string io_error
}.

(** The descriptors that stay open across [exec]. *)
Definition survives_exec (t : gmap Z fdent) : gmap Z fdent :=
  filter (fun '(_, e) => fd_cloexec e = false) t.

Class ProcLaws (K : Type) `{HasView K, ProcOps K} : Prop := {
  fork_ok k kc k' : sys_fork k = (Ok kc, k') -> view k' = view k /\ fds kc = fds k /\
    v_env (view kc) = v_env (view k) /\ v_files (view kc) = v_files (view k) /\
    v_args (view kc) = v_args (view k);
  fork_err k e k' : sys_fork k = (Err e, k') -> view k' = view k;
  chdir_view dir k : view (sys_chdir dir k).2 = view k;
  exec_ok prog args env k k' : sys_exec prog args env k = Ok k' ->
    fds k' = survives_exec (fds k) /\ v_env (view k') = env /\
    v_files (view k') = v_files (view k) /\ v_pid (view k') = v_pid (view k) /\
    v_args (view k') = prog :: args
}.

(** [std::env::args] *)
Definition env_args {K} `{HasView K} (k : K) : list string := v_args (view k).

Inductive VarError : Type := NotPresent | NotUnicode.

#[export] Instance VarError_eq_dec : EqDecision VarError.
Proof. solve_decision. Defined.

(** [std::env::var] *)
Definition env_var {K} `{HasView K} (name : string) (k : K) : result string VarError :=
  match v_env (view k) !! name with
  | None => Err NotPresent
  | Some None => Err NotUnicode
  | Some (Some v) => Ok v
  end.

(** ** Files: what [utils::write_pid_file] does through [tempfile] *)

Class FsOps (K : Type) := {
  (** [tempfile::Builder::new().tempfile_in(dir)]: the temporary file's path *)
  tempfile_in : list component -> K -> result string io_error * K;
  (** [File::write_all] on the temporary file *)
  file_write_all : string -> string -> K -> result unit io_error * K;
  (** [NamedTempFile::persist]: an atomic rename *)
  persist : string -> string -> K -> result unit io_error * K;
  (** dropping a [NamedTempFile] removes the file *)
  tempfile_drop : string -> K -> K
}.

Class FsLaws (K : Type) `{HasView K, FsOps K} : Prop := {
  tempfile_ok dir k t k' : tempfile_in dir k = (Ok t, k') ->
    v_files (view k) !! t = None /\
    view k' = set_files (<[t := ""]> (v_files (view k))) (view k);
  tempfile_err dir k e k' : tempfile_in dir k = (Err e, k') -> view k' = view k;
  file_write_ok t s k k' : file_write_all t s k = (Ok tt, k') ->
    exists c, v_files (view k) !! t = Some c /\
      view k' = set_files (<[t := c +:+ s]> (v_files (view k))) (view k);
  file_write_err t s k e k' : file_write_all t s k = (Err e, k') ->
    exists c, view k' = set_files (<[t := c]> (v_files (view k))) (view k);
  persist_ok t p k k' : persist t p k = (Ok tt, k') ->
    exists c, v_files (view k) !! t = Some c /\
      view k' = set_files (<[p := c]> (delete t (v_files (view k)))) (view k);
  persist_err t p k e k' : persist t p k = (Err e, k') -> view k' = view k;
  tempfile_drop_view t k :
    view (tempfile_drop t k) = set_files (delete t (v_files (view k))) (view k)
}.

(** ** Sockets: creation and the address they are bound to *)

Class SockOps (K : Type) := {
  (** [UnixListener::bind] and [UnixSeqpacketListener::bind] *)
  unix_bind : string -> K -> result Z io_error * K;
  seqpacket_bind : string -> K -> result Z io_error * K;
  (** [UnixSeqpacketListener::from_raw_fd], which registers the descriptor with
      the reactor and can fail *)
  seqpacket_from_raw_fd : Z -> K -> result unit io_error * K;
  (** [socket2::Socket::new(domain, type, None)] *)
  socket_new : Domain -> SockType -> K -> result Z io_error * K;
  (** [UnixDatagram::pair] *)
  datagram_pair : K -> result (Z * Z) io_error * K;
  (** [local_addr] of the listener types *)
  inet_local_addr : Z -> K -> result SocketAddr io_error;
  unix_local_addr : Z -> K -> result (option string) io_error;
  seqpacket_local_addr : Z -> K -> result string io_error;
  (** [bind] and [listen] of [socket2::Socket] *)
  sock_bind : Z -> SocketAddr -> K -> result unit io_error * K;
  sock_listen : Z -> Z -> K -> result unit io_error * K
}.

(** A call that creates one descriptor: it is free before, close-on-exec
    after, refers to a description nothing referred to, and nothing else
    changes. A failing call leaves the descriptors as they were. *)
Definition creates_fd {K} `{HasView K} (call : K -> result Z io_error * K) : Prop :=
  forall k,
    match call k with
    | (Ok fd, k') => exists d, 0 <= fd <= i32_max /\ fds k !! fd = None /\ fresh_desc d k /\
        fds k' = <[fd := Fd d true]> (fds k)
    | (Err _, k') => fds k' = fds k
    end.

Class SockLaws (K : Type) `{HasView K, SockOps K} : Prop := {
  unix_bind_creates p : creates_fd (unix_bind p);
  seqpacket_bind_creates p : creates_fd (seqpacket_bind p);
  socket_new_creates d t : creates_fd (socket_new d t);
  seqpacket_from_raw_ok fd k k' : seqpacket_from_raw_fd fd k = (Ok tt, k') -> fds k' = fds k;
  seqpacket_from_raw_err fd k e k' : seqpacket_from_raw_fd fd k = (Err e, k') ->
    fds k' = fds k \/ fds k' = delete fd (fds k);
  datagram_pair_ok k a b k' : datagram_pair k = (Ok (a, b), k') ->
    exists da db, a <> b /\ da <> db /\ fds k !! a = None /\ fds k !! b = None /\
      fresh_desc da k /\ fresh_desc db k /\
      fds k' = <[a := Fd da true]> (<[b := Fd db true]> (fds k));
  datagram_pair_err k e k' : datagram_pair k = (Err e, k') -> fds k' = fds k;
  sock_bind_fds fd a k : fds (sock_bind fd a k).2 = fds k;
  sock_listen_fds fd n k : fds (sock_listen fd n k).2 = fds k
}.

(** ** Lemmas on views *)

Lemma fds_set_fds {K} `{HasView K} (k' : K) t v : view k' = set_fds t v -> fds k' = t.
Proof. unfold fds. by intros ->. Qed.

Lemma survives_exec_lookup t fd e :
  survives_exec t !! fd = Some e <-> t !! fd = Some e /\ fd_cloexec e = false.
Proof. unfold survives_exec. by rewrite map_lookup_filter_Some. Qed.

(** Everything but the descriptors and the pipes is as before. *)
Definition same_rest {K} `{HasView K} (k k' : K) : Prop :=
  v_env (view k') = v_env (view k) /\ v_files (view k') = v_files (view k) /\
  v_pid (view k') = v_pid (view k) /\ v_args (view k') = v_args (view k).

#[export] Instance same_rest_preorder {K} `{HasView K} : PreOrder same_rest.
Proof. split; [done|]. unfold same_rest. intros ??? (?&?&?&?) (?&?&?&?). repeat split; congruence. Qed.

Lemma same_rest_fds {K} `{HasView K} (k k' : K) t :
  view k' = set_fds t (view k) -> same_rest k k'.
Proof. unfold same_rest. by intros ->. Qed.

Lemma same_rest_eq {K} `{HasView K} (k k' : K) : view k' = view k -> same_rest k k'.
Proof. unfold same_rest. by intros ->. Qed.

#[export] Hint Resolve same_rest_fds same_rest_eq : ecd.

