(* ===== verification/PosixModel.v ===== *)
(** * PosixModel: an operating system that satisfies the laws

    A concrete process state in which every operation of [Posix] computes: the
    lowest free descriptor is taken, as POSIX requires of [pipe] and [dup], up
    to a limit ([EMFILE] beyond it); paths and addresses are remembered per
    open file description. It shows that the laws can be met together and is
    what the witnesses of the development evaluate on. *)

From S2P Require Import Prelude Text Addr Posix.
Local Open Scope Z_scope.

Record model : Type := Model {
  md_view : kview;
  md_limit : nat;
  md_names : gmap N (SocketAddr + string);
  md_exec_ok : bool
}.

Definition md_set (v : kview) (m : model) : model :=
  Model v (md_limit m) (md_names m) (md_exec_ok m).

#[export] Instance model_view : HasView model := md_view.

(** The lowest free descriptor from [n] on, among the next [fuel] ones. *)
Fixpoint lowest_free (fuel : nat) (n : Z) (t : gmap Z fdent) : option Z :=
  match fuel with
  | O => None
  | S f => match t !! n with None => Some n | Some _ => lowest_free f (n + 1) t end
  end.

Definition free_from (n : Z) (m : model) : option Z :=
  fd ← lowest_free (md_limit m) (Z.max 0 n) (fds m);
  if bool_decide (fd < Z.min (Z.of_nat (md_limit m)) i32_max) then Some fd else None.

(** A description nothing refers to. *)
Definition new_desc (t : gmap Z fdent) : N :=
  N.succ (map_fold (fun _ e d => N.max (fd_desc e) d) 0%N t).

Definition install (fd : Z) (e : fdent) (m : model) : model :=
  md_set (set_fds (<[fd := e]> (fds m)) (md_view m)) m.

#[export] Instance model_fd : FdOps model := {|
  fdflag_from_bits w := if bool_decide (Z.ldiff w FD_CLOEXEC = 0) then Some w else None;
  fcntl_getfd fd m := match fds m !! fd with Some e => Ok (flag_word e) | None => Err EBADF end;
  fcntl_setfd fd w m := match fds m !! fd with
    | Some e => (Ok tt, install fd (with_flags w e) m)
    | None => (Err EBADF, m) end;
  fcntl_dupfd_cloexec fd min m := match fds m !! fd with
    | Some e => match free_from min m with
      | Some n => (Ok n, install n (Fd (fd_desc e) true) m)
      | None => (Err EMFILE, m) end
    | None => (Err EBADF, m) end;
  sys_close fd m :=
    (if bool_decide (is_Some (fds m !! fd)) then Ok tt else Err EBADF,
     md_set (set_fds (delete fd (fds m)) (md_view m)) m)
|}.

(** Opens one new descriptor on a new description. *)
Definition open_new (m : model) : result Z io_error * model :=
  match free_from 0 m with
  | Some fd => (Ok fd, install fd (Fd (new_desc (fds m)) true) m)
  | None => (Err (OsError EMFILE), m)
  end.

(** Opens two, or none. *)
Definition open_two (m : model) : result (Z * Z) io_error * model :=
  match open_new m with
  | (Ok b, m1) => match open_new m1 with
    | (Ok a, m2) => (Ok (a, b), m2)
    | (Err e, _) => (Err e, m) end
  | (Err e, _) => (Err e, m)
  end.

#[export] Instance model_pipe : PipeOps model := {|
  os_pipe := open_two;
  pipe_write_all fd s m := match fds m !! fd with
    | Some e => (Ok tt, md_set (set_written
        (<[fd_desc e := default "" (v_written (md_view m) !! fd_desc e) +:+ s]>
           (v_written (md_view m))) (md_view m)) m)
    | None => (Err (OsError EBADF), m) end;
  pipe_deliver d s m := md_set (set_pipes (<[d := s]> (v_pipes (md_view m))) (md_view m)) m
|}.

#[export] Instance model_proc : ProcOps model := {|
  sys_fork m := (Ok m, m);
  sys_chdir _ m := (Ok tt, m);
  sys_exec prog args env m :=
    if md_exec_ok m then
      Ok (md_set (KView (survives_exec (fds m)) env (v_files (md_view m)) (v_pid (md_view m))
                    (prog :: args) (v_pipes (md_view m)) (v_written (md_view m))) m)
    else Err 2;
  env_current_dir _ := Ok "/"
|}.

Definition named (a : SocketAddr + string) (r : result Z io_error * model) :
    result Z io_error * model :=
  match r with
  | (Ok fd, m) =>
    (Ok fd, Model (md_view m) (md_limit m)
      (match fds m !! fd with Some e => <[fd_desc e := a]> (md_names m) | None => md_names m end)
      (md_exec_ok m))
  | r => r
  end.

Definition name_of (fd : Z) (m : model) : option (SocketAddr + string) :=
  e ← fds m !! fd; md_names m !! fd_desc e.

(** Binding to port 0 assigns an ephemeral port. *)
Definition assigned (a : SocketAddr) : SocketAddr :=
  match a with
  | V4 ip 0 => V4 ip 49152
  | V6 ip 0 f s => V6 ip 49152 f s
  | a => a
  end.

#[export] Instance model_sock : SockOps model := {|
  unix_bind p m := named (inr p) (open_new m);
  seqpacket_bind p m := named (inr p) (open_new m);
  seqpacket_from_raw_fd fd m := (Ok tt, m);
  socket_new _ _ := open_new;
  datagram_pair := open_two;
  inet_local_addr fd m := match name_of fd m with
    | Some (inl a) => Ok a | _ => Err (OsError EBADF) end;
  unix_local_addr fd m := match name_of fd m with
    | Some (inr p) => Ok (Some p) | _ => Ok None end;
  seqpacket_local_addr fd m := match name_of fd m with
    | Some (inr p) => Ok p | _ => Err (OsError EBADF) end;
  sock_bind fd a m := (Ok tt, (named (inl (assigned a)) (Ok fd, m)).2);
  sock_listen _ _ m := (Ok tt, m)
|}.

#[export] Instance model_fs : FsOps model := {|
  tempfile_in dir m := match v_files (md_view m) !! ".tmp000000" with
    | None => (Ok ".tmp000000",
               md_set (set_files (<[".tmp000000" := ""]> (v_files (md_view m))) (md_view m)) m)
    | Some _ => (Err (OsError 17), m) end;
  file_write_all t s m := match v_files (md_view m) !! t with
    | Some c => (Ok tt, md_set (set_files (<[t := c +:+ s]> (v_files (md_view m))) (md_view m)) m)
    | None => (Err (OsError EBADF),
               md_set (set_files (<[t := ""]> (v_files (md_view m))) (md_view m)) m) end;
  persist t p m := match v_files (md_view m) !! t with
    | Some c => (Ok tt, md_set (set_files (<[p := c]> (delete t (v_files (md_view m)))) (md_view m)) m)
    | None => (Err (OsError 2), m) end;
  tempfile_drop t m := md_set (set_files (delete t (v_files (md_view m))) (md_view m)) m
|}.

(** ** The laws hold *)

Lemma lowest_free_spec fuel n t fd :
  lowest_free fuel n t = Some fd -> n <= fd /\ t !! fd = None.
Proof.
  revert n. induction fuel as [|f IH]; intros n; cbn; [done|].
  destruct (t !! n) eqn:E; [|by intros [= <-]].
  intros [? ?]%IH. split; [lia|done].
Qed.

Lemma free_from_spec n m fd :
  free_from n m = Some fd -> n <= fd /\ 0 <= fd <= i32_max /\ fds m !! fd = None.
Proof.
  unfold free_from. intros (x & Hx & Hb)%bind_Some.
  case_bool_decide; simplify_eq. apply lowest_free_spec in Hx as [? ?].
  repeat split; [lia..|done].
Qed.

Lemma new_desc_fresh (m : model) : fresh_desc (new_desc (fds m)) m.
Proof.
  intros fd e He. enough (fd_desc e <= map_fold (fun _ e d => N.max (fd_desc e) d) 0 (fds m))%N
    by (unfold new_desc; lia).
  revert fd e He. apply (map_fold_weak_ind
    (fun r t => forall fd e, t !! fd = Some e -> (fd_desc e <= r)%N)).
  - intros fd e. by rewrite lookup_empty.
  - intros i x t r Hi IH fd e. rewrite lookup_insert. case_decide; [naive_solver lia|].
    intros ?%IH. lia.
Qed.

Lemma open_new_creates : creates_fd open_new.
Proof.
  intros m. unfold open_new. destruct (free_from 0 m) as [fd|] eqn:E; [|done].
  apply free_from_spec in E as (? & ? & ?).
  exists (new_desc (fds m)). repeat split; [lia..|done|apply new_desc_fresh].
Qed.

Lemma named_creates a call : creates_fd call -> creates_fd (fun m => named a (call m)).
Proof.
  intros Hc m. specialize (Hc m). by destruct (call m) as [[fd|e] m'].
Qed.

Lemma open_two_ok m a b m' :
  open_two m = (Ok (a, b), m') ->
  exists da db, a <> b /\ da <> db /\ 0 <= a <= i32_max /\ 0 <= b <= i32_max /\
    fds m !! a = None /\ fds m !! b = None /\ fresh_desc da m /\ fresh_desc db m /\
    fds m' = <[a := Fd da true]> (<[b := Fd db true]> (fds m)) /\
    v_env (view m') = v_env (view m) /\ v_files (view m') = v_files (view m) /\
    v_pid (view m') = v_pid (view m) /\ v_args (view m') = v_args (view m).
Proof.
  unfold open_two, open_new. intros E.
  destruct (free_from 0 m) as [b'|] eqn:Eb; [|done].
  set (m1 := install b' _ m) in E.
  destruct (free_from 0 m1) as [a'|] eqn:Ea; [|done]. simplify_eq.
  apply free_from_spec in Eb as (? & ? & Hb). apply free_from_spec in Ea as (? & ? & Ha).
  assert (Hm1 : fds m1 = <[b := Fd (new_desc (fds m)) true]> (fds m)) by done.
  rewrite Hm1, lookup_insert in Ha. case_decide; [done|].
  pose proof (new_desc_fresh m) as Hd. pose proof (new_desc_fresh m1) as Hd1.
  exists (new_desc (fds m1)), (new_desc (fds m)). repeat split; try done; try lia.
  - intros Heq. apply (Hd1 b (Fd (new_desc (fds m)) true)); [|done].
    by rewrite Hm1, lookup_insert_eq.
  - intros fd e He. apply (Hd1 fd e). rewrite Hm1, lookup_insert_ne; [done|congruence].
Qed.

Lemma open_two_err m e m' : open_two m = (Err e, m') -> m' = m.
Proof.
  unfold open_two. destruct (open_new m) as [[b|?] m1]; [|naive_solver].
  destruct (open_new m1) as [[a|?] m2]; naive_solver.
Qed.

#[export] Instance model_fd_laws : FdLaws model.
Proof.
  split; unfold fcntl_getfd, fcntl_setfd, fcntl_dupfd_cloexec, sys_close; cbn.
  - by intros w [-> | ->].
  - by intros fd k e ->.
  - by intros fd k ->.
  - intros fd w k e ->. by eexists.
  - intros fd min k n k'. destruct (fds k !! fd) as [e|]; [|done].
    destruct (free_from min k) eqn:E; [|done]. intros [= <- <-].
    apply free_from_spec in E as (? & ? & ?). exists e. repeat split; [lia..|done].
  - intros fd min k e k'. repeat case_match; naive_solver.
  - intros fd min k ->. eauto.
  - done.
Qed.

#[export] Instance model_pipe_laws : PipeLaws model.
Proof.
  split; unfold os_pipe, pipe_write_all; cbn.
  - intros k r w k' ?%open_two_ok. naive_solver.
  - by intros k e k' ->%open_two_err.
  - intros fd s k k'. destruct (fds k !! fd) as [e|]; [|done]. intros [= <-]. by exists e.
  - intros fd s k e k'. destruct (fds k !! fd); [done|]. by intros [= _ <-].
  - done.
Qed.

#[export] Instance model_proc_laws : ProcLaws model.
Proof.
  split; unfold sys_fork, sys_exec; cbn.
  - by intros k kc k' [= <- <-].
  - done.
  - done.
  - intros prog args env k k'. destruct (md_exec_ok k); [|done]. by intros [= <-].
Qed.

#[export] Instance model_fs_laws : FsLaws model.
Proof.
  split; unfold tempfile_in, file_write_all, persist, tempfile_drop; cbn.
  - intros dir k t k'. destruct (v_files _ !! _) eqn:E; [done|]. by intros [= <- <-].
  - intros dir k e k'. destruct (v_files _ !! _) eqn:E; [|done]. by intros [= _ <-].
  - intros t s k k'. destruct (v_files _ !! t) eqn:E; [|done]. intros [= <-]. eauto.
  - intros t s k e k'. destruct (v_files _ !! t) eqn:E; [done|]. intros [= _ <-]. eauto.
  - intros t p k k'. destruct (v_files _ !! t) eqn:E; [|done]. intros [= <-]. eauto.
  - intros t p k e k'. destruct (v_files _ !! t) eqn:E; [done|]. by intros [= _ <-].
  - done.
Qed.

#[export] Instance model_sock_laws : SockLaws model.
Proof.
  split; cbn.
  - intros p. apply named_creates, open_new_creates.
  - intros p. apply named_creates, open_new_creates.
  - intros _ _. apply open_new_creates.
  - by intros fd k k' [= <-].
  - done.
  - intros k a b k' ?%open_two_ok. naive_solver.
  - by intros k e k' ->%open_two_err.
  - done.
  - done.
Qed.

(** The state of a process with standard streams and nothing else open. *)
Definition boot (env : gmap string (option string)) (extra : gmap Z fdent) : model :=
  Model (KView (<[0 := Fd 0 false]> (<[1 := Fd 1 false]> (<[2 := Fd 2 false]> extra)))
           env ∅ 4242 ["/usr/bin/server"; "--port"; "80"] ∅ ∅) 64 ∅ true.
