(* ===== verification/Utils.v ===== *)
(** * Utils: [src/utils.rs]

    Close-on-exec handling, descriptor duplication, quiet close and the
    pidfile. The theorems give the exact effect of each helper on the
    descriptor table, on open and on closed descriptors, and show that the
    pidfile is replaced atomically: whatever fails, it holds what it held
    before or the whole process id. *)

From S2P Require Import Prelude Text Addr Posix.
Local Open Scope Z_scope.

Definition ENV_UPGRADE : string := "ECDYSIS_RUST_UPGRADE".
Definition ENV_PIPE_READY : string := "ECDYSIS_RUST_PIPE_READY".
Definition ENV_PIPE_FDS : string := "ECDYSIS_RUST_PIPE_FDS".
Definition UPGRADE_TRUE_VAL : string := "yes".

Section utils.
Context {K : Type} `{HasView K, FdOps K, FsOps K}.

Definition set_cloexec (fd : Z) : M K unit :=
  r ← gets (fcntl_getfd fd);
  w ← expect "Failed to get info for file descriptor" r;
  flags ← expect_some "unknown fd flags" (fdflag_from_bits w);
  _ ← call (fcntl_setfd fd (Z.lor flags FD_CLOEXEC));
  mret tt.

Definition unset_cloexec (fd : Z) : M K unit :=
  r ← gets (fcntl_getfd fd);
  w ← expect "Failed to get info for file descriptor" r;
  flags ← expect_some "called `Option::unwrap()` on a `None` value" (fdflag_from_bits w);
  s ← call (fcntl_setfd fd (Z.ldiff flags FD_CLOEXEC));
  expect "Unset failed!" s.

Definition clone_fd (to_clone : Z) : M K (result Z io_error) :=
  r ← call (fcntl_dupfd_cloexec to_clone to_clone);
  mret (map_err OsError r).

Definition close_fd_quiet (fd : Z) : M K unit :=
  _ ← call (sys_close fd);
  mret tt.

(** Every failure is an [expect]: the function returns [Ok] or panics. The
    temporary file is removed when it was not persisted. *)
Definition write_pid_file (path : string) : M K (result unit io_error) :=
  pid ← gets (fun k => v_pid (view k));
  dir ← expect_some "invalid path to pidfile" (path_parent path);
  t ← call (tempfile_in dir);
  tmp_pidfile ← expect "cannot create pidfile!" t;
  let remove := call (fun k => (tt, tempfile_drop tmp_pidfile k)) in
  w ← call (file_write_all tmp_pidfile (fmt_int pid));
  match w with
  | Err _ => _ ← remove; panic "cannot write pidfile!"
  | Ok _ =>
    p ← call (persist tmp_pidfile path);
    match p with
    | Err _ => _ ← remove; panic "cannot write pidfile!"
    | Ok _ => mret (Ok tt)
    end
  end.
End utils.

#[global] Arguments set_cloexec : simpl never.
#[global] Arguments unset_cloexec : simpl never.
#[global] Arguments clone_fd : simpl never.
#[global] Arguments close_fd_quiet : simpl never.
#[global] Arguments write_pid_file : simpl never.

(** ** Descriptor helpers *)

Section fd_lemmas.
Context {K : Type} `{HV : HasView K, FO : FdOps K, FL : !FdLaws K}.
Implicit Types k : K.

Lemma from_bits_flag_word e : fdflag_from_bits (flag_word e) = Some (flag_word e).
Proof. apply from_bits_known. unfold flag_word. destruct (fd_cloexec e); auto. Qed.

Lemma set_cloexec_open fd k e :
  fds k !! fd = Some e ->
  exists k', set_cloexec fd k = (Ret tt, k') /\
    view k' = set_fds (<[fd := Fd (fd_desc e) true]> (fds k)) (view k).
Proof.
  intros He.
  destruct (setfd_open fd (Z.lor (flag_word e) FD_CLOEXEC) k e He) as (k' & Hs & Hv).
  exists k'. unfold set_cloexec. msimpl.
  rewrite (getfd_open _ _ _ He). cbn. rewrite from_bits_flag_word. cbn. rewrite Hs. cbn.
  split; [done|]. rewrite Hv. unfold with_flags, flag_word. by destruct (fd_cloexec e).
Qed.

Lemma set_cloexec_closed fd k :
  fds k !! fd = None ->
  set_cloexec fd k = (Panic "Failed to get info for file descriptor", k).
Proof. intros He. unfold set_cloexec. msimpl. by rewrite (getfd_bad _ _ He). Qed.

Lemma unset_cloexec_open fd k e :
  fds k !! fd = Some e ->
  exists k', unset_cloexec fd k = (Ret tt, k') /\
    view k' = set_fds (<[fd := Fd (fd_desc e) false]> (fds k)) (view k).
Proof.
  intros He.
  destruct (setfd_open fd (Z.ldiff (flag_word e) FD_CLOEXEC) k e He) as (k' & Hs & Hv).
  exists k'. unfold unset_cloexec. msimpl.
  rewrite (getfd_open _ _ _ He). cbn. rewrite from_bits_flag_word. cbn. rewrite Hs. cbn.
  split; [done|]. rewrite Hv. unfold with_flags, flag_word. by destruct (fd_cloexec e).
Qed.

Lemma unset_cloexec_closed fd k :
  fds k !! fd = None ->
  unset_cloexec fd k = (Panic "Failed to get info for file descriptor", k).
Proof. intros He. unfold unset_cloexec. msimpl. by rewrite (getfd_bad _ _ He). Qed.

(** Both outcomes of a duplication. *)
Lemma clone_fd_cases fd k :
  (exists n k' e, clone_fd fd k = (Ret (Ok n), k') /\
     fds k !! fd = Some e /\ fd <= n <= i32_max /\ fds k !! n = None /\
     view k' = set_fds (<[n := Fd (fd_desc e) true]> (fds k)) (view k)) \/
  (exists err k', clone_fd fd k = (Ret (Err (OsError err)), k') /\ view k' = view k).
Proof.
  unfold clone_fd. msimpl.
  destruct (fcntl_dupfd_cloexec fd fd k) as [[n|err] k'] eqn:E.
  - left. destruct (dupfd_ok _ _ _ _ _ E) as (e & ? & ? & ? & ?).
    exists n, k', e. auto.
  - right. exists err, k'. split; [done|]. by apply dupfd_err in E.
Qed.

Lemma clone_fd_closed fd k :
  fds k !! fd = None -> exists err k', clone_fd fd k = (Ret (Err (OsError err)), k') /\ view k' = view k.
Proof.
  intros Hn. destruct (clone_fd_cases fd k) as [(n & k' & e & ? & ? & ?)|?]; [congruence|done].
Qed.

Lemma close_fd_quiet_run fd k :
  exists k', close_fd_quiet fd k = (Ret tt, k') /\
    view k' = set_fds (delete fd (fds k)) (view k).
Proof.
  unfold close_fd_quiet. msimpl. pose proof (close_view fd k) as Hc.
  destruct (sys_close fd k) as [r k']. by exists k'.
Qed.

(** Closing a list of descriptors, as the registry's loops do. *)
Lemma close_all_run {A} (f : A -> Z) (l : list A) k :
  exists k', for_each (fun x => close_fd_quiet (f x)) l k = (Ret tt, k') /\
    view k' = set_fds (foldr (fun x t => delete (f x) t) (fds k) l) (view k).
Proof.
  revert k. induction l as [|x l IH]; intros k; cbn.
  - exists k. split; [done|]. unfold fds, set_fds. by destruct (view k).
  - destruct (close_fd_quiet_run (f x) k) as (k1 & E1 & V1).
    destruct (IH k1) as (k2 & E2 & V2).
    exists k2. rewrite (run_bind _ _ _ _ _ E1). split; [done|].
    rewrite V2, V1. rewrite (fds_set_fds _ _ _ V1). unfold set_fds. cbn. f_equal.
    clear. induction l as [|y l IH]; cbn; [done|]. by rewrite IH, delete_delete.
Qed.
End fd_lemmas.

Lemma foldr_delete_lookup {A} (f : A -> Z) (l : list A) (t : gmap Z fdent) fd :
  foldr (fun x t => delete (f x) t) t l !! fd =
  if decide (fd ∈ f <$> l) then None else t !! fd.
Proof.
  induction l as [|x l IH]; cbn.
  - by rewrite decide_False by apply not_elem_of_nil.
  - rewrite lookup_delete. rewrite IH. repeat case_decide; set_solver.
Qed.

(** ** The pidfile *)

Section pidfile.
Context {K : Type} `{HV : HasView K, FO : FdOps K, FS : FsOps K, FSL : !FsLaws K}.
Implicit Types k : K.

(** The file table after the call, with every temporary file gone. *)
Lemma write_pid_file_cases path k :
  (write_pid_file path k).1 = Ret (Ok tt) /\
    v_files (view (write_pid_file path k).2) =
      <[path := fmt_int (v_pid (view k))]> (v_files (view k)) \/
  (exists msg, (write_pid_file path k).1 = Panic msg /\
    v_files (view (write_pid_file path k).2) = v_files (view k)).
Proof.
  unfold write_pid_file. msimpl.
  destruct (path_parent path) as [dir|]; msimpl; [|by eauto].
  destruct (tempfile_in dir k) as [[t|e] k1] eqn:E1; msimpl;
    [|right; apply tempfile_err in E1; rewrite E1; by eauto].
  destruct (tempfile_ok _ _ _ _ E1) as [Hfresh V1].
  assert (Hf1 : v_files (view k1) = <[t := ""]> (v_files (view k))) by by rewrite V1.
  destruct (file_write_all t _ k1) as [[[]|e] k2] eqn:E2; msimpl.
  - destruct (file_write_ok _ _ _ _ E2) as (c & Hc & V2).
    rewrite Hf1, lookup_insert_eq in Hc. simplify_eq.
    assert (Hf2 : v_files (view k2) = <[t := fmt_int (v_pid (view k))]> (v_files (view k))).
    { rewrite V2. cbn. by rewrite Hf1, insert_insert_eq. }
    destruct (persist t path k2) as [[[]|e] k3] eqn:E3; msimpl.
    + left. split; [done|]. destruct (persist_ok _ _ _ _ E3) as (c & Hc & V3).
      rewrite Hf2, lookup_insert_eq in Hc. simplify_eq.
      rewrite V3. cbn. by rewrite Hf2, delete_insert_id.
    + right. eexists. split; [done|]. rewrite tempfile_drop_view. cbn.
      by rewrite (persist_err _ _ _ _ _ E3), Hf2, delete_insert_id.
  - right. eexists. split; [done|]. rewrite tempfile_drop_view. cbn.
    destruct (file_write_err _ _ _ _ _ E2) as (c & V2). rewrite V2. cbn.
    by rewrite Hf1, insert_insert_eq, delete_insert_id.
Qed.

(** Nothing but files is touched. *)
Lemma write_pid_file_frame path k :
  exists f, view (write_pid_file path k).2 = set_files f (view k).
Proof.
  assert (Hid : forall v, v = set_files (v_files v) v) by by intros [].
  unfold write_pid_file. msimpl.
  destruct (path_parent path) as [dir|]; cbn; [|by eexists].
  destruct (tempfile_in dir k) as [[t|e] k1] eqn:E1; cbn;
    [|apply tempfile_err in E1; rewrite E1; by eexists].
  destruct (tempfile_ok _ _ _ _ E1) as [_ V1].
  destruct (file_write_all t _ k1) as [[[]|e] k2] eqn:E2; cbn.
  - destruct (file_write_ok _ _ _ _ E2) as (c & _ & V2). rewrite V1 in V2.
    destruct (persist t path k2) as [[[]|e] k3] eqn:E3; cbn.
    + destruct (persist_ok _ _ _ _ E3) as (? & _ & V3). rewrite V3, V2. by eexists.
    + rewrite tempfile_drop_view, (persist_err _ _ _ _ _ E3), V2. by eexists.
  - destruct (file_write_err _ _ _ _ _ E2) as (c & V2).
    rewrite tempfile_drop_view, V2, V1. by eexists.
Qed.
End pidfile.
