(* ===== verification/Registry.v ===== *)
(** * Registry: [src/registry.rs]

    The registry of listening sockets: [inherited_fds], what the parent handed
    over and nobody has asked for yet, and [used_fds], duplicates of the
    sockets in use, which are what the next child gets. Both are behind
    mutexes, which a panic poisons.

    The theorems: an invariant (the registry's descriptors are open, distinct,
    and those of [used_fds] close-on-exec) kept by every operation; the exact
    result of every operation; a refinement of an abstract registry that knows
    only addresses and open file descriptions. *)

From S2P Require Import Prelude Text Addr Posix Utils.
Local Open Scope Z_scope.

(** ** Data *)

Inductive SockInfo : Type :=
| Unix (path : option string)
| Tcp (addr : SocketAddr)
| Udp (addr : SocketAddr)
| UnboundUnixDatagram (name : string)
| UnixSeqpacket (path : option string).

Record ListenerInfo : Type := LInfo { li_fd : Z; li_sock_info : SockInfo }.

#[export] Instance SockInfo_eq_dec : EqDecision SockInfo.
Proof. solve_decision. Defined.
#[export] Instance ListenerInfo_eq_dec : EqDecision ListenerInfo.
Proof. solve_decision. Defined.

(** The derived [PartialEq], which compares paths as [PathBuf] does. *)
Definition opt_path_eqb (p q : option string) : bool :=
  match p, q with
  | Some p, Some q => path_eqb p q
  | None, None => true
  | _, _ => false
  end.

Definition sock_info_eqb (a b : SockInfo) : bool :=
  match a, b with
  | Unix p, Unix q => opt_path_eqb p q
  | Tcp x, Tcp y => bool_decide (x = y)
  | Udp x, Udp y => bool_decide (x = y)
  | UnboundUnixDatagram x, UnboundUnixDatagram y => bool_decide (x = y)
  | UnixSeqpacket p, UnixSeqpacket q => opt_path_eqb p q
  | _, _ => false
  end.

Definition sock_info_equiv (a b : SockInfo) : Prop := sock_info_eqb a b = true.

Record ListenerRegistry : Type := Reg {
  inherited_fds : Mutex (list ListenerInfo);
  used_fds : Mutex (list ListenerInfo)
}.

Definition set_inherited (m : Mutex (list ListenerInfo)) (r : ListenerRegistry) :=
  Reg m (used_fds r).
Definition set_used (m : Mutex (list ListenerInfo)) (r : ListenerRegistry) :=
  Reg (inherited_fds r) m.

(** [Iterator::position] and [Vec::remove] (which panics out of range) *)
Definition position {A} (f : A -> bool) (l : list A) : option nat :=
  fst <$> list_find (fun x => f x = true) l.

#[global] Arguments position : simpl never.

Definition vec_remove {A} (p : nat) (l : list A) : option (A * list A) :=
  x ← l !! p; Some (x, delete p l).

(** ** Operations *)

Section ops.
Context {K : Type} `{HasView K, FdOps K}.

Definition reg_new : ListenerRegistry := Reg (mutex_new []) (mutex_new []).

Definition from_inherited (inherited : list ListenerInfo) : ListenerRegistry :=
  Reg (mutex_new inherited) (mutex_new []).

Definition take (sock_info : SockInfo) : M (ListenerRegistry * K) (option Z) :=
  field inherited_fds set_inherited
    (locked "Cannot take lock on FdRegistry"
      (fds ← self;
       match position (fun li => sock_info_eqb (li_sock_info li) sock_info) fds with
       | Some p =>
         '(li, fds') ← expect_some "removal index should be < len" (vec_remove p fds);
         _ ← set_self fds';
         (* at this point, the inherited fd is not CLOEXEC, fix that *)
         _ ← kern (set_cloexec (li_fd li));
         mret (Some (li_fd li))
       | None => mret None
       end)).

Definition add (item : ListenerInfo) : M (ListenerRegistry * K) (result unit io_error) :=
  field used_fds set_used
    (locked "Cannot take lock on FdRegisry!"
      (new_fd ←? kern (clone_fd (li_fd item));
       fds ← self;
       _ ← set_self (fds ++ [LInfo new_fd (li_sock_info item)]);
       mret (Ok tt))).

Definition inherit (sock_info : SockInfo) : M (ListenerRegistry * K) (option Z) :=
  o ← take sock_info;
  match o with
  | None => mret None
  | Some fd =>
    r ← add (LInfo fd sock_info);
    match r with
    | Ok _ => mret (Some fd)
    | Err _ => mret None
    end
  end.

Definition close_used : M (ListenerRegistry * K) unit :=
  field used_fds set_used
    (locked "Cannot take lock on FdRegisry!"
      (fds ← self;
       _ ← kern (for_each (fun li => close_fd_quiet (li_fd li)) fds);
       set_self [])).

Definition close_inherited : M (ListenerRegistry * K) unit :=
  field inherited_fds set_inherited
    (locked "Cannot take lock on FdRegisry!"
      (fds ← self;
       _ ← kern (for_each (fun li => close_fd_quiet (li_fd li)) fds);
       set_self [])).

Definition get_fds_for_child : M (ListenerRegistry * K) (list ListenerInfo) :=
  field used_fds set_used (locked "Cannot take lock on FdRegistry" self).

(** [impl Drop for ListenerRegistry] *)
Definition reg_drop : M (ListenerRegistry * K) unit :=
  _ ← close_used;
  close_inherited.
End ops.

#[global] Arguments take : simpl never.
#[global] Arguments add : simpl never.
#[global] Arguments inherit : simpl never.
#[global] Arguments close_used : simpl never.
#[global] Arguments close_inherited : simpl never.
#[global] Arguments get_fds_for_child : simpl never.

(** ** Address equivalence *)

Lemma opt_path_eqb_spec p q :
  opt_path_eqb p q = true <-> (components <$> p) = (components <$> q).
Proof.
  destruct p, q; cbn; try done. rewrite path_eqb_true. unfold path_equiv.
  split; [by intros ->|by intros [= ->]].
Qed.

#[export] Instance sock_info_equiv_equivalence : Equivalence sock_info_equiv.
Proof.
  unfold sock_info_equiv, sock_info_eqb.
  split.
  - intros []; rewrite ?opt_path_eqb_spec, ?bool_decide_eq_true; done.
  - intros [] []; rewrite ?opt_path_eqb_spec, ?bool_decide_eq_true; done.
  - intros [] [] []; rewrite ?opt_path_eqb_spec, ?bool_decide_eq_true; congruence.
Qed.

#[export] Instance sock_info_eqb_proper :
  Proper (sock_info_equiv ==> sock_info_equiv ==> eq) sock_info_eqb.
Proof.
  intros a a' Ha b b' Hb. apply eq_true_iff_eq. fold (sock_info_equiv a b) (sock_info_equiv a' b').
  split; intros E; [by rewrite <- Ha, E|by rewrite Ha, E].
Qed.

#[export] Instance sock_info_equiv_dec a b : Decision (sock_info_equiv a b).
Proof. unfold sock_info_equiv. apply _. Defined.

Lemma position_equiv (l : list ListenerInfo) a b :
  sock_info_equiv a b ->
  position (fun li => sock_info_eqb (li_sock_info li) a) l =
  position (fun li => sock_info_eqb (li_sock_info li) b) l.
Proof.
  intros Hab. unfold position. f_equal. apply list_find_ext. intros li. by rewrite Hab.
Qed.

(** Asking for a socket by another spelling of its path changes nothing. *)
#[export] Instance take_proper {K} `{HasView K, FdOps K} :
  Proper (sock_info_equiv ==> pointwise_relation _ eq) (take (K := K)).
Proof.
  intros a b Hab [r k]. unfold take, field, locked, self, gets, mbind, M_bind. cbn.
  destruct (m_poisoned _); [done|]. cbn. by rewrite (position_equiv _ a b Hab).
Qed.

(** ** Searching *)

Lemma position_Some {A} (f : A -> bool) l p :
  position f l = Some p ->
  exists x, l !! p = Some x /\ f x = true /\
    forall j y, l !! j = Some y -> (j < p)%nat -> f y = false.
Proof.
  unfold position. intros ([p' x] & (Hl & Hf & Hmin)%list_find_Some & ->)%fmap_Some.
  exists x. repeat split; [done..|]. intros j y Hj Hlt. by apply not_true_is_false, (Hmin j).
Qed.

Lemma position_None {A} (f : A -> bool) l :
  position f l = None <-> Forall (fun x => f x = false) l.
Proof.
  unfold position. rewrite fmap_None, list_find_None.
  split; intros HF; apply (Forall_impl _ _ _ HF); intros x; [apply not_true_is_false|congruence].
Qed.

Lemma position_is_Some {A} (f : A -> bool) l x :
  x ∈ l -> f x = true -> is_Some (position f l).
Proof.
  intros Hx Hf. destruct (position f l) eqn:E; [eauto|].
  apply position_None in E. rewrite Forall_forall in E. by rewrite (E x Hx) in Hf.
Qed.

(** The entry an address selects. *)
Definition asks (si : SockInfo) (li : ListenerInfo) : bool :=
  sock_info_eqb (li_sock_info li) si.

(** ** What each operation does *)

(** A registry whose mutexes are not poisoned. *)
Definition live (i u : list ListenerInfo) : ListenerRegistry :=
  Reg (MkMutex i false) (MkMutex u false).

Section runs.
Context {K : Type} `{HV : HasView K, FO : FdOps K, FL : !FdLaws K}.
Implicit Types (k : K) (i u : list ListenerInfo) (si : SockInfo).

Lemma take_miss si i u k :
  position (asks si) i = None -> take si (live i u, k) = (Ret None, (live i u, k)).
Proof. intros E. unfold take, live. msimpl. unfold asks in E. by rewrite E. Qed.

Lemma take_hit si i u k p li e :
  position (asks si) i = Some p -> i !! p = Some li -> fds k !! li_fd li = Some e ->
  exists k', set_cloexec (li_fd li) k = (Ret tt, k') /\
    take si (live i u, k) = (Ret (Some (li_fd li)), (live (delete p i) u, k')) /\
    view k' = set_fds (<[li_fd li := Fd (fd_desc e) true]> (fds k)) (view k).
Proof.
  intros Ep Hp He. destruct (set_cloexec_open _ _ _ He) as (k' & Ec & V).
  exists k'. split; [done|]. split; [|done].
  unfold take, live. munfold. cbn. unfold asks in Ep. rewrite Ep. cbn.
  unfold vec_remove. rewrite Hp. cbn. by rewrite Ec.
Qed.

(** A listed descriptor that is not open: the process panics, with the entry
    gone and the mutex poisoned. *)
Lemma take_bad_fd si i u k p li :
  position (asks si) i = Some p -> i !! p = Some li -> fds k !! li_fd li = None ->
  take si (live i u, k) =
    (Panic "Failed to get info for file descriptor",
     (Reg (MkMutex (delete p i) true) (MkMutex u false), k)).
Proof.
  intros Ep Hp He. unfold take, live. munfold. cbn. unfold asks in Ep. rewrite Ep. cbn.
  unfold vec_remove. rewrite Hp. cbn. by rewrite (set_cloexec_closed _ _ He).
Qed.

(** Once a mutex is poisoned, every operation on it panics. *)
Lemma take_poisoned si i u k :
  take si (Reg (MkMutex i true) (MkMutex u false), k) =
    (Panic "Cannot take lock on FdRegistry", (Reg (MkMutex i true) (MkMutex u false), k)).
Proof. done. Qed.

Lemma close_inherited_poisoned i u k :
  close_inherited (Reg (MkMutex i true) (MkMutex u false), k) =
    (Panic "Cannot take lock on FdRegisry!",
     (Reg (MkMutex i true) (MkMutex u false), k)).
Proof. done. Qed.

Lemma add_dup_failed item i u k e k' :
  clone_fd (li_fd item) k = (Ret (Err e), k') ->
  add item (live i u, k) = (Ret (Err e), (live i u, k')).
Proof. intros E. unfold add, live. msimpl. by rewrite E. Qed.

Lemma add_cases item i u k :
  (exists n k' e, add item (live i u, k) =
      (Ret (Ok tt), (live i (u ++ [LInfo n (li_sock_info item)]), k')) /\
     fds k !! li_fd item = Some e /\ li_fd item <= n <= i32_max /\ fds k !! n = None /\
     view k' = set_fds (<[n := Fd (fd_desc e) true]> (fds k)) (view k)) \/
  (exists err k', add item (live i u, k) = (Ret (Err (OsError err)), (live i u, k')) /\
     view k' = view k).
Proof.
  destruct (clone_fd_cases (li_fd item) k)
    as [(n & k' & e & E & ? & ? & ? & ?)|(err & k' & E & ?)].
  - left. exists n, k', e. split; [|done]. unfold add, live. munfold. cbn. by rewrite E.
  - right. exists err, k'. split; [|done]. unfold add, live. munfold. cbn. by rewrite E.
Qed.

Lemma close_used_run i u k :
  exists k', close_used (live i u, k) = (Ret tt, (live i [], k')) /\
    view k' = set_fds (foldr (fun li t => delete (li_fd li) t) (fds k) u) (view k).
Proof.
  destruct (close_all_run li_fd u k) as (k' & E & V). exists k'. split; [|done].
  unfold close_used, live. munfold. cbn. by rewrite E.
Qed.

Lemma close_inherited_run i u k :
  exists k', close_inherited (live i u, k) = (Ret tt, (live [] u, k')) /\
    view k' = set_fds (foldr (fun li t => delete (li_fd li) t) (fds k) i) (view k).
Proof.
  destruct (close_all_run li_fd i k) as (k' & E & V). exists k'. split; [|done].
  unfold close_inherited, live. munfold. cbn. by rewrite E.
Qed.

Lemma get_fds_for_child_run i u k :
  get_fds_for_child (live i u, k) = (Ret u, (live i u, k)).
Proof. done. Qed.
End runs.
