(* ===== verification/RegistrySpec.v ===== *)
(** * RegistrySpec: the registry's invariant and its abstract specification

    The abstract registry forgets descriptor numbers, locks and flags: it is
    two lists of addresses with the open file description (the socket) each
    stands for. [a_step] says what each operation does to it; the simulation
    theorem shows that every run of the operations of [Registry], in any order,
    interleaved with anything the application does to descriptors that are not
    the registry's, is a run of the abstract registry. *)

From S2P Require Import Prelude Text Addr Posix Utils Registry PosixModel.
Local Open Scope Z_scope.

Definition desc_of (t : gmap Z fdent) (fd : Z) : option N := fd_desc <$> t !! fd.

(** ** The invariant *)

Record reg_wf (i u : list ListenerInfo) (t : gmap Z fdent) : Prop := {
  wf_nodup : NoDup (li_fd <$> i ++ u);
  wf_inherited : Forall (fun li => is_Some (t !! li_fd li)) i;
  wf_used : Forall (fun li => exists d, t !! li_fd li = Some (Fd d true)) u
}.

(** ** The abstract registry *)

Record ARegistry : Type := AReg {
  a_inherited : list (SockInfo * N);
  a_used : list (SockInfo * N)
}.

Definition a_asks (si : SockInfo) (x : SockInfo * N) : bool := sock_info_eqb x.1 si.

(** One operation with its answer, in terms of sockets. *)
Inductive label : Type :=
| LInherit (si : SockInfo) (o : option N)
| LTake (si : SockInfo) (o : option N)
| LAdd (si : SockInfo) (d : N)
| LAddFailed (si : SockInfo)
| LCloseUsed
| LCloseInherited
| LForChild (l : list (SockInfo * N))
| LForeign.

Inductive a_step : ARegistry -> label -> ARegistry -> Prop :=
| A_inherit si i u p si' d :
    position (a_asks si) i = Some p -> i !! p = Some (si', d) ->
    a_step (AReg i u) (LInherit si (Some d)) (AReg (delete p i) (u ++ [(si, d)]))
| A_inherit_lost si i u p :
    position (a_asks si) i = Some p ->
    a_step (AReg i u) (LInherit si None) (AReg (delete p i) u)
| A_inherit_none si i u :
    position (a_asks si) i = None -> a_step (AReg i u) (LInherit si None) (AReg i u)
| A_take si i u p si' d :
    position (a_asks si) i = Some p -> i !! p = Some (si', d) ->
    a_step (AReg i u) (LTake si (Some d)) (AReg (delete p i) u)
| A_take_none si i u :
    position (a_asks si) i = None -> a_step (AReg i u) (LTake si None) (AReg i u)
| A_add si d i u : a_step (AReg i u) (LAdd si d) (AReg i (u ++ [(si, d)]))
| A_add_failed si a : a_step a (LAddFailed si) a
| A_close_used i u : a_step (AReg i u) LCloseUsed (AReg i [])
| A_close_inherited i u : a_step (AReg i u) LCloseInherited (AReg [] u)
| A_for_child i u : a_step (AReg i u) (LForChild u) (AReg i u)
| A_foreign a : a_step a LForeign a.

Inductive a_steps : ARegistry -> list label -> ARegistry -> Prop :=
| a_steps_nil a : a_steps a [] a
| a_steps_cons a l a' ls a'' : a_step a l a' -> a_steps a' ls a'' -> a_steps a (l :: ls) a''.

(** ** The abstraction *)

Definition entry_abs (t : gmap Z fdent) (li : ListenerInfo) (x : SockInfo * N) : Prop :=
  li_sock_info li = x.1 /\ desc_of t (li_fd li) = Some x.2.

Record reg_abs (t : gmap Z fdent) (i u : list ListenerInfo) (a : ARegistry) : Prop := {
  abs_inherited : Forall2 (entry_abs t) i (a_inherited a);
  abs_used : Forall2 (entry_abs t) u (a_used a)
}.

(** ** The concrete steps: a call of the registry, or anything the application
    does to descriptors that are not the registry's *)

Section steps.
Context {K : Type} `{HV : HasView K, FO : FdOps K}.

Inductive c_step :
    ListenerRegistry * K -> label -> ListenerRegistry * K -> Prop :=
| C_inherit si s o s' :
    inherit si s = (Ret o, s') -> c_step s (LInherit si (o ≫= desc_of (fds s'.2))) s'
| C_take si s o s' :
    take si s = (Ret o, s') -> c_step s (LTake si (o ≫= desc_of (fds s'.2))) s'
| C_add li s d s' :
    desc_of (fds s.2) (li_fd li) = Some d ->
    add li s = (Ret (Ok tt), s') -> c_step s (LAdd (li_sock_info li) d) s'
| C_add_failed li s e s' :
    add li s = (Ret (Err e), s') -> c_step s (LAddFailed (li_sock_info li)) s'
| C_close_used s s' : close_used s = (Ret tt, s') -> c_step s LCloseUsed s'
| C_close_inherited s s' : close_inherited s = (Ret tt, s') -> c_step s LCloseInherited s'
| C_for_child s l s' ls :
    get_fds_for_child s = (Ret l, s') -> Forall2 (entry_abs (fds s'.2)) l ls ->
    c_step s (LForChild ls) s'
| C_foreign i u k k' :
    Forall (fun li => fds k' !! li_fd li = fds k !! li_fd li) (i ++ u) ->
    c_step (live i u, k) LForeign (live i u, k').

Inductive c_steps :
    ListenerRegistry * K -> list label -> ListenerRegistry * K -> Prop :=
| c_steps_nil s : c_steps s [] s
| c_steps_cons s l s' ls s'' : c_step s l s' -> c_steps s' ls s'' -> c_steps s (l :: ls) s''.
End steps.

(** ** Lemmas on lists of entries *)

Lemma a_steps_app a ls a' ls' a'' :
  a_steps a ls a' -> a_steps a' ls' a'' -> a_steps a (ls ++ ls') a''.
Proof. induction 1; [done|]. intros. econstructor; eauto. Qed.

Lemma position_cons {A} (f : A -> bool) x l :
  position f (x :: l) = if f x then Some 0%nat else S <$> position f l.
Proof.
  unfold position. cbn. destruct (f x) eqn:E.
  - by rewrite decide_True.
  - rewrite decide_False by congruence. by destruct (list_find _ l) as [[]|].
Qed.

Lemma position_Forall2 {A B} (R : A -> B -> Prop) (f : A -> bool) (g : B -> bool) l l' :
  (forall x y, R x y -> f x = g y) -> Forall2 R l l' -> position f l = position g l'.
Proof.
  intros Hfg. induction 1 as [|x y l l' Hxy _ IH]; [done|].
  by rewrite !position_cons, (Hfg x y Hxy), IH.
Qed.

Lemma abs_position t si i ai :
  Forall2 (entry_abs t) i ai -> position (asks si) i = position (a_asks si) ai.
Proof.
  apply position_Forall2. intros x y [E _]. unfold asks, a_asks. by rewrite E.
Qed.

Lemma entry_abs_det t l x y : Forall2 (entry_abs t) l x -> Forall2 (entry_abs t) l y -> x = y.
Proof.
  intros H. revert y. induction H as [|li [si d] l x [E1 E2] _ IH]; intros y; inversion_clear 1 as [|? [si' d'] ? ? [E1' E2']]; [done|].
  cbn in *. f_equal; [congruence|eauto].
Qed.

(** Entries keep their meaning when their descriptors keep their description. *)
Lemma entry_abs_mono t t' l al :
  Forall (fun li => desc_of t' (li_fd li) = desc_of t (li_fd li)) l ->
  Forall2 (entry_abs t) l al -> Forall2 (entry_abs t') l al.
Proof.
  intros Hl H. induction H as [|li x l al [E1 E2] _ IH]; [done|].
  apply Forall_cons in Hl as [Hd Hl]. constructor; [|by apply IH].
  split; [done|]. by rewrite Hd.
Qed.

Lemma desc_of_setflag t fd e b fd' :
  t !! fd = Some e -> desc_of (<[fd := Fd (fd_desc e) b]> t) fd' = desc_of t fd'.
Proof.
  intros He. unfold desc_of. rewrite lookup_insert. case_decide; [|done].
  subst. by rewrite He.
Qed.

Lemma desc_of_insert_new t n e fd :
  t !! n = None -> is_Some (t !! fd) -> desc_of (<[n := e]> t) fd = desc_of t fd.
Proof.
  intros Hn [x Hx]. unfold desc_of. rewrite lookup_insert_ne; [done|]. congruence.
Qed.

Lemma entry_abs_open t l al :
  Forall2 (entry_abs t) l al -> Forall (fun li => is_Some (t !! li_fd li)) l.
Proof.
  induction 1 as [|li x l al [_ E] _ IH]; constructor; [|done].
  unfold desc_of in E. by destruct (t !! li_fd li).
Qed.

Lemma abs_insert_new t n e l al :
  t !! n = None -> Forall2 (entry_abs t) l al -> Forall2 (entry_abs (<[n := e]> t)) l al.
Proof.
  intros Hn H. apply entry_abs_mono with t; [|done].
  apply (Forall_impl _ _ _ (entry_abs_open _ _ _ H)). intros li Hli.
  by apply desc_of_insert_new.
Qed.

Lemma abs_setflag t fd e b l al :
  t !! fd = Some e -> Forall2 (entry_abs t) l al ->
  Forall2 (entry_abs (<[fd := Fd (fd_desc e) b]> t)) l al.
Proof.
  intros He. apply entry_abs_mono, Forall_true. intros li. by apply desc_of_setflag.
Qed.

(** Closing a disjoint list of descriptors. *)
Lemma closed_lookup (l : list ListenerInfo) (t : gmap Z fdent) fd :
  fd ∉ li_fd <$> l -> foldr (fun li t => delete (li_fd li) t) t l !! fd = t !! fd.
Proof. intros Hn. rewrite foldr_delete_lookup. by rewrite decide_False. Qed.

Lemma closed_other (l l' : list ListenerInfo) (t : gmap Z fdent) :
  NoDup (li_fd <$> l ++ l') ->
  Forall (fun li => foldr (fun li t => delete (li_fd li) t) t l' !! li_fd li = t !! li_fd li) l.
Proof.
  rewrite fmap_app. intros (_ & Hd & _)%NoDup_app. apply Forall_forall. intros li Hli.
  apply closed_lookup. apply Hd. by apply list_elem_of_fmap_2.
Qed.

(** ** The invariant under the changes the operations make *)

Lemma wf_nodup_delete i u p : NoDup (li_fd <$> i ++ u) -> NoDup (li_fd <$> delete p i ++ u).
Proof.
  intros H. refine (sublist_NoDup _ _ H _).
  apply fmap_sublist, sublist_app; [apply sublist_delete|done].
Qed.

Lemma taken_fresh i u p li :
  i !! p = Some li -> NoDup (li_fd <$> i ++ u) -> li_fd li ∉ li_fd <$> delete p i ++ u.
Proof.
  intros Hp. rewrite <- (take_drop_middle i p li Hp) at 1.
  rewrite delete_take_drop, !fmap_app, fmap_cons.
  rewrite <- !app_assoc, <- app_comm_cons, NoDup_app, NoDup_cons. set_solver.
Qed.

Lemma wf_take i u t p li e :
  i !! p = Some li -> t !! li_fd li = Some e -> reg_wf i u t ->
  reg_wf (delete p i) u (<[li_fd li := Fd (fd_desc e) true]> t).
Proof.
  intros Hp He [Hnd Hi Hu]. split.
  - by apply wf_nodup_delete.
  - apply Forall_delete. apply (Forall_impl _ _ _ Hi). intros x Hx.
    rewrite lookup_insert. by case_decide.
  - apply (Forall_impl _ _ _ Hu). intros x [d Hd].
    rewrite lookup_insert. case_decide; eauto.
Qed.

Lemma wf_all_open i u t :
  reg_wf i u t -> Forall (fun li => is_Some (t !! li_fd li)) (i ++ u).
Proof.
  intros [_ Hi Hu]. apply Forall_app. split; [done|].
  apply (Forall_impl _ _ _ Hu). naive_solver.
Qed.

Lemma wf_closed_fd_fresh i u t n : reg_wf i u t -> t !! n = None -> n ∉ li_fd <$> i ++ u.
Proof.
  intros Hw Hn (li & -> & Hli)%list_elem_of_fmap.
  pose proof (wf_all_open _ _ _ Hw) as Ho. rewrite Forall_forall in Ho.
  destruct (Ho li Hli) as [? ?]. congruence.
Qed.

Lemma wf_add i u t n si d :
  t !! n = None -> reg_wf i u t -> reg_wf i (u ++ [LInfo n si]) (<[n := Fd d true]> t).
Proof.
  intros Hn Hw. pose proof (wf_closed_fd_fresh _ _ _ _ Hw Hn) as Hfresh.
  destruct Hw as [Hnd Hi Hu].
  assert (Hopen : forall li, is_Some (t !! li_fd li) ->
    <[n := Fd d true]> t !! li_fd li = t !! li_fd li).
  { intros li [x Hx]. rewrite lookup_insert_ne; [done|]. congruence. }
  split.
  - rewrite app_assoc, fmap_app. apply NoDup_app. split; [done|].
    split; [|apply NoDup_singleton]. set_solver.
  - apply (Forall_impl _ _ _ Hi). intros li Hli. by rewrite Hopen.
  - apply Forall_app. split.
    + apply (Forall_impl _ _ _ Hu). intros li [d' Hd]. rewrite Hopen by (by eexists). eauto.
    + apply Forall_singleton. cbn. rewrite lookup_insert_eq. eauto.
Qed.

Lemma wf_close_used i u t :
  reg_wf i u t -> reg_wf i [] (foldr (fun li t => delete (li_fd li) t) t u).
Proof.
  intros [Hnd Hi Hu]. pose proof (closed_other i u t Hnd) as Hc. split.
  - rewrite app_nil_r. rewrite fmap_app in Hnd. by apply NoDup_app in Hnd as (? & _).
  - apply (Forall_impl _ _ _ (proj2 (Forall_and _ _) (conj Hi Hc))). by intros li [? ->].
  - done.
Qed.

Lemma wf_close_inherited i u t :
  reg_wf i u t -> reg_wf [] u (foldr (fun li t => delete (li_fd li) t) t i).
Proof.
  intros [Hnd Hi Hu].
  assert (Hnd' : NoDup (li_fd <$> u ++ i)).
  { by rewrite fmap_app, (Permutation_app_comm (li_fd <$> u)), <- fmap_app. }
  pose proof (closed_other u i t Hnd') as Hc. split.
  - rewrite fmap_app in Hnd'. by apply NoDup_app in Hnd' as (? & _).
  - done.
  - apply (Forall_impl _ _ _ (proj2 (Forall_and _ _) (conj Hu Hc))). by intros li [? ->].
Qed.

Lemma wf_foreign i u t t' :
  Forall (fun li => t' !! li_fd li = t !! li_fd li) (i ++ u) -> reg_wf i u t -> reg_wf i u t'.
Proof.
  intros [Hei Heu]%Forall_app [Hnd Hi Hu]. split; [done|..].
  - apply (Forall_impl _ _ _ (proj2 (Forall_and _ _) (conj Hi Hei))). by intros li [? ->].
  - apply (Forall_impl _ _ _ (proj2 (Forall_and _ _) (conj Hu Heu))). by intros li [? ->].
Qed.

(** Every well-formed registry stands for an abstract one. *)
Lemma open_has_abs t l :
  Forall (fun li => is_Some (t !! li_fd li)) l -> exists al, Forall2 (entry_abs t) l al.
Proof.
  induction 1 as [|li l [e He] _ [al IH]]; [by exists []|].
  exists ((li_sock_info li, fd_desc e) :: al). constructor; [|done].
  split; [done|]. unfold desc_of. by rewrite He.
Qed.

Lemma wf_has_abs i u t : reg_wf i u t -> exists a, reg_abs t i u a.
Proof.
  intros [Hi Hu]%wf_all_open%Forall_app.
  destruct (open_has_abs _ _ Hi) as [ai ?], (open_has_abs _ _ Hu) as [au ?].
  by exists (AReg ai au).
Qed.

#[export] Hint Resolve wf_take wf_add wf_close_used wf_close_inherited wf_foreign : ecd.

(** ** Each operation against the abstract registry *)

Section specs.
Context {K : Type} `{HV : HasView K, FO : FdOps K, FL : !FdLaws K}.
Implicit Types (k : K) (i u : list ListenerInfo) (si : SockInfo) (a : ARegistry).

Lemma take_spec si i u k a :
  reg_wf i u (fds k) -> reg_abs (fds k) i u a ->
  (position (a_asks si) (a_inherited a) = None /\
   take si (live i u, k) = (Ret None, (live i u, k))) \/
  (exists p li d k', position (a_asks si) (a_inherited a) = Some p /\
     i !! p = Some li /\ a_inherited a !! p = Some (li_sock_info li, d) /\
     take si (live i u, k) = (Ret (Some (li_fd li)), (live (delete p i) u, k')) /\
     fds k' = <[li_fd li := Fd d true]> (fds k) /\
     reg_wf (delete p i) u (fds k') /\
     reg_abs (fds k') (delete p i) u (AReg (delete p (a_inherited a)) (a_used a))).
Proof.
  intros Hw [Hai Hau]. rewrite <- (abs_position _ si _ _ Hai).
  destruct (position (asks si) i) as [p|] eqn:Ep; [right|left; split; [done|by apply take_miss]].
  destruct (position_Some _ _ _ Ep) as (li & Hp & _ & _).
  destruct (Forall2_lookup_l _ _ _ _ _ Hai Hp) as ([si' d] & Hp' & Hsi & Hd).
  cbn in Hsi, Hd. subst si'.
  unfold desc_of in Hd. apply fmap_Some in Hd as (e & He & ->).
  destruct (take_hit si i u k p li e Ep Hp He) as (k' & _ & Et & V).
  apply fds_set_fds in V.
  exists p, li, (fd_desc e), k'. rewrite V. peel 5.
  split; [by eapply wf_take|]. split; cbn; apply abs_setflag; try done.
  by apply Forall2_delete.
Qed.

Lemma add_spec li i u k a :
  reg_wf i u (fds k) -> reg_abs (fds k) i u a ->
  (exists n d k', add li (live i u, k) =
      (Ret (Ok tt), (live i (u ++ [LInfo n (li_sock_info li)]), k')) /\
     desc_of (fds k) (li_fd li) = Some d /\ fds k !! n = None /\
     fds k' = <[n := Fd d true]> (fds k) /\
     reg_wf i (u ++ [LInfo n (li_sock_info li)]) (fds k') /\
     reg_abs (fds k') i (u ++ [LInfo n (li_sock_info li)])
       (AReg (a_inherited a) (a_used a ++ [(li_sock_info li, d)]))) \/
  (exists e k', add li (live i u, k) = (Ret (Err (OsError e)), (live i u, k')) /\
     fds k' = fds k).
Proof.
  intros Hw [Hai Hau]. destruct (add_cases li i u k)
    as [(n & k' & e & E & He & _ & Hn & V)|(e & k' & E & V)].
  - left. apply fds_set_fds in V. exists n, (fd_desc e), k'. rewrite V.
    repeat (split; [done || by unfold desc_of; rewrite He|]).
    split; [by apply wf_add|]. split; cbn; [by apply abs_insert_new|].
    apply Forall2_app; [by apply abs_insert_new|].
    repeat constructor. unfold desc_of. cbn. by rewrite lookup_insert_eq.
  - right. exists e, k'. split; [done|]. unfold fds. by rewrite V.
Qed.

Lemma inherit_spec si i u k a :
  reg_wf i u (fds k) -> reg_abs (fds k) i u a ->
  exists o i' u' k' a', inherit si (live i u, k) = (Ret o, (live i' u', k')) /\
    a_step a (LInherit si (o ≫= desc_of (fds k'))) a' /\
    reg_wf i' u' (fds k') /\ reg_abs (fds k') i' u' a' /\
    forall fd, o = Some fd ->
      fd ∉ li_fd <$> i' ++ u' /\ exists d, fds k' !! fd = Some (Fd d true).
Proof.
  intros Hw Ha. destruct a as [ai au].
  destruct (take_spec si i u k _ Hw Ha)
    as [[Ep Et]|(p & li & d & k1 & Ep & Hp & Hp' & Et & V1 & Hw1 & Ha1)].
  - exists None, i, u, k, (AReg ai au). unfold inherit.
    rewrite (run_bind _ _ _ _ _ Et). repeat (split; [done || by constructor|]). done.
  - unfold inherit. rewrite (run_bind _ _ _ _ _ Et). cbn in Ep, Hp', Ha1.
    destruct (add_spec (LInfo (li_fd li) si) _ _ _ _ Hw1 Ha1)
      as [(n & d' & k2 & Ea & Hd & Hn & V2 & Hw2 & Ha2)|(e & k2 & Ea & V2)];
      rewrite (run_bind _ _ _ _ _ Ea).
    + unfold desc_of in Hd. cbn [li_fd li_sock_info] in *. rewrite V1, lookup_insert_eq in Hd.
      injection Hd as <-.
      exists (Some (li_fd li)), (delete p i), (u ++ [LInfo n si]), k2, (AReg (delete p ai) (au ++ [(si, d)])).
      split; [done|].
      assert (Hne : n <> li_fd li) by (intros ->; rewrite V1, lookup_insert_eq in Hn; done).
      assert (Hfd : fds k2 !! li_fd li = Some (Fd d true)).
      { by rewrite V2, lookup_insert_ne, V1, lookup_insert_eq. }
      split; [cbn; unfold desc_of; rewrite Hfd; by eapply A_inherit|].
      peel 2. intros fd [= <-]. split; [|by eexists].
      rewrite app_assoc, fmap_app, not_elem_of_app. split; [|by apply not_elem_of_cons; split; [|apply not_elem_of_nil]].
      apply taken_fresh; [done|apply Hw].
    + exists None, (delete p i), u, k2, (AReg (delete p ai) au).
      split; [done|]. rewrite V2. split; [by eapply A_inherit_lost|done].
Qed.

(** [inherit] loses an entry only when its descriptor cannot be duplicated. *)
Lemma inherit_lost si i u k a p s' :
  reg_wf i u (fds k) -> reg_abs (fds k) i u a ->
  position (a_asks si) (a_inherited a) = Some p ->
  inherit si (live i u, k) = (Ret None, s') ->
  exists li err, i !! p = Some li /\
    clone_fd (li_fd li) (set_cloexec (li_fd li) k).2 = (Ret (Err err), s'.2).
Proof.
  intros Hw [Hai Hau] Ep. rewrite <- (abs_position _ si _ _ Hai) in Ep.
  destruct (position_Some _ _ _ Ep) as (li & Hp & _ & _).
  destruct (Forall2_lookup_l _ _ _ _ _ Hai Hp) as ([si' d] & _ & _ & Hd). cbn in Hd.
  unfold desc_of in Hd. apply fmap_Some in Hd as (e & He & _).
  destruct (take_hit si i u k p li e Ep Hp He) as (k' & Es & Et & _).
  unfold inherit. rewrite (run_bind _ _ _ _ _ Et).
  destruct (clone_fd_cases (li_fd li) k') as [(n & k2 & x & Ec & _)|(err & k2 & Ec & _)].
  - intros E. exfalso. revert E. unfold add, live. msimpl. rewrite Ec. by cbn.
  - rewrite (run_bind _ _ _ _ _ (add_dup_failed (LInfo (li_fd li) si) _ _ _ _ _ Ec)).
    intros [= <-]. exists li, (OsError err). by rewrite Es.
Qed.

Lemma close_used_spec i u k a :
  reg_wf i u (fds k) -> reg_abs (fds k) i u a ->
  exists k', close_used (live i u, k) = (Ret tt, (live i [], k')) /\
    fds k' = foldr (fun li t => delete (li_fd li) t) (fds k) u /\
    reg_wf i [] (fds k') /\ reg_abs (fds k') i [] (AReg (a_inherited a) []).
Proof.
  intros Hw [Hai Hau]. destruct (close_used_run i u k) as (k' & E & V).
  apply fds_set_fds in V. exists k'. rewrite V. peel 2.
  split; [by apply wf_close_used|]. split; [|done]. cbn. apply entry_abs_mono with (fds k); [|done].
  apply (Forall_impl _ _ _ (closed_other i u (fds k) (wf_nodup _ _ _ Hw))).
  intros li Hli. unfold desc_of. by rewrite Hli.
Qed.

Lemma close_inherited_spec i u k a :
  reg_wf i u (fds k) -> reg_abs (fds k) i u a ->
  exists k', close_inherited (live i u, k) = (Ret tt, (live [] u, k')) /\
    fds k' = foldr (fun li t => delete (li_fd li) t) (fds k) i /\
    reg_wf [] u (fds k') /\ reg_abs (fds k') [] u (AReg [] (a_used a)).
Proof.
  intros Hw [Hai Hau]. destruct (close_inherited_run i u k) as (k' & E & V).
  apply fds_set_fds in V. exists k'. rewrite V. peel 2.
  split; [by apply wf_close_inherited|]. split; [done|]. cbn. apply entry_abs_mono with (fds k); [|done].
  assert (Hnd : NoDup (li_fd <$> u ++ i)).
  { rewrite fmap_app, (Permutation_app_comm (li_fd <$> u)), <- fmap_app. apply Hw. }
  apply (Forall_impl _ _ _ (closed_other u i (fds k) Hnd)).
  intros li Hli. unfold desc_of. by rewrite Hli.
Qed.

Lemma foreign_spec i u k k' a :
  Forall (fun li => fds k' !! li_fd li = fds k !! li_fd li) (i ++ u) ->
  reg_wf i u (fds k) -> reg_abs (fds k) i u a ->
  reg_wf i u (fds k') /\ reg_abs (fds k') i u a.
Proof.
  intros He Hw [Hai Hau]. split; [by eapply wf_foreign|].
  assert (Hd : Forall (fun li => desc_of (fds k') (li_fd li) = desc_of (fds k) (li_fd li)) (i ++ u)).
  { apply (Forall_impl _ _ _ He). intros li E. unfold desc_of. by rewrite E. }
  apply Forall_app in Hd as [? ?]. split; by eapply entry_abs_mono.
Qed.

(** A state in which the registry is usable and stands for [a]. *)
Definition registry_at (a : ARegistry) (s : ListenerRegistry * K) : Prop :=
  exists i u, s.1 = live i u /\ reg_wf i u (fds s.2) /\ reg_abs (fds s.2) i u a.

Lemma simulate a s l s' :
  registry_at a s -> c_step s l s' -> exists a', a_step a l a' /\ registry_at a' s'.
Proof.
  intros (i & u & Hs & Hw & Ha) Hc. destruct s as [r k]; cbn in *; subst r.
  inversion Hc as [si ? o ? E|si ? o ? E|li ? d ? Hd E|li ? e ? E|? ? E|? ? E|? l' ? ls E F|? ? ? k' F];
    simplify_eq; cbn in *.
  - destruct (inherit_spec si i u k a Hw Ha) as (o' & i' & u' & k' & a' & E' & ? & ? & ? & _).
    rewrite E in E'. simplify_eq. exists a'. split; [done|]. by exists i', u'.
  - destruct a as [ai au]. destruct (take_spec si i u k _ Hw Ha)
      as [[Ep Et]|(p & li & d & k1 & Ep & Hp & Hp' & Et & V1 & Hw1 & Ha1)];
      rewrite E in Et; simplify_eq; cbn in *.
    + exists (AReg ai au). split; [by constructor|]. by exists i, u.
    + exists (AReg (delete p ai) au). split; [|by eexists _, _].
      unfold desc_of. rewrite V1, lookup_insert_eq. by eapply A_take.
  - destruct a as [ai au]. destruct (add_spec li i u k _ Hw Ha)
      as [(n & d' & k2 & Ea & Hd' & Hn & V2 & Hw2 & Ha2)|(e & k2 & Ea & V2)];
      rewrite E in Ea; simplify_eq; cbn in *.
    exists (AReg ai (au ++ [(li_sock_info li, d)])). split; [constructor|]. by eexists _, _.
  - destruct (add_spec li i u k _ Hw Ha)
      as [(n & d' & k2 & Ea & _)|(e' & k2 & Ea & V2)]; rewrite E in Ea; simplify_eq; cbn in *.
    exists a. split; [constructor|]. exists i, u. cbn. by rewrite V2.
  - destruct (close_used_spec i u k a Hw Ha) as (k' & E' & _ & ? & ?).
    rewrite E in E'. simplify_eq. destruct a. eexists. split; [constructor|]. by eexists _, _.
  - destruct (close_inherited_spec i u k a Hw Ha) as (k' & E' & _ & ? & ?).
    rewrite E in E'. simplify_eq. destruct a. eexists. split; [constructor|]. by eexists _, _.
  - rewrite get_fds_for_child_run in E. simplify_eq. destruct a as [ai au], Ha as [Hai Hau].
    cbn in *. rewrite (entry_abs_det _ _ _ _ F Hau).
    exists (AReg ai au). split; [constructor|]. by eexists _, _.
  - destruct (foreign_spec _ _ _ _ _ F Hw Ha) as [? ?].
    exists a. split; [constructor|]. by eexists _, _.
Qed.
End specs.

(** ** Properties of the registry *)

Section properties.
Context {K : Type} `{HV : HasView K, FO : FdOps K, FL : !FdLaws K}.
Implicit Types (k : K) (a : ARegistry).

Lemma simulate_steps a s ls s' :
  registry_at a s -> c_steps s ls s' -> exists a', a_steps a ls a' /\ registry_at a' s'.
Proof.
  intros Ha Hs. revert a Ha. induction Hs as [s|s l s1 ls s' Hl _ IH]; intros a Ha.
  - exists a. split; [constructor|done].
  - destruct (simulate a s l s1 Ha Hl) as (a1 & Hstep & Ha1).
    destruct (IH a1 Ha1) as (a' & Hsteps & Ha'). exists a'. split; [by econstructor|done].
Qed.

Lemma from_inherited_at l al k :
  NoDup (li_fd <$> l) -> Forall2 (entry_abs (fds k)) l al ->
  registry_at (AReg al []) (from_inherited l, k).
Proof.
  intros Hnd Ha. exists l, []. repeat split; cbn; try done.
  - by rewrite app_nil_r.
  - by eapply entry_abs_open.
Qed.

(** What a drop closes. *)
Lemma reg_drop_run i u k :
  exists k', reg_drop (live i u, k) = (Ret tt, (live [] [], k')) /\
    forall fd, fds k' !! fd =
      if decide (fd ∈ li_fd <$> i ++ u) then None else fds k !! fd.
Proof.
  destruct (close_used_run i u k) as (k1 & E1 & V1%fds_set_fds).
  destruct (close_inherited_run i [] k1) as (k2 & E2 & V2%fds_set_fds).
  exists k2. unfold reg_drop. rewrite (run_bind _ _ _ _ _ E1). split; [done|].
  intros fd. rewrite V2, V1, !foldr_delete_lookup, fmap_app.
  repeat case_decide; set_solver.
Qed.

(** C1. Refinement: from a state where the registry is well formed and stands
    for the abstract registry [a], any sequence of registry calls (inherit,
    take, add, close, hand-over to the child), interleaved with arbitrary
    descriptor activity of the application outside the registry, is matched
    answer by answer by the abstract registry, and the registry stays well
    formed. *)
Theorem registry_refines_spec (a : ARegistry) (s s' : ListenerRegistry * K) (ls : list label) :
  registry_at a s -> c_steps s ls s' ->
  exists a', a_steps a ls a' /\ registry_at a' s'.
Proof. apply simulate_steps. Qed.

(** The invariant: from a well-formed registry no operation panics; each
    returns and leaves a well-formed registry, and taking the list for a child
    changes nothing. *)
Theorem registry_ops_total (a : ARegistry) (s : ListenerRegistry * K) :
  registry_at a s ->
  (forall si, exists o s' a', inherit si s = (Ret o, s') /\ registry_at a' s') /\
  (forall si, exists o s' a', take si s = (Ret o, s') /\ registry_at a' s') /\
  (forall li, exists r s' a', add li s = (Ret r, s') /\ registry_at a' s') /\
  (exists s', close_used s = (Ret tt, s') /\ registry_at (AReg (a_inherited a) []) s') /\
  (exists s', close_inherited s = (Ret tt, s') /\ registry_at (AReg [] (a_used a)) s') /\
  (exists l, get_fds_for_child s = (Ret l, s)).
Proof.
  intros (i & u & Hs & Hw & Ha). destruct s as [r k]; cbn in *; subst r.
  repeat split.
  - intros si. destruct (inherit_spec si i u k a Hw Ha) as (o & i' & u' & k' & a' & E & _ & ? & ? & _).
    exists o, (live i' u', k'), a'. split; [done|]. by exists i', u'.
  - intros si. destruct (take_spec si i u k a Hw Ha)
      as [[_ E]|(p & li & d & k1 & _ & _ & _ & E & _ & ? & ?)];
      eexists _, _, _; (split; [exact E|]); by eexists _, _.
  - intros li. destruct (add_spec li i u k a Hw Ha)
      as [(n & d & k' & E & _ & _ & _ & ? & ?)|(e & k' & E & V)].
    + eexists _, _, _. split; [exact E|]. by eexists _, _.
    + exists (Err (OsError e)), (live i u, k'), a. split; [done|]. exists i, u. cbn. by rewrite V.
  - destruct (close_used_spec i u k a Hw Ha) as (k' & E & _ & ? & ?).
    eexists. split; [exact E|]. by eexists _, _.
  - destruct (close_inherited_spec i u k a Hw Ha) as (k' & E & _ & ? & ?).
    eexists. split; [exact E|]. by eexists _, _.
  - by exists u.
Qed.

(** Dropping the registry closes exactly the descriptors it lists, and
    leaves every other descriptor of the process as it was. *)
Theorem registry_drop_closes_exactly (a : ARegistry) (s : ListenerRegistry * K) :
  registry_at a s ->
  exists i u s', s.1 = live i u /\ reg_drop s = (Ret tt, s') /\
    (forall fd, fd ∈ li_fd <$> i ++ u -> is_Some (fds s.2 !! fd) /\ fds s'.2 !! fd = None) /\
    (forall fd, fd ∉ li_fd <$> i ++ u -> fds s'.2 !! fd = fds s.2 !! fd).
Proof.
  intros (i & u & Hs & Hw & Ha). destruct s as [r k]; cbn in *; subst r.
  destruct (reg_drop_run i u k) as (k' & E & Hk).
  exists i, u, (live [] [], k'). peel 2. cbn. split; intros fd Hfd.
  - rewrite Hk, decide_True by done. split; [|done].
    apply list_elem_of_fmap in Hfd as (li & -> & Hli).
    pose proof (wf_all_open _ _ _ Hw) as Ho. rewrite Forall_forall in Ho. by apply Ho.
  - by rewrite Hk, decide_False.
Qed.

(** A failed duplication loses a socket: when the inherited list has the
    requested address but the descriptor cannot be duplicated, [inherit]
    answers [None] as if there were no such socket; the entry is in neither
    list any more, its descriptor stays open and no later drop of the registry
    closes it. *)
Theorem inherit_dup_failure_leaks (si : SockInfo) (i u : list ListenerInfo) (k : K)
    (p : nat) (li : ListenerInfo) (e : fdent) (err : io_error) (k1 : K) :
  reg_wf i u (fds k) -> position (asks si) i = Some p -> i !! p = Some li ->
  fds k !! li_fd li = Some e ->
  clone_fd (li_fd li) (set_cloexec (li_fd li) k).2 = (Ret (Err err), k1) ->
  exists k2, inherit si (live i u, k) = (Ret None, (live (delete p i) u, k1)) /\
    li_fd li ∉ li_fd <$> delete p i ++ u /\
    fds k1 !! li_fd li = Some (Fd (fd_desc e) true) /\
    reg_drop (live (delete p i) u, k1) = (Ret tt, (live [] [], k2)) /\
    fds k2 !! li_fd li = Some (Fd (fd_desc e) true).
Proof.
  intros Hw Ep Hp He Hdup.
  destruct (take_hit si i u k p li e Ep Hp He) as (k0 & Es & Et & V0%fds_set_fds).
  rewrite Es in Hdup. cbn in Hdup.
  pose proof (add_dup_failed (LInfo (li_fd li) si) (delete p i) u _ _ _ Hdup) as Ea.
  destruct (clone_fd_cases (li_fd li) k0) as [(n & ? & ? & ? & _)|(? & ? & E1 & V1)];
    [congruence|]. rewrite Hdup in E1. injection E1 as -> <-.
  destruct (reg_drop_run (delete p i) u k1) as (k2 & Ed & Hk2).
  pose proof (taken_fresh i u p li Hp (wf_nodup _ _ _ Hw)) as Hfresh.
  assert (V1' : fds k1 = fds k0) by (unfold fds; by rewrite V1).
  exists k2. unfold inherit. rewrite (run_bind _ _ _ _ _ Et), (run_bind _ _ _ _ _ Ea).
  rewrite Hk2, decide_False, V1', V0, lookup_insert_eq by done. done.
Qed.

(** A socket is found under any spelling of its path that [PathBuf]
    considers equal: doubled slashes and "." segments in the request make no
    difference to what [take] and [inherit] return, nor to the state they
    leave. *)
Theorem take_up_to_path_spelling (dir name : string) (s : ListenerRegistry * K) :
  dir <> "" ->
  take (Unix (Some (dir +:+ "//" +:+ name))) s =
    take (Unix (Some (dir +:+ "/" +:+ name))) s /\
  take (Unix (Some (dir +:+ "/./" +:+ name))) s =
    take (Unix (Some (dir +:+ "/" +:+ name))) s.
Proof.
  intros Hd. split; apply take_proper; unfold sock_info_equiv; cbn; apply path_eqb_true.
  - by apply (path_join_slash dir name).
  - by apply (path_join_dot dir name).
Qed.
End properties.

(** ** Witnesses *)

Definition addr80 : SocketAddr := V4 0 80.

(** A child that inherited descriptor 5 for port 80. *)
Definition child5 : model := boot ∅ {[5 := Fd 7 false]}.

Lemma child5_at :
  registry_at (AReg [(Tcp addr80, 7%N)] []) (from_inherited [LInfo 5 (Tcp addr80)], child5).
Proof.
  apply from_inherited_at; [apply NoDup_singleton|]. by repeat constructor.
Qed.

Lemma registry_refines_spec_witness :
  exists s' a', c_steps (from_inherited [LInfo 5 (Tcp addr80)], child5)
      [LInherit (Tcp addr80) (Some 7%N); LForChild [(Tcp addr80, 7%N)]] s' /\
    a_steps (AReg [(Tcp addr80, 7%N)] [])
      [LInherit (Tcp addr80) (Some 7%N); LForChild [(Tcp addr80, 7%N)]] a' /\
    registry_at a' s'.
Proof.
  set (s1 := (inherit (Tcp addr80) (from_inherited [LInfo 5 (Tcp addr80)], child5)).2).
  assert (Hs : c_steps (from_inherited [LInfo 5 (Tcp addr80)], child5)
      [LInherit (Tcp addr80) (Some 7%N); LForChild [(Tcp addr80, 7%N)]] s1).
  { assert (E : (Some 5 ≫= desc_of (fds s1.2)) = Some 7%N) by by vm_compute.
    apply (c_steps_cons _ _ s1); [rewrite <- E; apply C_inherit; by vm_compute|].
    eapply c_steps_cons; [apply (C_for_child s1 [LInfo 6 (Tcp addr80)])|constructor].
    - by vm_compute.
    - repeat constructor. }
  destruct (registry_refines_spec _ _ _ _ child5_at Hs) as (a' & Ha & Hr).
  by exists s1, a'.
Defined.

Lemma registry_ops_total_witness :
  exists o s' a', inherit (Tcp addr80) (from_inherited [LInfo 5 (Tcp addr80)], child5) =
    (Ret o, s') /\ registry_at a' s'.
Proof. exact (proj1 (registry_ops_total _ _ child5_at) (Tcp addr80)). Defined.

Lemma registry_drop_witness :
  exists i u s', (from_inherited [LInfo 5 (Tcp addr80)]) = live i u /\
    reg_drop (from_inherited [LInfo 5 (Tcp addr80)], child5) = (Ret tt, s').
Proof.
  destruct (registry_drop_closes_exactly _ _ child5_at) as (i & u & s' & E & Ed & _).
  by exists i, u, s'.
Defined.

(** The same child with no descriptor left to duplicate into. *)
Definition full5 : model :=
  Model (md_view (boot ∅ {[5 := Fd 7 false]})) 4 ∅ true.

Lemma inherit_dup_failure_leaks_witness :
  exists k1 k2, inherit (Tcp addr80) (live [LInfo 5 (Tcp addr80)] [], full5) =
      (Ret None, (live [] [], k1)) /\
    fds k1 !! 5 = Some (Fd 7 true) /\
    reg_drop (live [] [], k1) = (Ret tt, (live [] [], k2)) /\
    fds k2 !! 5 = Some (Fd 7 true).
Proof.
  set (k1 := (clone_fd 5 (set_cloexec 5 full5).2).2).
  destruct (inherit_dup_failure_leaks (Tcp addr80) [LInfo 5 (Tcp addr80)] [] full5
              0 (LInfo 5 (Tcp addr80)) (Fd 7 false) (OsError EMFILE) k1)
    as (k2 & ? & _ & ? & ? & ?).
  - split; [apply NoDup_singleton| |done]. repeat constructor. by eexists.
  - by vm_compute.
  - done.
  - done.
  - by vm_compute.
  - by exists k1, k2.
Defined.

Lemma take_up_to_path_spelling_witness :
  take (Unix (Some "/run//a.sock")) (live [LInfo 5 (Unix (Some "/run/a.sock"))] [], child5) =
  take (Unix (Some "/run/a.sock")) (live [LInfo 5 (Unix (Some "/run/a.sock"))] [], child5) /\
  (take (Unix (Some "/run//a.sock"))
     (live [LInfo 5 (Unix (Some "/run/a.sock"))] [], child5)).1 = Ret (Some 5).
Proof.
  split; [|by vm_compute].
  exact (proj1 (take_up_to_path_spelling "/run" "a.sock"
    (live [LInfo 5 (Unix (Some "/run/a.sock"))] [], child5) ltac:(done))).
Defined.
