(* ===== verification/RegistryThreads.v ===== *)
(** * RegistryThreads: the registry under concurrent calls

    The registry is used through [&self]: several tasks can ask for their
    sockets at once while another one starts an upgrade. [inherit] is then not
    one operation but two, [take] under the lock of [inherited_fds] and [add]
    under the lock of [used_fds]. This file runs any number of such calls, one
    locked section at a time, among whole calls of [take], [add] and
    [get_fds_for_child] by other threads and descriptor activity outside.

    A section is one step: the system calls inside are on the descriptor of the
    entry it works on, which nobody else knows while it is listed.

    The theorems: the answers are those of calls made one after the other, in
    the order in which they took their sockets, and no section panics; but a
    list taken for a child between the two sections of a call is one that no
    sequence of whole calls explains. *)

From S2P Require Import Prelude Text Addr Posix Utils Registry RegistrySpec PosixModel.
Local Open Scope Z_scope.

(** ** A call of [inherit] in progress *)

Inductive inherit_pc : Type :=
| Asking
| Holding (fd : Z)
| Answered (o : option Z).

Record icall : Type := ICall { ic_sock : SockInfo; ic_pc : inherit_pc }.

(** The descriptors that are neither listed nor with the caller yet. *)
Definition holds (c : icall) : option Z :=
  match ic_pc c with Holding fd => Some fd | _ => None end.
Definition held (calls : list icall) : list Z := omap holds calls.

Section sections.
Context {K : Type} `{HasView K, FdOps K}.

(** The next locked section of a call. *)
Definition call_step (c : icall) : M (ListenerRegistry * K) icall :=
  match ic_pc c with
  | Asking =>
    o ← take (ic_sock c);
    mret (ICall (ic_sock c)
      match o with None => Answered None | Some fd => Holding fd end)
  | Holding fd =>
    r ← add (LInfo fd (ic_sock c));
    mret (ICall (ic_sock c)
      match r with Ok _ => Answered (Some fd) | Err _ => Answered None end)
  | Answered _ => mret c
  end.

Definition answer (c : icall) : option Z :=
  match ic_pc c with Answered o => o | _ => None end.

(** Two sections without interruption are the function. *)
Lemma sections_are_inherit (si : SockInfo) s :
  inherit si s =
  (c1 ← call_step (ICall si Asking); c2 ← call_step c1; mret (answer c2)) s.
Proof.
  unfold inherit, call_step. cbn. rewrite bind_assoc_run.
  unfold mbind, M_bind, mret, M_ret. destruct (take si s) as [[[fd|]| |] s1]; cbn; [|done..].
  by destruct (add _ s1) as [[[]| |] s2].
Qed.

(** ** Runs *)

Inductive event : Type :=
| Begin (si : SockInfo)
| Ask (j : nat) (si : SockInfo) (o : option N)
| Register (j : nat) (o : option N)
| Took (si : SockInfo) (o : option N)
| Added (si : SockInfo) (o : option N)
| Snapshot (l : list (SockInfo * N))
| Foreign.

Definition tstate : Type := list icall * (ListenerRegistry * K).

Inductive t_step : tstate -> event -> tstate -> Prop :=
| T_begin calls s si : t_step (calls, s) (Begin si) (calls ++ [ICall si Asking], s)
| T_ask calls s j c c' s' :
    calls !! j = Some c -> ic_pc c = Asking -> call_step c s = (Ret c', s') ->
    t_step (calls, s) (Ask j (ic_sock c) (holds c' ≫= desc_of (fds s'.2)))
      (<[j := c']> calls, s')
| T_register calls s j c fd c' s' :
    calls !! j = Some c -> ic_pc c = Holding fd -> call_step c s = (Ret c', s') ->
    t_step (calls, s) (Register j (answer c' ≫= desc_of (fds s'.2))) (<[j := c']> calls, s')
| T_took calls s si o s' :
    take si s = (Ret o, s') ->
    t_step (calls, s) (Took si (o ≫= desc_of (fds s'.2))) (calls, s')
| T_added calls s li d s' :
    desc_of (fds s.2) (li_fd li) = Some d -> add li s = (Ret (Ok tt), s') ->
    t_step (calls, s) (Added (li_sock_info li) (Some d)) (calls, s')
| T_add_failed calls s li e s' :
    add li s = (Ret (Err e), s') -> t_step (calls, s) (Added (li_sock_info li) None) (calls, s')
| T_snapshot calls s l ls :
    get_fds_for_child s = (Ret l, s) -> Forall2 (entry_abs (fds s.2)) l ls ->
    t_step (calls, s) (Snapshot ls) (calls, s)
| T_foreign calls i u k k' :
    Forall (fun fd => fds k' !! fd = fds k !! fd) ((li_fd <$> i ++ u) ++ held calls) ->
    t_step (calls, (live i u, k)) Foreign (calls, (live i u, k')).

Inductive t_steps (st : tstate) : list event -> tstate -> Prop :=
| t_nil : t_steps st [] st
| t_snoc tr st1 e st2 : t_steps st tr st1 -> t_step st1 e st2 -> t_steps st (tr ++ [e]) st2.
End sections.

(** ** The sequence of whole calls a run stands for *)

(** What call [j] was answered, as a socket. *)
Definition answer_of (tr : list event) (j : nat) : option N :=
  foldl (fun acc e =>
    match e with Register j' o => if decide (j' = j) then o else acc | _ => acc end) None tr.

(** The steps that have a place in the sequence; [inherit] has it where it takes. *)
Inductive item : Type :=
| ItInherit (j : nat) (si : SockInfo) (o : option N)
| ItTake (si : SockInfo) (o : option N)
| ItAdd (si : SockInfo) (o : option N).

Definition item_of (e : event) : option item :=
  match e with
  | Ask j si o => Some (ItInherit j si o)
  | Took si o => Some (ItTake si o)
  | Added si o => Some (ItAdd si o)
  | _ => None
  end.
Definition items : list event -> list item := omap item_of.

Definition label_of (f : nat -> option N) (it : item) : label :=
  match it with
  | ItInherit j si _ => LInherit si (f j)
  | ItTake si o => LTake si o
  | ItAdd si (Some d) => LAdd si d
  | ItAdd si None => LAddFailed si
  end.

Definition kept_of (f : nat -> option N) (it : item) : option (SockInfo * N) :=
  match it with
  | ItInherit j si _ => pair si <$> f j
  | ItTake _ _ => None
  | ItAdd si o => pair si <$> o
  end.

Definition caller_of (it : item) : option nat :=
  match it with ItInherit j _ _ => Some j | _ => None end.

Definition sequential (tr : list event) : list label := label_of (answer_of tr) <$> items tr.
Definition kept (tr : list event) : list (SockInfo * N) := omap (kept_of (answer_of tr)) (items tr).
Definition callers (its : list item) : list nat := omap caller_of its.

(** ** Taking, without the descriptors *)

Definition a_found (i : list (SockInfo * N)) (si : SockInfo) (o : option N)
    (i' : list (SockInfo * N)) : Prop :=
  (position (a_asks si) i = None /\ o = None /\ i' = i) \/
  (exists p si' d, position (a_asks si) i = Some p /\ i !! p = Some (si', d) /\
     o = Some d /\ i' = delete p i).

Definition did (i : list (SockInfo * N)) (it : item) (i' : list (SockInfo * N)) : Prop :=
  match it with
  | ItInherit _ si o | ItTake si o => a_found i si o i'
  | ItAdd _ _ => i' = i
  end.

Inductive all_did (i : list (SockInfo * N)) : list item -> list (SockInfo * N) -> Prop :=
| all_did_nil : all_did i [] i
| all_did_snoc its i1 it i2 : all_did i its i1 -> did i1 it i2 -> all_did i (its ++ [it]) i2.

(** What was taken can be read as a sequence of whole calls, whichever of the
    taking calls of [inherit] fail to register. *)
Definition agrees (f : nat -> option N) (it : item) : Prop :=
  match it with ItInherit j _ o => f j = None \/ f j = o | _ => True end.

Lemma did_step f i it i' u :
  did i it i' -> agrees f it ->
  a_step (AReg i u) (label_of f it) (AReg i' (u ++ option_list (kept_of f it))).
Proof.
  destruct it as [j si o|si o|si [d|]]; cbn.
  - intros [(Ep & -> & ->)|(p & si' & d & Ep & Hp & -> & ->)] Hf.
    + replace (f j) with (@None N) by (by destruct Hf). cbn. rewrite app_nil_r. by constructor.
    + destruct Hf as [Hf|Hf]; rewrite Hf; cbn; rewrite ?app_nil_r;
        [by eapply A_inherit_lost|by eapply A_inherit].
  - rewrite app_nil_r. intros [(Ep & -> & ->)|(p & si' & d & Ep & Hp & -> & ->)] _;
      [by apply A_take_none|by eapply A_take].
  - intros -> _. constructor.
  - intros -> _. rewrite app_nil_r. constructor.
Qed.

Lemma all_did_steps f i its i' u :
  all_did i its i' -> Forall (agrees f) its ->
  a_steps (AReg i u) (label_of f <$> its) (AReg i' (u ++ omap (kept_of f) its)).
Proof.
  induction 1 as [|its i1 it i2 _ IH Hd]; intros Hf.
  - cbn. rewrite app_nil_r. constructor.
  - apply Forall_app in Hf as [Hf Hit]. rewrite Forall_singleton in Hit.
    rewrite fmap_app, omap_app, (assoc_L (++)). eapply a_steps_app; [by apply IH|].
    econstructor; [|constructor].
    replace (omap (kept_of f) [it]) with (option_list (kept_of f it)); [by apply did_step|].
    cbn. by destruct (kept_of f it).
Qed.

(** A call that registers adds its socket to what is kept. *)
Lemma omap_kept_ext f g its :
  (forall j, j ∈ callers its -> f j = g j) ->
  omap (kept_of f) its = omap (kept_of g) its.
Proof.
  induction its as [|it its IH]; intros Hfg; [done|].
  assert (E : kept_of f it = kept_of g it).
  { destruct it; cbn in *; [|done..]. by rewrite Hfg by (unfold callers; cbn; set_solver). }
  cbn. rewrite E, IH; [done|].
  intros j Hj. apply Hfg. unfold callers in *. cbn. destruct (caller_of it); set_solver.
Qed.

Lemma omap_kept_insert f g j d si o its :
  (forall j', j' <> j -> g j' = f j') -> f j = None -> g j = Some d ->
  NoDup (callers its) -> ItInherit j si o ∈ its ->
  omap (kept_of g) its ≡ₚ (si, d) :: omap (kept_of f) its.
Proof.
  intros Hg Hf Hj Hnd (l1 & l2 & ->)%list_elem_of_split.
  unfold callers in Hnd. rewrite omap_app in Hnd. cbn in Hnd.
  apply NoDup_app in Hnd as (_ & H1 & [H2 _]%NoDup_cons).
  rewrite !omap_app. cbn. rewrite Hf, Hj. cbn.
  rewrite <- Permutation_middle. rewrite (omap_kept_ext g f l1), (omap_kept_ext g f l2); [done|..].
  - intros j' Hj'. apply Hg. by intros ->.
  - intros j' Hj'. apply Hg. intros ->. apply (H1 j Hj'). left.
Qed.

Lemma callers_unique its j si o si' o' :
  NoDup (callers its) -> ItInherit j si o ∈ its -> ItInherit j si' o' ∈ its -> o = o'.
Proof.
  intros Hnd (l1 & l2 & ->)%list_elem_of_split.
  unfold callers in Hnd. rewrite omap_app in Hnd. cbn in Hnd.
  apply NoDup_app in Hnd as (_ & H1 & [H2 _]%NoDup_cons).
  assert (Hc : forall l, ItInherit j si' o' ∈ l -> j ∈ callers l).
  { intros l Hl. apply list_elem_of_omap. by exists (ItInherit j si' o'). }
  intros [Hl|[E|Hl]%elem_of_cons]%elem_of_app.
  - exfalso. apply (H1 j); [by apply Hc|left].
  - congruence.
  - exfalso. by apply H2, Hc.
Qed.

(** ** A run, one event more *)

Definition subject (e : event) : option nat :=
  match e with Ask j _ _ | Register j _ => Some j | _ => None end.

Lemma items_snoc tr e : items (tr ++ [e]) = items tr ++ option_list (item_of e).
Proof. unfold items. rewrite omap_app. cbn. by destruct (item_of e). Qed.

Lemma answer_of_register tr j o : answer_of (tr ++ [Register j o]) j = o.
Proof. unfold answer_of. rewrite foldl_app. cbn. by rewrite decide_True. Qed.

Lemma answer_of_other tr e j :
  (forall o, e <> Register j o) -> answer_of (tr ++ [e]) j = answer_of tr j.
Proof.
  intros He. unfold answer_of. rewrite foldl_app. cbn. destruct e; try done.
  case_decide; [|done]. subst. by destruct (He o).
Qed.

(** An event that is not an answer has no effect on what was kept before it. *)
Lemma kept_snoc tr e :
  (forall j o, e <> Register j o) ->
  kept (tr ++ [e]) = kept tr ++ option_list (item_of e ≫= kept_of (answer_of (tr ++ [e]))).
Proof.
  intros He. unfold kept. rewrite items_snoc, omap_app. f_equal.
  - apply omap_kept_ext. intros j _. by apply answer_of_other.
  - destruct (item_of e) as [it|]; [|done]. cbn. by destruct (kept_of _ it).
Qed.

(** ** The invariant of a run *)

(** What is known of a call, given the events so far. *)
Definition call_ok (tr : list event) (t : gmap Z fdent) (j : nat) (c : icall) : Prop :=
  match ic_pc c with
  | Asking => (j ∉ callers (items tr)) /\ answer_of tr j = None
  | Holding fd =>
    exists d, ItInherit j (ic_sock c) (Some d) ∈ items tr /\ answer_of tr j = None /\
      desc_of t fd = Some d
  | Answered o =>
    exists o', ItInherit j (ic_sock c) o' ∈ items tr /\ (is_Some o <-> is_Some (answer_of tr j))
  end.

Record t_inv (a0 : ARegistry) (tr : list event) (calls : list icall)
    (i u : list ListenerInfo) (t : gmap Z fdent) (a : ARegistry) : Prop := {
  ti_wf : reg_wf i u t;
  ti_abs : reg_abs t i u a;
  ti_did : all_did (a_inherited a0) (items tr) (a_inherited a);
  ti_kept : a_used a ≡ₚ a_used a0 ++ kept tr;
  ti_agrees : Forall (agrees (answer_of tr)) (items tr);
  ti_nodup : NoDup (callers (items tr));
  ti_calls : forall j c, calls !! j = Some c -> call_ok tr t j c;
  ti_later : forall j, (length calls <= j)%nat ->
    (j ∉ callers (items tr)) /\ answer_of tr j = None
}.

Lemma callers_snoc tr e :
  callers (items (tr ++ [e])) =
  callers (items tr) ++ match e with Ask j _ _ => [j] | _ => [] end.
Proof. rewrite items_snoc. unfold callers. rewrite omap_app. by destruct e. Qed.

Lemma call_ok_answer tr t j c :
  call_ok tr t j c ->
  (j ∈ callers (items tr) <-> ic_pc c <> Asking) /\
  (is_Some (answer c) <-> is_Some (answer_of tr j)).
Proof.
  assert (Hin : forall o, ItInherit j (ic_sock c) o ∈ items tr -> j ∈ callers (items tr)).
  { intros o Ho. apply list_elem_of_omap. by eexists. }
  unfold call_ok, answer. destruct (ic_pc c) as [|fd|o].
  - intros [Hn ->]. done.
  - intros (d & Hd & -> & _). split; [split; [done|eauto]|done].
  - intros (o' & Ho & ?). split; [split; [done|eauto]|done].
Qed.

(** A call keeps what is known of it while others move. *)
Lemma call_ok_other tr e t t' j c :
  subject e <> Some j ->
  (forall fd d, holds c = Some fd -> desc_of t fd = Some d -> desc_of t' fd = Some d) ->
  call_ok tr t j c -> call_ok (tr ++ [e]) t' j c.
Proof.
  intros He Ht. unfold call_ok, holds in *.
  assert (Ha : answer_of (tr ++ [e]) j = answer_of tr j).
  { apply answer_of_other. intros o ->. by apply He. }
  assert (Hi : forall it, it ∈ items tr -> it ∈ items (tr ++ [e])).
  { intros it Hit. rewrite items_snoc. set_solver. }
  rewrite Ha. destruct (ic_pc c) as [|fd|o].
  - intros [Hn ?]. split; [|done]. rewrite callers_snoc, not_elem_of_app. split; [done|].
    destruct e; try apply not_elem_of_nil. intros ->%list_elem_of_singleton. by apply He.
  - intros (d & ? & ? & ?). exists d. auto.
  - intros (o' & ? & ?). exists o'. auto.
Qed.

Lemma later_other tr e j n :
  (forall j', subject e = Some j' -> (j' < n)%nat) -> (n <= j)%nat ->
  (j ∉ callers (items tr)) /\ answer_of tr j = None ->
  (j ∉ callers (items (tr ++ [e]))) /\ answer_of (tr ++ [e]) j = None.
Proof.
  intros He Hj [Hn Ha]. rewrite callers_snoc. split.
  - rewrite not_elem_of_app. split; [done|]. destruct e; try apply not_elem_of_nil.
    intros ->%list_elem_of_singleton. specialize (He _ eq_refl). lia.
  - rewrite answer_of_other; [done|]. intros o ->. specialize (He _ eq_refl). lia.
Qed.

(** ** Each kind of step keeps the invariant *)

Section steps_inv.
Context {K : Type} `{HV : HasView K, FO : FdOps K, FL : !FdLaws K}.
Implicit Types (k : K) (i u : list ListenerInfo) (a : ARegistry).

(** Open descriptors keep their sockets. *)
Definition keeps (t t' : gmap Z fdent) : Prop :=
  forall fd d, desc_of t fd = Some d -> desc_of t' fd = Some d.

Lemma keeps_setflag (t : gmap Z fdent) fd d b :
  desc_of t fd = Some d -> keeps t (<[fd := Fd d b]> t).
Proof.
  intros Hd fd' d' Hd'. unfold desc_of in *. rewrite lookup_insert. case_decide; [|done].
  cbn. congruence.
Qed.

Lemma keeps_new (t : gmap Z fdent) n e : t !! n = None -> keeps t (<[n := e]> t).
Proof.
  intros Hn fd d Hd. unfold desc_of in *. rewrite lookup_insert_ne; [done|].
  intros ->. by rewrite Hn in Hd.
Qed.

Lemma take_event si i u k a o s' :
  reg_wf i u (fds k) -> reg_abs (fds k) i u a -> take si (live i u, k) = (Ret o, s') ->
  exists i' k' a', s' = (live i' u, k') /\ reg_wf i' u (fds k') /\ reg_abs (fds k') i' u a' /\
    keeps (fds k) (fds k') /\ a_used a' = a_used a /\
    a_found (a_inherited a) si (o ≫= desc_of (fds k')) (a_inherited a') /\
    (is_Some o -> is_Some (o ≫= desc_of (fds k'))).
Proof.
  intros Hw Ha E. destruct (take_spec si i u k a Hw Ha)
    as [[Ep Et]|(p & li & d & k1 & Ep & Hp & Hp' & Et & V1 & Hw1 & Ha1)];
    rewrite E in Et; simplify_eq.
  - exists i, k, a. peel 3. split; [by intros ??|]. split; [done|]. split; [by left|]. by intros [].
  - assert (Hd : desc_of (fds k1) (li_fd li) = Some d).
    { unfold desc_of. by rewrite V1, lookup_insert_eq. }
    exists (delete p i), k1, (AReg (delete p (a_inherited a)) (a_used a)). peel 3.
    split; [|split; [done|split; [right; by exists p, (li_sock_info li), d|cbn; rewrite Hd; eauto]]].
    rewrite V1. apply keeps_setflag.
    destruct (Forall2_lookup_l _ _ _ _ _ (abs_inherited _ _ _ _ Ha) Hp) as (x & Hx & _ & Hd').
    rewrite Hp' in Hx. by simplify_eq.
Qed.

Lemma add_event li i u k a r s' :
  reg_wf i u (fds k) -> reg_abs (fds k) i u a -> add li (live i u, k) = (Ret r, s') ->
  exists u' k' a', s' = (live i u', k') /\ reg_wf i u' (fds k') /\ reg_abs (fds k') i u' a' /\
    keeps (fds k) (fds k') /\ a_inherited a' = a_inherited a /\
    match r with
    | Ok _ => exists d, desc_of (fds k) (li_fd li) = Some d /\
                a_used a' = a_used a ++ [(li_sock_info li, d)]
    | Err _ => a_used a' = a_used a
    end.
Proof.
  intros Hw Ha E. destruct (add_spec li i u k a Hw Ha)
    as [(n & d & k2 & Ea & Hd & Hn & V2 & Hw2 & Ha2)|(e & k2 & Ea & V2)];
    rewrite E in Ea; simplify_eq.
  - exists (u ++ [LInfo n (li_sock_info li)]), k2,
      (AReg (a_inherited a) (a_used a ++ [(li_sock_info li, d)])). peel 3.
    split; [rewrite V2; by apply keeps_new|]. split; [done|]. by exists d.
  - exists u, k2, a. rewrite V2. peel 3. split; [by intros ??|done].
Qed.

(** No section of a call panics. *)
Lemma call_step_returns a0 tr calls i u k a j c :
  t_inv a0 tr calls i u (fds k) a -> calls !! j = Some c ->
  exists c' s', call_step c (live i u, k) = (Ret c', s').
Proof.
  intros Hi Hj. unfold call_step. destruct (ic_pc c) as [|fd|o].
  - destruct (take_spec (ic_sock c) i u k a (ti_wf _ _ _ _ _ _ _ Hi) (ti_abs _ _ _ _ _ _ _ Hi))
      as [[_ E]|(p & li & d & k1 & _ & _ & _ & E & _)];
      rewrite (run_bind _ _ _ _ _ E); by eexists _, _.
  - destruct (add_spec (LInfo fd (ic_sock c)) i u k a
                (ti_wf _ _ _ _ _ _ _ Hi) (ti_abs _ _ _ _ _ _ _ Hi))
      as [(n & d & k' & E & _)|(e & k' & E & _)];
      rewrite (run_bind _ _ _ _ _ E); by eexists _, _.
  - by eexists _, _.
Qed.

(** The other calls, and the calls not begun, when one call moves. *)
Lemma others_ok tr e j c' (calls : list icall) (t t' : gmap Z fdent) :
  subject e = Some j -> keeps t t' ->
  (forall j c, calls !! j = Some c -> call_ok tr t j c) -> call_ok (tr ++ [e]) t' j c' ->
  forall j1 c1, <[j := c']> calls !! j1 = Some c1 -> call_ok (tr ++ [e]) t' j1 c1.
Proof.
  intros He Ht Hc Hc' j1 c1 [(-> & <- & _)|[Hne Hl]]%list_lookup_insert_Some; [done|].
  apply call_ok_other with t; [rewrite He; congruence|eauto|by apply Hc].
Qed.

Lemma all_ok tr e (calls : list icall) (t t' : gmap Z fdent) :
  subject e = None ->
  (forall fd d, fd ∈ held calls -> desc_of t fd = Some d -> desc_of t' fd = Some d) ->
  (forall j c, calls !! j = Some c -> call_ok tr t j c) ->
  forall j c, calls !! j = Some c -> call_ok (tr ++ [e]) t' j c.
Proof.
  intros He Ht Hc j c Hj. apply call_ok_other with t; [by rewrite He| |by apply Hc].
  intros fd d Hfd. apply Ht, list_elem_of_omap. exists c. split; [|done].
  by eapply list_elem_of_lookup_2.
Qed.

(** A run is in order when its registry stands for an abstract one that the
    invariant ties to the events. *)
Definition t_good (a0 : ARegistry) (tr : list event) (st : tstate) : Prop :=
  exists i u a, st.2.1 = live i u /\ t_inv a0 tr st.1 i u (fds st.2.2) a.

Lemma quiet_inv a0 tr e calls i u i' u' (t t' : gmap Z fdent) a a' :
  t_inv a0 tr calls i u t a -> subject e = None ->
  reg_wf i' u' t' -> reg_abs t' i' u' a' ->
  (forall fd d, fd ∈ held calls -> desc_of t fd = Some d -> desc_of t' fd = Some d) ->
  (forall it, item_of e = Some it -> did (a_inherited a) it (a_inherited a')) ->
  (item_of e = None -> a_inherited a' = a_inherited a) ->
  a_used a' = a_used a ++ option_list (item_of e ≫= kept_of (answer_of (tr ++ [e]))) ->
  t_inv a0 (tr ++ [e]) calls i' u' t' a'.
Proof.
  intros [Hw Ha Hd Hk Hg Hn Hc Hl] He Hw' Ha' Ht Hi Hi0 Hu.
  assert (Hno : forall j o, e <> Register j o) by by intros j o ->.
  assert (Hans : forall j, answer_of (tr ++ [e]) j = answer_of tr j).
  { intros j. by apply answer_of_other. }
  split; [done|done|..].
  - rewrite items_snoc. destruct (item_of e) as [it|]; cbn.
    + econstructor; [done|by apply Hi].
    + by rewrite app_nil_r, Hi0.
  - rewrite Hu, Hk, (kept_snoc _ _ Hno). by rewrite (assoc_L (++)).
  - rewrite items_snoc, Forall_app. split.
    + apply (Forall_impl _ _ _ Hg). intros [] ?; cbn; by rewrite ?Hans.
    + by destruct e; repeat constructor.
  - rewrite callers_snoc. destruct e; by rewrite ?app_nil_r.
  - by apply all_ok with t.
  - intros j Hj. apply later_other with (length calls); [by rewrite He|done|by apply Hl].
Qed.

Lemma begin_inv a0 tr calls i u t a si :
  t_inv a0 tr calls i u t a ->
  t_inv a0 (tr ++ [Begin si]) (calls ++ [ICall si Asking]) i u t a.
Proof.
  intros Hi. pose proof (ti_later _ _ _ _ _ _ _ Hi) as Hl.
  assert (Hq : t_inv a0 (tr ++ [Begin si]) calls i u t a).
  { eapply quiet_inv; [exact Hi|done|apply Hi|apply Hi|done|done|done|]. by rewrite app_nil_r. }
  destruct Hq as [? ? ? ? ? ? Hc Hl']. split; try done.
  - intros j c [Hj|[Hj [_ <-]%list_lookup_singleton_Some]]%lookup_app_Some; [by apply Hc|].
    apply Hl'. lia.
  - intros j. rewrite length_app. cbn. intros Hj. apply Hl'. lia.
Qed.

Lemma ask_inv a0 tr calls i u k a j c c' s' :
  t_inv a0 tr calls i u (fds k) a -> calls !! j = Some c -> ic_pc c = Asking ->
  call_step c (live i u, k) = (Ret c', s') ->
  t_good a0 (tr ++ [Ask j (ic_sock c) (holds c' ≫= desc_of (fds s'.2))]) (<[j := c']> calls, s').
Proof.
  intros [Hw Ha Hd Hk Hg Hn Hc Hl] Hj Hpc E. unfold call_step in E. rewrite Hpc in E.
  destruct (run_inv_bind _ _ _ _ _ E) as (o & s1 & Et & Er). injection Er as <- <-.
  destruct (take_event _ _ _ _ _ _ _ Hw Ha Et)
    as (i' & k' & a' & -> & Hw' & Ha' & Ht & Hu & Hf & Hs). cbn [fst snd].
  pose proof (Hc j c Hj) as Hcj. unfold call_ok in Hcj. rewrite Hpc in Hcj. destruct Hcj as [Hnj Haj].
  set (e := Ask j (ic_sock c) _).
  assert (Ee : item_of e = Some (ItInherit j (ic_sock c) (o ≫= desc_of (fds k')))).
  { unfold e. by destruct o. }
  assert (Hno : forall j o, e <> Register j o) by done.
  assert (Hans : forall j, answer_of (tr ++ [e]) j = answer_of tr j).
  { intros j'. by apply answer_of_other. }
  exists i', u, a'. split; [done|]. split; cbn [fst snd]; [done|done|..].
  - rewrite items_snoc, Ee. cbn. by econstructor.
  - rewrite (kept_snoc _ _ Hno), Ee. cbn. by rewrite Hans, Haj, app_nil_r, Hu.
  - rewrite items_snoc, Forall_app. split.
    + apply (Forall_impl _ _ _ Hg). intros [] ?; cbn; by rewrite ?Hans.
    + rewrite Ee. apply Forall_singleton. cbn. rewrite Hans. by left.
  - rewrite callers_snoc. apply NoDup_app. split; [done|]. split; [|apply NoDup_singleton].
    by intros ? ? ->%list_elem_of_singleton.
  - apply others_ok with (fds k); [done|done|done|].
    assert (Hin : ItInherit j (ic_sock c) (o ≫= desc_of (fds k')) ∈ items (tr ++ [e])).
    { rewrite items_snoc, Ee. apply elem_of_app. right. left. }
    destruct o as [fd|]; unfold call_ok; cbn in *; rewrite Hans, Haj.
    + destruct (Hs ltac:(by eexists)) as [d Hd']. rewrite Hd' in Hin. by exists d.
    + exists None. split; [done|]. by split; intros [].
  - rewrite length_insert. intros j' Hj'. apply later_other with (length calls); [|done|by apply Hl].
    intros ? [= <-]. by eapply lookup_lt_Some.
Qed.

Lemma register_inv a0 tr calls i u k a j c fd c' s' :
  t_inv a0 tr calls i u (fds k) a -> calls !! j = Some c -> ic_pc c = Holding fd ->
  call_step c (live i u, k) = (Ret c', s') ->
  t_good a0 (tr ++ [Register j (answer c' ≫= desc_of (fds s'.2))]) (<[j := c']> calls, s').
Proof.
  intros [Hw Ha Hd Hk Hg Hn Hc Hl] Hj Hpc E. unfold call_step in E. rewrite Hpc in E.
  destruct (run_inv_bind _ _ _ _ _ E) as (r & s1 & Et & Er). injection Er as <- <-.
  destruct (add_event _ _ _ _ _ _ _ Hw Ha Et)
    as (u' & k' & a' & -> & Hw' & Ha' & Ht & Hi & Hr). cbn [fst snd] in *.
  pose proof (Hc j c Hj) as Hcj. unfold call_ok in Hcj. rewrite Hpc in Hcj.
  destruct Hcj as (d & Hin & Haj & Hfd).
  set (o := answer _ ≫= desc_of (fds k')).
  assert (Ho : o = match r with Ok _ => Some d | Err _ => None end).
  { unfold o. destruct r; cbn; [by apply Ht|done]. }
  clearbody o.
  assert (Hother : forall j', j' <> j -> answer_of (tr ++ [Register j o]) j' = answer_of tr j').
  { intros j' Hne. apply answer_of_other. congruence. }
  assert (Hit : items (tr ++ [Register j o]) = items tr) by by rewrite items_snoc, app_nil_r.
  exists i, u', a'. split; [done|]. split; cbn [fst snd]; [done|done|..].
  - by rewrite Hit, Hi.
  - unfold kept. rewrite Hit. destruct r as [[]|er].
    + destruct Hr as (d' & Hd' & ->). cbn in Hd'. assert (d' = d) as -> by congruence.
      rewrite (omap_kept_insert (answer_of tr) _ j d (ic_sock c) (Some d)); try done.
      * rewrite Hk, <- (assoc_L (++)), (Permutation_app_comm (kept tr)). done.
      * by rewrite answer_of_register.
    + rewrite Hr, Hk. unfold kept. f_equiv. erewrite omap_kept_ext; [done|].
      intros j' _. destruct (decide (j' = j)) as [->|Hne]; [|by rewrite Hother].
      by rewrite answer_of_register, Ho.
  - rewrite Hit. apply Forall_forall. intros [j' si' o'|si' o'|si' o'] Hit'; [|done..]. cbn.
    destruct (decide (j' = j)) as [->|Hne].
    + rewrite answer_of_register, Ho. destruct r; [right|by left].
      by eapply (callers_unique (items tr)).
    + rewrite Hother by done. rewrite Forall_forall in Hg. by apply (Hg _ Hit').
  - by rewrite Hit.
  - apply others_ok with (fds k); [done|done|done|].
    unfold call_ok. cbn. rewrite Hit, answer_of_register, Ho.
    destruct r; cbn; (eexists; split; [exact Hin|]); by split; intros []; eauto.
  - rewrite length_insert. intros j' Hj'. apply later_other with (length calls); [|done|by apply Hl].
    intros ? [= <-]. by eapply lookup_lt_Some.
Qed.

Lemma t_step_inv a0 tr st e st' :
  t_good a0 tr st -> t_step st e st' -> t_good a0 (tr ++ [e]) st'.
Proof.
  intros (i & u & a & Hs & Hi) Hst. destruct st as [calls [r k]]. cbn in Hs, Hi. subst r.
  assert (Hw : reg_wf i u (fds k)) by apply Hi. assert (Ha : reg_abs (fds k) i u a) by apply Hi.
  inversion Hst as [? ? si|? ? j c c' s' Hj Hpc E|? ? j c fd c' s' Hj Hpc E|? ? si o s' E
    |? ? li d s' Hd E|? ? li er s' E|? ? l ls E F|? ? ? ? k' F]; subst.
  - exists i, u, a. split; [done|]. by apply begin_inv.
  - by eapply ask_inv.
  - by eapply register_inv.
  - destruct (take_event _ _ _ _ _ _ _ Hw Ha E) as (i' & k' & a' & -> & ? & ? & Ht & Hu & ? & _).
    exists i', u, a'. split; [done|]. eapply quiet_inv; [exact Hi|done|done|done|by intros fd d' _; apply Ht|by intros ? [= <-]|done|].
    cbn. by rewrite app_nil_r.
  - destruct (add_event _ _ _ _ _ _ _ Hw Ha E)
      as (u' & k' & a' & -> & ? & ? & Ht & Hii & d' & Hd' & Hu).
    cbn in Hd. assert (d' = d) as -> by congruence.
    exists i, u', a'. split; [done|].
    eapply quiet_inv; [exact Hi|done|done|done|by intros fd d' _; apply Ht|by intros ? [= <-]|done|done].
  - destruct (add_event _ _ _ _ _ _ _ Hw Ha E) as (u' & k' & a' & -> & ? & ? & Ht & Hii & Hu).
    exists i, u', a'. split; [done|].
    eapply quiet_inv; [exact Hi|done|done|done|by intros fd d' _; apply Ht|by intros ? [= <-]|done|].
    cbn. by rewrite app_nil_r.
  - exists i, u, a. split; [done|].
    eapply quiet_inv; [exact Hi|done|done|done|done|done|done|]. cbn. by rewrite app_nil_r.
  - apply Forall_app in F as [F1 F2]. rewrite Forall_fmap in F1.
    destruct (foreign_spec _ _ _ _ _ F1 Hw Ha) as [Hw' Ha'].
    exists i, u, a. split; [done|].
    eapply quiet_inv; [exact Hi|done|done|done| |done|done|cbn; by rewrite app_nil_r].
    intros fd d Hfd. rewrite Forall_forall in F2. unfold desc_of. cbn. by rewrite F2.
Qed.

Lemma t_steps_inv a0 s0 tr st :
  registry_at a0 s0 -> t_steps ([], s0) tr st -> t_good a0 tr st.
Proof.
  intros (i & u & Hs & Hw & Ha) Hst. induction Hst as [|tr st1 e st2 _ IH Hst]; [|by eapply t_step_inv].
  exists i, u, a0. split; [done|]. split; try done.
  - constructor.
  - by rewrite app_nil_r.
  - apply NoDup_nil_2.
  - intros j _. split; [apply not_elem_of_nil|done].
Qed.

(** The run before any event of it. *)
Lemma t_steps_before st tr1 e tr2 st' :
  t_steps st (tr1 ++ e :: tr2) st' -> exists st1 st2, t_steps st tr1 st1 /\ t_step st1 e st2.
Proof.
  revert st'. induction tr2 as [|e' tr2 IH] using rev_ind; intros st' Hst.
  - inversion Hst as [E|tr st1 e1 st2 Hs H1 E]; [by destruct tr1|].
    apply app_inj_tail in E as [-> ->]. by exists st1, st'.
  - rewrite app_comm_cons, (assoc_L (++)) in Hst.
    inversion Hst as [E|tr st1 e1 st2 Hs H1 E]; [by destruct tr1|].
    apply app_inj_tail in E as [-> ->]. by apply IH in Hs.
Qed.

Lemma snapshot_holds_answered a0 s0 tr ls tr2 st :
  registry_at a0 s0 -> t_steps ([], s0) (tr ++ Snapshot ls :: tr2) st ->
  ls ≡ₚ a_used a0 ++ kept tr.
Proof.
  intros H0 ([calls [r k]] & st2 & Hs & Hst)%t_steps_before.
  destruct (t_steps_inv _ _ _ _ H0 Hs) as (i & u & a & E & Hi). cbn in E, Hi. subst r.
  inversion Hst as [| | | | | |? ? l ? Eg F|]; subst.
  rewrite get_fds_for_child_run in Eg. injection Eg as <-.
  rewrite (entry_abs_det _ _ _ _ F (abs_used _ _ _ _ (ti_abs _ _ _ _ _ _ _ Hi))). apply Hi.
Qed.
End steps_inv.

(** ** Properties *)

Section properties.
Context {K : Type} `{HV : HasView K, FO : FdOps K, FL : !FdLaws K}.

(** C7. Calls of [inherit] that run at the same time: for every interleaving of
    the locked sections of any number of calls, with whole calls of [take],
    [add] and [get_fds_for_child] and with descriptor activity outside the
    registry, no section panics; the answers, the inherited list and, up to
    order, the used list are those of the abstract registry after one whole
    call after the other, in the order in which the calls took (so a call that
    ended before another began comes first); every call that has taken is in
    that sequence once; and each list taken for a child has exactly the sockets
    of the calls that had been answered by then. *)
Theorem inherit_calls_serialize (a0 : ARegistry) (s0 s : ListenerRegistry * K)
    (tr : list event) (calls : list icall) :
  registry_at a0 s0 -> t_steps ([], s0) tr (calls, s) ->
  (forall j c, calls !! j = Some c -> exists c' s', call_step c s = (Ret c', s')) /\
  (exists a a1, registry_at a s /\ a_steps a0 (sequential tr) a1 /\
     a_inherited a = a_inherited a1 /\ a_used a ≡ₚ a_used a1) /\
  NoDup (callers (items tr)) /\
  (forall j c, calls !! j = Some c ->
     (j ∈ callers (items tr) <-> ic_pc c <> Asking) /\
     (is_Some (answer c) <-> is_Some (answer_of tr j))) /\
  (forall tr1 ls tr2, tr = tr1 ++ Snapshot ls :: tr2 -> ls ≡ₚ a_used a0 ++ kept tr1).
Proof.
  intros H0 Hs. destruct (t_steps_inv _ _ _ _ H0 Hs) as (i & u & a & E & Hi).
  destruct s as [r k]. cbn in E, Hi. subst r. split; [|split; [|split; [apply Hi|split]]].
  - intros j c. by eapply call_step_returns.
  - exists a, (AReg (a_inherited a) (a_used a0 ++ kept tr)). split; [|split; [|split; [done|apply Hi]]].
    + exists i, u. split; [done|]. split; apply Hi.
    + destruct a0 as [i0 u0]. apply all_did_steps; apply Hi.
  - intros j c Hj. by apply (call_ok_answer tr (fds k)), (ti_calls _ _ _ _ _ _ _ Hi).
  - intros tr1 ls tr2 ->. by eapply snapshot_holds_answered.
Qed.
End properties.

(** ** What is not a sequence of whole calls *)

Section race.
Context {K : Type} `{HV : HasView K, FO : FdOps K, FL : !FdLaws K}.

(** Between its two sections a call holds a socket that is in neither list: a
    second call for it is told that there is none, and a list taken for a child
    after that, by the same thread even, does not have it, although the first
    call then returns it and registers it. No sequence of the three whole calls
    in which the list is taken after the second one's answer gives these
    results: whichever of the two calls is first, the socket is registered, or
    lost for both, before the list is taken. *)
Theorem snapshot_misses_held_socket (si si' : SockInfo) (d : N) (s : ListenerRegistry * K) :
  registry_at (AReg [(si', d)] []) s -> sock_info_eqb si' si = true ->
  (exists c1 s1, call_step (ICall si Asking) s = (Ret c1, s1) /\
     inherit si s1 = (Ret None, s1) /\ get_fds_for_child s1 = (Ret [], s1) /\
     forall c2 s2, call_step c1 s1 = (Ret c2, s2) -> is_Some (answer c2) ->
       registry_at (AReg [] [(si, d)]) s2) /\
  (forall l1 l2 l3 a', l1 ++ LInherit si None :: l2 ++ LForChild [] :: l3 ≡ₚ
       [LInherit si (Some d); LInherit si None; LForChild []] ->
     ~ a_steps (AReg [(si', d)] []) (l1 ++ LInherit si None :: l2 ++ LForChild [] :: l3) a').
Proof.
  intros (i & u & Hs & Hw & Ha) Hsi. destruct s as [r k]. cbn in Hs, Hw, Ha. subst r.
  assert (Epos : position (a_asks si) [(si', d)] = Some 0%nat).
  { rewrite position_cons. unfold a_asks. cbn. by rewrite Hsi. }
  split.
  - destruct (take_spec si i u k _ Hw Ha)
      as [[En _]|(p & li & d' & k1 & Ep & Hp & Hp' & Et & V1 & Hw1 & Ha1)]; cbn in *; [congruence|].
    assert (p = 0%nat) as -> by congruence. cbn in Hp', Ha1. injection Hp' as Hsock <-.
    assert (delete 0%nat i = []) as Ei by (by destruct Ha1 as [?%Forall2_nil_inv_r _]).
    assert (u = []) as -> by (by destruct Ha1 as [_ ?%Forall2_nil_inv_r]).
    rewrite Ei in *.
    exists (ICall si (Holding (li_fd li))), (live [] [], k1).
    split; [unfold call_step; cbn; by rewrite (run_bind _ _ _ _ _ Et)|].
    split; [by unfold inherit; rewrite (run_bind _ _ _ _ _ (take_miss si [] [] k1 eq_refl))|].
    split; [done|]. intros c2 s2 E Hc2. unfold call_step in E. cbn in E.
    destruct (run_inv_bind _ _ _ _ _ E) as (r & s3 & Ea & Er). injection Er as <- <-.
    destruct (add_event _ _ _ _ _ _ _ Hw1 Ha1 Ea) as (u' & k2 & a2 & -> & Hw2 & Ha2 & _ & Hi2 & Hr).
    destruct r as [[]|]; [|by destruct Hc2]. destruct Hr as (d2 & Hd2 & Hu2).
    unfold desc_of in Hd2. cbn in Hd2. rewrite V1, lookup_insert_eq in Hd2. injection Hd2 as <-.
    exists [], u'. split; [done|]. split; [done|]. destruct a2 as [ai au]. cbn in *. by subst.
  - intros l1 l2 l3 a' Hp Hst.
    assert (Hq : LInherit si None :: LForChild [] :: (l1 ++ l2 ++ l3) ≡ₚ
                 LInherit si None :: LForChild [] :: [LInherit si (Some d)]).
    { transitivity (l1 ++ LInherit si None :: l2 ++ LForChild [] :: l3).
      - by rewrite <- Permutation_middle, <- (Permutation_middle l2), <- (Permutation_middle l1).
      - rewrite Hp. apply (Permutation_cons_append [_; _]). }
    apply Permutation.Permutation_cons_inv, Permutation.Permutation_cons_inv in Hq.
    clear Hp. apply Permutation_singleton_r in Hq as Hp.
    assert (Hn : forall a, a_step (AReg [(si', d)] []) (LInherit si None) a -> a = AReg [] []).
    { intros a. inversion 1; subst; [|congruence].
      match goal with Hq : position _ _ = Some ?q |- _ => assert (q = 0%nat) as -> by congruence end.
      done. }
    assert (Hs : forall a, ~ a_step (AReg [] []) (LInherit si (Some d)) a) by (intros a; by inversion 1).
    apply app_eq_unit in Hp as [[-> Hp]|[-> [-> ->]%app_nil]];
      [apply app_eq_unit in Hp as [[-> ->]|[-> ->]]|]; cbn in Hst.
    + inversion Hst as [|? ? a1 ? ? H1 Hst1]; subst. apply Hn in H1 as ->.
      inversion Hst1 as [|? ? a2 ? ? H2 Hst2]; subst. inversion H2; subst.
      inversion Hst2 as [|? ? a3 ? ? H3 _]; subst. by apply Hs in H3.
    + inversion Hst as [|? ? a1 ? ? H1 Hst1]; subst. apply Hn in H1 as ->.
      inversion Hst1 as [|? ? a2 ? ? H2 _]; subst. by apply Hs in H2.
    + inversion Hst as [|? ? a1 ? ? H1 Hst1]; subst. inversion H1; subst.
      inversion Hst1 as [|? ? a2 ? ? H2 Hst2]; subst.
      inversion Hst2 as [|? ? a3 ? ? H3 _]; subst. by inversion H2; subst; inversion H3.
Qed.
End race.

(** ** Witnesses *)

(** Two tasks ask for port 80 at once; a list for a child is taken while the
    first one holds the socket, and another when it has been answered. *)
Definition reg80 : ListenerRegistry * model := (from_inherited [LInfo 5 (Tcp addr80)], child5).
Definition two_askers : list event :=
  [Begin (Tcp addr80); Begin (Tcp addr80); Ask 0 (Tcp addr80) (Some 7%N);
   Ask 1 (Tcp addr80) None; Snapshot []; Register 0 (Some 7%N);
   Snapshot [(Tcp addr80, 7%N)]].
Definition asking80 : icall := ICall (Tcp addr80) Asking.
Definition holding80 : icall := ICall (Tcp addr80) (Holding 5).
Definition none80 : icall := ICall (Tcp addr80) (Answered None).
Definition some80 : icall := ICall (Tcp addr80) (Answered (Some 5)).
Definition taken80 : ListenerRegistry * model := (call_step asking80 reg80).2.
Definition added80 : ListenerRegistry * model := (call_step holding80 taken80).2.

Lemma two_askers_run : t_steps ([], reg80) two_askers ([some80; none80], added80).
Proof.
  pose proof (t_snoc _ _ _ _ _ (t_nil ([], reg80)) (T_begin _ _ (Tcp addr80))) as H1.
  pose proof (t_snoc _ _ _ _ _ H1 (T_begin _ _ (Tcp addr80))) as H2.
  pose proof (t_snoc _ _ _ _ _ H2
    (T_ask [asking80; asking80] reg80 0 asking80 holding80 taken80 eq_refl eq_refl
       ltac:(by vm_compute))) as H3.
  pose proof (t_snoc _ _ _ _ _ H3
    (T_ask [holding80; asking80] taken80 1 asking80 none80 taken80 eq_refl eq_refl
       ltac:(by vm_compute))) as H4.
  pose proof (t_snoc _ _ _ _ _ H4
    (T_snapshot [holding80; none80] taken80 [] [] ltac:(by vm_compute) ltac:(constructor))) as H5.
  pose proof (t_snoc _ _ _ _ _ H5
    (T_register [holding80; none80] taken80 0 holding80 5 some80 added80 eq_refl eq_refl
       ltac:(by vm_compute))) as H6.
  pose proof (t_snoc _ _ _ _ _ H6
    (T_snapshot [some80; none80] added80 [LInfo 6 (Tcp addr80)] [(Tcp addr80, 7%N)]
       ltac:(by vm_compute) ltac:(by repeat constructor))) as H7.
  assert (E3 : (holds holding80 ≫= desc_of (fds taken80.2)) = Some 7%N) by by vm_compute.
  assert (E6 : (answer some80 ≫= desc_of (fds added80.2)) = Some 7%N) by by vm_compute.
  rewrite E3, E6 in H7. exact H7.
Qed.

Lemma inherit_calls_serialize_witness :
  sequential two_askers = [LInherit (Tcp addr80) (Some 7%N); LInherit (Tcp addr80) None] /\
  exists a a1, registry_at a added80 /\
    a_steps (AReg [(Tcp addr80, 7%N)] []) (sequential two_askers) a1 /\ a_used a ≡ₚ a_used a1.
Proof.
  split; [done|].
  destruct (inherit_calls_serialize _ _ _ _ _ child5_at two_askers_run)
    as (_ & (a & a1 & ? & ? & _ & ?) & _).
  by exists a, a1.
Defined.

Lemma snapshot_misses_held_socket_witness :
  exists c1 s1, call_step asking80 reg80 = (Ret c1, s1) /\
    inherit (Tcp addr80) s1 = (Ret None, s1) /\ get_fds_for_child s1 = (Ret [], s1).
Proof.
  destruct (snapshot_misses_held_socket (Tcp addr80) (Tcp addr80) 7%N reg80 child5_at
    ltac:(by vm_compute)) as [(c1 & s1 & ? & ? & ? & _) _].
  by exists c1, s1.
Defined.
