(* ===== verification/Bincode.v ===== *)
(** * Bincode: the serialization the listener list travels in

    The [bincode] crate is a parameter: [serialize] gives the bytes
    [serialize_into] writes (it can fail, on a path that is not UTF-8),
    [deserialize_from] reads a list back from a descriptor. The law is the
    crate's documented round trip. An instance over [PosixModel] encodes the
    list as the binary digits of its [Countable] code. *)

From S2P Require Import Prelude Text Addr Posix PosixModel Utils Registry.
From Stdlib Require Import Ascii.
Local Open Scope Z_scope.

Class Bincode (K : Type) := {
  bincode_error : Type;
  serialize : list ListenerInfo -> result string bincode_error;
  deserialize_from : Z -> K -> result (list ListenerInfo) bincode_error * K
}.

Class BincodeLaws (K : Type) `{HasView K, Bincode K} : Prop := {
  deserialize_serialized l bs rest fd e k :
    serialize l = Ok bs -> fds k !! fd = Some e ->
    v_pipes (view k) !! fd_desc e = Some (bs +:+ rest) ->
    exists k', deserialize_from fd k = (Ok l, k');
  deserialize_frame fd k :
    fds (deserialize_from fd k).2 = fds k /\
    v_env (view (deserialize_from fd k).2) = v_env (view k) /\
    v_files (view (deserialize_from fd k).2) = v_files (view k) /\
    v_pid (view (deserialize_from fd k).2) = v_pid (view k) /\
    v_args (view (deserialize_from fd k).2) = v_args (view k)
}.

(** ** An instance *)

Definition addr_code (a : SocketAddr) : (Z * Z) + (Z * Z * Z * Z) :=
  match a with V4 i p => inl (i, p) | V6 i p f s => inr (i, p, f, s) end.
Definition addr_decode (c : (Z * Z) + (Z * Z * Z * Z)) : SocketAddr :=
  match c with inl (i, p) => V4 i p | inr (i, p, f, s) => V6 i p f s end.

#[export] Instance SocketAddr_countable : Countable SocketAddr.
Proof. refine (inj_countable' addr_code addr_decode _). by intros []. Defined.

Definition info_code (i : SockInfo) :
    (option string + (SocketAddr + SocketAddr)) + (string + option string) :=
  match i with
  | Unix p => inl (inl p)
  | Tcp a => inl (inr (inl a))
  | Udp a => inl (inr (inr a))
  | UnboundUnixDatagram s => inr (inl s)
  | UnixSeqpacket p => inr (inr p)
  end.
Definition info_decode c : SockInfo :=
  match c with
  | inl (inl p) => Unix p
  | inl (inr (inl a)) => Tcp a
  | inl (inr (inr a)) => Udp a
  | inr (inl s) => UnboundUnixDatagram s
  | inr (inr p) => UnixSeqpacket p
  end.

#[export] Instance SockInfo_countable : Countable SockInfo.
Proof. refine (inj_countable' info_code info_decode _). by intros []. Defined.

#[export] Instance ListenerInfo_countable : Countable ListenerInfo.
Proof.
  refine (inj_countable' (fun li => (li_fd li, li_sock_info li)) (fun p => LInfo p.1 p.2) _).
  by intros [].
Defined.

Fixpoint pos_bits (p : positive) : string :=
  match p with
  | xH => "."
  | xO p => String "0" (pos_bits p)
  | xI p => String "1" (pos_bits p)
  end.

Fixpoint bits_pos (s : string) : option positive :=
  match s with
  | String c s' =>
    if bool_decide (c = "."%char) then Some xH
    else if bool_decide (c = "0"%char) then xO <$> bits_pos s'
    else if bool_decide (c = "1"%char) then xI <$> bits_pos s'
    else None
  | EmptyString => None
  end.

Lemma bits_pos_bits p rest : bits_pos (pos_bits p +:+ rest) = Some p.
Proof.
  induction p as [p IH|p IH|]; [..|done].
  - change (pos_bits p~1 +:+ rest) with (String "1" (pos_bits p +:+ rest)). cbn [bits_pos].
    rewrite !bool_decide_eq_false_2, bool_decide_eq_true_2 by done. by rewrite IH.
  - change (pos_bits p~0 +:+ rest) with (String "0" (pos_bits p +:+ rest)). cbn [bits_pos].
    rewrite bool_decide_eq_false_2, bool_decide_eq_true_2 by done. by rewrite IH.
Qed.

Definition decode_listeners (s : string) : option (list ListenerInfo) :=
  p ← bits_pos s; decode p.

#[export] Instance model_bincode : Bincode model := {|
  bincode_error := string;
  serialize l := Ok (pos_bits (encode l));
  deserialize_from fd m :=
    (match (e ← fds m !! fd; s ← v_pipes (md_view m) !! fd_desc e; decode_listeners s) with
     | Some l => Ok l
     | None => Err "unexpected end of file"
     end, m)
|}.

#[export] Instance model_bincode_laws : BincodeLaws model.
Proof.
  split; [|done]. intros l bs rest fd e k [= <-] He Hp. exists k.
  unfold deserialize_from. cbn. rewrite He. cbn.
  change (v_pipes (md_view k)) with (v_pipes (view k)). rewrite Hp. cbn.
  unfold decode_listeners. rewrite bits_pos_bits. cbn. by rewrite decode_encode.
Qed.
