(* ===== verification/Listener.v ===== *)
(** * Listener: [src/listener.rs] and the trait implementations of
    [src/seqpacket.rs]

    The traits [Listener] and [TryFromRawFd] are classes over the listener
    types; a listener owns its descriptor and closes it when it is dropped. *)

From S2P Require Import Prelude Text Addr Posix PosixModel Utils Registry.
Local Open Scope Z_scope.

Record TcpListener : Type := MkTcp { tcp_fd : Z }.
Record UdpSocket : Type := MkUdp { udp_fd : Z }.
Record UnixListener : Type := MkUnix { unix_fd : Z }.
Record UnixSeqpacketListener : Type := MkSeqpacket { seqpacket_fd : Z }.
Record UnixDatagram : Type := MkDatagram { datagram_fd : Z }.

(** [trait Listener: AsRawFd] *)
Class Listener (K L : Type) := {
  as_raw_fd : L -> Z;
  info : L -> M K (result ListenerInfo io_error)
}.

(** [trait TryFromRawFd] *)
Class TryFromRawFd (K L : Type) := {
  try_from_raw_fd : Z -> M K (result L io_error)
}.

Section listeners.
Context {K : Type} `{HasView K, FdOps K, SockOps K}.

Definition tcp_info (l : TcpListener) : M K (result ListenerInfo io_error) :=
  addr ←? gets (inet_local_addr (tcp_fd l));
  mret (Ok (LInfo (tcp_fd l) (Tcp addr))).

Definition udp_info (l : UdpSocket) : M K (result ListenerInfo io_error) :=
  addr ←? gets (inet_local_addr (udp_fd l));
  mret (Ok (LInfo (udp_fd l) (Udp addr))).

(** [as_pathname] is [None] for an unnamed or abstract address. *)
Definition unix_info (l : UnixListener) : M K (result ListenerInfo io_error) :=
  addr ←? gets (unix_local_addr (unix_fd l));
  mret (Ok (LInfo (unix_fd l) (Unix addr))).

Definition seqpacket_info (l : UnixSeqpacketListener) : M K (result ListenerInfo io_error) :=
  sockaddr ←? gets (seqpacket_local_addr (seqpacket_fd l));
  mret (Ok (LInfo (seqpacket_fd l) (UnixSeqpacket (Some sockaddr)))).

#[export] Instance tcp_listener : Listener K TcpListener :=
  {| as_raw_fd := tcp_fd; info := tcp_info |}.
#[export] Instance udp_listener : Listener K UdpSocket :=
  {| as_raw_fd := udp_fd; info := udp_info |}.
#[export] Instance unix_listener : Listener K UnixListener :=
  {| as_raw_fd := unix_fd; info := unix_info |}.
#[export] Instance seqpacket_listener : Listener K UnixSeqpacketListener :=
  {| as_raw_fd := seqpacket_fd; info := seqpacket_info |}.

#[export] Instance unix_from_raw : TryFromRawFd K UnixListener :=
  {| try_from_raw_fd fd := mret (Ok (MkUnix fd)) |}.
#[export] Instance tcp_from_raw : TryFromRawFd K TcpListener :=
  {| try_from_raw_fd fd := mret (Ok (MkTcp fd)) |}.
#[export] Instance udp_from_raw : TryFromRawFd K UdpSocket :=
  {| try_from_raw_fd fd := mret (Ok (MkUdp fd)) |}.
#[export] Instance seqpacket_from_raw : TryFromRawFd K UnixSeqpacketListener :=
  {| try_from_raw_fd fd :=
       _ ←? call (seqpacket_from_raw_fd fd);
       mret (Ok (MkSeqpacket fd)) |}.

(** The destructor of any of them. *)
Definition drop_listener {L} `{Listener K L} (l : L) : M K unit :=
  close_fd_quiet (as_raw_fd l).
End listeners.

(** Asking a listener for its description changes nothing, and the description
    carries the listener's own descriptor. *)
Class InfoLaws (K L : Type) `{Listener K L} : Prop := {
  info_pure (l : L) (k : K) :
    exists r, info l k = (Ret r, k) /\
      match r with Ok li => li_fd li = as_raw_fd l | Err _ => True end
}.

Section laws.
Context {K : Type} `{HasView K, FdOps K, SockOps K}.

#[export] Instance tcp_info_laws : InfoLaws K TcpListener.
Proof.
  split. intros l k. cbn. unfold tcp_info. msimpl.
  destruct (inet_local_addr (tcp_fd l) k); by eexists.
Qed.
#[export] Instance udp_info_laws : InfoLaws K UdpSocket.
Proof.
  split. intros l k. cbn. unfold udp_info. msimpl.
  destruct (inet_local_addr (udp_fd l) k); by eexists.
Qed.
#[export] Instance unix_info_laws : InfoLaws K UnixListener.
Proof.
  split. intros l k. cbn. unfold unix_info. msimpl.
  destruct (unix_local_addr (unix_fd l) k); by eexists.
Qed.
#[export] Instance seqpacket_info_laws : InfoLaws K UnixSeqpacketListener.
Proof.
  split. intros l k. cbn. unfold seqpacket_info. msimpl.
  destruct (seqpacket_local_addr (seqpacket_fd l) k); by eexists.
Qed.
End laws.
