(* ===== verification/Inheriter.v ===== *)
(** * Inheriter: [src/inheriter.rs]

    What a process does at start to find out whether it was started by an
    upgrade: the environment decides, the listener list is read from one
    inherited pipe, the write end of the other is kept to report readiness. *)

From S2P Require Import Prelude Text Addr Posix PosixModel Utils Registry Bincode.
Local Open Scope Z_scope.

Section inheriter.
Context {K : Type} `{HV : HasView K, FO : FdOps K, BC : Bincode K}.

Inductive InheritError : Type :=
| NotAnUpgrade
| DeserializationError (e : bincode_error)
| BadEnvironment (msg : string).

Definition pipe_fd_from_env (name : string) : M K (result Z InheritError) :=
  v ← gets (env_var name);
  mret match v with
  | Err _ => Err (BadEnvironment ("cannot read env var " +:+ name))
  | Ok fd =>
    match parse_i32 fd with
    | Err _ => Err (BadEnvironment (name +:+ " is not an integer"))
    | Ok z => Ok z
    end
  end.

(** The pipe the list is read from is closed with its reader, whether
    deserialization succeeded or not. *)
Definition init_child : M K (result (list ListenerInfo * Z) InheritError) :=
  v ← gets (env_var ENV_UPGRADE);
  match v with
  | Ok s =>
    if bool_decide (s = UPGRADE_TRUE_VAL) then
      inherit_fd ←? pipe_fd_from_env ENV_PIPE_FDS;
      d ← call (deserialize_from inherit_fd);
      _ ← close_fd_quiet inherit_fd;
      inherited_listeners ←? mret (map_err DeserializationError d);
      ready_fd ←? pipe_fd_from_env ENV_PIPE_READY;
      mret (Ok (inherited_listeners, ready_fd))
    else mret (Err (BadEnvironment ("Value of env var " +:+ ENV_UPGRADE +:+ " is not valid")))
  | Err NotPresent => mret (Err NotAnUpgrade)
  | Err NotUnicode =>
    mret (Err (BadEnvironment ("Value of env var " +:+ ENV_UPGRADE +:+ " is not valid")))
  end.
End inheriter.

#[global] Arguments InheritError K {BC}.
#[global] Arguments init_child : simpl never.
#[global] Arguments pipe_fd_from_env : simpl never.

Section lemmas.
Context {K : Type} `{HV : HasView K, FO : FdOps K, FL : !FdLaws K, BC : Bincode K, BL : !BincodeLaws K}.
Implicit Types k : K.

(** The environment an upgrading parent sets up. *)
Definition upgrade_env (rfd wfd : Z) (k : K) : Prop :=
  v_env (view k) !! ENV_UPGRADE = Some (Some UPGRADE_TRUE_VAL) /\
  v_env (view k) !! ENV_PIPE_FDS = Some (Some (fmt_int rfd)) /\
  v_env (view k) !! ENV_PIPE_READY = Some (Some (fmt_int wfd)).

Lemma pipe_fd_from_env_ok name fd k :
  in_i32 fd -> v_env (view k) !! name = Some (Some (fmt_int fd)) ->
  pipe_fd_from_env name k = (Ret (Ok fd), k).
Proof.
  intros Hfd Hv. unfold pipe_fd_from_env, env_var. msimpl. rewrite Hv.
  by rewrite parse_i32_fmt_int.
Qed.

(** In an upgrade, the child gets the list that was sent and the ready pipe;
    its only effect is to close the pipe it read from. *)
Lemma init_child_upgrade rfd wfd e l bs rest k :
  in_i32 rfd -> in_i32 wfd -> upgrade_env rfd wfd k ->
  fds k !! rfd = Some e -> serialize l = Ok bs ->
  v_pipes (view k) !! fd_desc e = Some (bs +:+ rest) ->
  exists k', init_child k = (Ret (Ok (l, wfd)), k') /\
    fds k' = delete rfd (fds k) /\ same_rest k k'.
Proof.
  intros Hr Hw (Hu & Hf & Hrdy) He Hs Hp.
  destruct (deserialize_serialized _ _ _ _ _ _ Hs He Hp) as (k1 & E1).
  destruct (deserialize_frame rfd k) as (F1 & R1). rewrite E1 in F1, R1. cbn in *.
  destruct (close_fd_quiet_run rfd k1) as (k2 & E2 & V2).
  exists k2. unfold init_child.
  rewrite (run_bind _ _ k (env_var ENV_UPGRADE k) k) by done.
  unfold env_var at 1. rewrite Hu, bool_decide_eq_true_2 by done.
  rewrite (run_bindq_ok _ _ _ _ _ (pipe_fd_from_env_ok _ _ _ Hr Hf)).
  rewrite (run_bind _ _ k (Ok l) k1) by (unfold call; by rewrite E1).
  rewrite (run_bind _ _ _ _ _ E2). cbn [map_err].
  rewrite (run_bindq_ok _ _ _ l k2) by done.
  assert (R2 : same_rest k k2) by (etrans; [exact R1|by eapply same_rest_fds]).
  destruct (R2) as (Henv & _).
  rewrite (run_bindq_ok _ _ _ wfd k2) by (apply pipe_fd_from_env_ok; [done|by rewrite Henv]).
  split; [done|]. by rewrite (fds_set_fds _ _ _ V2), F1.
Qed.

Lemma init_child_not_upgrade k :
  v_env (view k) !! ENV_UPGRADE = None -> init_child k = (Ret (Err NotAnUpgrade), k).
Proof. intros Hv. unfold init_child, env_var. msimpl. by rewrite Hv. Qed.

Lemma init_child_bad_value k v :
  v_env (view k) !! ENV_UPGRADE = Some v -> v <> Some UPGRADE_TRUE_VAL ->
  exists msg, init_child k = (Ret (Err (BadEnvironment msg)), k).
Proof.
  intros Hv Hne. unfold init_child, env_var. msimpl. rewrite Hv.
  destruct v as [s|]; [|by eexists].
  rewrite bool_decide_eq_false_2 by congruence. by eexists.
Qed.

(** [init_child] never panics. *)
Lemma init_child_returns k : exists r k', init_child k = (Ret r, k').
Proof.
  unfold init_child.
  assert (Hp : forall n k0, exists r, pipe_fd_from_env n k0 = (Ret r, k0)).
  { intros n k0. unfold pipe_fd_from_env. msimpl. eauto. }
  rewrite (run_bind _ _ k (env_var ENV_UPGRADE k) k) by done.
  destruct (env_var ENV_UPGRADE k) as [s|[]]; [|by eexists _, _..].
  case_bool_decide; [|by eexists _, _].
  destruct (Hp ENV_PIPE_FDS k) as [[fd|e] E];
    [rewrite (run_bindq_ok _ _ _ _ _ E)|rewrite (run_bindq_err _ _ _ _ _ E); by eexists _, _].
  destruct (deserialize_from fd k) as [d k1] eqn:Ed.
  rewrite (run_bind _ _ k d k1) by (unfold call; by rewrite Ed).
  destruct (close_fd_quiet_run fd k1) as (k2 & E2 & _). rewrite (run_bind _ _ _ _ _ E2).
  destruct d as [l|e]; cbn [map_err];
    [rewrite (run_bindq_ok _ _ _ l k2) by done|rewrite (run_bindq_err _ _ _ (DeserializationError e) k2) by done; by eexists _, _].
  destruct (Hp ENV_PIPE_READY k2) as [[rf|e] Er];
    [rewrite (run_bindq_ok _ _ _ _ _ Er)|rewrite (run_bindq_err _ _ _ _ _ Er)]; by eexists _, _.
Qed.
End lemmas.
