(* ===== verification/Executioner.v ===== *)
(** * Executioner: [src/executioner.rs], up to the point where the child runs

    Creating the two pipes, starting the child with them, and dropping the ends
    the parent does not keep. The threads that then wait for the child are in
    [UpgradeThreads]. The theorems: on every failing path the parent's
    descriptor table is what it was; on success the parent keeps exactly one
    end of each pipe, and the child holds exactly the registered sockets, the
    two other pipe ends and what was never close-on-exec. *)

From S2P Require Import Prelude Text Addr Posix PosixModel Utils Registry Bincode.
Local Open Scope Z_scope.

(** The systemd variables the child must not see ([systemd_sockets.rs]). *)
Definition LISTEN_PID : string := "LISTEN_PID".
Definition LISTEN_FDNAMES : string := "LISTEN_FDNAMES".
Definition LISTEN_FDS : string := "LISTEN_FDS".

Record FdPair : Type := MkFdPair { recv_listeners_fd : Z; send_ready_fd : Z }.

Record UpgradePipes : Type := MkPipes {
  recv_ready : Z;
  send_listeners : Z;
  pipe_fds : FdPair
}.

Section executioner.
Context {K : Type} `{HV : HasView K, FO : FdOps K, PO : PipeOps K, PR : ProcOps K, BC : Bincode K}.

Inductive UpgradeError : Type :=
| ChildExit
| ChildTimeout
| NotStarted (msg : string)
| SerializationError (e : bincode_error).

(** What [Command::spawn] leaves behind: a child running the new image, or one
    that died between [fork] and [exec]. *)
Inductive Child : Type :=
| Running (kc : K)
| DiedBeforeExec.

(** [format!("{:?}", e)] of an [io::Error], and whether the crate is built with
    the [systemd_sockets] feature. *)
Context (debug_io : io_error -> string) (systemd_sockets : bool).

(** [impl From<Error> for UpgradeError] *)
Definition upgrade_error_from (e : io_error) : UpgradeError := NotStarted (debug_io e).

(** A pipe end that goes out of scope. *)
Definition drop_fd (fd : Z) : M K unit := close_fd_quiet fd.

Definition FdPair_drop (p : FdPair) : M K unit :=
  _ ← close_fd_quiet (recv_listeners_fd p);
  close_fd_quiet (send_ready_fd p).

Definition UpgradePipes_drop (p : UpgradePipes) : M K unit :=
  _ ← drop_fd (recv_ready p);
  _ ← drop_fd (send_listeners p);
  FdPair_drop (pipe_fds p).

Definition lift_io {A} (m : M K (result A io_error)) : M K (result A UpgradeError) :=
  r ← m; mret (map_err upgrade_error_from r).

Definition listener_pipes : M K (result (Z * Z) UpgradeError) :=
  '(recv_listeners, send_listeners) ←? lift_io (call os_pipe);
  owning (drop_fd send_listeners)
    (dropping
      (fd ←? lift_io (clone_fd recv_listeners);
       _ ← unset_cloexec fd;
       mret (Ok (fd, send_listeners)))
      (drop_fd recv_listeners)).

Definition ready_pipes : M K (result (Z * Z) UpgradeError) :=
  '(recv_ready, send_ready) ←? lift_io (call os_pipe);
  owning (drop_fd recv_ready)
    (dropping
      (fd ←? lift_io (clone_fd send_ready);
       _ ← unset_cloexec fd;
       mret (Ok (recv_ready, fd)))
      (drop_fd send_ready)).

Definition UpgradePipes_new : M K (result UpgradePipes UpgradeError) :=
  '(recv_listeners_fd, send_listeners) ←? listener_pipes;
  owning (drop_fd send_listeners)
    (r ← ready_pipes;
     match r with
     | Err e =>
       _ ← close_fd_quiet recv_listeners_fd;
       mret (Err e)
     | Ok (recv_ready, send_ready_fd) =>
       mret (Ok (MkPipes recv_ready send_listeners
                   (MkFdPair recv_listeners_fd send_ready_fd)))
     end).

(** [take_pipes(self)]: the two kept ends are moved out, the [FdPair] dropped. *)
Definition take_pipes (p : UpgradePipes) : M K (Z * Z) :=
  _ ← FdPair_drop (pipe_fds p);
  mret (recv_ready p, send_listeners p).

(** The environment [Command] builds: the parent's, with the set variables
    added and the removed ones taken out. *)
Definition child_env (p : FdPair) (env : gmap string (option string)) :
    gmap string (option string) :=
  let env' :=
    <[ENV_PIPE_READY := Some (fmt_int (send_ready_fd p))]>
      (<[ENV_PIPE_FDS := Some (fmt_int (recv_listeners_fd p))]>
         (<[ENV_UPGRADE := Some UPGRADE_TRUE_VAL]> env)) in
  if systemd_sockets then delete LISTEN_FDS (delete LISTEN_FDNAMES (delete LISTEN_PID env'))
  else env'.

(** The [pre_exec] hook, run in the forked child. *)
Definition pre_exec (inherit_fds : list ListenerInfo) : M K (result unit io_error) :=
  _ ← for_each (fun i => unset_cloexec (li_fd i)) inherit_fds;
  mret (Ok tt).

(** [Command::spawn] with a hook. An error in the child before [exec] is
    reported to the parent; a panic of the hook aborts the child unreported. *)
Definition spawn (cmdline : string) (args : list string) (cwd : string)
    (env : gmap string (option string)) (hook : M K (result unit io_error)) :
    M K (result Child io_error) :=
  f ← call sys_fork;
  mret match f with
  | Err e => Err (OsError e)
  | Ok kc =>
    match sys_chdir cwd kc with
    | (Err e, _) => Err (OsError e)
    | (Ok _, kc1) =>
      match hook kc1 with
      | (Ret (Ok _), kc2) =>
        match sys_exec cmdline args env kc2 with
        | Ok kc3 => Ok (Running kc3)
        | Err e => Err (OsError e)
        end
      | (Ret (Err e), _) => Err e
      | (Panic _, _) | (Exit _, _) => Ok DiedBeforeExec
      end
    end
  end.

Definition exec_upgraded (p : FdPair) (inherit_fds : list ListenerInfo) :
    M K (result Child io_error) :=
  run_args ← gets env_args;
  '(cmdline, args) ← expect_some "removal index should be < len" (vec_remove 0 run_args);
  cwd ←? gets env_current_dir;
  env ← gets (fun k => v_env (view k));
  spawn cmdline args cwd (child_env p env) (pre_exec inherit_fds).

(** The part of [upgrade] before its threads start, on the global [UPGRADING].
    Both [?] return with the flag still set. *)
Definition upgrade_start (fds : list ListenerInfo) :
    M (bool * K) (result (Child * Z * Z) UpgradeError) :=
  upgrading ← self;
  _ ← set_self true;
  if (upgrading : bool) then mret (Err (NotStarted "Already in upgrade"))
  else
    kern
      (pipes ←? UpgradePipes_new;
       owning (UpgradePipes_drop pipes)
         (child ←? lift_io (exec_upgraded (pipe_fds pipes) fds);
          mret (Ok (child, pipes))))
    ≫= fun r =>
    match r with
    | Err e => mret (Err e)
    | Ok (child, pipes) =>
      '(recv_ready, send_listeners) ← kern (take_pipes pipes);
      mret (Ok (child, recv_ready, send_listeners))
    end.
End executioner.

#[global] Arguments UpgradeError K {BC}.
#[global] Arguments Child : clear implicits.
#[global] Arguments listener_pipes : simpl never.
#[global] Arguments ready_pipes : simpl never.
#[global] Arguments UpgradePipes_new : simpl never.
#[global] Arguments exec_upgraded : simpl never.
#[global] Arguments spawn : simpl never.
#[global] Arguments upgrade_start : simpl never.
#[global] Arguments take_pipes : simpl never.
#[global] Arguments FdPair_drop : simpl never.
#[global] Arguments UpgradePipes_drop : simpl never.

(** ** What the pieces do to the descriptor table *)

Section lemmas.
Context {K : Type} `{HV : HasView K, FO : FdOps K, FL : !FdLaws K, PO : PipeOps K,
  PL : !PipeLaws K, PR : ProcOps K, PRL : !ProcLaws K, BC : Bincode K}.
Context (debug_io : io_error -> string) (systemd_sockets : bool).
Implicit Types k : K.

Lemma drop_fd_run fd k :
  exists k', drop_fd fd k = (Ret tt, k') /\ fds k' = delete fd (fds k) /\ same_rest k k'.
Proof.
  destruct (close_fd_quiet_run fd k) as (k' & E & V). exists k'.
  split; [done|]. split; [by apply fds_set_fds in V|by eapply same_rest_fds].
Qed.

Lemma lift_io_ok {A} (m : M K (result A io_error)) k a k' :
  m k = (Ret (Ok a), k') -> lift_io debug_io m k = (Ret (Ok a), k').
Proof. intros E. unfold lift_io. by rewrite (run_bind _ _ _ _ _ E). Qed.

Lemma lift_io_err {A} (m : M K (result A io_error)) k e k' :
  m k = (Ret (Err e), k') -> lift_io debug_io m k = (Ret (Err (NotStarted (debug_io e))), k').
Proof. intros E. unfold lift_io. by rewrite (run_bind _ _ _ _ _ E). Qed.

Lemma run_call_eq {A} (f : K -> A * K) k a k' : f k = (a, k') -> call f k = (Ret a, k').
Proof. intros E. unfold call. by rewrite E. Qed.

(** The step both pipe constructors share: duplicate one end of a fresh pipe,
    make the duplicate inheritable and close the original. *)
Lemma dup_end (x : Z) (e : fdent) (give : Z -> Z * Z) k :
  fds k !! x = Some e -> 0 <= x ->
  let body :=
    dropping (fd ←? lift_io debug_io (clone_fd x);
              _ ← unset_cloexec fd; mret (Ok (give fd))) (drop_fd x) in
  (exists n k', body k = (Ret (Ok (give n)), k') /\ 0 <= n <= i32_max /\ fds k !! n = None /\
     fds k' = <[n := Fd (fd_desc e) false]> (delete x (fds k)) /\ same_rest k k') \/
  (exists err k', body k = (Ret (Err err), k') /\ fds k' = delete x (fds k) /\ same_rest k k').
Proof.
  intros Hx Hx0 body. destruct (clone_fd_cases x k)
    as [(n & k1 & e' & E1 & He' & Hn & Hfree & V1)|(err & k1 & E1 & V1)].
  - left. rewrite Hx in He'. injection He' as <-.
    assert (Hl : fds k1 !! n = Some (Fd (fd_desc e) true)).
    { rewrite (fds_set_fds _ _ _ V1). by rewrite lookup_insert_eq. }
    destruct (unset_cloexec_open n k1 _ Hl) as (k2 & E2 & V2).
    destruct (drop_fd_run x k2) as (k3 & E3 & F3 & R3).
    exists n, k3. split.
    { subst body. erewrite run_dropping_ret;
        [|rewrite (run_bindq_ok _ _ _ _ _ (lift_io_ok _ _ _ _ E1)), (run_bind _ _ _ _ _ E2); done].
      by rewrite E3. }
    split; [lia|]. split; [done|]. split.
    + rewrite F3, (fds_set_fds _ _ _ V2), (fds_set_fds _ _ _ V1), insert_insert_eq. cbn.
      apply delete_insert_ne. congruence.
    + etrans; [by eapply same_rest_fds|]. etrans; [by eapply same_rest_fds|done].
  - right. destruct (drop_fd_run x k1) as (k2 & E2 & F2 & R2).
    eexists _, k2. split.
    { subst body. erewrite run_dropping_ret;
        [|by rewrite (run_bindq_err _ _ _ _ _ (lift_io_err _ _ _ _ E1))].
      by rewrite E2. }
    split; [rewrite F2; unfold fds; by rewrite V1|].
    etrans; [by apply same_rest_eq|done].
Qed.

(** Two new descriptors of the parent, on two new descriptions. *)
Record new_pair (k : K) (inh own : Z) (di dow : N) : Prop := {
  np_ne : inh <> own;
  np_inh_free : fds k !! inh = None;
  np_own_free : fds k !! own = None;
  np_inh_fresh : fresh_desc di k;
  np_own_fresh : fresh_desc dow k;
  np_desc_ne : di <> dow;
  np_inh_range : 0 <= inh <= i32_max;
  np_own_range : 0 <= own <= i32_max
}.

Definition pipe_outcome (k : K) (inh own : Z) (k' : K) : Prop :=
  exists di dow, new_pair k inh own di dow /\
    fds k' = <[inh := Fd di false]> (<[own := Fd dow true]> (fds k)) /\ same_rest k k'.

Definition unchanged (k k' : K) : Prop := fds k' = fds k /\ same_rest k k'.

(** The table bookkeeping of both constructors, [x] the end that is duplicated
    and [y] the one that is kept. *)
Lemma pipe_tables (t : gmap Z fdent) x y n dx dy :
  t !! x = None -> t !! y = None -> x <> y ->
  <[x := Fd dx true]> (<[y := Fd dy true]> t) !! n = None ->
  <[n := Fd dx false]> (delete x (<[x := Fd dx true]> (<[y := Fd dy true]> t))) =
    <[n := Fd dx false]> (<[y := Fd dy true]> t) /\
  delete y (delete x (<[x := Fd dx true]> (<[y := Fd dy true]> t))) = t /\
  n <> y /\ t !! n = None.
Proof.
  intros Hx Hy Hxy Hn. rewrite !lookup_insert in Hn. repeat case_decide; try done.
  rewrite delete_insert_id, delete_insert_id by (rewrite ?lookup_insert_ne; done).
  repeat split; congruence.
Qed.

Lemma listener_pipes_cases k :
  (exists n w k', listener_pipes debug_io k = (Ret (Ok (n, w)), k') /\ pipe_outcome k n w k') \/
  (exists e k', listener_pipes debug_io k = (Ret (Err e), k') /\ unchanged k k').
Proof.
  unfold listener_pipes. destruct (os_pipe k) as [[[r w]|e] k1] eqn:Ep.
  - destruct (pipe_ok _ _ _ _ Ep)
      as (dr & dw & Hrw & Hd & Hr & Hw & Hfr & Hfw & Fdr & Fdw & T1 & R1).
    rewrite (run_bindq_ok _ _ _ _ _ (lift_io_ok _ _ _ _ (run_call_eq _ _ _ _ Ep))).
    assert (Hl : fds k1 !! r = Some (Fd dr true)) by by rewrite T1, lookup_insert_eq.
    destruct (dup_end r _ (fun fd => (fd, w)) k1 Hl ltac:(lia))
      as [(n & k2 & E2 & Hn & Hfree & T2 & R2)|(err & k2 & E2 & T2 & R2)].
    + left. exists n, w, k2. rewrite (run_owning_ok _ _ _ _ _ E2). split; [done|].
      rewrite T1 in T2, Hfree. cbn [fd_desc] in T2.
      destruct (pipe_tables _ _ _ _ _ _ Hfr Hfw Hrw Hfree) as (Et & _ & ? & ?).
      exists dr, dw. rewrite Et in T2. split; [by constructor|]. split; [done|]. by etrans.
    + right. destruct (drop_fd_run w k2) as (k3 & E3 & T3 & R3).
      exists err, k3. rewrite (run_owning_err _ _ _ _ _ E2), E3. split; [done|].
      split; [|by etrans; [|etrans]]. rewrite T3, T2, T1.
      rewrite delete_insert_id, delete_insert_id by (rewrite ?lookup_insert_ne; done). done.
  - right. eexists _, k1.
    rewrite (run_bindq_err _ _ _ _ _ (lift_io_err _ _ _ _ (run_call_eq _ _ _ _ Ep))).
    split; [done|]. apply pipe_err in Ep. split; [unfold fds; by rewrite Ep|by apply same_rest_eq].
Qed.

Lemma ready_pipes_cases k :
  (exists r n k', ready_pipes debug_io k = (Ret (Ok (r, n)), k') /\ pipe_outcome k n r k') \/
  (exists e k', ready_pipes debug_io k = (Ret (Err e), k') /\ unchanged k k').
Proof.
  unfold ready_pipes. destruct (os_pipe k) as [[[r w]|e] k1] eqn:Ep.
  - destruct (pipe_ok _ _ _ _ Ep)
      as (dr & dw & Hrw & Hd & Hr & Hw & Hfr & Hfw & Fdr & Fdw & T1 & R1).
    rewrite (run_bindq_ok _ _ _ _ _ (lift_io_ok _ _ _ _ (run_call_eq _ _ _ _ Ep))).
    rewrite insert_insert_ne in T1 by done.
    assert (Hl : fds k1 !! w = Some (Fd dw true)) by by rewrite T1, lookup_insert_eq.
    destruct (dup_end w _ (fun fd => (r, fd)) k1 Hl ltac:(lia))
      as [(n & k2 & E2 & Hn & Hfree & T2 & R2)|(err & k2 & E2 & T2 & R2)].
    + left. exists r, n, k2. rewrite (run_owning_ok _ _ _ _ _ E2). split; [done|].
      rewrite T1 in T2, Hfree. cbn [fd_desc] in T2.
      destruct (pipe_tables _ _ _ _ _ _ Hfw Hfr (not_eq_sym Hrw) Hfree) as (Et & _ & ? & ?).
      exists dw, dr. rewrite Et in T2. split; [by constructor|]. split; [done|]. by etrans.
    + right. destruct (drop_fd_run r k2) as (k3 & E3 & T3 & R3).
      exists err, k3. rewrite (run_owning_err _ _ _ _ _ E2), E3. split; [done|].
      split; [|by etrans; [|etrans]]. rewrite T3, T2, T1.
      rewrite delete_insert_id, delete_insert_id by (rewrite ?lookup_insert_ne; done). done.
  - right. eexists _, k1.
    rewrite (run_bindq_err _ _ _ _ _ (lift_io_err _ _ _ _ (run_call_eq _ _ _ _ Ep))).
    split; [done|]. apply pipe_err in Ep. split; [unfold fds; by rewrite Ep|by apply same_rest_eq].
Qed.

(** Both pipes made: four new descriptors on four new descriptions. *)
Record pipes_made (k : K) (p : UpgradePipes) (dlr dlw drr drw : N) (k' : K) : Prop := {
  pm_fds : fds k' =
    <[send_ready_fd (pipe_fds p) := Fd drw false]> (<[recv_ready p := Fd drr true]>
      (<[recv_listeners_fd (pipe_fds p) := Fd dlr false]>
        (<[send_listeners p := Fd dlw true]> (fds k))));
  pm_distinct : NoDup [send_ready_fd (pipe_fds p); recv_ready p;
                       recv_listeners_fd (pipe_fds p); send_listeners p];
  pm_free : Forall (fun fd => fds k !! fd = None /\ 0 <= fd <= i32_max)
    [send_ready_fd (pipe_fds p); recv_ready p;
     recv_listeners_fd (pipe_fds p); send_listeners p];
  pm_fresh : Forall (fun d => fresh_desc d k) [dlr; dlw; drr; drw];
  pm_descs : NoDup [dlr; dlw; drr; drw];
  pm_rest : same_rest k k'
}.

Lemma pipes_made_intro k k1 k2 n1 w1 r2 n2 :
  pipe_outcome k n1 w1 k1 -> pipe_outcome k1 n2 r2 k2 ->
  exists dlr dlw drr drw,
    pipes_made k (MkPipes r2 w1 (MkFdPair n1 n2)) dlr dlw drr drw k2.
Proof.
  intros (dlr & dlw & P1 & T1 & R1) (drw & drr & P2 & T2 & R2).
  destruct P1, P2. exists dlr, dlw, drr, drw.
  assert (Hold : forall fd e, fds k !! fd = Some e -> fds k1 !! fd = Some e).
  { intros fd e He. rewrite T1, !lookup_insert_ne by congruence. done. }
  assert (Hd1 : forall d, fresh_desc d k1 -> fresh_desc d k /\ d <> dlr /\ d <> dlw).
  { intros d Hf. split; [|split].
    - intros fd e He. by apply (Hf fd e), Hold.
    - intros ->. apply (Hf n1 (Fd dlr false)); [|done]. by rewrite T1, lookup_insert_eq.
    - intros ->. apply (Hf w1 (Fd dlw true)); [|done].
      by rewrite T1, lookup_insert_ne, lookup_insert_eq. }
  destruct (Hd1 _ np_inh_fresh1) as (? & ? & ?), (Hd1 _ np_own_fresh1) as (? & ? & ?).
  rewrite T1, !lookup_insert in np_inh_free1, np_own_free1. repeat case_decide; try done.
  split; cbn.
  - by rewrite T2, T1.
  - solve_nodup.
  - repeat constructor; try done; lia.
  - by repeat constructor.
  - solve_nodup.
  - by etrans.
Qed.

Lemma UpgradePipes_new_cases k :
  (exists p dlr dlw drr drw k', UpgradePipes_new debug_io k = (Ret (Ok p), k') /\
     pipes_made k p dlr dlw drr drw k') \/
  (exists e k', UpgradePipes_new debug_io k = (Ret (Err e), k') /\ unchanged k k').
Proof.
  unfold UpgradePipes_new.
  destruct (listener_pipes_cases k) as [(n & w & k1 & E1 & P1)|(e & k1 & E1 & U1)];
    [rewrite (run_bindq_ok _ _ _ _ _ E1)|
     rewrite (run_bindq_err _ _ _ _ _ E1); right; by eexists _, _].
  destruct (ready_pipes_cases k1) as [(r & n2 & k2 & E2 & P2)|(e & k2 & E2 & T2 & R2)].
  - left. destruct (pipes_made_intro _ _ _ _ _ _ _ P1 P2) as (dlr & dlw & drr & drw & Hm).
    eexists _, dlr, dlw, drr, drw, k2. split; [|exact Hm].
    apply run_owning_ok. by rewrite (run_bind _ _ _ _ _ E2).
  - right. destruct P1 as (di & dow & [] & T1 & R1).
    destruct (drop_fd_run n k2) as (k3 & E3 & T3 & R3).
    destruct (drop_fd_run w k3) as (k4 & E4 & T4 & R4).
    exists e, k4. split.
    + erewrite run_owning_err; [by rewrite E4|].
      unfold drop_fd in E3. by rewrite (run_bind _ _ _ _ _ E2), (run_bind _ _ _ _ _ E3).
    + split; [|by do 3 (etrans; [eassumption|])].
      rewrite T4, T3, T2, T1, delete_insert_id, delete_insert_id
        by (rewrite ?lookup_insert_ne; done). done.
Qed.

(** *** Starting the child *)

(** What [exec] leaves of a table when the listed descriptors were made
    inheritable: they and those that were not close-on-exec, on the same
    descriptions. *)
Definition inherited_table (l : list ListenerInfo) (t t' : gmap Z fdent) : Prop :=
  forall fd, t' !! fd =
    match t !! fd with
    | Some e => if bool_decide (fd ∈ li_fd <$> l) || negb (fd_cloexec e)
                then Some (Fd (fd_desc e) false) else None
    | None => None
    end.

Lemma unset_all_run (l : list ListenerInfo) k :
  Forall (fun li => is_Some (fds k !! li_fd li)) l ->
  exists k', for_each (fun i => unset_cloexec (li_fd i)) l k = (Ret tt, k') /\
    same_rest k k' /\ v_pipes (view k') = v_pipes (view k) /\
    forall fd, fds k' !! fd =
      if decide (fd ∈ li_fd <$> l) then (fun e => Fd (fd_desc e) false) <$> fds k !! fd
      else fds k !! fd.
Proof.
  revert k. induction l as [|li l IH]; intros k Hl; cbn.
  { by exists k. }
  apply Forall_cons in Hl as [[e He] Hl].
  destruct (unset_cloexec_open _ _ _ He) as (k1 & E1 & V1).
  pose proof (fds_set_fds _ _ _ V1) as T1.
  destruct (IH k1) as (k2 & E2 & R2 & Pi2 & H2).
  { apply (Forall_impl _ _ _ Hl). intros x Hx. rewrite T1, lookup_insert. by case_decide. }
  exists k2. rewrite (run_bind _ _ _ _ _ E1). split; [done|].
  split; [etrans; [by eapply same_rest_fds|done]|]. split; [rewrite Pi2; by rewrite V1|].
  intros fd. rewrite H2, T1, lookup_insert.
  destruct (decide (li_fd li = fd)) as [<-|Hne].
  - rewrite He. rewrite (decide_True (P := li_fd li ∈ li_fd li :: _)) by set_solver.
    by case_decide.
  - repeat case_decide; set_solver.
Qed.

Lemma pre_exec_open (l : list ListenerInfo) k :
  Forall (fun li => is_Some (fds k !! li_fd li)) l ->
  exists k', pre_exec l k = (Ret (Ok tt), k') /\ same_rest k k' /\
    inherited_table l (fds k) (survives_exec (fds k')).
Proof.
  intros Hl. destruct (unset_all_run l k Hl) as (k' & E & R & _ & H).
  exists k'. unfold pre_exec. rewrite (run_bind _ _ _ _ _ E). peel 2.
  intros fd. apply option_eq. intros x. rewrite survives_exec_lookup, H.
  destruct (fds k !! fd) as [[d c]|]; cbn; [|case_decide; naive_solver].
  case_decide; [rewrite bool_decide_eq_true_2 by done|rewrite bool_decide_eq_false_2 by done];
    destruct c; cbn; naive_solver.
Qed.

(** The child runs the new image, or the parent gets an error; the parent's own
    state does not change either way. *)
Lemma spawn_cases cmd args cwd env l k :
  Forall (fun li => is_Some (fds k !! li_fd li)) l ->
  (exists kc k', spawn cmd args cwd env (pre_exec l) k = (Ret (Ok (Running kc)), k') /\
     view k' = view k /\ inherited_table l (fds k) (fds kc) /\ v_env (view kc) = env /\
     v_files (view kc) = v_files (view k) /\ v_args (view kc) = cmd :: args) \/
  (exists e k', spawn cmd args cwd env (pre_exec l) k = (Ret (Err e), k') /\ view k' = view k).
Proof.
  intros Hl. unfold spawn. msimpl. destruct (sys_fork k) as [[kc|e] k'] eqn:Ef.
  2:{ right. eexists _, _. split; [done|]. by apply fork_err in Ef. }
  destruct (fork_ok _ _ _ Ef) as (Vp & Tc & _ & Fc & Ac).
  pose proof (chdir_view cwd kc) as Vd. destruct (sys_chdir cwd kc) as [[[]|e] kc1]; cbn in Vd.
  2:{ right. by eexists _, _. }
  assert (T1 : fds kc1 = fds k) by (unfold fds in *; by rewrite Vd).
  destruct (pre_exec_open l kc1) as (kc2 & E2 & (_ & F2 & _ & A2) & H2); [by rewrite T1|].
  rewrite E2. destruct (sys_exec cmd args env kc2) as [kc3|e] eqn:E3.
  2:{ right. by eexists _, _. }
  destruct (exec_ok _ _ _ _ _ E3) as (T3 & V3 & F3 & _ & A3).
  left. exists kc3, k'. peel 2. rewrite T3, <- T1.
  peel 2. split; [rewrite F3, F2, Vd; done|done].
Qed.

Lemma exec_upgraded_cases p l k :
  env_args k <> [] -> Forall (fun li => is_Some (fds k !! li_fd li)) l ->
  (exists kc k', exec_upgraded systemd_sockets p l k = (Ret (Ok (Running kc)), k') /\
     view k' = view k /\ inherited_table l (fds k) (fds kc) /\
     v_env (view kc) = child_env systemd_sockets p (v_env (view k)) /\
     v_files (view kc) = v_files (view k) /\ env_args kc = env_args k) \/
  (exists e k', exec_upgraded systemd_sockets p l k = (Ret (Err e), k') /\ view k' = view k).
Proof.
  intros Ha Hl. unfold exec_upgraded.
  rewrite (run_bind _ _ k (env_args k) k) by done.
  destruct (env_args k) as [|cmd args] eqn:Ea; [done|]. cbn.
  rewrite (run_bind _ _ k (cmd, args) k) by done.
  destruct (env_current_dir k) as [cwd|e] eqn:Ec.
  - rewrite (run_bindq_ok _ _ k cwd k) by (unfold gets; by rewrite Ec).
    rewrite (run_bind _ _ k (v_env (view k)) k) by done. by apply spawn_cases.
  - right. exists e, k. split; [|done]. apply run_bindq_err. unfold gets. by rewrite Ec.
Qed.

(** *** The start of an upgrade *)

Lemma pipes_made_lookup_old k p dlr dlw drr drw k' fd :
  pipes_made k p dlr dlw drr drw k' -> is_Some (fds k !! fd) -> fds k' !! fd = fds k !! fd.
Proof.
  intros [T _ Hfree _ _ _] [e He]. repeat (apply Forall_cons in Hfree as [[? ?] Hfree]).
  rewrite T, !lookup_insert_ne by congruence. done.
Qed.

(** Dropping all four ends restores the parent's table. *)
Lemma UpgradePipes_drop_restores k p dlr dlw drr drw k1 :
  pipes_made k p dlr dlw drr drw k1 ->
  exists k2, UpgradePipes_drop p k1 = (Ret tt, k2) /\ unchanged k k2.
Proof.
  intros [T Hd Hfree _ _ R]. unfold UpgradePipes_drop, FdPair_drop.
  destruct (drop_fd_run (recv_ready p) k1) as (k2 & E2 & T2 & R2).
  destruct (drop_fd_run (send_listeners p) k2) as (k3 & E3 & T3 & R3).
  destruct (close_fd_quiet_run (recv_listeners_fd (pipe_fds p)) k3) as (k4 & E4 & V4).
  destruct (close_fd_quiet_run (send_ready_fd (pipe_fds p)) k4) as (k5 & E5 & V5).
  exists k5. rewrite (run_bind _ _ _ _ _ E2), (run_bind _ _ _ _ _ E3), (run_bind _ _ _ _ _ E4), E5.
  split; [done|]. split.
  - rewrite (fds_set_fds _ _ _ V5), (fds_set_fds _ _ _ V4), T3, T2, T.
    repeat (apply Forall_cons in Hfree as [[? ?] Hfree]).
    apply map_eq. intros fd. rewrite !lookup_delete, !lookup_insert. repeat case_decide; congruence.
  - do 2 (etrans; [eassumption|]). etrans; [eassumption|].
    etrans; eapply same_rest_fds; eassumption.
Qed.

(** Taking the kept ends leaves exactly those two. *)
Lemma take_pipes_run k p dlr dlw drr drw k1 :
  pipes_made k p dlr dlw drr drw k1 ->
  exists k2, take_pipes p k1 = (Ret (recv_ready p, send_listeners p), k2) /\
    fds k2 = <[recv_ready p := Fd drr true]> (<[send_listeners p := Fd dlw true]> (fds k)) /\
    same_rest k k2.
Proof.
  intros [T Hd Hfree _ _ R]. unfold take_pipes, FdPair_drop.
  destruct (close_fd_quiet_run (recv_listeners_fd (pipe_fds p)) k1) as (k2 & E2 & V2).
  destruct (close_fd_quiet_run (send_ready_fd (pipe_fds p)) k2) as (k3 & E3 & V3).
  exists k3. rewrite (run_bind _ _ _ tt k3) by by rewrite (run_bind _ _ _ _ _ E2).
  split; [done|]. split.
  - rewrite (fds_set_fds _ _ _ V3), (fds_set_fds _ _ _ V2), T.
    repeat (apply Forall_cons in Hfree as [[? ?] Hfree]).
    apply NoDup4 in Hd as (? & ? & ? & ? & ? & ?).
    apply map_eq. intros fd. rewrite !lookup_delete, !lookup_insert.
    repeat case_decide; congruence.
  - etrans; [eassumption|]. etrans; eapply same_rest_fds; eassumption.
Qed.

(** What a started upgrade leaves: the parent's table and the child. *)
Record upgrade_started (l : list ListenerInfo) (k : K) (kc : K) (rr sl : Z) (k' : K)
    (rl sr : Z) (dlr dlw drr drw : N) : Prop := {
  us_parent : fds k' = <[rr := Fd drr true]> (<[sl := Fd dlw true]> (fds k));
  us_parent_free : fds k !! rr = None /\ fds k !! sl = None /\ rr <> sl;
  us_child : forall fd, fds kc !! fd =
    if decide (fd = rl) then Some (Fd dlr false)
    else if decide (fd = sr) then Some (Fd drw false)
    else match fds k !! fd with
         | Some e => if bool_decide (fd ∈ li_fd <$> l) || negb (fd_cloexec e)
                     then Some (Fd (fd_desc e) false) else None
         | None => None
         end;
  us_child_new : fds k !! rl = None /\ fds k !! sr = None /\ rl <> sr;
  us_range : in_i32 rl /\ in_i32 sr;
  us_env : v_env (view kc) = child_env systemd_sockets (MkFdPair rl sr) (v_env (view k));
  us_args : env_args kc = env_args k;
  us_fresh : Forall (fun d => fresh_desc d k) [dlr; dlw; drr; drw];
  us_descs : NoDup [dlr; dlw; drr; drw];
  us_rest : same_rest k k'
}.

Lemma upgrade_started_intro l k p dlr dlw drr drw k1 kc k2 :
  Forall (fun li => is_Some (fds k !! li_fd li)) l ->
  pipes_made k p dlr dlw drr drw k1 ->
  inherited_table l (fds k1) (fds kc) ->
  v_env (view kc) = child_env systemd_sockets (pipe_fds p) (v_env (view k1)) ->
  env_args kc = env_args k1 ->
  fds k2 = <[recv_ready p := Fd drr true]> (<[send_listeners p := Fd dlw true]> (fds k)) ->
  same_rest k k2 ->
  upgrade_started l k kc (recv_ready p) (send_listeners p) k2
    (recv_listeners_fd (pipe_fds p)) (send_ready_fd (pipe_fds p)) dlr dlw drr drw.
Proof.
  intros Hl Hm Ht He Ha T2 R2. pose proof Hm as [T Hd Hfree Hfresh Hds (Re & _ & _ & Ra)].
  repeat (apply Forall_cons in Hfree as [[? ?] Hfree]).
  apply NoDup4 in Hd as (? & ? & ? & ? & ? & ?).
  assert (Hnl : forall fd, fds k !! fd = None -> fd ∉ li_fd <$> l).
  { intros fd Hn (li & -> & Hli)%list_elem_of_fmap. rewrite Forall_forall in Hl.
    destruct (Hl li Hli). congruence. }
  split; try done.
  - intros fd. rewrite Ht, T, !lookup_insert.
    repeat case_decide; subst; try done; try congruence; cbn;
      rewrite ?bool_decide_eq_false_2 by (by apply Hnl); try done;
      match goal with H : fds k !! ?x = None |- context [fds k !! ?x] => by rewrite H end.
  - unfold in_i32, i32_min in *. lia.
  - rewrite He, Re. by destruct (pipe_fds p).
  - rewrite Ha. unfold env_args. by rewrite Ra.
Qed.

Lemma pipes_made_view k p dlr dlw drr drw k1 k1' :
  view k1' = view k1 -> pipes_made k p dlr dlw drr drw k1 -> pipes_made k p dlr dlw drr drw k1'.
Proof.
  intros V [T ? ? ? ? R]. split; try done; [unfold fds in *; by rewrite V|].
  etrans; [exact R|by apply same_rest_eq].
Qed.

Lemma upgrade_start_busy l k :
  upgrade_start debug_io systemd_sockets l (true, k) =
    (Ret (Err (NotStarted "Already in upgrade")), (true, k)).
Proof. done. Qed.

Lemma upgrade_start_run l k r k' (m := UpgradePipes_new debug_io) :
  bindq m (fun pipes => owning (UpgradePipes_drop pipes)
    (child ←? lift_io debug_io (exec_upgraded systemd_sockets (pipe_fds pipes) l);
     mret (Ok (child, pipes)))) k = (Ret r, k') ->
  upgrade_start debug_io systemd_sockets l (false, k) =
    match r with
    | Err e => (Ret (Err e), (true, k'))
    | Ok (child, pipes) =>
      (('(recv_ready, send_listeners) ← kern (take_pipes pipes);
       mret (Ok (child, recv_ready, send_listeners))) : M (bool * K) _) (true, k')
    end.
Proof.
  intros E. unfold upgrade_start.
  rewrite (run_bind _ _ (false, k) false (false, k)) by done.
  rewrite (run_bind _ _ (false, k) tt (true, k)) by done.
  rewrite (run_bind _ _ _ _ _ (run_kern _ true _ _ _ E)).
  by destruct r as [[? ?]|?].
Qed.

Lemma upgrade_start_cases l k :
  env_args k <> [] -> Forall (fun li => is_Some (fds k !! li_fd li)) l ->
  (exists kc rr sl k' rl sr dlr dlw drr drw,
     upgrade_start debug_io systemd_sockets l (false, k) =
       (Ret (Ok (Running kc, rr, sl)), (true, k')) /\
     upgrade_started l k kc rr sl k' rl sr dlr dlw drr drw) \/
  (exists e k', upgrade_start debug_io systemd_sockets l (false, k) =
       (Ret (Err e), (true, k')) /\ unchanged k k').
Proof.
  intros Ha Hl.
  destruct (UpgradePipes_new_cases k)
    as [(p & dlr & dlw & drr & drw & k1 & E1 & Hm)|(e & k1 & E1 & U1)].
  2:{ right. exists e, k1. split; [|done].
      by rewrite (upgrade_start_run l k _ _ (run_bindq_err _ _ _ _ _ E1)). }
  assert (Hl1 : Forall (fun li => is_Some (fds k1 !! li_fd li)) l).
  { apply (Forall_impl _ _ _ Hl). intros li Hli.
    by rewrite (pipes_made_lookup_old _ _ _ _ _ _ _ _ Hm Hli). }
  assert (Ha1 : env_args k1 <> []).
  { destruct (pm_rest _ _ _ _ _ _ _ Hm) as (_ & _ & _ & Hargs). unfold env_args in *. by rewrite Hargs. }
  destruct (exec_upgraded_cases (pipe_fds p) l k1 Ha1 Hl1)
    as [(kc & k2 & E2 & V2 & Ht & He & _ & Hargs)|(e & k2 & E2 & V2)].
  - left. pose proof (pipes_made_view _ _ _ _ _ _ _ _ V2 Hm) as Hm2.
    destruct (take_pipes_run _ _ _ _ _ _ _ Hm2) as (k3 & E3 & T3 & R3).
    eexists kc, _, _, k3, _, _, dlr, dlw, drr, drw. split.
    + rewrite (upgrade_start_run l k (Ok (Running kc, p)) k2).
      * by rewrite (run_bind _ _ _ _ _ (run_kern _ true _ _ _ E3)).
      * rewrite (run_bindq_ok _ _ _ _ _ E1). apply run_owning_ok.
        by rewrite (run_bindq_ok _ _ _ _ _ (lift_io_ok _ _ _ _ E2)).
    + by apply (upgrade_started_intro l k p dlr dlw drr drw k1 kc k3).
  - right. pose proof (pipes_made_view _ _ _ _ _ _ _ _ V2 Hm) as Hm2.
    destruct (UpgradePipes_drop_restores _ _ _ _ _ _ _ Hm2) as (k3 & E3 & U3).
    exists (NotStarted (debug_io e)), k3. split; [|done].
    rewrite (upgrade_start_run l k (Err (NotStarted (debug_io e))) k3); [done|].
    rewrite (run_bindq_ok _ _ _ _ _ E1). erewrite run_owning_err; [by rewrite E3|].
    by rewrite (run_bindq_err _ _ _ _ _ (lift_io_err _ _ _ _ E2)).
Qed.

(** ** Properties *)

(** C6. Starting an upgrade, when every registered descriptor is open and the
    process has an argument vector, either fails with the parent's descriptor
    table exactly as before, or leaves a running child such that: the parent
    gained exactly the read end of the ready pipe and the write end of the
    listener pipe, both close-on-exec; the child holds the two opposite ends,
    every registered socket under the same number on the same description,
    whatever was not close-on-exec, and nothing else; it has the parent's
    arguments and the upgrade's environment. It never panics. *)
Theorem upgrade_start_spec (l : list ListenerInfo) (k : K) :
  env_args k <> [] -> Forall (fun li => is_Some (fds k !! li_fd li)) l ->
  (exists kc rr sl k' rl sr dlr dlw drr drw,
     upgrade_start debug_io systemd_sockets l (false, k) =
       (Ret (Ok (Running kc, rr, sl)), (true, k')) /\
     upgrade_started l k kc rr sl k' rl sr dlr dlw drr drw) \/
  (exists e k', upgrade_start debug_io systemd_sockets l (false, k) =
       (Ret (Err e), (true, k')) /\ fds k' = fds k /\ same_rest k k').
Proof. apply upgrade_start_cases. Qed.

(** C38. A failed start blocks every later upgrade: when the pipes cannot be
    created or the child cannot be spawned, [UPGRADING] stays set, and from
    then on every call, with any listeners and whatever the operating system
    does in between, returns "Already in upgrade" without trying. *)
Theorem failed_start_blocks_upgrades (l : list ListenerInfo) (k : K) (e : UpgradeError K)
    (s' : bool * K) :
  upgrade_start debug_io systemd_sockets l (false, k) = (Ret (Err e), s') ->
  forall (l2 : list ListenerInfo) (k2 : K),
    upgrade_start debug_io systemd_sockets l2 (s'.1, k2) =
      (Ret (Err (NotStarted "Already in upgrade")), (true, k2)).
Proof.
  intros E l2 k2. assert (Hs : s'.1 = true); [|by rewrite Hs].
  revert E. unfold upgrade_start.
  rewrite (run_bind _ _ (false, k) false (false, k)) by done.
  rewrite (run_bind _ _ (false, k) tt (true, k)) by done.
  unfold mbind at 1, M_bind at 1. unfold kern at 1.
  destruct (bindq _ _ k) as [[[[c p]|e']| |] k1]; [|by intros [= _ <-]|done..].
  unfold mbind, M_bind, kern. by destruct (take_pipes p k1) as [[[? ?]| |] ?].
Qed.
End lemmas.

(** ** Witnesses *)

Definition show_error (e : io_error) : string :=
  match e with OsError n => fmt_int n | CustomError m => m end.

(** A server with one registered socket, close-on-exec as the registry keeps
    them, and a private descriptor. *)
Definition serving : model :=
  boot ∅ (<[3 := Fd 30 true]> (<[4 := Fd 40 true]> ∅)).

Definition serving_fds : list ListenerInfo := [LInfo 4 (Tcp (V4 0 80))].

Lemma upgrade_start_spec_witness :
  exists kc rr sl k' rl sr dlr dlw drr drw,
    upgrade_start show_error false serving_fds (false, serving) =
      (Ret (Ok (Running kc, rr, sl)), (true, k')) /\
    upgrade_started false serving_fds serving kc rr sl k' rl sr dlr dlw drr drw.
Proof.
  destruct (upgrade_start_spec show_error false serving_fds serving) as [H|(e & k' & E & _)].
  - by vm_compute.
  - repeat constructor. by eexists.
  - exact H.
  - exfalso. revert E. by vm_compute.
Defined.

(** The same server on a system where the new binary cannot be executed. *)
Definition broken : model := Model (md_view serving) 64 ∅ false.

Lemma failed_start_blocks_upgrades_witness :
  exists e s', upgrade_start show_error false serving_fds (false, broken) =
      (Ret (Err (NotStarted e)), s') /\
    upgrade_start show_error false serving_fds (s'.1, serving) =
      (Ret (Err (NotStarted "Already in upgrade")), (true, serving)).
Proof.
  set (r := upgrade_start show_error false serving_fds (false, broken)).
  exists "2", r.2. split; [by vm_compute|].
  apply (failed_start_blocks_upgrades show_error false serving_fds broken (NotStarted "2") r.2).
  by vm_compute.
Defined.
