(* ===== verification/Ecdysis.v ===== *)
(** * Ecdysis: [src/lib.rs]

    The upgrade manager: start-up, the listeners it hands out (inherited when
    the parent had one for the address, new otherwise), readiness, upgrade and
    shutdown. *)

From S2P Require Import Prelude Text Addr Posix PosixModel Utils Registry RegistrySpec.
From S2P Require Import Bincode Listener Inheriter Executioner.
Local Open Scope Z_scope.

Record Ecdysis : Type := MkEcdysis {
  registry : ListenerRegistry;
  ready_notifier : option Z;
  pid_file : option string;
  child : bool
}.

Definition set_registry (r : ListenerRegistry) (e : Ecdysis) : Ecdysis :=
  MkEcdysis r (ready_notifier e) (pid_file e) (child e).
Definition set_notifier (n : option Z) (e : Ecdysis) : Ecdysis :=
  MkEcdysis (registry e) n (pid_file e) (child e).

Section ecdysis.
Context {K : Type} `{HV : HasView K, FO : FdOps K, PO : PipeOps K, PR : ProcOps K,
  FS : FsOps K, SO : SockOps K, BC : Bincode K}.

(** A method of the registry, called on [self.registry]. *)
Definition in_registry {A} (m : M (ListenerRegistry * K) A) : M (Ecdysis * K) A :=
  field registry set_registry m.

Definition Ecdysis_new : M K Ecdysis :=
  r ← init_child;
  match r with
  | Ok (fds, ready_pipe) =>
    mret (MkEcdysis (from_inherited fds) (Some ready_pipe) None true)
  | Err NotAnUpgrade => mret (MkEcdysis reg_new None None false)
  | Err _ => exit 1
  end.

Definition is_child (e : Ecdysis) : bool := child e.

Definition set_pid_file (path : string) : M (Ecdysis * K) unit :=
  e ← self;
  set_self (MkEcdysis (registry e) (ready_notifier e) (Some path) (child e)).

Definition write_pidfile : M (Ecdysis * K) (result unit io_error) :=
  e ← self;
  match pid_file e with
  | Some path => kern (write_pid_file path)
  | None => mret (Ok tt)
  end.

(** The notifier is taken out, written to and dropped. *)
Definition ready : M (Ecdysis * K) (result unit io_error) :=
  _ ← in_registry close_inherited;
  _ ← write_pidfile;
  e ← self;
  _ ← set_self (set_notifier None e);
  match ready_notifier e with
  | Some notifier =>
    r ← kern (call (pipe_write_all notifier "OK"));
    _ ← kern (close_fd_quiet notifier);
    mret r
  | None => mret (Ok tt)
  end.

Definition quit : M (Ecdysis * K) unit := in_registry close_used.

(** A new listener: described, registered, and closed again if either fails. *)
Definition register_new {L} `{Listener K L} (l : L) : M (Ecdysis * K) (result L io_error) :=
  owning (kern (drop_listener l))
    (i ←? kern (info l);
     _ ←? in_registry (add i);
     mret (Ok l)).

Definition listen_unix (path : string) : M (Ecdysis * K) (result UnixListener io_error) :=
  o ← in_registry (inherit (Unix (Some path)));
  match o with
  | Some fd => mret (Ok (MkUnix fd))
  | None =>
    fd ←? kern (call (unix_bind path));
    register_new (MkUnix fd)
  end.

Definition listen_unix_seqpacket (path : string) :
    M (Ecdysis * K) (result UnixSeqpacketListener io_error) :=
  o ← in_registry (inherit (UnixSeqpacket (Some path)));
  match o with
  | Some fd => kern (try_from_raw_fd fd)
  | None =>
    fd ←? kern (call (seqpacket_bind path));
    register_new (MkSeqpacket fd)
  end.

(** [sock_build] is the caller's closure; it owns the socket it is given. *)
Definition build_listen_tcp (addr : SocketAddr)
    (sock_build : Z -> SocketAddr -> M K (result TcpListener io_error)) :
    M (Ecdysis * K) (result TcpListener io_error) :=
  o ← in_registry (inherit (Tcp addr));
  match o with
  | Some fd => mret (Ok (MkTcp fd))
  | None =>
    builder ←? kern (call (socket_new (for_address addr) STREAM));
    listener ←? kern (sock_build builder addr);
    register_new listener
  end.

(** The closure of [listen_tcp]. *)
Definition bind_and_listen (b : Z) (addr : SocketAddr) : M K (result TcpListener io_error) :=
  owning (close_fd_quiet b)
    (_ ←? call (sock_bind b addr);
     _ ←? call (sock_listen b 128);
     mret (Ok (MkTcp b))).

Definition listen_tcp (addr : SocketAddr) : M (Ecdysis * K) (result TcpListener io_error) :=
  build_listen_tcp addr bind_and_listen.

Definition build_socket_udp (addr : SocketAddr)
    (sock_build : Z -> SocketAddr -> M K (result UdpSocket io_error)) :
    M (Ecdysis * K) (result UdpSocket io_error) :=
  o ← in_registry (inherit (Udp addr));
  match o with
  | Some fd => mret (Ok (MkUdp fd))
  | None =>
    builder ←? kern (call (socket_new (for_address addr) DGRAM));
    socket ←? kern (sock_build builder addr);
    register_new socket
  end.

(** The far end of the new pair is dropped when the closure ends: the registry
    keeps a duplicate; the near end is dropped only if that failed. *)
Definition unix_datagram_pair (name : string) :
    M (Ecdysis * K) (option UnixDatagram * result UnixDatagram io_error) :=
  o ← in_registry (take (UnboundUnixDatagram name));
  unwinding (match o with Some fd => kern (close_fd_quiet fd) | None => mret tt end)
    (p ← kern (call datagram_pair);
     r ← match p with
         | Err e => mret (Err e)
         | Ok (to_child, childs) =>
           dropping
             (owning (kern (close_fd_quiet to_child))
               (_ ←? in_registry (add (LInfo childs (UnboundUnixDatagram name)));
                mret (Ok (MkDatagram to_child))))
             (kern (close_fd_quiet childs))
         end;
     mret (MkDatagram <$> o, r)).

(** [Ecdysis::upgrade] on the object and the global [UPGRADING]; [wait] is what
    [executioner::upgrade] does once the child runs ([UpgradeThreads]). *)
Context (debug_io : io_error -> string) (systemd_sockets : bool).
Context (wait : list ListenerInfo -> Child K -> Z -> Z ->
                M (bool * K) (result unit (UpgradeError K))).

Definition exec_upgrade (l : list ListenerInfo) : M (bool * K) (result unit (UpgradeError K)) :=
  '(c, recv_ready, send_listeners) ←? upgrade_start debug_io systemd_sockets l;
  wait l c recv_ready send_listeners.

Definition Ecdysis_upgrade : M ((Ecdysis * bool) * K) (result unit (UpgradeError K)) :=
  fds ← field fst (fun e o => (e, o.2)) (in_registry get_fds_for_child);
  r ← field snd (fun b o => (o.1, b)) (exec_upgrade fds);
  match r with
  | Ok _ => mret (Ok tt)
  | Err e =>
    _ ← field fst (fun e o => (e, o.2)) write_pidfile;
    mret (Err e)
  end.

(** Fields are dropped in order. *)
Definition Ecdysis_drop : M (Ecdysis * K) unit :=
  _ ← in_registry reg_drop;
  e ← self;
  match ready_notifier e with
  | Some fd => kern (close_fd_quiet fd)
  | None => mret tt
  end.
End ecdysis.

#[global] Arguments Ecdysis_new : simpl never.
#[global] Arguments ready : simpl never.
#[global] Arguments write_pidfile : simpl never.
#[global] Arguments register_new : simpl never.
#[global] Arguments in_registry : simpl never.

(** The descriptors an [Ecdysis] holds: the registry's and the pipe to the
    parent. *)
Definition object_fds (e : Ecdysis) : list Z :=
  (li_fd <$> m_val (inherited_fds (registry e)) ++ m_val (used_fds (registry e))) ++
  option_list (ready_notifier e).

(** ** Registry calls seen from the object *)

Section lemmas.
Context {K : Type} `{HV : HasView K, FO : FdOps K, FL : !FdLaws K, PO : PipeOps K,
  FS : FsOps K, SO : SockOps K, SL : !SockLaws K, BC : Bincode K}.
Implicit Types (k : K) (e : Ecdysis) (a : ARegistry).

Definition ecdysis_at (a : ARegistry) (s : Ecdysis * K) : Prop :=
  registry_at a (registry s.1, s.2).

(** Only the registry of the object changed. *)
Definition same_object (e e' : Ecdysis) : Prop := e' = set_registry (registry e') e.

Lemma in_registry_run {A} (m : M (ListenerRegistry * K) A) e k r reg k' :
  m (registry e, k) = (r, (reg, k')) -> in_registry m (e, k) = (r, (set_registry reg e, k')).
Proof. apply run_field. Qed.

(** The descriptor of the [p]-th inherited entry is made close-on-exec, but cannot
    be duplicated. *)
Definition dup_fails (p : nat) (s : Ecdysis * K) (k' : K) : Prop :=
  exists li err, m_val (inherited_fds (registry s.1)) !! p = Some li /\
    clone_fd (li_fd li) (set_cloexec (li_fd li) s.2).2 = (Ret (Err err), k').

(** The two outcomes of asking for a socket the parent handed over. *)
Lemma inherit_outcome si a e k p si' d :
  ecdysis_at a (e, k) ->
  position (a_asks si) (a_inherited a) = Some p -> a_inherited a !! p = Some (si', d) ->
  (exists fd e' k', in_registry (inherit si) (e, k) = (Ret (Some fd), (e', k')) /\
     fds k' !! fd = Some (Fd d true) /\ same_object e e' /\
     ecdysis_at (AReg (delete p (a_inherited a)) (a_used a ++ [(si, d)])) (e', k')) \/
  (exists e' k', in_registry (inherit si) (e, k) = (Ret None, (e', k')) /\ same_object e e' /\
     dup_fails p (e, k) k' /\
     ecdysis_at (AReg (delete p (a_inherited a)) (a_used a)) (e', k')).
Proof.
  intros (i & u & Hr & Hw & Ha) Hp Hd. cbn in Hr, Hw, Ha.
  destruct (inherit_spec si i u k a Hw Ha) as (o & i' & u' & k' & a' & E0 & Hstep & Hw' & Ha' & Ho).
  pose proof E0 as E. rewrite <- Hr in E. apply in_registry_run in E.
  inversion Hstep as [? i0 u0 p0 si0 d0 Hp0 Hl0|? i0 u0 p0 Hp0|? i0 u0 Hp0| | | | | | | |]; subst;
    cbn in *; try congruence.
  - left. destruct o as [fd|]; [|done]. cbn in *. simplify_eq.
    destruct (Ho fd eq_refl) as (_ & d' & Hd'). unfold desc_of in *. rewrite Hd' in *.
    simplify_eq/=. exists fd, (set_registry (live i' u') e), k'.
    repeat (split; [done|]). by exists i', u'.
  - right. rewrite Hp in Hp0. injection Hp0 as <-.
    destruct o as [fd|]; cbn in *.
    + destruct (Ho fd eq_refl) as (_ & d' & Hd'). unfold desc_of in *. by rewrite Hd' in *.
    + exists (set_registry (live i' u') e), k'. peel 2. split; [|by exists i', u'].
      destruct (inherit_lost si i u k _ p _ Hw Ha Hp E0) as (li & err & Hli & Ec).
      exists li, err. cbn. by rewrite Hr.
Qed.

Lemma inherit_miss si a e k :
  ecdysis_at a (e, k) -> position (a_asks si) (a_inherited a) = None ->
  in_registry (inherit si) (e, k) = (Ret None, (e, k)).
Proof.
  intros (i & u & Hr & Hw & Ha) Hp. cbn in *.
  destruct (take_spec si i u k a Hw Ha) as [[_ E]|(? & ? & ? & ? & ? & _)]; [|congruence].
  rewrite (in_registry_run _ e k (Ret None) (live i u) k).
  - rewrite <- Hr. by destruct e.
  - rewrite Hr. unfold inherit. by rewrite (run_bind _ _ _ _ _ E).
Qed.

(** The registry does not list the descriptor. *)
Definition unlisted (fd : Z) (e : Ecdysis) : Prop :=
  forall i u, registry e = live i u -> fd ∉ li_fd <$> i ++ u.

(** Any change of the table away from the registry's descriptors. *)
Lemma ecdysis_at_foreign a e k k' :
  ecdysis_at a (e, k) ->
  (forall fd, is_Some (fds k !! fd) -> ~ unlisted fd e -> fds k' !! fd = fds k !! fd) ->
  ecdysis_at a (e, k').
Proof.
  intros (i & u & Hr & Hw & Ha) Heq. exists i, u. cbn in *. split; [done|].
  apply (foreign_spec i u k k' a); [|done..]. apply Forall_forall. intros li Hli.
  apply Heq.
  - pose proof (wf_all_open _ _ _ Hw) as Ho. rewrite Forall_forall in Ho. by apply Ho.
  - intros Hul. apply (Hul i u Hr). by apply list_elem_of_fmap_2.
Qed.

Lemma ecdysis_at_close a e k k' fd :
  ecdysis_at a (e, k) -> unlisted fd e -> fds k' = delete fd (fds k) -> ecdysis_at a (e, k').
Proof.
  intros Hat Hul T. eapply ecdysis_at_foreign; [done|]. intros x Hx Hl.
  rewrite T. apply lookup_delete_ne. intros ->. by apply Hl.
Qed.

Lemma closed_unlisted a e k fd : ecdysis_at a (e, k) -> fds k !! fd = None -> unlisted fd e.
Proof.
  intros (i & u & Hr & Hw & Ha) Hn i' u' Hr'. cbn in *.
  rewrite Hr in Hr'. unfold live in Hr'. simplify_eq. by eapply wf_closed_fd_fresh.
Qed.

Lemma ecdysis_at_open a e k k' fd x :
  ecdysis_at a (e, k) -> fds k !! fd = None -> fds k' = <[fd := x]> (fds k) ->
  ecdysis_at a (e, k') /\ unlisted fd e.
Proof.
  intros Hat Hn T. split; [|by eapply closed_unlisted].
  eapply ecdysis_at_foreign; [done|]. intros y [? Hy] _.
  rewrite T. apply lookup_insert_ne. congruence.
Qed.

(** Registering a listener the process has just opened: it is recorded on its
    own description, or closed again with nothing else changed. *)
Lemma register_new_cases {L} `{LI : Listener K L, IL : !InfoLaws K L} (l : L) a e k d :
  ecdysis_at a (e, k) -> desc_of (fds k) (as_raw_fd l) = Some d -> unlisted (as_raw_fd l) e ->
  (exists li n e' k', register_new l (e, k) = (Ret (Ok l), (e', k')) /\
     info l k = (Ret (Ok li), k) /\ fds k !! n = None /\
     fds k' = <[n := Fd d true]> (fds k) /\ same_object e e' /\
     ecdysis_at (AReg (a_inherited a) (a_used a ++ [(li_sock_info li, d)])) (e', k')) \/
  (exists err k', register_new l (e, k) = (Ret (Err err), (e, k')) /\
     fds k' = delete (as_raw_fd l) (fds k) /\ ecdysis_at a (e, k')).
Proof.
  intros Hat Hd Hfree. pose proof Hat as (i & u & Hr & Hw & Ha). cbn in Hr, Hw, Ha.
  unfold register_new. destruct (info_pure l k) as ([li|err] & Ei & Hli).
  2:{ right. destruct (close_fd_quiet_run (as_raw_fd l) k) as (k' & E & V%fds_set_fds).
      exists err, k'. split; [|split; [done|by eapply ecdysis_at_close]].
      erewrite run_owning_err; [|apply run_bindq_err, run_kern; exact Ei].
      unfold drop_listener. by rewrite (run_kern _ _ _ _ _ E). }
  destruct (add_spec li i u k a Hw Ha)
    as [(n & d' & k' & Ea & Hd' & Hn & T & Hw' & Ha')|(err & k' & Ea & T)];
    rewrite <- Hr in Ea; apply in_registry_run in Ea.
  - left. rewrite Hli, Hd in Hd'. injection Hd' as <-.
    exists li, n, (set_registry (live i (u ++ [LInfo n (li_sock_info li)])) e), k'.
    split; [|peel 4; by eexists _, _].
    apply run_owning_ok.
    by rewrite (run_bindq_ok _ _ _ _ _ (run_kern _ e _ _ _ Ei)), (run_bindq_ok _ _ _ _ _ Ea).
  - right. destruct (close_fd_quiet_run (as_raw_fd l) k') as (k2 & E & V%fds_set_fds).
    rewrite T in V. exists (OsError err), k2. split; [|split; [done|by eapply ecdysis_at_close]].
    erewrite run_owning_err;
      [|rewrite (run_bindq_ok _ _ _ _ _ (run_kern _ e _ _ _ Ei)); apply run_bindq_err; exact Ea].
    unfold drop_listener. rewrite (run_kern _ _ _ _ _ E). cbn. by destruct e.
Qed.

(** A listener that was just created with [fd] on a new description. *)
Lemma register_created {L} `{LI : Listener K L, IL : !InfoLaws K L} (l : L) a e k k1 d :
  ecdysis_at a (e, k) -> fds k !! as_raw_fd l = None ->
  fds k1 = <[as_raw_fd l := Fd d true]> (fds k) ->
  (exists li n e' k', register_new l (e, k1) = (Ret (Ok l), (e', k')) /\
     info l k1 = (Ret (Ok li), k1) /\ n <> as_raw_fd l /\ fds k !! n = None /\
     fds k' = <[n := Fd d true]> (<[as_raw_fd l := Fd d true]> (fds k)) /\ same_object e e' /\
     ecdysis_at (AReg (a_inherited a) (a_used a ++ [(li_sock_info li, d)])) (e', k')) \/
  (exists err k', register_new l (e, k1) = (Ret (Err err), (e, k')) /\
     fds k' = fds k /\ ecdysis_at a (e, k')).
Proof.
  intros Hat Hfree T1. destruct (ecdysis_at_open a e k k1 _ _ Hat Hfree T1) as [Hat1 Hul].
  destruct (register_new_cases l a e k1 d Hat1) as
    [(li & n & e' & k' & E & Ei & Hn & T & Hs & Ha)|(err & k' & E & T & Ha)].
  - unfold desc_of. by rewrite T1, lookup_insert_eq.
  - done.
  - left. rewrite T1 in T, Hn. rewrite lookup_insert in Hn. case_decide; [done|].
    exists li, n, e', k'. by repeat (split; [done || congruence|]).
  - right. exists err, k'. split; [done|]. split; [|done].
    by rewrite T, T1, delete_insert_id.
Qed.
End lemmas.
