(* ===== verification/EcdysisSpec.v ===== *)
(** * EcdysisSpec: properties of the upgrade manager

    What the listen functions return for an address the parent handed over and
    for a new one, what [ready] does and in which order, how start-up decides
    whether this is an upgrade, and the chain of datagram pairs. *)

From S2P Require Import Prelude Text Addr Posix PosixModel Utils Registry RegistrySpec.
From S2P Require Import Bincode Listener Inheriter Executioner Ecdysis.
Local Open Scope Z_scope.

Section spec.
Context {K : Type} `{HV : HasView K, FO : FdOps K, FL : !FdLaws K, PO : PipeOps K,
  PL : !PipeLaws K, PR : ProcOps K, FS : FsOps K, FSL : !FsLaws K,
  SO : SockOps K, SL : !SockLaws K, BC : Bincode K, BL : !BincodeLaws K}.
Implicit Types (k : K) (e : Ecdysis) (a : ARegistry).

(** ** Listening on an address the parent handed over *)

(** The call hands back the inherited socket [d], close-on-exec, and registers
    it for the next child; or its descriptor could not be duplicated, and
    [inherit] reported nothing. *)
Definition hands_back {L} (mk : Z -> L) (m : M (Ecdysis * K) (result L io_error))
    (si : SockInfo) (a : ARegistry) (p : nat) (d : N) (s : Ecdysis * K) : Prop :=
  (exists fd e' k', m s = (Ret (Ok (mk fd)), (e', k')) /\
     fds k' !! fd = Some (Fd d true) /\ same_object s.1 e' /\
     ecdysis_at (AReg (delete p (a_inherited a)) (a_used a ++ [(si, d)])) (e', k')) \/
  (exists e' k', in_registry (inherit si) s = (Ret None, (e', k')) /\ dup_fails p s k' /\
     ecdysis_at (AReg (delete p (a_inherited a)) (a_used a)) (e', k')).

Lemma hands_back_intro {L} (mk : Z -> L) m si a p si' d e k :
  ecdysis_at a (e, k) ->
  position (a_asks si) (a_inherited a) = Some p -> a_inherited a !! p = Some (si', d) ->
  (forall fd e' k1, in_registry (inherit si) (e, k) = (Ret (Some fd), (e', k1)) ->
     exists k', m (e, k) = (Ret (Ok (mk fd)), (e', k')) /\ fds k' = fds k1) ->
  hands_back mk m si a p d (e, k).
Proof.
  intros Hat Hp Hl Hm.
  destruct (inherit_outcome si a e k p si' d Hat Hp Hl)
    as [(fd & e' & k' & E & Hfd & Hs & Ha)|(e' & k' & E & Hs & Hdup & Ha)].
  - left. destruct (Hm fd e' k' E) as (k2 & Em & T). exists fd, e', k2. rewrite T. peel 3.
    eapply ecdysis_at_foreign; [exact Ha|]. by rewrite T.
  - right. by exists e', k'.
Qed.

(** The seqpacket library may refuse the descriptor. *)
Lemma seqpacket_hands_back path a p si' d e k :
  ecdysis_at a (e, k) ->
  position (a_asks (UnixSeqpacket (Some path))) (a_inherited a) = Some p ->
  a_inherited a !! p = Some (si', d) ->
  hands_back MkSeqpacket (listen_unix_seqpacket path) (UnixSeqpacket (Some path)) a p d (e, k) \/
  exists fd e' k1 err k2,
    in_registry (inherit (UnixSeqpacket (Some path))) (e, k) = (Ret (Some fd), (e', k1)) /\
    fds k1 !! fd = Some (Fd d true) /\ seqpacket_from_raw_fd fd k1 = (Err err, k2) /\
    listen_unix_seqpacket path (e, k) = (Ret (Err err), (e', k2)).
Proof.
  intros Hat Hp Hl.
  assert (Hrun : forall fd e' k1 r k2,
    in_registry (inherit (UnixSeqpacket (Some path))) (e, k) = (Ret (Some fd), (e', k1)) ->
    seqpacket_from_raw_fd fd k1 = (r, k2) ->
    listen_unix_seqpacket path (e, k) = (Ret (res_map (fun _ => MkSeqpacket fd) r), (e', k2))).
  { intros fd e' k1 r k2 E Er. unfold listen_unix_seqpacket. rewrite (run_bind _ _ _ _ _ E).
    apply run_kern. cbn. unfold bindq. rewrite (run_bind _ _ _ _ _ (run_call_eq _ _ _ _ Er)). by destruct r. }
  destruct (inherit_outcome _ a e k p si' d Hat Hp Hl)
    as [(fd & e' & k1 & E & Hfd & Hs & Ha)|(e' & k1 & E & Hs & Hdup & Ha)];
    [|left; right; by exists e', k1].
  destruct (seqpacket_from_raw_fd fd k1) as [[[]|err] k2] eqn:Er.
  - left. eapply hands_back_intro; [done..|]. intros fd0 e0 k0 E0. rewrite E in E0. injection E0 as <- <- <-.
    exists k2. split; [by apply (Hrun _ _ _ _ _ E Er)|by eapply seqpacket_from_raw_ok].
  - right. exists fd, e', k1, err, k2. peel 3. by apply (Hrun _ _ _ _ _ E Er).
Qed.

(** C15. Listening in a child on an address its parent was listening on returns
    the parent's socket: for TCP, UDP, Unix and seqpacket listeners, the
    returned listener's descriptor refers to the very open file description the
    parent handed over (the first one recorded for the address), it is
    close-on-exec, it leaves the inherited list and is recorded for the next
    child; the builder closure plays no role. Only a failed duplication of that
    very descriptor can prevent it (then the entry is gone), and for a seqpacket
    listener a failure of its library to take the descriptor. *)
Theorem listen_returns_inherited (a : ARegistry) (e : Ecdysis) (k : K) :
  ecdysis_at a (e, k) ->
  (forall addr build p si' d,
     position (a_asks (Tcp addr)) (a_inherited a) = Some p ->
     a_inherited a !! p = Some (si', d) ->
     hands_back MkTcp (build_listen_tcp addr build) (Tcp addr) a p d (e, k)) /\
  (forall addr build p si' d,
     position (a_asks (Udp addr)) (a_inherited a) = Some p ->
     a_inherited a !! p = Some (si', d) ->
     hands_back MkUdp (build_socket_udp addr build) (Udp addr) a p d (e, k)) /\
  (forall path p si' d,
     position (a_asks (Unix (Some path))) (a_inherited a) = Some p ->
     a_inherited a !! p = Some (si', d) ->
     hands_back MkUnix (listen_unix path) (Unix (Some path)) a p d (e, k)) /\
  (forall path p si' d,
     position (a_asks (UnixSeqpacket (Some path))) (a_inherited a) = Some p ->
     a_inherited a !! p = Some (si', d) ->
     hands_back MkSeqpacket (listen_unix_seqpacket path) (UnixSeqpacket (Some path)) a p d (e, k) \/
     exists fd e' k1 err k2,
       in_registry (inherit (UnixSeqpacket (Some path))) (e, k) = (Ret (Some fd), (e', k1)) /\
       fds k1 !! fd = Some (Fd d true) /\ seqpacket_from_raw_fd fd k1 = (Err err, k2) /\
       listen_unix_seqpacket path (e, k) = (Ret (Err err), (e', k2))).
Proof.
  intros Hat. split; [|split; [|split]]; intros.
  4: by eapply seqpacket_hands_back.
  all: eapply hands_back_intro; try done; intros fd e' k1 E; exists k1;
    (unfold build_listen_tcp || unfold build_socket_udp || unfold listen_unix);
    by rewrite (run_bind _ _ _ _ _ E).
Qed.

(** ** Listening on a new address *)

(** A builder that configures the socket it is given, or closes it and fails. *)
Definition builds {L} (fd_of : L -> Z) (build : Z -> SocketAddr -> M K (result L io_error)) :=
  forall b addr k, is_Some (fds k !! b) ->
    (exists l k', build b addr k = (Ret (Ok l), k') /\ fd_of l = b /\ fds k' = fds k) \/
    (exists err k', build b addr k = (Ret (Err err), k') /\ fds k' = delete b (fds k)).

Lemma bind_and_listen_builds : builds tcp_fd bind_and_listen.
Proof.
  intros b addr k _. unfold bind_and_listen.
  pose proof (sock_bind_fds b addr k) as T1. destruct (sock_bind b addr k) as [[[]|e1] k1] eqn:E1; cbn in T1.
  - pose proof (sock_listen_fds b 128 k1) as T2.
    destruct (sock_listen b 128 k1) as [[[]|e2] k2] eqn:E2; cbn in T2.
    + left. exists (MkTcp b), k2. split; [|split; [done|congruence]].
      apply run_owning_ok.
      by rewrite (run_bindq_ok _ _ _ _ _ (run_call_eq _ _ _ _ E1)),
        (run_bindq_ok _ _ _ _ _ (run_call_eq _ _ _ _ E2)).
    + right. destruct (close_fd_quiet_run b k2) as (k3 & E3 & V3%fds_set_fds).
      exists e2, k3. split; [|congruence].
      erewrite run_owning_err; [by rewrite E3|].
      by rewrite (run_bindq_ok _ _ _ _ _ (run_call_eq _ _ _ _ E1)),
        (run_bindq_err _ _ _ _ _ (run_call_eq _ _ _ _ E2)).
  - right. destruct (close_fd_quiet_run b k1) as (k3 & E3 & V3%fds_set_fds).
    exists e1, k3. split; [|congruence].
    erewrite run_owning_err; [by rewrite E3|].
    by rewrite (run_bindq_err _ _ _ _ _ (run_call_eq _ _ _ _ E1)).
Qed.

(** The result of creating a listener: it is on a new description, which is
    recorded under the address the system reports; or the process' descriptors
    are exactly as before. *)
Definition creates_listener {L} `{Listener K L} (m : M (Ecdysis * K) (result L io_error))
    (a : ARegistry) (e : Ecdysis) (k : K) : Prop :=
  (exists (l : L) li n d k1 e' k', m (e, k) = (Ret (Ok l), (e', k')) /\
     info l k1 = (Ret (Ok li), k1) /\ fresh_desc d k /\
     n <> as_raw_fd l /\ fds k !! n = None /\ fds k !! as_raw_fd l = None /\
     fds k' = <[n := Fd d true]> (<[as_raw_fd l := Fd d true]> (fds k)) /\
     ecdysis_at (AReg (a_inherited a) (a_used a ++ [(li_sock_info li, d)])) (e', k')) \/
  (exists err k', m (e, k) = (Ret (Err err), (e, k')) /\ fds k' = fds k /\
     ecdysis_at a (e, k')).

Lemma creates_listener_intro {L} `{LI : Listener K L, IL : !InfoLaws K L} m (l : L) a e k k1 d :
  ecdysis_at a (e, k) -> fresh_desc d k -> fds k !! as_raw_fd l = None ->
  fds k1 = <[as_raw_fd l := Fd d true]> (fds k) ->
  m (e, k) = register_new l (e, k1) -> creates_listener m a e k.
Proof.
  intros Hat Hd Hn T1 Em.
  destruct (register_created l a e k k1 d Hat Hn T1) as
    [(li & n & e' & k' & E & Ei & Hne & Hfree & T & Hs & Ha)|(err & k' & E & T & Ha)].
  - left. exists l, li, n, d, k1, e', k'. rewrite Em. done.
  - right. exists err, k'. by rewrite Em.
Qed.

Lemma ecdysis_at_fds a e k k' : ecdysis_at a (e, k) -> fds k' = fds k -> ecdysis_at a (e, k').
Proof. intros Hat T. eapply ecdysis_at_foreign; [done|]. by rewrite T. Qed.

Lemma build_tcp_creates addr build a e k :
  ecdysis_at a (e, k) -> position (a_asks (Tcp addr)) (a_inherited a) = None ->
  builds tcp_fd build -> creates_listener (build_listen_tcp addr build) a e k.
Proof.
  intros Hat Hp Hb. pose proof (inherit_miss _ _ _ _ Hat Hp) as Ei.
  pose proof (socket_new_creates (for_address addr) STREAM k) as Hc.
  destruct (socket_new (for_address addr) STREAM k) as [[b|err] k1] eqn:Es.
  - destruct Hc as (d & Hr & Hn & Hd & T1).
    destruct (Hb b addr k1) as [(l & k2 & E2 & <- & T2)|(err & k2 & E2 & T2)].
    { rewrite T1, lookup_insert_eq. by eexists. }
    + eapply (creates_listener_intro _ l a e k k2 d); [done..|by rewrite T2, T1|].
      unfold build_listen_tcp. rewrite (run_bind _ _ _ _ _ Ei).
      rewrite (run_bindq_ok _ _ _ _ _ (run_kern _ e _ _ _ (run_call_eq _ _ _ _ Es))).
      by rewrite (run_bindq_ok _ _ _ _ _ (run_kern _ e _ _ _ E2)).
    + right. exists err, k2. split; [|split].
      * unfold build_listen_tcp. rewrite (run_bind _ _ _ _ _ Ei).
        rewrite (run_bindq_ok _ _ _ _ _ (run_kern _ e _ _ _ (run_call_eq _ _ _ _ Es))).
        by rewrite (run_bindq_err _ _ _ _ _ (run_kern _ e _ _ _ E2)).
      * by rewrite T2, T1, delete_insert_id.
      * eapply ecdysis_at_fds; [done|]. by rewrite T2, T1, delete_insert_id.
  - right. exists err, k1. split; [|split; [done|by eapply ecdysis_at_fds]].
    unfold build_listen_tcp. rewrite (run_bind _ _ _ _ _ Ei).
    by rewrite (run_bindq_err _ _ _ _ _ (run_kern _ e _ _ _ (run_call_eq _ _ _ _ Es))).
Qed.

Lemma unix_creates path a e k :
  ecdysis_at a (e, k) -> position (a_asks (Unix (Some path))) (a_inherited a) = None ->
  creates_listener (listen_unix path) a e k.
Proof.
  intros Hat Hp. pose proof (inherit_miss _ _ _ _ Hat Hp) as Ei.
  pose proof (unix_bind_creates path k) as Hc.
  destruct (unix_bind path k) as [[b|err] k1] eqn:Es.
  - destruct Hc as (d & Hr & Hn & Hd & T1).
    eapply (creates_listener_intro _ (MkUnix b) a e k k1 d); [done..|].
    unfold listen_unix. rewrite (run_bind _ _ _ _ _ Ei).
    by rewrite (run_bindq_ok _ _ _ _ _ (run_kern _ e _ _ _ (run_call_eq _ _ _ _ Es))).
  - right. exists err, k1. split; [|split; [done|by eapply ecdysis_at_fds]].
    unfold listen_unix. rewrite (run_bind _ _ _ _ _ Ei).
    by rewrite (run_bindq_err _ _ _ _ _ (run_kern _ e _ _ _ (run_call_eq _ _ _ _ Es))).
Qed.

(** C16. Listening on an address nobody handed over: [listen_tcp] (and
    [build_listen_tcp] with any builder that keeps or closes the socket it is
    given) and [listen_unix] either return a listener on a new socket, with a
    close-on-exec duplicate of it registered for the next child under the
    address the system reports for it, or fail with the process' descriptor
    table exactly as it was. *)
Theorem listen_creates_and_registers (a : ARegistry) (e : Ecdysis) (k : K) :
  ecdysis_at a (e, k) ->
  (forall addr build, position (a_asks (Tcp addr)) (a_inherited a) = None ->
     builds tcp_fd build -> creates_listener (build_listen_tcp addr build) a e k) /\
  (forall addr, position (a_asks (Tcp addr)) (a_inherited a) = None ->
     creates_listener (listen_tcp addr) a e k) /\
  (forall path, position (a_asks (Unix (Some path))) (a_inherited a) = None ->
     creates_listener (listen_unix path) a e k).
Proof.
  intros Hat. split; [|split].
  - intros. by apply build_tcp_creates.
  - intros addr Hp. apply build_tcp_creates; [done..|]. apply bind_and_listen_builds.
  - intros. by apply unix_creates.
Qed.

(** ** Readiness *)

Lemma write_pidfile_cases e k :
  (exists k' f, write_pidfile (e, k) = (Ret (Ok tt), (e, k')) /\
     view k' = set_files f (view k) /\
     forall path, pid_file e = Some path -> f !! path = Some (fmt_int (v_pid (view k)))) \/
  (exists msg k' f path, write_pidfile (e, k) = (Panic msg, (e, k')) /\
     view k' = set_files f (view k) /\ pid_file e = Some path).
Proof.
  unfold write_pidfile. rewrite (run_bind _ _ (e, k) e (e, k)) by done.
  destruct (pid_file e) as [path|] eqn:Ep.
  - destruct (write_pid_file_frame path k) as [f Vf].
    destruct (write_pid_file_cases path k) as [[E F]|(msg & E & F)];
      destruct (write_pid_file path k) as [o k'] eqn:Ew; cbn in Vf, E, F; subst o;
      rewrite (run_kern _ e _ _ _ Ew).
    + left. exists k', f. peel 2. intros ? [= <-].
      rewrite Vf in F. cbn in F. rewrite F. by rewrite lookup_insert_eq.
    + right. by exists msg, k', f, path.
  - left. exists k, (v_files (view k)). split; [done|]. split; [by destruct (view k)|done].
Qed.

(** The notifier of a child that has not reported yet. *)
Definition holds_notifier (w : Z) (d : N) (s : Ecdysis * K) : Prop :=
  ready_notifier s.1 = Some w /\ unlisted w s.1 /\ exists c, fds s.2 !! w = Some (Fd d c).

(** What [ready] leaves when it returns. *)
Definition ready_done (a : ARegistry) (e : Ecdysis) (k : K) (w : Z) (d : N)
    (r : result unit io_error) (s' : Ecdysis * K) : Prop :=
  ready_notifier s'.1 = None /\ ecdysis_at (AReg [] (a_used a)) s' /\
  (forall i u fd, registry e = live i u -> fds s'.2 !! fd =
     if decide (fd = w \/ fd ∈ li_fd <$> i) then None else fds k !! fd) /\
  (r = Ok tt -> v_written (view s'.2) =
     <[d := default "" (v_written (view k) !! d) +:+ "OK"]> (v_written (view k))) /\
  (forall path, pid_file e = Some path ->
     v_files (view s'.2) !! path = Some (fmt_int (v_pid (view k)))).

Lemma ready_notify a e k k1 k2 f w d (e1 := set_registry (live [] (m_val (used_fds (registry e)))) e) :
  ecdysis_at a (e, k) -> holds_notifier w d (e, k) ->
  in_registry close_inherited (e, k) = (Ret tt, (e1, k1)) ->
  fds k1 = foldr (fun li t => delete (li_fd li) t) (fds k) (m_val (inherited_fds (registry e))) ->
  v_written (view k1) = v_written (view k) -> v_pid (view k1) = v_pid (view k) ->
  ecdysis_at (AReg [] (a_used a)) (e1, k1) ->
  write_pidfile (e1, k1) = (Ret (Ok tt), (e1, k2)) -> view k2 = set_files f (view k1) ->
  (forall path, pid_file e1 = Some path -> f !! path = Some (fmt_int (v_pid (view k1)))) ->
  exists r s', ready (e, k) = (Ret r, s') /\
    registry s'.1 = live [] (m_val (used_fds (registry e))) /\ ready_done a e k w d r s'.
Proof.
  intros Hat (Hn & Hul & c & Hw) E1 T1 W1 P1 Ha1 E2 V2 Hf.
  assert (T2 : fds k2 = fds k1) by (unfold fds; by rewrite V2).
  unfold ready. rewrite (run_bind _ _ _ _ _ E1), (run_bind _ _ _ _ _ E2).
  rewrite (run_bind _ _ (e1, k2) e1 (e1, k2)) by done.
  rewrite (run_bind _ _ (e1, k2) tt (set_notifier None e1, k2)) by done.
  change (ready_notifier e1) with (ready_notifier e). cbn in Hn. rewrite Hn.
  destruct (pipe_write_all w "OK" k2) as [r k3] eqn:E3.
  destruct (close_fd_quiet_run w k3) as (k4 & E4 & V4).
  rewrite (run_bind _ _ _ r (set_notifier None e1, k3))
    by (apply run_kern, run_call_eq, E3).
  rewrite (run_bind _ _ _ _ _ (run_kern _ (set_notifier None e1) _ _ _ E4)).
  destruct Hat as (i & u & Hr & Hwf & _). cbn in Hr, Hwf.
  assert (T3 : fds k3 = fds k2 /\ v_files (view k3) = v_files (view k2)).
  { destruct r as [[]|err]; [|by apply pipe_write_err in E3].
    destruct (pipe_write_ok _ _ _ _ E3) as (x & _ & V3). unfold fds. by rewrite V3. }
  destruct T3 as [T3 F3].
  assert (Hw2 : fds k2 !! w = Some (Fd d c)).
  { rewrite T2, T1, Hr, closed_lookup; [done|]. cbn. specialize (Hul i u Hr). cbn in Hul.
    rewrite fmap_app, not_elem_of_app in Hul. by destruct Hul. }
  exists r, (set_notifier None e1, k4). peel 3. cbn.
  split; [|split; [|split]].
  - apply (ecdysis_at_close _ _ k2 _ w).
    + destruct (ecdysis_at_fds _ _ _ k2 Ha1 T2) as (i' & u' & ?). by exists i', u'.
    + intros i' u' Hr'. cbn in Hr'. rewrite Hr in Hr'. unfold live in Hr'. injection Hr' as <- <-.
      specialize (Hul i u Hr). rewrite fmap_app, not_elem_of_app in Hul. by destruct Hul.
    + by rewrite (fds_set_fds _ _ _ V4), T3.
  - intros i' u' fd Hr'. rewrite Hr in Hr'. unfold live in Hr'. simplify_eq.
    rewrite (fds_set_fds _ _ _ V4), T3, T2, T1, Hr. cbn.
    rewrite lookup_delete, foldr_delete_lookup. repeat case_decide; naive_solver.
  - intros ->. rewrite V4. cbn. destruct (pipe_write_ok _ _ _ _ E3) as (x & Hx & V3).
    rewrite Hw2 in Hx. injection Hx as <-. rewrite V3. cbn. rewrite V2. cbn. by rewrite W1.
  - intros path Hp. rewrite V4. cbn. rewrite F3, V2. cbn. rewrite Hf by done. by rewrite P1.
Qed.

(** [ready] on every path; when the pidfile panics, the registry's inherited
    descriptors are closed and nothing else has changed. *)
Lemma ready_cases (a : ARegistry) (e : Ecdysis) (k : K) (w : Z) (d : N) i u :
  ecdysis_at a (e, k) -> holds_notifier w d (e, k) -> registry e = live i u ->
  (exists r s', ready (e, k) = (Ret r, s') /\ registry s'.1 = live [] u /\ ready_done a e k w d r s') \/
  (exists msg k' path, ready (e, k) = (Panic msg, (set_registry (live [] u) e, k')) /\
     pid_file e = Some path /\ v_written (view k') = v_written (view k) /\
     fds k' = foldr (fun li t => delete (li_fd li) t) (fds k) i).
Proof.
  intros Hat Hn Hr. pose proof Hat as (i0 & u0 & Hr0 & Hwf & Ha). cbn in Hr0, Hwf, Ha.
  rewrite Hr in Hr0. unfold live in Hr0. injection Hr0 as <- <-.
  destruct (close_inherited_run i u k) as (k1 & E1 & V1).
  destruct (close_inherited_spec i u k a Hwf Ha) as (k1' & E1' & _ & Hw1 & Ha1).
  rewrite E1 in E1'. injection E1' as <-.
  rewrite <- Hr in E1. apply in_registry_run in E1.
  destruct (write_pidfile_cases (set_registry (live [] u) e) k1)
    as [(k2 & f & E2 & V2 & Hf)|(msg & k2 & f & path & E2 & V2 & Hp)].
  - left. destruct (ready_notify a e k k1 k2 f w d Hat Hn) as (r & s' & E & Hreg & Hd);
      rewrite ?Hr; cbn; try done.
    + by apply fds_set_fds in V1.
    + by rewrite V1.
    + by rewrite V1.
    + by exists [], u.
    + exists r, s'. rewrite Hr in Hreg. done.
  - right. exists msg, k2, path.
    unfold ready. rewrite (run_bind _ _ _ _ _ E1), (run_bind_panic _ _ _ _ _ E2).
    peel 2. split; [rewrite V2; cbn; by rewrite V1|].
    rewrite <- (fds_set_fds _ _ _ V1). unfold fds. by rewrite V2.
Qed.

(** C17. [ready] in a child: either every inherited socket nobody asked for is
    closed, the pidfile (if one is set) holds this process' id, and exactly
    "OK" is written to the parent's pipe, whose descriptor is then closed and
    forgotten, so that a second call writes nothing; or writing the pidfile
    panics, and the parent has been told nothing. *)
Theorem ready_spec (a : ARegistry) (e : Ecdysis) (k : K) (w : Z) (d : N) :
  ecdysis_at a (e, k) -> holds_notifier w d (e, k) ->
  (exists r s', ready (e, k) = (Ret r, s') /\ ready_done a e k w d r s') \/
  (exists msg s' path, ready (e, k) = (Panic msg, s') /\ pid_file e = Some path /\
     v_written (view s'.2) = v_written (view k) /\ ready_notifier s'.1 = Some w).
Proof.
  intros Hat Hn. pose proof Hat as (i & u & Hr & _). cbn in Hr.
  destruct (ready_cases a e k w d i u Hat Hn Hr)
    as [(r & s' & E & _ & Hd)|(msg & k' & path & E & Hp & Hw & _)].
  - left. by exists r, s'.
  - right. exists msg, (set_registry (live [] u) e, k'), path. by destruct Hn.
Qed.

(** [ready] in a process that was not started by an upgrade, or that has
    already reported: nothing is written to any pipe, whether it returns or
    panics over the pidfile. *)
Theorem ready_without_notifier (a : ARegistry) (e : Ecdysis) (k : K) :
  ecdysis_at a (e, k) -> ready_notifier e = None ->
  v_written (view (ready (e, k)).2.2) = v_written (view k) /\
  ((ready (e, k)).1 = Ret (Ok tt) \/ exists msg, (ready (e, k)).1 = Panic msg /\ pid_file e <> None).
Proof.
  intros (i & u & Hr & Hwf & Ha) Hn. cbn in Hr, Hwf, Ha.
  destruct (close_inherited_run i u k) as (k1 & E1 & V1).
  rewrite <- Hr in E1. apply in_registry_run in E1.
  unfold ready. rewrite (run_bind _ _ _ _ _ E1).
  destruct (write_pidfile_cases (set_registry (live [] u) e) k1)
    as [(k2 & f & E2 & V2 & _)|(msg & k2 & f & path & E2 & V2 & Hp)].
  - rewrite (run_bind _ _ _ _ _ E2).
    rewrite (run_bind _ _ (set_registry (live [] u) e, k2) (set_registry (live [] u) e) _) by done.
    erewrite run_bind by done. cbn. rewrite Hn. cbn. split; [|by left].
    rewrite V2. cbn. by rewrite V1.
  - rewrite (run_bind_panic _ _ _ _ _ E2). cbn. split; [rewrite V2; cbn; by rewrite V1|].
    right. exists msg. split; [done|]. cbn in Hp. by rewrite Hp.
Qed.

(** ** Start-up *)

(** Start-up is decided by the environment: without the upgrade variable the
    process is no child and starts with an empty registry; with any other value
    than "yes" (or one that is not Unicode) the process exits with code 1
    before touching anything; in every case [Ecdysis::new] returns or exits,
    never panics, and it holds a ready notifier exactly when it is a child. *)
Theorem new_decides_by_environment (k : K) :
  (v_env (view k) !! ENV_UPGRADE = None ->
     Ecdysis_new k = (Ret (MkEcdysis reg_new None None false), k)) /\
  (forall v, v_env (view k) !! ENV_UPGRADE = Some v -> v <> Some UPGRADE_TRUE_VAL ->
     Ecdysis_new k = (Exit 1, k)) /\
  ((exists e k', Ecdysis_new k = (Ret e, k') /\ pid_file e = None /\
      (is_child e = true <-> is_Some (ready_notifier e))) \/
   (exists k', Ecdysis_new k = (Exit 1, k'))).
Proof.
  unfold Ecdysis_new. split; [|split].
  - intros Hv. by rewrite (run_bind _ _ _ _ _ (init_child_not_upgrade k Hv)).
  - intros v Hv Hne. destruct (init_child_bad_value k v Hv Hne) as [msg E].
    by rewrite (run_bind _ _ _ _ _ E).
  - destruct (init_child_returns k) as (r & k' & E). rewrite (run_bind _ _ _ _ _ E).
    destruct r as [[l w]|[]]; [left|left|right|right]; eexists; try done.
    + exists k'. split; [done|]. cbn. by split.
    + exists k'. split; [done|]. cbn. peel 2. by intros [? ?].
Qed.

(** ** Datagram pairs *)

(** What creating the pair towards the next child leaves. *)
Definition pair_result (name : string) (a : ARegistry) (k1 : K)
    (r : result UnixDatagram io_error) (s' : Ecdysis * K) : Prop :=
  match r with
  | Ok near => exists dn df n,
      fresh_desc dn k1 /\ fresh_desc df k1 /\ dn <> df /\
      fds s'.2 = <[n := Fd df true]> (<[datagram_fd near := Fd dn true]> (fds k1)) /\
      fds k1 !! n = None /\ fds k1 !! datagram_fd near = None /\ n <> datagram_fd near /\
      ecdysis_at (AReg (a_inherited a) (a_used a ++ [(UnboundUnixDatagram name, df)])) s'
  | Err _ => fds s'.2 = fds k1 /\ ecdysis_at a s'
  end.

(** The far end is registered and dropped, or both ends are dropped. *)
Lemma pair_registered name a e k x y k1 :
  ecdysis_at a (e, k) -> datagram_pair k = (Ok (x, y), k1) ->
  exists r s', dropping
      (owning (kern (close_fd_quiet x))
        (_ ←? in_registry (add (LInfo y (UnboundUnixDatagram name)));
         mret (Ok (MkDatagram x))))
      (kern (close_fd_quiet y)) (e, k1) = (Ret r, s') /\
    pair_result name a k r s'.
Proof.
  intros Hat Ep.
  destruct (datagram_pair_ok _ _ _ _ Ep) as (dx & dy & Hxy & Hd & Hx & Hy & Fx & Fy & T1).
  assert (Hat1 : ecdysis_at a (e, k1)).
  { eapply ecdysis_at_foreign; [done|]. intros fd [z Hz] _.
    rewrite T1, !lookup_insert_ne by congruence. done. }
  assert (Hy1 : fds k1 !! y = Some (Fd dy true)) by by rewrite T1, lookup_insert_ne, lookup_insert_eq.
  pose proof (closed_unlisted a e k y Hat Hy) as Huly.
  pose proof Hat1 as (i & u & Hr & Hw & Ha). cbn in Hr, Hw, Ha.
  destruct (add_spec (LInfo y (UnboundUnixDatagram name)) i u k1 a Hw Ha)
    as [(n & d' & k2 & Ea & Hd' & Hn & T2 & Hw2 & Ha2)|(err & k2 & Ea & T2)];
    rewrite <- Hr in Ea; apply in_registry_run in Ea; cbn in Ea.
  - unfold desc_of in Hd'. cbn in Hd'. rewrite Hy1 in Hd'. injection Hd' as <-.
    destruct (close_fd_quiet_run y k2) as (k3 & E3 & V3%fds_set_fds).
    exists (Ok (MkDatagram x)),
      (set_registry (live i (u ++ [LInfo n (UnboundUnixDatagram name)])) e, k3). split.
    + erewrite run_dropping_ret; [|apply run_owning_ok; by rewrite (run_bindq_ok _ _ _ _ _ Ea)].
      by rewrite (run_kern _ _ _ _ _ E3).
    + rewrite T1, !lookup_insert in Hn. repeat case_decide; try done.
      exists dx, dy, n. peel 3. split.
      { cbn. rewrite V3, T2, T1. apply map_eq. intros fd.
        rewrite !lookup_delete, !lookup_insert. repeat case_decide; congruence. }
      do 3 (split; [done || congruence|]).
      apply (ecdysis_at_close _ _ k2 _ y); [by eexists _, _| |done].
      intros i' u' Hr'. cbn in Hr'. unfold live in Hr'. injection Hr' as <- <-.
      rewrite app_assoc, fmap_app, not_elem_of_app. split; [by apply Huly|].
      apply not_elem_of_cons. split; [cbn; congruence|apply not_elem_of_nil].
  - destruct (close_fd_quiet_run x k2) as (k3 & E3 & V3%fds_set_fds).
    destruct (close_fd_quiet_run y k3) as (k4 & E4 & V4%fds_set_fds).
    assert (T4 : fds k4 = fds k).
    { rewrite V4, V3, T2, T1, delete_insert_id, delete_insert_id
        by (rewrite ?lookup_insert_ne; done). done. }
    exists (Err (OsError err)), (set_registry (registry e) e, k4). split.
    + erewrite run_dropping_ret.
      2:{ erewrite run_owning_err; [|apply run_bindq_err; exact Ea].
          by rewrite (run_kern _ _ _ _ _ E3). }
      cbn [snd]. rewrite (run_kern _ _ _ _ _ E4), Hr. done.
    + split; [done|]. eapply ecdysis_at_fds; [|done]. by destruct e.
Qed.

Lemma pair_tail name a e k :
  ecdysis_at a (e, k) ->
  exists r s', (p ← kern (call datagram_pair);
     match p with
     | Err e => mret (Err e)
     | Ok (to_child, childs) =>
       dropping
         (owning (kern (close_fd_quiet to_child))
           (_ ←? in_registry (add (LInfo childs (UnboundUnixDatagram name)));
            mret (Ok (MkDatagram to_child))))
         (kern (close_fd_quiet childs))
     end : M (Ecdysis * K) (result UnixDatagram io_error)) (e, k) = (Ret r, s') /\
    pair_result name a k r s'.
Proof.
  intros Hat. destruct (datagram_pair k) as [[[x y]|err] k1] eqn:Ep.
  2:{ exists (Err err), (e, k1). split.
      - by rewrite (run_bind _ _ _ _ _ (run_kern _ e _ _ _ (run_call_eq _ _ _ _ Ep))).
      - apply datagram_pair_err in Ep. split; [done|by eapply ecdysis_at_fds]. }
  rewrite (run_bind _ _ _ _ _ (run_kern _ e _ _ _ (run_call_eq _ _ _ _ Ep))).
  by apply pair_registered.
Qed.

(** C37. The datagram chain: [unix_datagram_pair] returns the end the parent left
    under this name, if it left one, taking it out of the inherited list; and
    creates a new pair of which the caller keeps one end while only the
    registry's duplicate of the other end stays open, recorded under the name
    for the next child; if the pair cannot be made or duplicated, both of its
    ends are closed. *)
Theorem datagram_pair_chain (name : string) (a : ARegistry) (e : Ecdysis) (k : K) :
  ecdysis_at a (e, k) ->
  exists o r k1 a1 s', unix_datagram_pair name (e, k) = (Ret (o, r), s') /\
    match position (a_asks (UnboundUnixDatagram name)) (a_inherited a) with
    | None => o = None /\ a1 = a /\ k1 = k
    | Some p => exists fd si d, a_inherited a !! p = Some (si, d) /\ o = Some (MkDatagram fd) /\
        a1 = AReg (delete p (a_inherited a)) (a_used a) /\ fds k1 = <[fd := Fd d true]> (fds k)
    end /\
    pair_result name a1 k1 r s'.
Proof.
  intros Hat. unfold unix_datagram_pair.
  pose proof Hat as (i & u & Hr & Hw & Ha). cbn in Hr, Hw, Ha.
  destruct (take_spec (UnboundUnixDatagram name) i u k a Hw Ha)
    as [[Ep Et]|(p & li & d & k1 & Ep & Hp & Hp' & Et & V1 & Hw1 & Ha1)];
    rewrite <- Hr in Et; apply in_registry_run in Et; rewrite Ep.
  - destruct (pair_tail name a e k Hat) as (r & s' & E & Hpr).
    exists None, r, k, a, s'. split; [|done].
    rewrite (run_bind _ _ _ _ _ Et). cbn [fmap option_fmap option_map].
    replace (set_registry (registry e) e) with e by by destruct e.
    unfold unwinding. rewrite <- bind_assoc_run. by rewrite (run_bind _ _ _ _ _ E).
  - destruct (pair_tail name (AReg (delete p (a_inherited a)) (a_used a))
                (set_registry (live (delete p i) u) e) k1) as (r & s' & E & Hpr).
    { by eexists _, _. }
    exists (Some (MkDatagram (li_fd li))), r, k1, (AReg (delete p (a_inherited a)) (a_used a)), s'.
    split; [|split; [by exists (li_fd li), (li_sock_info li), d|done]].
    rewrite (run_bind _ _ _ _ _ Et). unfold unwinding.
    rewrite <- bind_assoc_run. by rewrite (run_bind _ _ _ _ _ E).
Qed.

(** ** Which address a new listener is recorded under *)

Lemma tcp_info_shape (l : TcpListener) k li :
  info l k = (Ret (Ok li), k) -> exists addr, li_sock_info li = Tcp addr.
Proof.
  cbn. unfold tcp_info. msimpl. destruct (inet_local_addr (tcp_fd l) k); [|done].
  intros [= <-]. by eexists.
Qed.

Lemma position_app_None {A} (f : A -> bool) (l : list A) x :
  position f l = None -> position f (l ++ [x]) = None <-> f x = false.
Proof. rewrite !position_None, Forall_app, Forall_singleton. naive_solver. Qed.

(** A TCP listener is recorded under the address the system reports, not
    the one asked for: after a successful [listen_tcp addr] by a process that
    had no listener for [addr], the list for the next child contains the new
    socket under some [addr'], and the child's own [listen_tcp addr] will find
    it exactly when [addr' = addr]. With port 0, for which the system picks a
    port, it does not. *)
Theorem listen_tcp_found_iff_reported (addr : SocketAddr) (a : ARegistry) (e : Ecdysis) (k : K)
    (l : TcpListener) (s' : Ecdysis * K) :
  ecdysis_at a (e, k) ->
  position (a_asks (Tcp addr)) (a_inherited a) = None ->
  position (a_asks (Tcp addr)) (a_used a) = None ->
  listen_tcp addr (e, k) = (Ret (Ok l), s') ->
  exists addr' d,
    ecdysis_at (AReg (a_inherited a) (a_used a ++ [(Tcp addr', d)])) s' /\
    fds s'.2 !! tcp_fd l = Some (Fd d true) /\
    (position (a_asks (Tcp addr)) (a_used a ++ [(Tcp addr', d)]) = None <-> addr' <> addr).
Proof.
  intros Hat Hi Hu E.
  destruct (build_tcp_creates addr bind_and_listen a e k Hat Hi bind_and_listen_builds)
    as [(l' & li & n & d & k1 & e' & k' & E' & Ei & Hd & Hne & Hn & Hl & T & Ha)|(err & k' & E' & _)];
    unfold listen_tcp in E; rewrite E in E'; simplify_eq.
  destruct (tcp_info_shape _ _ _ Ei) as [addr' Haddr]. rewrite Haddr in Ha.
  exists addr', d. split; [done|]. split.
  - cbn. rewrite T. cbn. rewrite lookup_insert_ne, lookup_insert_eq by done. done.
  - rewrite position_app_None by done. unfold a_asks. cbn. rewrite bool_decide_eq_false. done.
Qed.
End spec.

(** ** Witnesses *)

Definition child_object : Ecdysis :=
  MkEcdysis (from_inherited [LInfo 5 (Tcp addr80)]) (Some 4) (Some "./pidfile") true.

(** A child with the socket of port 80 on 5 and the ready pipe on 4. *)
Definition child_os : model := boot ∅ (<[4 := Fd 9 false]> {[5 := Fd 7 false]}).

Lemma child_object_at : ecdysis_at (AReg [(Tcp addr80, 7%N)] []) (child_object, child_os).
Proof. apply from_inherited_at; [apply NoDup_singleton|]. by repeat constructor. Qed.

Lemma listen_returns_inherited_witness :
  hands_back MkTcp (build_listen_tcp addr80 bind_and_listen) (Tcp addr80)
    (AReg [(Tcp addr80, 7%N)] []) 0 7 (child_object, child_os).
Proof.
  by apply (proj1 (listen_returns_inherited _ _ _ child_object_at)
              addr80 bind_and_listen 0%nat (Tcp addr80) 7%N).
Defined.

Lemma listen_creates_and_registers_witness :
  creates_listener (listen_tcp (V4 0 443)) (AReg [(Tcp addr80, 7%N)] []) child_object child_os /\
  creates_listener (listen_unix "/run/a.sock") (AReg [(Tcp addr80, 7%N)] []) child_object child_os.
Proof.
  destruct (listen_creates_and_registers _ _ _ child_object_at) as (_ & Ht & Hu).
  split; [by apply Ht|by apply Hu].
Defined.

Lemma child_holds_notifier : holds_notifier 4 9 (child_object, child_os).
Proof.
  split; [done|]. split; [|by exists false].
  intros i u [= <- <-]. cbn. apply not_elem_of_cons. split; [done|apply not_elem_of_nil].
Qed.

Lemma ready_spec_witness :
  exists s', ready (child_object, child_os) = (Ret (Ok tt), s') /\
    ready_done (AReg [(Tcp addr80, 7%N)] []) child_object child_os 4 9 (Ok tt) s'.
Proof.
  destruct (ready_spec _ _ _ _ _ child_object_at child_holds_notifier)
    as [(r & s' & E & Hd)|(msg & s' & path & E & _)].
  - exists s'. assert (r = Ok tt) as -> by (revert E; vm_compute; congruence). done.
  - exfalso. revert E. by vm_compute.
Defined.

Lemma ready_without_notifier_witness :
  v_written (view (ready (set_notifier None child_object, child_os)).2.2) = ∅ /\
  (ready (set_notifier None child_object, child_os)).1 = Ret (Ok tt).
Proof.
  destruct (ready_without_notifier (AReg [(Tcp addr80, 7%N)] []) (set_notifier None child_object)
              child_os) as [Hw _]; [exact child_object_at|done|].
  split; [exact Hw|by vm_compute].
Defined.

Lemma new_decides_by_environment_witness :
  Ecdysis_new (boot ∅ ∅) = (Ret (MkEcdysis reg_new None None false), boot ∅ ∅) /\
  Ecdysis_new (boot {[ENV_UPGRADE := Some "no"]} ∅) = (Exit 1, boot {[ENV_UPGRADE := Some "no"]} ∅).
Proof.
  split.
  - by apply (proj1 (new_decides_by_environment (boot ∅ ∅))).
  - by apply (proj1 (proj2 (new_decides_by_environment (boot {[ENV_UPGRADE := Some "no"]} ∅)))
                (Some "no")).
Defined.

(** A child whose parent left it one end of the pair named "stats". *)
Definition stats_object : Ecdysis :=
  MkEcdysis (from_inherited [LInfo 5 (UnboundUnixDatagram "stats")]) None None true.

Lemma datagram_pair_chain_witness :
  exists o r s', unix_datagram_pair "stats" (stats_object, child_os) = (Ret (o, r), s') /\
    o = Some (MkDatagram 5).
Proof.
  destruct (datagram_pair_chain "stats" (AReg [(UnboundUnixDatagram "stats", 7%N)] [])
              stats_object child_os) as (o & r & k1 & a1 & s' & E & _).
  - apply from_inherited_at; [apply NoDup_singleton|]. by repeat constructor.
  - exists o, r, s'. split; [done|]. revert E. vm_compute. congruence.
Defined.

Lemma listen_tcp_found_iff_reported_witness :
  exists l s' addr' d, listen_tcp (V4 0 0) (child_object, child_os) = (Ret (Ok l), s') /\
    ecdysis_at (AReg [(Tcp addr80, 7%N)] ([] ++ [(Tcp addr', d)])) s' /\
    (position (a_asks (Tcp (V4 0 0))) ([] ++ [(Tcp addr', d)]) = None <-> addr' <> V4 0 0).
Proof.
  set (r := listen_tcp (V4 0 0) (child_object, child_os)).
  assert (E : r = (Ret (Ok (MkTcp 3)), r.2)) by by vm_compute.
  destruct (listen_tcp_found_iff_reported (V4 0 0) _ _ _ (MkTcp 3) r.2 child_object_at)
    as (addr' & d & Ha & _ & Hp); [done..|exact E|].
  exists (MkTcp 3), r.2, addr', d. done.
Defined.
