(* ===== verification/Ownership.v ===== *)
(** * Ownership: every descriptor has one owner

    Rust's ownership ends where raw descriptors begin: the registry, the object
    and the listeners handed to the application all hold plain numbers and close
    them. A small logic of triples with a built-in frame shows that the library
    keeps the discipline: at any time the descriptors of the registry, the pipe
    to the parent and the listeners in the application's hands are open and
    pairwise different, so that dropping one never closes another. *)

From S2P Require Import Prelude Text Addr Posix PosixModel Utils Registry RegistrySpec.
From S2P Require Import Bincode Listener Inheriter Executioner Ecdysis EcdysisSpec.
Local Open Scope Z_scope.

Section ownership.
Context {K : Type} `{HV : HasView K, FO : FdOps K, FL : !FdLaws K, PO : PipeOps K, PL : !PipeLaws K,
  PR : ProcOps K, FS : FsOps K, FSL : !FsLaws K, SO : SockOps K, SL : !SockLaws K, BC : Bincode K}.
Implicit Types (k : K) (e : Ecdysis) (h : list Z) (s : Ecdysis * K).

Definition open_in k (fd : Z) : Prop := is_Some (fds k !! fd).
Definition private_in k (fd : Z) : Prop := exists d, fds k !! fd = Some (Fd d true).

(** [h] are the descriptors in the application's hands. Those and the registered
    ones are also close-on-exec. *)
Record tidy h s : Prop := {
  td_live : exists i u, registry s.1 = live i u;
  td_nodup : NoDup (h ++ object_fds s.1);
  td_open : Forall (open_in s.2) (object_fds s.1);
  td_private : Forall (private_in s.2) (h ++ (li_fd <$> m_val (used_fds (registry s.1))))
}.

#[global] Instance tidy_perm : Proper ((≡ₚ) ==> (=) ==> iff) tidy.
Proof.
  intros h h' Hh s _ <-. split; intros [H1 H2 H3 H4]; split; try done; by rewrite ?Hh in *; rewrite <- ?Hh in *.
Qed.

(** ** Changes of the table *)

Lemma elem_notin {A} (l : list A) (x : A) (P : A -> Prop) : Forall P l -> ~ P x -> x ∉ l.
Proof. rewrite Forall_forall. intros H Hn Hx. by apply Hn, H. Qed.

Lemma closed_not_open k fd : fds k !! fd = None -> ~ open_in k fd.
Proof. unfold open_in. intros ->. by intros []. Qed.

Lemma private_open k fd : private_in k fd -> open_in k fd.
Proof. intros [d H]. by exists (Fd d true). Qed.

Lemma tidy_all_open h s : tidy h s -> Forall (open_in s.2) (h ++ object_fds s.1).
Proof.
  intros [_ _ Ho Hp]. apply Forall_app in Hp as [Hp _]. apply Forall_app. split; [|done].
  eapply Forall_impl; [done|]. apply private_open.
Qed.

(** What holds of a descriptor still holds when another number changes. *)
Lemma table_change (P : K -> Z -> Prop) k k' l :
  (forall fd, fds k' !! fd = fds k !! fd -> P k fd -> P k' fd) ->
  (forall fd, fd ∈ l -> fds k' !! fd = fds k !! fd) -> Forall (P k) l -> Forall (P k') l.
Proof. rewrite !Forall_forall. intros HP Hl H fd Hfd. apply HP; [by apply Hl|by apply H]. Qed.

Lemma open_same k k' fd : fds k' !! fd = fds k !! fd -> open_in k fd -> open_in k' fd.
Proof. unfold open_in. by intros ->. Qed.

Lemma private_same k k' fd : fds k' !! fd = fds k !! fd -> private_in k fd -> private_in k' fd.
Proof. unfold private_in. by intros ->. Qed.

Lemma used_in_object e fd : fd ∈ li_fd <$> m_val (used_fds (registry e)) -> fd ∈ object_fds e.
Proof. unfold object_fds. rewrite fmap_app, !elem_of_app. auto. Qed.

(** The same object over a table that agrees on everything owned. *)
Lemma tidy_table h e k k' :
  tidy h (e, k) -> (forall fd, fd ∈ h ++ object_fds e -> fds k' !! fd = fds k !! fd) -> tidy h (e, k').
Proof.
  intros [Hl Hn Ho Hp] Hk. cbn in *. split; cbn; [done|done| |].
  - eapply (table_change open_in); [apply open_same| |done]. intros fd Hfd. apply Hk, elem_of_app. by right.
  - eapply (table_change private_in); [apply private_same| |done]. intros fd Hfd. apply Hk.
    rewrite elem_of_app in *. destruct Hfd as [?|Hfd]; [by left|]. right. by apply used_in_object.
Qed.

Lemma tidy_opened h e k k' fd d :
  tidy h (e, k) -> fds k !! fd = None -> fds k' = <[fd := Fd d true]> (fds k) -> tidy (fd :: h) (e, k').
Proof.
  intros Ht Hn T. pose proof (elem_notin _ fd _ (tidy_all_open _ _ Ht) (closed_not_open _ _ Hn)) as Hf.
  destruct (tidy_table h e k k' Ht) as [Hl Hnd Ho Hp].
  { intros x Hx. rewrite T. apply lookup_insert_ne. intros ->. by apply Hf. }
  split; cbn in *; [done|by constructor|done|]. constructor; [|done]. exists d. by rewrite T, lookup_insert_eq.
Qed.

Lemma tidy_closed h e k k' fd :
  tidy (fd :: h) (e, k) -> fds k' = delete fd (fds k) -> tidy h (e, k').
Proof.
  intros [Hl Hnd Ho Hp] T. cbn in *. apply NoDup_cons in Hnd as [Hfd Hnd]. apply Forall_cons in Hp as [_ Hp].
  apply (tidy_table h e k); [by split|]. intros x Hx. rewrite T. apply lookup_delete_ne. intros ->. by apply Hfd.
Qed.

Lemma tidy_forget h1 h2 s : tidy (h1 ++ h2) s -> tidy h2 s.
Proof.
  intros [Hl Hnd Ho Hp]. rewrite <- app_assoc in *. apply NoDup_app in Hnd as (_ & _ & Hnd).
  apply Forall_app in Hp as [_ Hp]. by split.
Qed.

Lemma tidy_disjoint h fd s : tidy (fd :: h) s -> fd ∉ h ++ object_fds s.1.
Proof. intros [_ Hnd _ _]. by apply NoDup_cons in Hnd as [? _]. Qed.

(** Moving a descriptor between the registry and the application, and growing
    the registry. *)
Lemma tidy_taken h e k k' i u p li x :
  tidy h (e, k) -> registry e = live i u -> i !! p = Some li -> fds k !! li_fd li = Some x ->
  fds k' = <[li_fd li := Fd (fd_desc x) true]> (fds k) ->
  tidy (li_fd li :: h) (set_registry (live (delete p i) u) e, k').
Proof.
  intros [Hl Hnd Ho Hp] Hr Hi Hx T. cbn in *. unfold object_fds in *. rewrite Hr in *. cbn in *.
  pose proof (delete_Permutation _ _ _ Hi) as Hperm. rewrite Hperm in Hnd, Ho. cbn in Hnd, Ho.
  assert (Hnd' : NoDup (li_fd li :: h ++ (li_fd <$> delete p i ++ u) ++ option_list (ready_notifier e)))
    by (by rewrite Permutation_middle).
  pose proof Hnd' as [Hf _]%NoDup_cons. apply Forall_cons in Ho as [_ Ho].
  assert (Hk : forall fd, fd ∈ h ++ (li_fd <$> delete p i ++ u) ++ option_list (ready_notifier e) ->
    fds k' !! fd = fds k !! fd) by (intros fd Hfd; rewrite T; apply lookup_insert_ne; intros <-; done).
  split; cbn; [by eexists _, _|done| |].
  - eapply (table_change open_in); [apply open_same| |done]. intros fd Hfd. apply Hk, elem_of_app. by right.
  - constructor; [exists (fd_desc x); by rewrite T, lookup_insert_eq|].
    eapply (table_change private_in); [apply private_same| |done]. intros fd Hfd. apply Hk.
    rewrite fmap_app, !elem_of_app in *. tauto.
Qed.

Lemma tidy_added h e k k' i u n si d :
  tidy h (e, k) -> registry e = live i u -> fds k !! n = None -> fds k' = <[n := Fd d true]> (fds k) ->
  tidy h (set_registry (live i (u ++ [LInfo n si])) e, k').
Proof.
  intros Ht Hr Hn T. destruct (tidy_opened h e k k' n d Ht Hn T) as [Hl Hnd Ho Hp]. cbn in *.
  unfold object_fds in *. rewrite Hr in *. cbn in *.
  assert (Hperm : h ++ (li_fd <$> i ++ u ++ [LInfo n si]) ++ option_list (ready_notifier e) ≡ₚ
    n :: h ++ (li_fd <$> i ++ u) ++ option_list (ready_notifier e)).
  { rewrite !fmap_app. cbn. solve_Permutation. }
  assert (Hn' : open_in k' n) by (exists (Fd d true); by rewrite T, lookup_insert_eq).
  split; cbn; [by eexists _, _|by rewrite Hperm| |].
  - rewrite !fmap_app in *. cbn. rewrite !Forall_app in *. by repeat split; try apply Ho; constructor.
  - rewrite fmap_app, app_assoc. apply Forall_app. apply Forall_cons in Hp as [Hpn Hp]. split; [done|].
    cbn. by constructor.
Qed.

(** ** Triples

    [owns pre m post]: started with [pre] in the caller's hands, besides any
    others [h], [m] returns, and then [post] of the answer and those [h] are. *)

Definition owns {A} (pre : list Z) (m : M (Ecdysis * K) A) (post : A -> list Z) : Prop :=
  forall h s, tidy (pre ++ h) s -> exists x s', m s = (Ret x, s') /\ tidy (post x ++ h) s'.

Lemma owns_ret {A} (x : A) (post : A -> list Z) : owns (post x) (mret x) post.
Proof. intros h s Ht. by exists x, s. Qed.

Lemma owns_drop_ret {A} pre (x : A) (post : A -> list Z) : post x = [] -> owns pre (mret x) post.
Proof. intros Hx h s Ht. exists x, s. split; [done|]. rewrite Hx. by eapply tidy_forget. Qed.

Lemma owns_bind {A B} pre (m : M (Ecdysis * K) A) (f : A -> M (Ecdysis * K) B) mid post :
  owns pre m mid -> (forall x, owns (mid x) (f x) post) -> owns pre (m ≫= f) post.
Proof.
  intros Hm Hf h s Ht. destruct (Hm h s Ht) as (x & s1 & E & Ht1).
  destruct (Hf x h s1 Ht1) as (y & s2 & E2 & Ht2). exists y, s2. by rewrite (run_bind _ _ _ _ _ E).
Qed.

(** What a fallible call that makes a descriptor leaves in the caller's hands. *)
Definition ok_or {A E} (d : list Z) (f : A -> list Z) (r : result A E) : list Z :=
  match r with Ok a => f a | Err _ => d end.
#[local] Notation if_ok := (ok_or []).

Lemma owns_ok {A E} d pre (f : A -> list Z) (x : A) :
  f x = pre -> owns pre (mret (Ok x : result A E)) (ok_or d f).
Proof. intros <-. exact (owns_ret (Ok x) (ok_or d f)). Qed.

Lemma owns_bindq {A B E} pre (m : M (Ecdysis * K) (result A E)) (f : A -> M (Ecdysis * K) (result B E)) d mid g :
  owns pre m (ok_or d mid) -> (forall x, owns (mid x) (f x) (ok_or d g)) -> owns pre (bindq m f) (ok_or d g).
Proof. intros Hm Hf. eapply owns_bind; [done|]. intros [x|e]; [apply Hf|exact (owns_ret (Err e) (ok_or d g))]. Qed.

Lemma owns_frame {A} r pre (m : M (Ecdysis * K) A) post :
  owns pre m post -> owns (pre ++ r) m (fun x => post x ++ r).
Proof.
  intros Hm h s Ht. rewrite <- app_assoc in Ht. destruct (Hm _ s Ht) as (x & s' & E & Ht').
  exists x, s'. by rewrite <- app_assoc.
Qed.

Lemma owns_perm {A} pre pre' (m : M (Ecdysis * K) A) post post' :
  pre ≡ₚ pre' -> (forall x, post x ≡ₚ post' x) -> owns pre m post -> owns pre' m post'.
Proof.
  intros Hpre Hpost Hm h s Ht. rewrite <- Hpre in Ht. destruct (Hm h s Ht) as (x & s' & E & Ht').
  exists x, s'. by rewrite <- Hpost.
Qed.

Lemma owns_owning {A E} pre (m : M (Ecdysis * K) (result A E)) d mid g :
  owns pre m (ok_or mid g) -> owns mid d (fun _ => []) -> owns pre (owning d m) (if_ok g).
Proof.
  intros Hm Hd h s Ht. destruct (Hm h s Ht) as ([a|e] & s1 & E1 & Ht1).
  - exists (Ok a), s1. split; [by apply run_owning_ok|done].
  - destruct (Hd h s1 Ht1) as (u & s2 & E2 & Ht2). exists (Err e), s2. split; [|done].
    rewrite (run_owning_err _ _ _ _ _ E1). by rewrite E2.
Qed.

Lemma owns_dropping {A} pre (m : M (Ecdysis * K) A) d mid post :
  owns pre m mid -> (forall x, owns (mid x) d (fun _ => post x)) -> owns pre (dropping m d) post.
Proof.
  intros Hm Hd h s Ht. destruct (Hm h s Ht) as (x & s1 & E1 & Ht1). destruct (Hd x h s1 Ht1) as (u & s2 & E2 & Ht2).
  exists x, s2. split; [|done]. rewrite (run_dropping_ret _ _ _ _ _ E1). by rewrite E2.
Qed.

Lemma owns_unwinding {A} pre (m : M (Ecdysis * K) A) d post : owns pre m post -> owns pre (unwinding d m) post.
Proof.
  intros Hm h s Ht. destruct (Hm h s Ht) as (x & s1 & E1 & Ht1). exists x, s1.
  split; [|done]. unfold unwinding. by rewrite E1.
Qed.

(** ** The primitives *)

Lemma owns_close fd : owns [fd] (kern (close_fd_quiet fd)) (fun _ => []).
Proof.
  intros h [e k] Ht. destruct (close_fd_quiet_run fd k) as (k' & E & V%fds_set_fds).
  exists tt, (e, k'). split; [by apply run_kern|]. by eapply tidy_closed.
Qed.

Lemma owns_creates c : creates_fd c -> owns [] (kern (call c)) (if_ok (fun fd => [fd])).
Proof.
  intros Hc h [e k] Ht. specialize (Hc k). destruct (c k) as [[fd|err] k'] eqn:E.
  - destruct Hc as (d & _ & Hn & _ & T). exists (Ok fd), (e, k').
    split; [by apply run_kern, run_call_eq|]. by eapply tidy_opened.
  - exists (Err err), (e, k'). split; [by apply run_kern, run_call_eq|].
    apply (tidy_table _ e k); [done|]. by rewrite Hc.
Qed.

Lemma owns_builds {L} (fd_of : L -> Z) build b addr :
  builds fd_of build -> owns [b] (kern (build b addr)) (if_ok (fun l => [fd_of l])).
Proof.
  intros Hb h [e k] Ht.
  assert (Ho : is_Some (fds k !! b)).
  { pose proof (tidy_all_open _ _ Ht) as Ho. cbn in Ho. by apply Forall_cons in Ho as [? _]. }
  destruct (Hb b addr k Ho) as [(l & k' & E & <- & T)|(err & k' & E & T)].
  - exists (Ok l), (e, k'). split; [by apply run_kern|]. apply (tidy_table _ e k); [done|]. by rewrite T.
  - exists (Err err), (e, k'). split; [by apply run_kern|]. by eapply tidy_closed.
Qed.

Lemma owns_take si : owns [] (in_registry (take si)) option_list.
Proof.
  intros h [e k] Ht. destruct (td_live _ _ Ht) as (i & u & Hr). cbn in Hr.
  destruct (position (asks si) i) as [p|] eqn:Ep.
  - destruct (position_Some _ _ _ Ep) as (li & Hp & _).
    assert (Hx : is_Some (fds k !! li_fd li)).
    { pose proof (td_open _ _ Ht) as Ho. rewrite Forall_forall in Ho. apply Ho. unfold object_fds. cbn. rewrite Hr.
      cbn. rewrite fmap_app, !elem_of_app. left. left. apply list_elem_of_fmap_2. by eapply list_elem_of_lookup_2. }
    destruct Hx as [x Hx]. destruct (take_hit si i u k p li x Ep Hp Hx) as (k' & _ & E & V%fds_set_fds).
    rewrite <- Hr in E. apply in_registry_run in E. eexists _, _. split; [exact E|]. by eapply tidy_taken.
  - pose proof (take_miss si i u k Ep) as E. rewrite <- Hr in E. apply in_registry_run in E.
    eexists _, _. split; [exact E|]. by destruct e.
Qed.

Lemma owns_add li : owns [] (in_registry (add li)) (if_ok (fun _ => [])).
Proof.
  intros h [e k] Ht. destruct (td_live _ _ Ht) as (i & u & Hr). cbn in Hr.
  destruct (add_cases li i u k) as [(n & k' & x & E & _ & _ & Hn & V%fds_set_fds)|(err & k' & E & V)];
    rewrite <- Hr in E; apply in_registry_run in E; eexists _, _; (split; [exact E|]).
  - by eapply tidy_added.
  - assert (set_registry (registry e) e = e) as -> by (by destruct e).
    apply (tidy_table _ e k); [done|]. unfold fds. by rewrite V.
Qed.

Lemma owns_inherit si : owns [] (in_registry (inherit si)) option_list.
Proof.
  intros h [e k] Ht. destruct (owns_take si h (e, k) Ht) as (o & [e1 k1] & E1 & Ht1).
  unfold in_registry, field in E1. destruct (take si (registry e, k)) as [o' [r1 k1']] eqn:Et. simplify_eq.
  destruct o as [fd|]; cbn in Ht1.
  - destruct (owns_add (LInfo fd si) (fd :: h) _ Ht1) as (r & [e2 k2] & E2 & Ht2).
    unfold in_registry, field in E2. cbn in E2.
    destruct (add (LInfo fd si) (r1, k1)) as [o2 [r2 k2']] eqn:Ea. simplify_eq.
    exists (if is_ok r then Some fd else None), (set_registry r2 e, k2). split.
    + apply in_registry_run. unfold inherit. rewrite (run_bind _ _ _ _ _ Et), (run_bind _ _ _ _ _ Ea).
      by destruct r.
    + assert (set_registry r2 (set_registry r1 e) = set_registry r2 e) as Hs by done. rewrite Hs in Ht2.
      destruct r; cbn in *; [done|]. by apply (tidy_forget [fd]).
  - exists None, (set_registry r1 e, k1). split; [|done]. apply in_registry_run. unfold inherit.
    by rewrite (run_bind _ _ _ _ _ Et).
Qed.

Lemma owns_info {L} `{LI : Listener K L, IL : !InfoLaws K L} (l : L) d :
  owns d (kern (info l)) (ok_or d (fun _ => d)).
Proof.
  intros h [e k] Ht. destruct (info_pure l k) as (r & E & _). exists r, (e, k).
  split; [by apply run_kern|]. by destruct r.
Qed.

Lemma owns_register {L} `{LI : Listener K L, IL : !InfoLaws K L} (l : L) :
  owns [as_raw_fd l] (register_new l) (if_ok (fun l => [as_raw_fd l])).
Proof.
  unfold register_new. apply (owns_owning _ _ _ [as_raw_fd l]); [|apply owns_close].
  eapply owns_bindq; [apply owns_info|]. intros li.
  apply (owns_bindq _ _ _ _ (fun _ => [as_raw_fd l])); [|intros _; by apply owns_ok].
  eapply (owns_perm ([] ++ [as_raw_fd l])); [done| |apply owns_frame, owns_add]. by intros [].
Qed.

Lemma owns_seqpacket_from_raw fd :
  owns [fd] (kern (try_from_raw_fd fd)) (if_ok (fun l => [seqpacket_fd l])).
Proof.
  intros h [e k] Ht. cbn [try_from_raw_fd seqpacket_from_raw].
  destruct (seqpacket_from_raw_fd fd k) as [[[]|err] k1] eqn:E.
  - exists (Ok (MkSeqpacket fd)), (e, k1). split.
    + apply run_kern. by rewrite (run_bindq_ok _ _ _ _ _ (run_call_eq _ _ _ _ E)).
    + apply (tidy_table _ e k); [done|]. by rewrite (seqpacket_from_raw_ok _ _ _ E).
  - exists (Err err), (e, k1). split.
    + apply run_kern. by rewrite (run_bindq_err _ _ _ _ _ (run_call_eq _ _ _ _ E)).
    + destruct (seqpacket_from_raw_err _ _ _ _ E) as [T|T]; [|by eapply tidy_closed].
      apply (tidy_forget [fd]). apply (tidy_table _ e k); [done|]. by rewrite T.
Qed.

(** Every [listen] call: the inherited socket, or a new one. *)
Lemma owns_inherit_or {L} `{LI : Listener K L} si (some : Z -> M (Ecdysis * K) (result L io_error)) none :
  (forall fd, owns [fd] (some fd) (if_ok (fun l => [as_raw_fd l]))) ->
  owns [] none (if_ok (fun l => [as_raw_fd l])) ->
  owns [] (o ← in_registry (inherit si); match o with Some fd => some fd | None => none end)
    (if_ok (fun l => [as_raw_fd l])).
Proof. intros Hs Hn. eapply owns_bind; [apply owns_inherit|]. intros [fd|]; [apply Hs|apply Hn]. Qed.

Lemma owns_listen_unix path : owns [] (listen_unix path) (if_ok (fun l => [as_raw_fd l])).
Proof.
  unfold listen_unix.
  apply (owns_inherit_or (L := UnixListener) _ (fun fd => mret (Ok (MkUnix fd)))); [intros fd; by apply owns_ok|].
  eapply owns_bindq; [apply owns_creates, unix_bind_creates|].
  intros fd. exact (owns_register (MkUnix fd)).
Qed.

Lemma owns_listen_seqpacket path : owns [] (listen_unix_seqpacket path) (if_ok (fun l => [as_raw_fd l])).
Proof.
  unfold listen_unix_seqpacket.
  apply (owns_inherit_or (L := UnixSeqpacketListener) _ (fun fd => kern (try_from_raw_fd fd))); [apply owns_seqpacket_from_raw|].
  eapply owns_bindq; [apply owns_creates, seqpacket_bind_creates|].
  intros fd. exact (owns_register (MkSeqpacket fd)).
Qed.

Lemma owns_build_tcp addr build :
  builds tcp_fd build -> owns [] (build_listen_tcp addr build) (if_ok (fun l => [as_raw_fd l])).
Proof.
  intros Hb. unfold build_listen_tcp.
  apply (owns_inherit_or (L := TcpListener) _ (fun fd => mret (Ok (MkTcp fd)))); [intros fd; by apply owns_ok|].
  eapply owns_bindq; [apply owns_creates, socket_new_creates|]. intros b.
  eapply owns_bindq; [by apply owns_builds|]. intros l. exact (owns_register l).
Qed.

Lemma owns_build_udp addr build :
  builds udp_fd build -> owns [] (build_socket_udp addr build) (if_ok (fun l => [as_raw_fd l])).
Proof.
  intros Hb. unfold build_socket_udp.
  apply (owns_inherit_or (L := UdpSocket) _ (fun fd => mret (Ok (MkUdp fd)))); [intros fd; by apply owns_ok|].
  eapply owns_bindq; [apply owns_creates, socket_new_creates|]. intros b.
  eapply owns_bindq; [by apply owns_builds|]. intros l. exact (owns_register l).
Qed.

(** ** Descriptors the object closes itself *)

Lemma tidy_shrunk h e k e' k' gone :
  tidy h (e, k) -> (exists i u, registry e' = live i u) -> object_fds e ≡ₚ object_fds e' ++ gone ->
  (forall fd, fd ∈ li_fd <$> m_val (used_fds (registry e')) -> fd ∈ li_fd <$> m_val (used_fds (registry e))) ->
  (forall fd, fd ∉ gone -> fds k' !! fd = fds k !! fd) -> tidy h (e', k').
Proof.
  intros [_ Hnd Ho Hp] Hl Hperm Hu Hk. cbn in *. rewrite Hperm, app_assoc in Hnd.
  apply NoDup_app in Hnd as (Hnd & Hd & _). rewrite Hperm, Forall_app in Ho. destruct Ho as [Ho _].
  assert (Hk' : forall fd, fd ∈ h ++ object_fds e' -> fds k' !! fd = fds k !! fd) by (intros fd Hfd; by apply Hk, Hd).
  split; cbn; [done|done| |].
  - eapply (table_change open_in); [apply open_same| |done]. intros fd Hfd. apply Hk', elem_of_app. by right.
  - rewrite Forall_forall in Hp. apply Forall_forall. intros fd Hfd. apply (private_same k).
    + apply Hk'. rewrite elem_of_app in *. destruct Hfd; [by left|right; by apply used_in_object].
    + apply Hp. rewrite elem_of_app in *. destruct Hfd; [by left|right; by apply Hu].
Qed.

Lemma owns_quit : owns [] quit (fun _ => []).
Proof.
  intros h [e k] Ht. destruct (td_live _ _ Ht) as (i & u & Hr). cbn in Hr.
  destruct (close_used_run i u k) as (k' & E & V%fds_set_fds). rewrite <- Hr in E. apply in_registry_run in E.
  exists tt, (set_registry (live i []) e, k'). split; [exact E|].
  apply (tidy_shrunk _ e k _ _ (li_fd <$> u) Ht); cbn.
  - by eexists _, _.
  - unfold object_fds. cbn. rewrite Hr. cbn. rewrite !fmap_app. cbn. solve_Permutation.
  - intros fd []%not_elem_of_nil.
  - intros fd Hfd. by rewrite V, foldr_delete_lookup, decide_False.
Qed.

Lemma owns_close_inherited : owns [] (in_registry close_inherited) (fun _ => []).
Proof.
  intros h [e k] Ht. destruct (td_live _ _ Ht) as (i & u & Hr). cbn in Hr.
  destruct (close_inherited_run i u k) as (k' & E & V%fds_set_fds). rewrite <- Hr in E. apply in_registry_run in E.
  exists tt, (set_registry (live [] u) e, k'). split; [exact E|].
  apply (tidy_shrunk _ e k _ _ (li_fd <$> i) Ht); cbn.
  - by eexists _, _.
  - unfold object_fds. cbn. rewrite Hr. cbn. rewrite !fmap_app. cbn. solve_Permutation.
  - by rewrite Hr.
  - intros fd Hfd. by rewrite V, foldr_delete_lookup, decide_False.
Qed.

Lemma pipe_write_fds fd str k r k' : pipe_write_all fd str k = (r, k') -> fds k' = fds k.
Proof.
  intros E. destruct r as [[]|err]; [|by destruct (pipe_write_err _ _ _ _ _ E)].
  destruct (pipe_write_ok _ _ _ _ E) as (x & _ & V). unfold fds. by rewrite V.
Qed.

Lemma in_registry_pid_file {A} (m : M (ListenerRegistry * K) A) s o s' :
  in_registry m s = (o, s') -> pid_file s'.1 = pid_file s.1.
Proof. destruct s as [e k]. unfold in_registry, field. destruct (m _) as [? []]. by intros [= <- <-]. Qed.

(** [ready] returns, or panics because the pidfile cannot be written. *)
Definition ready_ends (e : Ecdysis) (o : outcome (result unit io_error)) : Prop :=
  match o with Ret _ => True | Panic _ => is_Some (pid_file e) | Exit _ => False end.

Lemma ready_tidy h s : tidy h s -> tidy h (ready s).2 /\ ready_ends s.1 (ready s).1.
Proof.
  intros Ht. destruct (owns_close_inherited h s Ht) as ([] & [e k] & E1 & Ht1). cbn in Ht1.
  unfold ready_ends. rewrite <- (in_registry_pid_file _ _ _ _ E1 : pid_file e = _).
  unfold ready. rewrite (run_bind _ _ _ _ _ E1).
  destruct (write_pidfile_cases e k) as [(k2 & f & E2 & V2 & _)|(msg & k2 & f & path & E2 & V2 & Hp)].
  2:{ rewrite (run_bind_panic _ _ _ _ _ E2). split; [|by eexists].
      apply (tidy_shrunk _ e k _ _ [] Ht1); [by apply Ht1| |done|].
      - by rewrite app_nil_r.
      - intros fd _. unfold fds. by rewrite V2. }
  assert (T2 : fds k2 = fds k) by (unfold fds; by rewrite V2).
  rewrite (run_bind _ _ _ _ _ E2). rewrite (run_bind _ _ (e, k2) e (e, k2)) by done.
  rewrite (run_bind _ _ (e, k2) tt (set_notifier None e, k2)) by done.
  destruct (td_live _ _ Ht1) as (i & u & Hr). cbn in Hr.
  assert (Hgo : forall k4, (forall fd, fd ∉ option_list (ready_notifier e) -> fds k4 !! fd = fds k !! fd) ->
    tidy h (set_notifier None e, k4)).
  { intros k4 Hk4. apply (tidy_shrunk _ e k _ _ (option_list (ready_notifier e)) Ht1); [by eexists _, _| |done|done].
    unfold object_fds. cbn. by rewrite app_nil_r. }
  destruct (ready_notifier e) as [w|] eqn:Hn.
  - destruct (pipe_write_all w "OK" k2) as [r3 k3] eqn:E3. pose proof (pipe_write_fds _ _ _ _ _ E3) as T3.
    destruct (close_fd_quiet_run w k3) as (k4 & E4 & V4%fds_set_fds).
    rewrite (run_bind _ _ _ r3 (set_notifier None e, k3)) by (apply run_kern, run_call_eq, E3).
    rewrite (run_bind _ _ _ _ _ (run_kern _ _ _ _ _ E4)). split; [|done]. apply Hgo.
    intros fd Hfd. rewrite V4, lookup_delete_ne, T3, T2; [done|]. intros ->. by apply Hfd, list_elem_of_here.
  - split; [|done]. apply Hgo. intros fd _. by rewrite T2.
Qed.

Lemma set_pid_file_tidy h s path : tidy h s -> tidy h (set_pid_file path s).2.
Proof. destruct s as [e k]. by intros []. Qed.

Lemma owns_datagram_pair_call :
  owns [] (kern (call datagram_pair)) (if_ok (fun '(a, b) => [a; b])).
Proof.
  intros h [e k] Ht. destruct (datagram_pair k) as [[[a b]|err] k'] eqn:E.
  - exists (Ok (a, b)), (e, k'). split; [by apply run_kern, run_call_eq|].
    destruct (datagram_pair_ok _ _ _ _ E) as (da & db & Hne & _ & Ha & Hb & _ & _ & T). cbn.
    pose proof (tidy_all_open _ _ Ht) as Ho.
    assert (Hnew : forall x, x = a \/ x = b -> x ∉ h ++ object_fds e).
    { intros x Hx. eapply elem_notin; [exact Ho|]. apply closed_not_open. cbn. by destruct Hx as [->| ->]. }
    destruct (tidy_table h e k k' Ht) as [Hl Hnd Hop Hp].
    { intros x Hx. rewrite T, !lookup_insert_ne; [done|..]; intros ->; (eapply Hnew; [|exact Hx]); auto. }
    split; cbn in *; [done| |done|].
    + constructor; [|constructor; [by apply Hnew; right|done]].
      apply not_elem_of_cons. split; [done|by apply Hnew; left].
    + constructor; [exists da; by rewrite T, lookup_insert_eq|].
      constructor; [exists db; by rewrite T, lookup_insert_ne, lookup_insert_eq|done].
  - exists (Err err), (e, k'). split; [by apply run_kern, run_call_eq|].
    apply (tidy_table _ e k); [done|]. by rewrite (datagram_pair_err _ _ _ E).
Qed.

Definition pair_fds (x : option UnixDatagram * result UnixDatagram io_error) : list Z :=
  if_ok (fun d => [datagram_fd d]) x.2 ++ option_list (datagram_fd <$> x.1).

Lemma owns_datagram_pair name : owns [] (unix_datagram_pair name) pair_fds.
Proof.
  unfold unix_datagram_pair. eapply owns_bind; [apply owns_take|]. intros o. apply owns_unwinding.
  eapply owns_bind; [exact (owns_frame (option_list o) [] _ _ owns_datagram_pair_call)|]. intros p.
  apply (owns_bind _ _ _ (fun r => if_ok (fun d => [datagram_fd d]) r ++ option_list o)).
  - apply owns_frame. destruct p as [[to_child childs]|err]; [|exact (owns_ret (Err err) (if_ok _))]. cbn.
    apply (owns_dropping _ _ _ (fun r => [childs] ++ if_ok (fun d => [datagram_fd d]) r)).
    + apply (owns_perm ([to_child] ++ [childs]) _ _ (fun r => if_ok (fun d => [datagram_fd d]) r ++ [childs]));
        [done|intros r; solve_Permutation|]. apply owns_frame.
      apply (owns_owning _ _ _ [to_child]); [|apply owns_close].
      apply (owns_bindq _ _ _ _ (fun _ => [to_child])); [|intros _; by apply owns_ok].
      eapply (owns_perm ([] ++ [to_child])); [done| |apply owns_frame, owns_add]. by intros [].
    + intros r. apply (owns_frame (if_ok _ r) [childs] _ _ (owns_close childs)).
  - intros r. assert (Hpf : if_ok (fun d => [datagram_fd d]) r ++ option_list o = pair_fds (MkDatagram <$> o, r))
      by (by destruct o). rewrite Hpf. apply owns_ret.
Qed.

(** ** An application at work *)

(** One call of the application, or the drop of a listener it holds; the first
    component is what is in its hands. *)
Inductive app_call : list Z * (Ecdysis * K) -> list Z * (Ecdysis * K) -> Prop :=
| call_unix path h s r s' :
    listen_unix path s = (Ret r, s') -> app_call (h, s) (if_ok (fun l => [unix_fd l]) r ++ h, s')
| call_seqpacket path h s r s' :
    listen_unix_seqpacket path s = (Ret r, s') -> app_call (h, s) (if_ok (fun l => [seqpacket_fd l]) r ++ h, s')
| call_tcp addr build h s r s' :
    builds tcp_fd build -> build_listen_tcp addr build s = (Ret r, s') ->
    app_call (h, s) (if_ok (fun l => [tcp_fd l]) r ++ h, s')
| call_udp addr build h s r s' :
    builds udp_fd build -> build_socket_udp addr build s = (Ret r, s') ->
    app_call (h, s) (if_ok (fun l => [udp_fd l]) r ++ h, s')
| call_datagram name h s x s' :
    unix_datagram_pair name s = (Ret x, s') -> app_call (h, s) (pair_fds x ++ h, s')
| call_pid_file path h s : app_call (h, s) (h, (set_pid_file path s).2)
| call_ready h s : app_call (h, s) (h, (ready s).2)   (* also when it panics *)
| call_quit h s s' : quit s = (Ret tt, s') -> app_call (h, s) (h, s')
| call_drop fd h h' e k k' :
    h ≡ₚ fd :: h' -> close_fd_quiet fd k = (Ret tt, k') -> app_call (h, (e, k)) (h', (e, k')).

Inductive app_calls : list Z * (Ecdysis * K) -> list Z * (Ecdysis * K) -> Prop :=
| app_calls_refl x : app_calls x x
| app_calls_step x y z : app_call x y -> app_calls y z -> app_calls x z.

(** A triple read forwards. *)
Lemma owns_run {A} (m : M (Ecdysis * K) A) post h s x s' :
  owns [] m post -> tidy h s -> m s = (Ret x, s') -> tidy (post x ++ h) s'.
Proof. intros Hm Ht E. destruct (Hm h s Ht) as (y & s1 & E1 & Ht1). rewrite E in E1. by simplify_eq. Qed.

Lemma app_call_tidy x y : app_call x y -> tidy x.1 x.2 -> tidy y.1 y.2.
Proof.
  intros Hc Ht. inversion Hc as [path h s r s' E|path h s r s' E|addr build h s r s' Hb E|addr build h s r s' Hb E|
    name h s p s' E|path h s|h s|h s s' E|fd h h' e k k' Hh E]; subst; cbn in *.
  - by apply (owns_run _ _ _ _ _ _ (owns_listen_unix path) Ht).
  - by apply (owns_run _ _ _ _ _ _ (owns_listen_seqpacket path) Ht).
  - by apply (owns_run _ _ _ _ _ _ (owns_build_tcp addr build Hb) Ht).
  - by apply (owns_run _ _ _ _ _ _ (owns_build_udp addr build Hb) Ht).
  - by apply (owns_run _ _ _ _ _ _ (owns_datagram_pair name) Ht).
  - by apply set_pid_file_tidy.
  - by apply ready_tidy.
  - by apply (owns_run _ _ _ _ _ _ owns_quit Ht E).
  - rewrite Hh in Ht. destruct (close_fd_quiet_run fd k) as (k1 & E1 & V%fds_set_fds).
    rewrite E in E1. simplify_eq. by eapply tidy_closed.
Qed.

(** A new object owns what its parent handed over, and the pipe to it. *)
Lemma tidy_new a e k w d :
  ecdysis_at a (e, k) -> ready_notifier e = None \/ holds_notifier w d (e, k) -> tidy [] (e, k).
Proof.
  intros (i & u & Hr & Hw & _) Hn. cbn in Hr, Hw. pose proof (wf_all_open _ _ _ Hw) as Ho.
  assert (Hopen : Forall (open_in k) (li_fd <$> i ++ u)) by (by apply Forall_fmap).
  split; unfold object_fds; cbn; rewrite ?Hr; cbn; [by eexists _, _|..].
  - destruct Hn as [-> |(Hn & Hul & _)]; [rewrite app_nil_r; apply Hw|]. cbn in Hn. rewrite Hn.
    apply NoDup_app. split; [apply Hw|]. split; [|apply NoDup_singleton].
    intros x Hx ->%list_elem_of_singleton. by apply (Hul i u Hr).
  - apply Forall_app. split; [done|]. destruct Hn as [-> |(Hn & _ & c & Hc)]; [constructor|].
    cbn in Hn. rewrite Hn. constructor; [|constructor]. by exists (Fd d c).
  - apply Forall_fmap. apply (wf_used _ _ _ Hw).
Qed.

(** C14. Every descriptor has one owner: start from a new object, in a fresh
    process or in a child, and let the application make any calls (listen on
    Unix, seqpacket, TCP and UDP sockets with any well-behaved builder, take
    datagram pairs, set the pidfile, report readiness, quit) and drop listeners
    it holds, in any order, whatever fails on the way, even if [ready] panics
    because of the pidfile and the application catches that. Then the descriptors
    in its hands, in the registry and the pipe to the parent are pairwise
    different and open, and those in its hands or registered for the next child
    are close-on-exec; every further listen call, [unix_datagram_pair] and [quit]
    return; and [ready] returns, or panics with a pidfile set. *)
Theorem one_owner (a : ARegistry) (e : Ecdysis) (k : K) (w : Z) (d : N) (h : list Z) (s : Ecdysis * K) :
  ecdysis_at a (e, k) -> ready_notifier e = None \/ holds_notifier w d (e, k) ->
  app_calls ([], (e, k)) (h, s) ->
  NoDup (h ++ object_fds s.1) /\ Forall (open_in s.2) (h ++ object_fds s.1) /\
  Forall (private_in s.2) (h ++ (li_fd <$> m_val (used_fds (registry s.1)))) /\
  (forall path, exists r s', listen_unix path s = (Ret r, s')) /\
  (forall path, exists r s', listen_unix_seqpacket path s = (Ret r, s')) /\
  (forall addr build, builds tcp_fd build -> exists r s', build_listen_tcp addr build s = (Ret r, s')) /\
  (forall addr build, builds udp_fd build -> exists r s', build_socket_udp addr build s = (Ret r, s')) /\
  (forall name, exists r s', unix_datagram_pair name s = (Ret r, s')) /\
  (exists r s', quit s = (Ret r, s')) /\ ready_ends s.1 (ready s).1.
Proof.
  intros Hat Hn Hc. assert (Ht : tidy h s).
  { change (tidy (h, s).1 (h, s).2). pose proof (tidy_new _ _ _ _ _ Hat Hn) as H0.
    change (tidy ([] : list Z, (e, k)).1 ([] : list Z, (e, k)).2) in H0.
    induction Hc as [|x y z Hxy _ IH]; [done|]. by apply IH, (app_call_tidy x). }
  assert (Hret : forall A (m : M (Ecdysis * K) A) post, owns [] m post -> exists r s', m s = (Ret r, s')).
  { intros A m post Hm. destruct (Hm h s Ht) as (r & s' & E & _). by exists r, s'. }
  split; [apply Ht|]. split; [by apply tidy_all_open|]. split; [apply Ht|].
  do 6 (split; [intros; eapply Hret; eauto using owns_listen_unix, owns_listen_seqpacket, owns_build_tcp,
    owns_build_udp, owns_datagram_pair, owns_quit|]).
  by apply (ready_tidy h).
Qed.
End ownership.

(** ** Witness *)

(** A child asks for the socket it inherited and for a new one. *)
Lemma one_owner_witness :
  exists h s, app_calls ([], (child_object, child_os)) (h, s) /\ NoDup (h ++ object_fds s.1) /\ length h = 2%nat.
Proof.
  set (r1 := listen_tcp addr80 (child_object, child_os)).
  set (r2 := listen_unix "/run/a.sock" r1.2).
  assert (Hc : app_calls ([], (child_object, child_os)) ([3; 5], r2.2)).
  { apply (app_calls_step _ ([5], r1.2)).
    - apply (call_tcp addr80 bind_and_listen [] (child_object, child_os) (Ok (MkTcp 5)) r1.2); [apply bind_and_listen_builds|].
      unfold r1. vm_compute. reflexivity.
    - apply (app_calls_step _ ([3; 5], r2.2)); [|apply app_calls_refl].
      apply (call_unix "/run/a.sock" [5] r1.2 (Ok (MkUnix 3)) r2.2). unfold r2, r1. vm_compute. reflexivity. }
  exists [3; 5], r2.2. split; [exact Hc|].
  pose proof (one_owner _ _ _ 4 9 _ _ child_object_at (or_intror child_holds_notifier) Hc) as [H _].
  split; [exact H|reflexivity].
Defined.
