(* ===== verification/Handover.v ===== *)
(** * Handover: from the parent's registry to the child's, over generations

    The pieces composed: the parent snapshots its registry and starts a child;
    the sender thread writes the serialized list into the pipe; the child, at
    start-up, reads it and builds its registry. The theorems say that the
    child's inherited sockets are exactly the parent's used ones, and that a
    listening socket survives any number of upgrades as long as every
    generation asks for its address. *)

From S2P Require Import Prelude Text Addr Posix PosixModel Utils Registry RegistrySpec.
From S2P Require Import Bincode Listener Inheriter Executioner Ecdysis EcdysisSpec.
Local Open Scope Z_scope.

Section handover.
Context {K : Type} `{HV : HasView K, FO : FdOps K, FL : !FdLaws K, PO : PipeOps K,
  PL : !PipeLaws K, PR : ProcOps K, PRL : !ProcLaws K, FS : FsOps K,
  SO : SockOps K, BC : Bincode K, BL : !BincodeLaws K}.
Context (debug_io : io_error -> string) (systemd_sockets : bool).
Implicit Types (k : K) (e : Ecdysis) (a : ARegistry) (s : Ecdysis * K).

(** The start of a child by process [s] and of [Ecdysis] in that child: [l] is
    the registry's snapshot, [k'] what the parent is left with, [s1] the child
    once [Ecdysis::new] has returned in it. The bytes of [send_fds] are
    delivered on the description behind the descriptor the child finds in its
    environment. *)
Definition started (s : Ecdysis * K) (k' : K) (s1 : Ecdysis * K) : Prop :=
  exists l kc rr sl bs rl d,
    env_args s.2 <> [] /\
    in_registry get_fds_for_child s = (Ret l, s) /\
    upgrade_start debug_io systemd_sockets l (false, s.2) =
      (Ret (Ok (Running kc, rr, sl)), (true, k')) /\
    serialize l = Ok bs /\
    pipe_fd_from_env ENV_PIPE_FDS kc = (Ret (Ok rl), kc) /\
    desc_of (fds kc) rl = Some d /\
    Ecdysis_new (pipe_deliver d bs kc) = (Ret s1.1, s1.2).

(** A process running registry operations with the given labels. *)
Definition runs (s : Ecdysis * K) (ls : list label) (s' : Ecdysis * K) : Prop :=
  c_steps (registry s.1, s.2) ls (registry s'.1, s'.2).

(** [s'] is the latest process of a chain of upgrades that began with [s]; each
    child ran the operations of one element of [tr] before its own upgrade. *)
Inductive descends : list (list label) -> Ecdysis * K -> Ecdysis * K -> Prop :=
| descends_refl s : descends [] s s
| descends_step s k' s1 ls s2 tr s3 :
    started s k' s1 -> runs s1 ls s2 -> descends tr s2 s3 -> descends (ls :: tr) s s3.

(** ** The environment of the child *)

Lemma child_env_upgrade p (env : gmap string (option string)) :
  child_env systemd_sockets p env !! ENV_UPGRADE = Some (Some UPGRADE_TRUE_VAL) /\
  child_env systemd_sockets p env !! ENV_PIPE_FDS = Some (Some (fmt_int (recv_listeners_fd p))) /\
  child_env systemd_sockets p env !! ENV_PIPE_READY = Some (Some (fmt_int (send_ready_fd p))).
Proof.
  unfold child_env, ENV_UPGRADE, ENV_PIPE_FDS, ENV_PIPE_READY, LISTEN_FDS, LISTEN_FDNAMES, LISTEN_PID.
  destruct systemd_sockets; simplify_map_eq; done.
Qed.

Lemma child_env_no_listen p (env : gmap string (option string)) :
  systemd_sockets = true ->
  child_env systemd_sockets p env !! LISTEN_PID = None /\
  child_env systemd_sockets p env !! LISTEN_FDNAMES = None /\
  child_env systemd_sockets p env !! LISTEN_FDS = None.
Proof.
  intros ->. unfold child_env, LISTEN_FDS, LISTEN_FDNAMES, LISTEN_PID.
  rewrite !lookup_delete. repeat case_decide; done.
Qed.

(** ** One handover *)

(** The child's table restricted to the list: same numbers, same sockets. *)
Lemma handed_entries l k kc rr sl k' rl sr dlr dlw drr drw al :
  upgrade_started systemd_sockets l k kc rr sl k' rl sr dlr dlw drr drw ->
  Forall2 (entry_abs (fds k)) l al -> Forall2 (entry_abs (delete rl (fds kc))) l al.
Proof.
  intros Hs Hl. eapply entry_abs_mono; [|done].
  pose proof (entry_abs_open _ _ _ Hl) as Ho. rewrite Forall_forall in Ho.
  apply Forall_forall. intros li Hli. destruct (Ho li Hli) as [x Hx].
  destruct (us_child_new _ _ _ _ _ _ _ _ _ _ _ _ _ Hs) as (Hrl & Hsr & _).
  unfold desc_of. rewrite lookup_delete_ne by congruence.
  rewrite (us_child _ _ _ _ _ _ _ _ _ _ _ _ _ Hs).
  rewrite !decide_False by congruence. rewrite Hx.
  rewrite bool_decide_eq_true_2 by (by apply list_elem_of_fmap_2). done.
Qed.

Lemma snapshot_at a e k l s0 :
  ecdysis_at a (e, k) -> in_registry get_fds_for_child (e, k) = (Ret l, s0) ->
  exists i, registry e = live i l /\ reg_wf i l (fds k) /\ reg_abs (fds k) i l a.
Proof.
  intros (i & u & Hr & Hw & Ha) E. cbn in *.
  rewrite (in_registry_run _ e k (Ret u) (live i u) k) in E
    by (rewrite Hr; apply get_fds_for_child_run).
  simplify_eq. by exists i.
Qed.

Lemma handover_child a l bs i k kc rr sl k' rl sr dlr dlw drr drw
    (e1 := MkEcdysis (from_inherited l) (Some sr) None true) :
  reg_wf i l (fds k) -> reg_abs (fds k) i l a -> serialize l = Ok bs ->
  upgrade_started systemd_sockets l k kc rr sl k' rl sr dlr dlw drr drw ->
  pipe_fd_from_env ENV_PIPE_FDS kc = (Ret (Ok rl), kc) /\
  desc_of (fds kc) rl = Some dlr /\
  exists k1, Ecdysis_new (pipe_deliver dlr bs kc) = (Ret e1, k1) /\
    ecdysis_at (AReg (a_used a) []) (e1, k1) /\ holds_notifier sr drw (e1, k1) /\
    fds k1 = delete rl (fds kc).
Proof.
  intros Hw Ha Hs Hus.
  pose proof (us_child _ _ _ _ _ _ _ _ _ _ _ _ _ Hus) as Hc.
  destruct (us_child_new _ _ _ _ _ _ _ _ _ _ _ _ _ Hus) as (Hrl & Hsr & Hne).
  destruct (us_range _ _ _ _ _ _ _ _ _ _ _ _ _ Hus) as [Hr1 Hr2].
  pose proof (us_env _ _ _ _ _ _ _ _ _ _ _ _ _ Hus) as Henv.
  assert (Hrd : fds kc !! rl = Some (Fd dlr false)) by (rewrite Hc; by rewrite decide_True).
  assert (Hup : upgrade_env rl sr kc) by (unfold upgrade_env; rewrite Henv; apply child_env_upgrade).
  split; [apply pipe_fd_from_env_ok; [done|apply Hup]|].
  split; [unfold desc_of; by rewrite Hrd|].
  set (kd := pipe_deliver dlr bs kc).
  assert (Vd : view kd = set_pipes (<[dlr := bs]> (v_pipes (view kc))) (view kc))
    by apply pipe_deliver_view.
  assert (Td : fds kd = fds kc) by (unfold fds; by rewrite Vd).
  destruct (init_child_upgrade rl sr (Fd dlr false) l bs "" kd) as (k1 & E & T & R); try done.
  { unfold upgrade_env. by rewrite Vd. }
  { by rewrite Td. }
  { rewrite Vd. cbn. by rewrite lookup_insert_eq, string_app_empty_r. }
  exists k1. unfold Ecdysis_new. rewrite (run_bind _ _ _ _ _ E). split; [done|].
  rewrite Td in T. split.
  - apply from_inherited_at; [|cbn [snd]; rewrite T; eapply handed_entries; [done|apply Ha]].
    destruct Hw as [Hnd _ _]. rewrite fmap_app in Hnd. by apply NoDup_app in Hnd as (_ & _ & ?).
  - split; [|done]. split; [done|]. split.
    + intros i' u' [= <- <-]. rewrite app_nil_r.
      intros (li & -> & Hli)%list_elem_of_fmap.
      destruct Hw as [_ _ Hu]. rewrite Forall_forall in Hu. destruct (Hu li Hli). congruence.
    + exists false. cbn. rewrite T, lookup_delete_ne by done.
      rewrite Hc, decide_False, decide_True by done. done.
Qed.

Lemma parent_keeps a e k l kc rr sl k' rl sr dlr dlw drr drw :
  ecdysis_at a (e, k) ->
  upgrade_started systemd_sockets l k kc rr sl k' rl sr dlr dlw drr drw ->
  ecdysis_at a (e, k').
Proof.
  intros Hat Hus. apply (ecdysis_at_foreign a e k k' Hat). intros fd [x Hx] _.
  destruct (us_parent_free _ _ _ _ _ _ _ _ _ _ _ _ _ Hus) as (Hrr & Hsl & _).
  rewrite (us_parent _ _ _ _ _ _ _ _ _ _ _ _ _ Hus), !lookup_insert_ne by congruence. done.
Qed.

(** What a start that succeeded means, for a parent whose registry is [a]. *)
Lemma started_inv a e k l bs c rr sl (s' : bool * K) :
  ecdysis_at a (e, k) -> env_args k <> [] ->
  in_registry get_fds_for_child (e, k) = (Ret l, (e, k)) -> serialize l = Ok bs ->
  upgrade_start debug_io systemd_sockets l (false, k) = (Ret (Ok (c, rr, sl)), s') ->
  exists kc rl d ds w dr dw e1 k1,
    c = Running kc /\ pipe_fd_from_env ENV_PIPE_FDS kc = (Ret (Ok rl), kc) /\
    desc_of (fds kc) rl = Some d /\
    Ecdysis_new (pipe_deliver d bs kc) = (Ret e1, k1) /\ is_child e1 = true /\
    ecdysis_at (AReg (a_used a) []) (e1, k1) /\ holds_notifier w dw (e1, k1) /\
    ecdysis_at a (e, s'.2) /\ upgrade_started systemd_sockets l k kc rr sl s'.2 rl w d ds dr dw /\
    fds k1 = delete rl (fds kc).
Proof.
  intros Hat Hargs El Hs E.
  destruct (snapshot_at _ _ _ _ _ Hat El) as (i & Hr & Hw & Ha).
  assert (Hl : Forall (fun li => is_Some (fds k !! li_fd li)) l).
  { by apply wf_all_open, Forall_app in Hw as [_ ?]. }
  destruct (upgrade_start_cases debug_io systemd_sockets l k Hargs Hl)
    as [(kc & rr' & sl' & k' & rl & sr & dlr & dlw & drr & drw & E' & Hus)|(? & ? & E' & _)];
    rewrite E in E'; simplify_eq.
  destruct (handover_child _ _ _ _ _ _ _ _ _ _ _ _ _ _ _ Hw Ha Hs Hus)
    as (Hp & Hd & k1 & En & Hat1 & Hn & T).
  exists kc, rl, dlr, dlw, sr, drr, drw. eexists _, k1. peel 3. split; [exact En|].
  peel 3. split; [by eapply parent_keeps|done].
Qed.

(** ** Chains of upgrades *)

Definition asked (si : SockInfo) (l : list (SockInfo * N)) : option (SockInfo * N) :=
  List.find (a_asks si) l.

(** A generation that keeps the socket of [si]: before asking for it, it takes,
    adds or closes nothing under that name, and does not close the inherited
    sockets; it is given the socket when it asks; it closes no used socket after
    that. *)
Fixpoint keeps (si : SockInfo) (ls : list label) : Prop :=
  match ls with
  | [] => False
  | LInherit si' o :: ls' =>
    if sock_info_eqb si' si then is_Some o /\ LCloseUsed ∉ ls' else keeps si ls'
  | LTake si' _ :: ls' | LAdd si' _ :: ls' => sock_info_eqb si' si = false /\ keeps si ls'
  | LCloseInherited :: _ => False
  | _ :: ls' => keeps si ls'
  end.

Lemma asked_position si l p x :
  position (a_asks si) l = Some p -> l !! p = Some x -> asked si l = Some x.
Proof.
  revert p. induction l as [|y l IH]; [done|]. intros p. rewrite position_cons. cbn.
  destruct (a_asks si y); [by intros [= <-] [= ->]|].
  intros (q & Hq & ->)%fmap_Some. cbn. by apply IH.
Qed.

Lemma asked_unique si si' l p x :
  position (a_asks si') l = Some p -> l !! p = Some x -> sock_info_equiv si' si ->
  asked si l = Some x.
Proof.
  intros Hp Hx Hsi. rewrite <- (asked_position _ _ _ _ Hp Hx). unfold asked. clear Hp Hx.
  induction l as [|y l IH]; [done|]. cbn. rewrite IH. unfold a_asks. by rewrite Hsi.
Qed.

Lemma asked_delete si l q y :
  l !! q = Some y -> a_asks si y = false -> asked si (delete q l) = asked si l.
Proof.
  revert q. induction l as [|z l IH]; [done|]. intros [|q] Hq Hy; cbn in *.
  - injection Hq as ->. by rewrite Hy.
  - destruct (a_asks si z); [done|]. by apply IH.
Qed.

(** Removing what another name asked for. *)
Lemma asked_delete_other si si' l q :
  position (a_asks si') l = Some q -> sock_info_eqb si' si = false ->
  asked si (delete q l) = asked si l.
Proof.
  intros (y & Hy & Ha & _)%position_Some Hne. apply asked_delete with y; [done|].
  unfold a_asks in *. change (sock_info_equiv y.1 si') in Ha. by rewrite Ha.
Qed.

Lemma asked_app si l l' :
  asked si (l ++ l') = match asked si l with Some x => Some x | None => asked si l' end.
Proof. induction l as [|y l IH]; [done|]. cbn. by destruct (a_asks si y). Qed.

Lemma asked_single si si' d :
  asked si [(si', d)] = if sock_info_eqb si' si then Some (si', d) else None.
Proof. done. Qed.

(** Once asked for, a socket stays until the used ones are closed. *)
Lemma a_steps_used_stable si x a ls a' :
  a_steps a ls a' -> LCloseUsed ∉ ls -> asked si (a_used a) = Some x ->
  asked si (a_used a') = Some x.
Proof.
  induction 1 as [|a l a1 ls a' Hs _ IH]; [done|].
  intros [Hl Hls]%not_elem_of_cons Hx. apply IH; [done|].
  inversion Hs; subst; cbn [a_used] in *; rewrite ?asked_app, ?Hx; congruence.
Qed.

Lemma a_steps_keeps si si0 d a ls a' :
  a_steps a ls a' -> keeps si ls ->
  asked si (a_inherited a) = Some (si0, d) -> asked si (a_used a) = None ->
  (exists si', sock_info_equiv si' si /\ LInherit si' (Some d) ∈ ls) /\
  exists si', asked si (a_used a') = Some (si', d).
Proof.
  induction 1 as [|a l a1 ls a' Hs Hss IH]; [done|]. intros Hk Hi Hu.
  assert (Hgo : keeps si ls -> asked si (a_inherited a1) = Some (si0, d) ->
    asked si (a_used a1) = None ->
    (exists si', sock_info_equiv si' si /\ LInherit si' (Some d) ∈ l :: ls) /\
    exists si', asked si (a_used a') = Some (si', d)).
  { intros Hk' Hi' Hu'. destruct (IH Hk' Hi' Hu') as [(si' & ? & ?) ?].
    split; [|done]. exists si'. split; [done|by apply list_elem_of_further]. }
  inversion Hs as [si' i u p si'' d' Hp Hl|si' i u p Hp|si' i u Hp|si' i u p si'' d' Hp Hl|
    si' i u Hp|si' d' i u| | | | |]; subst; cbn [keeps a_used a_inherited] in *.
  - destruct (sock_info_eqb si' si) eqn:E.
    + rewrite (asked_unique _ _ _ _ _ Hp Hl E) in Hi. simplify_eq. split.
      * exists si'. split; [done|by apply list_elem_of_here].
      * exists si'. apply (a_steps_used_stable _ _ _ _ _ Hss (proj2 Hk)).
        cbn [a_used]. by rewrite asked_app, Hu, asked_single, E.
    + apply Hgo; [done|by rewrite (asked_delete_other _ _ _ _ Hp E)|].
      cbn [a_used]. by rewrite asked_app, Hu, asked_single, E.
  - destruct (sock_info_eqb si' si) eqn:E; [by destruct Hk as [[]]|].
    apply Hgo; [done|by rewrite (asked_delete_other _ _ _ _ Hp E)|done].
  - destruct (sock_info_eqb si' si) eqn:E; [by destruct Hk as [[]]|by apply Hgo].
  - destruct Hk as [E Hk]. apply Hgo; [done|by rewrite (asked_delete_other _ _ _ _ Hp E)|done].
  - destruct Hk as [E Hk]. by apply Hgo.
  - destruct Hk as [E Hk]. apply Hgo; [done..|].
    cbn [a_used]. by rewrite asked_app, Hu, asked_single, E.
  - by apply Hgo.
  - by apply Hgo.
  - done.
  - by apply Hgo.
  - by apply Hgo.
Qed.

(** One link of the chain. *)
(** What the child is given, and what the parent keeps. *)
Lemma started_both a s k' s1 :
  ecdysis_at a s -> started s k' s1 ->
  ecdysis_at (AReg (a_used a) []) s1 /\ (exists w dw, holds_notifier w dw s1) /\ ecdysis_at a (s.1, k').
Proof.
  destruct s as [e k], s1 as [e1 k1].
  intros Hat (l & kc & rr & sl & bs & rl & d & Hargs & El & E & Hs & Hp & Hd & En). cbn in *.
  destruct (started_inv _ _ _ _ _ _ _ _ _ Hat Hargs El Hs E)
    as (kc' & rl' & d' & ds & w & dr & dw & e1' & k1' & Hc & Hp' & Hd' & En' & _ & H1 & H2 & H3 & _).
  simplify_eq. rewrite Hp in Hp'. simplify_eq.
  rewrite En in En'. simplify_eq. split; [done|]. split; [by eexists _, _|done].
Qed.

Lemma started_at a s k' s1 :
  ecdysis_at a s -> started s k' s1 -> ecdysis_at (AReg (a_used a) []) s1.
Proof. intros Hat Hs. by apply (started_both a s k' s1). Qed.

Lemma runs_simulated a s ls s' :
  ecdysis_at a s -> runs s ls s' -> exists a', a_steps a ls a' /\ ecdysis_at a' s'.
Proof. apply simulate_steps. Qed.

Lemma runs_inherit (s : Ecdysis * K) si fd d (s' : Ecdysis * K) :
  inherit si (registry s.1, s.2) = (Ret (Some fd), (registry s'.1, s'.2)) ->
  desc_of (fds s'.2) fd = Some d -> runs s [LInherit si (Some d)] s'.
Proof.
  intros E Hd. eapply c_steps_cons; [|constructor].
  replace (Some d) with (Some fd ≫= desc_of (fds (registry s'.1, s'.2).2)) by done.
  by apply C_inherit.
Qed.

(** ** Properties *)

(** C5. The handover: when a process whose registry stands for [a] starts a
    child and the snapshot can be serialized, the child is running; it finds the
    listener pipe in its environment; once the snapshot's bytes are delivered
    there, its [Ecdysis::new] returns, knows it is a child, holds the write end
    of the ready pipe, and its inherited sockets are exactly, and in the same
    order, the parent's used ones, on the same open file descriptions. The
    parent's own registry is untouched. *)
Theorem handover_preserves_sockets (a : ARegistry) (e : Ecdysis) (k : K)
    (l : list ListenerInfo) (bs : string) (c : Child K) (rr sl : Z) (s' : bool * K) :
  ecdysis_at a (e, k) -> env_args k <> [] ->
  in_registry get_fds_for_child (e, k) = (Ret l, (e, k)) -> serialize l = Ok bs ->
  upgrade_start debug_io systemd_sockets l (false, k) = (Ret (Ok (c, rr, sl)), s') ->
  exists kc rl d w dw e1 k1,
    c = Running kc /\ pipe_fd_from_env ENV_PIPE_FDS kc = (Ret (Ok rl), kc) /\
    desc_of (fds kc) rl = Some d /\
    Ecdysis_new (pipe_deliver d bs kc) = (Ret e1, k1) /\ is_child e1 = true /\
    ecdysis_at (AReg (a_used a) []) (e1, k1) /\ holds_notifier w dw (e1, k1) /\
    ecdysis_at a (e, s'.2).
Proof.
  intros Hat Hargs El Hs E.
  destruct (started_inv _ _ _ _ _ _ _ _ _ Hat Hargs El Hs E)
    as (kc & rl & d & ds & w & dr & dw & e1 & k1 & H).
  exists kc, rl, d, w, dw, e1, k1. naive_solver.
Qed.

(** A listening socket survives any number of upgrades: if the first
    process uses the socket [d] for [si], and every later generation asks for
    [si] before anything else that concerns it, is answered, and does not close
    its used sockets afterwards, then every generation was given the very same
    socket and the last one has it in use, ready for the next child. *)
Theorem socket_survives_generations (tr : list (list label)) (s s' : Ecdysis * K)
    (a : ARegistry) (si si0 : SockInfo) (d : N) :
  descends tr s s' -> ecdysis_at a s -> asked si (a_used a) = Some (si0, d) ->
  Forall (keeps si) tr ->
  Forall (fun ls => exists si', sock_info_equiv si' si /\ LInherit si' (Some d) ∈ ls) tr /\
  exists a' si', ecdysis_at a' s' /\ asked si (a_used a') = Some (si', d).
Proof.
  intros Hd. revert a si0. induction Hd as [s|s k' s1 ls s2 tr s3 Hst Hr _ IH]; intros a si0 Hat Hs Hk.
  - split; [constructor|]. by exists a, si0.
  - apply Forall_cons in Hk as [Hk Hks].
    destruct (runs_simulated _ _ _ _ (started_at _ _ _ _ Hat Hst) Hr) as (a2 & Hss & Hat2).
    destruct (a_steps_keeps si si0 d _ _ _ Hss Hk Hs eq_refl) as (Hin & si' & Ha2).
    destruct (IH _ _ Hat2 Ha2 Hks) as (Hall & Hlast). split; [by constructor|done].
Qed.
End handover.

(** ** Witnesses *)

Definition serving_object : Ecdysis := MkEcdysis (live [] serving_fds) None None false.

Lemma serving_at : ecdysis_at (AReg [] [(Tcp (V4 0 80), 40%N)]) (serving_object, serving).
Proof.
  exists [], serving_fds. split; [done|]. split; [split|split].
  - apply NoDup_singleton.
  - constructor.
  - repeat constructor. by exists 40%N.
  - constructor.
  - by repeat constructor.
Qed.

Definition sent : string :=
  match serialize serving_fds with Ok bs => bs | Err _ => EmptyString end.

(** The start of the server's child, evaluated. *)
Definition serving_start := upgrade_start show_error false serving_fds (false, serving).


Definition serving_kc : model :=
  match serving_start.1 with Ret (Ok (Running kc, _, _)) => kc | _ => serving end.

(** [Ecdysis::new] in that child, the bytes delivered. *)
Definition serving_new := Ecdysis_new (pipe_deliver 42 sent serving_kc).

Definition serving_child : Ecdysis * model :=
  (match serving_new.1 with Ret e => e | _ => serving_object end, serving_new.2).

(** The child after it asked for the socket of port 80. *)
Definition serving_child' : Ecdysis * model :=
  (in_registry (inherit (Tcp (V4 0 80))) serving_child).2.

Lemma serving_run :
  serving_start = (Ret (Ok (Running serving_kc, 8, 5)), (true, serving_start.2.2)).
Proof. vm_compute. reflexivity. Qed.

Lemma handover_preserves_sockets_witness :
  exists kc rl d e1 k1,
    serving_start = (Ret (Ok (Running serving_kc, 8, 5)), serving_start.2) /\
    Running serving_kc = Running kc /\
    pipe_fd_from_env ENV_PIPE_FDS kc = (Ret (Ok rl), kc) /\ desc_of (fds kc) rl = Some d /\
    Ecdysis_new (pipe_deliver d sent kc) = (Ret e1, k1) /\ is_child e1 = true /\
    ecdysis_at (AReg [(Tcp (V4 0 80), 40%N)] []) (e1, k1).
Proof.
  pose proof serving_run as E.
  destruct (handover_preserves_sockets show_error false (AReg [] [(Tcp (V4 0 80), 40%N)])
    serving_object serving serving_fds sent (Running serving_kc) 8 5 (true, serving_start.2.2))
    as (kc & rl & d & w & dw & e1 & k1 & H1 & H2 & H3 & H4 & H5 & H6 & _);
    [exact serving_at|discriminate|reflexivity|reflexivity|exact E|].
  exists kc, rl, d, e1, k1. rewrite E. exact (conj eq_refl (conj H1 (conj H2 (conj H3 (conj H4 (conj H5 H6)))))).
Defined.

Lemma serving_started :
  started show_error false (serving_object, serving) serving_start.2.2 serving_child.
Proof.
  exists serving_fds, serving_kc, 8, 5, sent, 7, 42%N.
  split; [discriminate|]. split; [reflexivity|]. split; [exact serving_run|].
  split; [reflexivity|]. split; [vm_compute; reflexivity|]. split; [vm_compute; reflexivity|].
  vm_compute. reflexivity.
Qed.

Lemma socket_survives_generations_witness :
  exists a' si', ecdysis_at a' serving_child' /\
    asked (Tcp (V4 0 80)) (a_used a') = Some (si', 40%N).
Proof.
  apply (socket_survives_generations show_error false [[LInherit (Tcp (V4 0 80)) (Some 40%N)]]
    (serving_object, serving) serving_child' (AReg [] [(Tcp (V4 0 80), 40%N)])
    (Tcp (V4 0 80)) (Tcp (V4 0 80)) 40%N).
  - eapply descends_step; [exact serving_started| |apply descends_refl].
    apply (runs_inherit _ (Tcp (V4 0 80)) 4); by vm_compute.
  - exact serving_at.
  - done.
  - apply Forall_singleton. split; [by eexists|apply not_elem_of_nil].
Defined.
