(* ===== verification/Handshake.v ===== *)
(** * Handshake: the two pipes between parent and child

    [UpgradeThreads] takes for granted who can write to and read from the two
    pipes of an upgrade: the child alone holds the write end of the ready pipe
    and the read end of the listener pipe, the parent alone the other two. Here
    that is a theorem about the descriptor tables that [upgrade_start],
    [Ecdysis::new] and [ready] leave, so that end of file means what the threads
    take it for. *)

From S2P Require Import Prelude Text Addr Posix PosixModel Utils Registry RegistrySpec.
From S2P Require Import Bincode Listener Inheriter Executioner Ecdysis EcdysisSpec Handover.
Local Open Scope Z_scope.

(** The descriptors that refer to [d]: exactly [o], or none. *)
Definition sole_holder (t : gmap Z fdent) (d : N) (o : option Z) : Prop :=
  forall fd, desc_of t fd = Some d <-> o = Some fd.

Section handshake.
Context {K : Type} `{HV : HasView K, FO : FdOps K, FL : !FdLaws K, PO : PipeOps K,
  PL : !PipeLaws K, PR : ProcOps K, PRL : !ProcLaws K, FS : FsOps K, FSL : !FsLaws K,
  SO : SockOps K, BC : Bincode K, BL : !BincodeLaws K}.
Context (debug_io : io_error -> string) (systemd_sockets : bool).
Implicit Types (k : K) (e : Ecdysis) (a : ARegistry).

(** Who holds the ends of a pipe pair: [dlr] and [dlw] are the two ends of the
    listener pipe, [drr] and [drw] those of the ready pipe. *)
Record ends (t : gmap Z fdent) (dlr dlw drr drw : N) (olr olw orr orw : option Z) : Prop := {
  end_lr : sole_holder t dlr olr;
  end_lw : sole_holder t dlw olw;
  end_rr : sole_holder t drr orr;
  end_rw : sole_holder t drw orw
}.

Lemma fresh_not_held d k fd : fresh_desc d k -> desc_of (fds k) fd <> Some d.
Proof. unfold desc_of. intros Hf (x & Hx & E)%fmap_Some. by apply (Hf fd x Hx). Qed.

Section started.
Context l k kc rr sl k' rl sr dlr dlw drr drw
  (Hus : upgrade_started systemd_sockets l k kc rr sl k' rl sr dlr dlw drr drw).

Lemma started_fresh fd :
  desc_of (fds k) fd <> Some dlr /\ desc_of (fds k) fd <> Some dlw /\
  desc_of (fds k) fd <> Some drr /\ desc_of (fds k) fd <> Some drw.
Proof.
  pose proof (us_fresh _ _ _ _ _ _ _ _ _ _ _ _ _ Hus) as Hf.
  repeat (apply Forall_cons in Hf as [? Hf]). repeat split; by apply fresh_not_held.
Qed.

Lemma parent_ends : ends (fds k') dlr dlw drr drw None (Some sl) (Some rr) None.
Proof.
  pose proof (NoDup4 _ _ _ _ (us_descs _ _ _ _ _ _ _ _ _ _ _ _ _ Hus)) as (? & ? & ? & ? & ? & ?).
  destruct (us_parent_free _ _ _ _ _ _ _ _ _ _ _ _ _ Hus) as (_ & _ & ?).
  split; intros fd; destruct (started_fresh fd) as (? & ? & ? & ?); unfold desc_of in *;
    rewrite (us_parent _ _ _ _ _ _ _ _ _ _ _ _ _ Hus), !lookup_insert;
    repeat case_decide; subst; cbn; split; intros; simplify_eq; done.
Qed.

Lemma child_ends : ends (fds kc) dlr dlw drr drw (Some rl) None None (Some sr).
Proof.
  pose proof (NoDup4 _ _ _ _ (us_descs _ _ _ _ _ _ _ _ _ _ _ _ _ Hus)) as (? & ? & ? & ? & ? & ?).
  destruct (us_child_new _ _ _ _ _ _ _ _ _ _ _ _ _ Hus) as (_ & _ & ?).
  split; intros fd; destruct (started_fresh fd) as (? & ? & ? & ?); unfold desc_of in *;
    rewrite (us_child _ _ _ _ _ _ _ _ _ _ _ _ _ Hus);
    repeat case_decide; subst; cbn; try (split; intros; simplify_eq; done);
    (destruct (fds k !! fd) as [x|]; [destruct (_ || _)|]; cbn in *; split; intros; simplify_eq; done).
Qed.
End started.

(** Closing the only holder leaves none; the others are not touched. *)
Lemma sole_holder_delete t d fd : sole_holder t d (Some fd) -> sole_holder (delete fd t) d None.
Proof.
  intros H x. unfold desc_of. rewrite lookup_delete. case_decide as Hx; [by subst|].
  split; [|done]. intros Hd. apply H in Hd. by simplify_eq.
Qed.

Lemma sole_holder_delete_ne t d fd o :
  o <> Some fd -> sole_holder t d o -> sole_holder (delete fd t) d o.
Proof.
  intros Hne H x. unfold desc_of. rewrite lookup_delete. case_decide as Hx; [|apply H].
  subst. split; [done|]. by intros ->.
Qed.

Lemma sole_holder_subseteq t t' d :
  sole_holder t d None -> (forall fd, t' !! fd = None \/ t' !! fd = t !! fd) -> sole_holder t' d None.
Proof.
  intros H Ht fd. split; [|done]. unfold desc_of. destruct (Ht fd) as [-> | ->]; [done|]. apply H.
Qed.

Lemma ready_outcome a e k w d r s' :
  ecdysis_at a (e, k) -> holds_notifier w d (e, k) -> ready (e, k) = (Ret r, s') ->
  ready_done a e k w d r s' /\ ecdysis_at (AReg [] (a_used a)) s'.
Proof.
  intros Hat Hn E. pose proof Hat as (i & u & Hr & _). cbn in Hr.
  destruct (ready_cases a e k w d i u Hat Hn Hr) as [(r' & s1 & E1 & _ & Hd)|(msg & k' & path & E1 & _)];
    rewrite E in E1; simplify_eq. split; [done|]. by destruct Hd as (_ & ? & _).
Qed.

(** The ready pipe once [ready] has returned. *)
Lemma ready_leaves_none a e k w d r s' :
  ecdysis_at a (e, k) -> sole_holder (fds k) d (Some w) -> ready_done a e k w d r s' ->
  sole_holder (fds s'.2) d None.
Proof.
  intros (i & u & Hr & _) Hs (_ & _ & Ht & _). cbn in Hr. apply (sole_holder_subseteq (delete w (fds k))).
  - by apply sole_holder_delete.
  - intros fd. rewrite (Ht i u fd Hr), lookup_delete. repeat case_decide; naive_solver.
Qed.

(** C13. The pipes of an upgrade end where they should. When a start succeeded,
    the parent holds exactly the write end of the listener pipe and the read end
    of the ready pipe, each once, and the child exactly the other two, each
    once: so the child sees the end of the list when the parent is done, and the
    parent sees the end of the ready pipe when the child is gone. After the
    child's [Ecdysis::new] it holds only the ready pipe, as its notifier; and
    when its [ready] returns it holds neither, has written "OK" if it returned
    [Ok], and a second [ready] writes nothing. *)
Theorem pipes_end_with_child (a : ARegistry) (e : Ecdysis) (k : K)
    (l : list ListenerInfo) (bs : string) (c : Child K) (rr sl : Z) (s' : bool * K) :
  ecdysis_at a (e, k) -> env_args k <> [] ->
  in_registry get_fds_for_child (e, k) = (Ret l, (e, k)) -> serialize l = Ok bs ->
  upgrade_start debug_io systemd_sockets l (false, k) = (Ret (Ok (c, rr, sl)), s') ->
  exists kc rl w dlr dlw drr drw e1 k1,
    c = Running kc /\
    ends (fds s'.2) dlr dlw drr drw None (Some sl) (Some rr) None /\
    ends (fds kc) dlr dlw drr drw (Some rl) None None (Some w) /\
    Ecdysis_new (pipe_deliver dlr bs kc) = (Ret e1, k1) /\
    ends (fds k1) dlr dlw drr drw None None None (Some w) /\ ready_notifier e1 = Some w /\
    forall r s2, ready (e1, k1) = (Ret r, s2) ->
      ends (fds s2.2) dlr dlw drr drw None None None None /\
      (r = Ok tt -> v_written (view s2.2) =
         <[drw := default "" (v_written (view k1) !! drw) +:+ "OK"]> (v_written (view k1))) /\
      v_written (view (ready s2).2.2) = v_written (view s2.2).
Proof.
  intros Hat Hargs El Hs E.
  destruct (started_inv _ _ _ _ _ _ _ _ _ _ _ Hat Hargs El Hs E)
    as (kc & rl & dlr & dlw & w & drr & drw & e1 & k1 & -> & _ & _ & En & _ & Hat1 & Hn & _ & Hus & T).
  pose proof (child_ends _ _ _ _ _ _ _ _ _ _ _ _ Hus) as Hc. pose proof Hc as [H1 H2 H3 H4].
  destruct (us_child_new _ _ _ _ _ _ _ _ _ _ _ _ _ Hus) as (_ & _ & Hne).
  assert (Hk1 : ends (fds k1) dlr dlw drr drw None None None (Some w)).
  { rewrite T. split; [by apply sole_holder_delete|..]; (apply sole_holder_delete_ne; [congruence|done]). }
  exists kc, rl, w, dlr, dlw, drr, drw, e1, k1.
  split; [done|]. split; [by eapply parent_ends|]. peel 3. split; [apply Hn|].
  intros r s2 Er. destruct (ready_outcome _ _ _ _ _ _ _ Hat1 Hn Er) as (Hd & Hat2).
  pose proof Hat1 as (i & u & Hr & _). pose proof Hd as (Hnn & _ & Ht & Hwr & _).
  destruct Hk1 as [G1 G2 G3 G4]. split; [|split; [exact Hwr|]].
  - assert (Hsub : forall fd, fds s2.2 !! fd = None \/ fds s2.2 !! fd = fds k1 !! fd).
    { intros fd. rewrite (Ht i u fd Hr). case_decide; auto. }
    split; [apply (sole_holder_subseteq (fds k1)); assumption..|exact (ready_leaves_none _ _ _ _ _ _ _ Hat1 G4 Hd)].
  - destruct s2 as [e2 k2]. by apply (ready_without_notifier (AReg [] (a_used (AReg (a_used a) [])))).
Qed.
End handshake.

(** ** Witness *)

(** The child of the server of port 80: it reports, and holds no pipe any more. *)
Lemma pipes_end_with_child_witness :
  exists s' kc rl w dlr dlw drr drw,
    upgrade_start show_error false serving_fds (false, serving) = (Ret (Ok (Running kc, 8, 5)), s') /\
    ends (fds s'.2) dlr dlw drr drw None (Some 5) (Some 8) None /\
    ends (fds kc) dlr dlw drr drw (Some rl) None None (Some w).
Proof.
  pose proof serving_run as E. unfold serving_start at 1 in E. revert E.
  generalize (true, serving_start.2.2), (Running serving_kc). intros s' c E.
  destruct (pipes_end_with_child show_error false (AReg [] [(Tcp (V4 0 80), 40%N)])
    serving_object serving serving_fds sent c 8 5 s')
    as (kc & rl & w & dlr & dlw & drr & drw & e1 & k1 & -> & H2 & H3 & _);
    [exact serving_at|discriminate|reflexivity|reflexivity|exact E|].
  exists s', kc, rl, w, dlr, dlw, drr, drw. split; [exact E|]. split; [exact H2|exact H3].
Defined.
