(* ===== verification/UpgradeThreads.v ===== *)
(** * UpgradeThreads: the threads of [upgrade] and the child, interleaved

    After the start modelled in [Executioner], [upgrade] of [executioner.rs] is
    four threads: the caller, which joins the others; [send_fds], which writes
    the listener list; [wait_child], which polls the child every 500 ms for 5 s
    and then kills it; [wait_ready], which reads two bytes from the ready pipe.
    They race with the child and, through the static [UPGRADING], with other
    calls of [upgrade] in the same process.

    A [job] is one call of [upgrade]; a [system] is the clock, [UPGRADING] and
    the jobs. Each thread is a function taking one atomic action ([None] when it
    is blocked), and a run is any sequence of actions. Where the operating system
    can fail, the event says whether it does. Time is in milliseconds and only
    [Tick] advances it: a thread may be arbitrarily late. *)

From S2P Require Import Prelude Text Posix Bincode Executioner.
From Stdlib Require Import Ascii.
Local Open Scope Z_scope.

(** ** The child, its end of the pipes, and what it may do *)

Inductive proc_state : Type := PRunning | PZombie | PReaped.

Record proc : Type := MkProc {
  p_state : proc_state;
  p_recv_open : bool;   (* it still has the read end of the listener pipe *)
  p_ready_open : bool;  (* it still has the write end of the ready pipe *)
  p_helper : bool;      (* a process it forked has that write end too *)
  p_listeners : nat;    (* bytes in the listener pipe *)
  p_pipe : string;      (* unread bytes in the ready pipe *)
  p_wrote : string;     (* everything ever written to the ready pipe *)
  p_killed : bool       (* killed by the parent while running *)
}.

#[export] Instance proc_state_eq_dec : EqDecision proc_state.
Proof. solve_decision. Defined.

Definition p_running (p : proc) : bool := bool_decide (p_state p = PRunning).
Definition ready_writers (p : proc) : bool := (p_running p && p_ready_open p) || p_helper p.
Definition listener_readers (p : proc) : bool := p_running p && p_recv_open p.

Definition spawned : proc := MkProc PRunning true true false 0 "" "" false.

Definition set_state (s : proc_state) (p : proc) : proc :=
  MkProc s (p_recv_open p) (p_ready_open p) (p_helper p) (p_listeners p) (p_pipe p)
    (p_wrote p) (p_killed p).

Definition kill_proc (p : proc) : proc :=
  if p_running p then
    MkProc PZombie (p_recv_open p) (p_ready_open p) (p_helper p) (p_listeners p) (p_pipe p)
      (p_wrote p) true
  else p.

Definition write_ready (c : ascii) (p : proc) : proc :=
  MkProc (p_state p) (p_recv_open p) (p_ready_open p) (p_helper p) (p_listeners p)
    (p_pipe p +:+ String c "") (p_wrote p +:+ String c "") (p_killed p).

Definition set_pipe (s : string) (p : proc) : proc :=
  MkProc (p_state p) (p_recv_open p) (p_ready_open p) (p_helper p) (p_listeners p) s
    (p_wrote p) (p_killed p).

Definition set_listeners (n : nat) (p : proc) : proc :=
  MkProc (p_state p) (p_recv_open p) (p_ready_open p) (p_helper p) n (p_pipe p)
    (p_wrote p) (p_killed p).

(** [init_child] reads the listener pipe to the end and closes it before it
    takes the ready pipe, so everything the child does with the latter comes
    after the former is closed. The descriptor is not close-on-exec in the
    child, so a program it runs in the meantime inherits it. *)
Inductive child_act : Type :=
| CRecv | CCloseRecv | CWrite (c : ascii) | CCloseReady | CExit | CFork
| HWrite (c : ascii) | HClose.

Definition child_step (a : child_act) (p : proc) : option proc :=
  let has_ready := p_running p && p_ready_open p && negb (p_recv_open p) in
  match a with
  | CRecv =>
    match p_listeners p with
    | S n => if listener_readers p then Some (set_listeners n p) else None
    | O => None
    end
  | CCloseRecv =>
    if listener_readers p then
      Some (MkProc (p_state p) false (p_ready_open p) (p_helper p) (p_listeners p) (p_pipe p)
              (p_wrote p) (p_killed p))
    else None
  | CWrite c => if has_ready then Some (write_ready c p) else None
  | CCloseReady =>
    if has_ready then
      Some (MkProc (p_state p) (p_recv_open p) false (p_helper p) (p_listeners p) (p_pipe p)
              (p_wrote p) (p_killed p))
    else None
  | CExit => if p_running p then Some (set_state PZombie p) else None
  | CFork =>
    if has_ready then
      Some (MkProc (p_state p) (p_recv_open p) (p_ready_open p) true (p_listeners p) (p_pipe p)
              (p_wrote p) (p_killed p))
    else None
  | HWrite c => if p_helper p then Some (write_ready c p) else None
  | HClose =>
    if p_helper p then
      Some (MkProc (p_state p) (p_recv_open p) (p_ready_open p) false (p_listeners p) (p_pipe p)
              (p_wrote p) (p_killed p))
    else None
  end.

(** ** One call of [upgrade] *)

Section job.
Context {K : Type} `{BC : Bincode K}.
(** How much a pipe holds. *)
Context (capacity : nat).

Definition UpgradeFinished : Type := result unit (UpgradeError K).

Inductive main_pc : Type :=
| MCall                            (* about to swap UPGRADING *)
| MStart                           (* creating the pipes and the child *)
| MJoinReady
| MStore (res : UpgradeFinished)   (* about to clear UPGRADING *)
| MJoinChild (res : UpgradeFinished)
| MJoinSend (res : UpgradeFinished)
| MDone (res : UpgradeFinished)    (* returned from the end of the function *)
| MRefused                         (* returned early: already in upgrade *)
| MFailed (e : UpgradeError K).    (* returned early through a [?] *)

Inductive send_pc : Type :=
| SNone
| SWrite (remaining : nat)
| SDone (res : UpgradeFinished).

Inductive waitc_pc : Type :=
| WNone
| WSpawned
| WHead (start : Z) (n : nat)              (* the loop's test, after n rounds *)
| WSleep (start : Z) (n : nat) (wake : Z)
| WPoll (start : Z) (n : nat)              (* proc_wait in the loop *)
| WLoad (start : Z) (n : nat)
| WPollLast                                (* proc_wait before returning *)
| WKill (start : Z)
| WReap (start : Z)
| WDone (res : UpgradeFinished).

Inductive waitr_pc : Type :=
| RNone
| RRead (buf : string)
| RDone (res : UpgradeFinished).

Record job : Type := MkJob {
  j_main : main_pc;
  j_send : send_pc;
  j_waitc : waitc_pc;
  j_waitr : waitr_pc;
  j_proc : proc
}.

Definition called : job := MkJob MCall SNone WNone RNone spawned.

Definition set_main (m : main_pc) (j : job) : job :=
  MkJob m (j_send j) (j_waitc j) (j_waitr j) (j_proc j).

(** The calling thread. [start] is the outcome of creating the pipes and the
    child: an error, or the number of bytes there are to send. *)
Definition main_step (start : result nat (UpgradeError K)) (upgrading : bool) (j : job) :
    option (bool * job) :=
  match j_main j with
  | MCall => Some (true, set_main (if upgrading then MRefused else MStart) j)
  | MStart =>
    match start with
    | Err e => Some (upgrading, set_main (MFailed e) j)
    | Ok n => Some (upgrading, MkJob MJoinReady (SWrite n) WSpawned (RRead "") spawned)
    end
  | MJoinReady =>
    match j_waitr j with
    | RDone r => Some (upgrading, set_main (MStore r) j)
    | _ => None
    end
  | MStore r => Some (false, set_main (MJoinChild r) j)
  | MJoinChild r =>
    match j_waitc j with
    | WDone (Ok _) => Some (upgrading, set_main (MJoinSend r) j)
    | WDone (Err e) => Some (upgrading, set_main (MJoinSend (Err e)) j)
    | _ => None
    end
  | MJoinSend r =>
    match j_send j with
    | SDone _ => Some (upgrading, set_main (MDone r) j)
    | _ => None
    end
  | MDone _ | MRefused | MFailed _ => None
  end.

(** [send_fds]: blocked while the pipe is full; [e] is the error it reports when
    the write fails, which it does once nobody reads the pipe. *)
Definition send_step (failing : bool) (e : UpgradeError K) (p : proc) (s : send_pc) :
    option (send_pc * proc) :=
  match s with
  | SWrite remaining =>
    if failing then Some (SDone (Err e), p)
    else match remaining with
         | O => Some (SDone (Ok tt), p)
         | S n =>
           if negb (listener_readers p) then Some (SDone (Err e), p)
           else if (p_listeners p <? capacity)%nat
           then Some (SWrite n, set_listeners (S (p_listeners p)) p)
           else None
         end
  | SNone | SDone _ => None
  end.

(** [proc_wait]: [try_wait] reaps a child that exited; [failing] is an error of
    the system call. *)
Definition proc_wait (failing : bool) (p : proc) : UpgradeFinished * proc :=
  if failing then (Err ChildExit, p)
  else match p_state p with
       | PRunning => (Ok tt, p)
       | _ => (Err ChildExit, set_state PReaped p)
       end.

Definition timeout : Z := 5000.
Definition nap : Z := 500.

(** [wait_child] *)
Definition waitc_step (failing upgrading : bool) (now : Z) (p : proc) (w : waitc_pc) :
    option (waitc_pc * proc) :=
  match w with
  | WSpawned => Some (WHead now 0, p)
  | WHead start n =>
    if bool_decide (now - start < timeout) then Some (WSleep start n (now + nap), p)
    else Some (WKill start, p)
  | WSleep start n wake => if bool_decide (wake <= now) then Some (WPoll start n, p) else None
  | WPoll start n =>
    match proc_wait failing p with
    | (Ok _, p') => Some (WLoad start n, p')
    | (Err e, p') => Some (WDone (Err e), p')
    end
  | WLoad start n => Some (if upgrading then WHead start (S n) else WPollLast, p)
  | WPollLast => let '(r, p') := proc_wait failing p in Some (WDone r, p')
  | WKill start => Some (WReap start, kill_proc p)
  | WReap start =>
    if p_running p then None else Some (WDone (Err ChildTimeout), set_state PReaped p)
  | WNone | WDone _ => None
  end.

(** [wait_ready]: [read_exact] of two bytes. *)
Definition waitr_step (failing : bool) (p : proc) (r : waitr_pc) : option (waitr_pc * proc) :=
  match r with
  | RRead buf =>
    if failing then Some (RDone (Err ChildExit), p)
    else if bool_decide (String.length buf = 2%nat) then
      Some (RDone (if bool_decide (buf = "OK") then Ok tt else Err ChildExit), p)
    else match p_pipe p with
         | String c s => Some (RRead (buf +:+ String c ""), set_pipe s p)
         | EmptyString =>
           if ready_writers p then None else Some (RDone (Err ChildExit), p)
         end
  | RNone | RDone _ => None
  end.

Inductive event : Type :=
| Main (start : result nat (UpgradeError K))
| Send (failing : bool) (e : UpgradeError K)
| WaitC (failing : bool)
| WaitR (failing : bool)
| ChildDo (a : child_act).

(** A write needs a reader: [wait_ready] drops the pipe when it returns. *)
Definition may_act (a : child_act) (j : job) : bool :=
  match a, j_waitr j with
  | (CWrite _ | HWrite _), RDone _ => false
  | _, RNone => false
  | _, _ => true
  end.

Definition job_step (ev : event) (upgrading : bool) (now : Z) (j : job) : option (bool * job) :=
  match ev with
  | Main start => main_step start upgrading j
  | Send failing e =>
    '(s, p) ← send_step failing e (j_proc j) (j_send j);
    Some (upgrading, MkJob (j_main j) s (j_waitc j) (j_waitr j) p)
  | WaitC failing =>
    '(w, p) ← waitc_step failing upgrading now (j_proc j) (j_waitc j);
    Some (upgrading, MkJob (j_main j) (j_send j) w (j_waitr j) p)
  | WaitR failing =>
    '(r, p) ← waitr_step failing (j_proc j) (j_waitr j);
    Some (upgrading, MkJob (j_main j) (j_send j) (j_waitc j) r p)
  | ChildDo a =>
    if may_act a j then
      p ← child_step a (j_proc j);
      Some (upgrading, MkJob (j_main j) (j_send j) (j_waitc j) (j_waitr j) p)
    else None
  end.

(** ** The process: a clock, [UPGRADING] and the calls of [upgrade] *)

Record system : Type := MkSys { now : Z; upgrading : bool; jobs : list job }.

Inductive action : Type :=
| Tick (d : N)                (* time passes *)
| Call                        (* a thread calls [upgrade] *)
| Act (i : nat) (ev : event).

Definition sys_step (a : action) (s : system) : option system :=
  match a with
  | Tick d => Some (MkSys (now s + Z.of_N d) (upgrading s) (jobs s))
  | Call => Some (MkSys (now s) (upgrading s) (jobs s ++ [called]))
  | Act i ev =>
    j ← jobs s !! i;
    '(u, j') ← job_step ev (upgrading s) (now s) j;
    Some (MkSys (now s) u (<[i := j']> (jobs s)))
  end.

Fixpoint run (tr : list action) (s : system) : option system :=
  match tr with
  | [] => Some s
  | a :: tr' => s' ← sys_step a s; run tr' s'
  end.

Definition booted : system := MkSys 0 false [].
End job.

Arguments MCall {K BC}.
Arguments MStart {K BC}.
Arguments MJoinReady {K BC}.
Arguments MRefused {K BC}.
Arguments SNone {K BC}.
Arguments SWrite {K BC} remaining.
Arguments WNone {K BC}.
Arguments WSpawned {K BC}.
Arguments WHead {K BC} start n.
Arguments WSleep {K BC} start n wake.
Arguments WPoll {K BC} start n.
Arguments WLoad {K BC} start n.
Arguments WPollLast {K BC}.
Arguments WKill {K BC} start.
Arguments WReap {K BC} start.
Arguments RNone {K BC}.
Arguments RRead {K BC} buf.
Arguments WaitC {K BC} failing.
Arguments WaitR {K BC} failing.
Arguments ChildDo {K BC} a.
Arguments Tick {K BC} d.
Arguments Call {K BC}.
Arguments booted {K BC}.

Lemma string_app_length (x y : string) :
  String.length (x +:+ y) = (String.length x + String.length y)%nat.
Proof.
  induction x as [|c x IH]; [done|].
  change (S (String.length (x +:+ y)) = S (String.length x + String.length y)). by rewrite IH.
Qed.

(** ** The invariant *)

Section invariant.
Context {K : Type} `{BC : Bincode K} (capacity : nat).
Implicit Types (j : job (K := K)) (s : system (K := K)) (ev : event (K := K)).

(** The call holds [UPGRADING]: it set the flag and has not cleared it. *)
Definition holds j : Prop :=
  match j_main j with
  | MStart | MJoinReady | MStore _ | MFailed _ => True
  | _ => False
  end.

Definition past_store j : Prop :=
  match j_main j with MJoinChild _ | MJoinSend _ | MDone _ => True | _ => False end.

Definition threads_inv j : Prop :=
  match j_main j with
  | MCall | MStart | MRefused | MFailed _ =>
    j_send j = SNone /\ j_waitc j = WNone /\ j_waitr j = RNone /\ j_proc j = spawned
  | _ => j_send j <> SNone /\ j_waitc j <> WNone /\ j_waitr j <> RNone
  end.

(** The result so far is what the joined threads said. *)
Definition result_inv j : Prop :=
  match j_main j with
  | MStore r | MJoinChild r => j_waitr j = RDone r
  | MJoinSend r | MDone r =>
    exists rr rc, j_waitr j = RDone rr /\ j_waitc j = WDone rc /\
      r = match rc with Ok _ => rr | Err e => Err e end
  | _ => True
  end.

Definition ready_inv j : Prop :=
  match j_waitr j with
  | RNone => True
  | RRead buf => p_wrote (j_proc j) = buf +:+ p_pipe (j_proc j) /\ (String.length buf <= 2)%nat
  | RDone (Ok _) => exists rest, p_wrote (j_proc j) = "OK" +:+ rest
  | RDone (Err e) => e = ChildExit
  end.

(** The bounds on the rounds of [wait_child] and on when it kills. *)
Definition waitc_inv (now : Z) j : Prop :=
  match j_waitc j with
  | WNone | WSpawned => p_killed (j_proc j) = false
  | WHead s n => p_killed (j_proc j) = false /\ (n <= 10)%nat /\ s + nap * Z.of_nat n <= now
  | WSleep s n wake =>
    p_killed (j_proc j) = false /\ (n < 10)%nat /\ s + nap * Z.of_nat (S n) <= wake
  | WPoll s n | WLoad s n =>
    p_killed (j_proc j) = false /\ (n < 10)%nat /\ s + nap * Z.of_nat (S n) <= now
  | WPollLast => p_killed (j_proc j) = false /\ past_store j
  | WKill s => p_killed (j_proc j) = false /\ s + timeout <= now
  | WReap s => s + timeout <= now /\ p_running (j_proc j) = false
  | WDone (Ok _) => p_killed (j_proc j) = false /\ past_store j
  | WDone (Err ChildTimeout) => p_state (j_proc j) = PReaped
  | WDone (Err ChildExit) => p_killed (j_proc j) = false
  | WDone (Err _) => False
  end.

Record job_inv (now : Z) j : Prop := {
  ji_threads : threads_inv j;
  ji_result : result_inv j;
  ji_ready : ready_inv j;
  ji_waitc : waitc_inv now j
}.

Record sys_inv s : Prop := {
  si_jobs : Forall (job_inv (now s)) (jobs s);
  si_free : upgrading s = false -> Forall (fun j => ~ holds j) (jobs s);
  si_held : upgrading s = true -> exists i j, jobs s !! i = Some j /\ holds j;
  si_one : forall i1 i2 j1 j2, jobs s !! i1 = Some j1 -> jobs s !! i2 = Some j2 ->
    holds j1 -> holds j2 -> i1 = i2
}.

(** ** Each thread keeps it *)

Ltac job_cases := unfold threads_inv, result_inv, ready_inv, waitc_inv, past_store, holds in *.

Lemma main_step_inv start u now j u' j' :
  main_step start u j = Some (u', j') -> job_inv now j -> job_inv now j'.
Proof.
  destruct j as [m sd wc wr p]. intros E [Ht Hr Hd Hw]. cbn in *.
  destruct m; cbn in *; try done; simplify_eq/=.
  - by destruct u.
  - destruct start as [n|e]; simplify_eq; split; job_cases; cbn; try done. split; [done|lia].
  - destruct wr as [|?|r]; simplify_eq. split; job_cases; cbn in *; try done.
    all: destruct wc as [| | | | | | | | |[]]; naive_solver.
  - split; job_cases; cbn in *; try done.
    destruct wc as [| | | | | | | | |[]]; naive_solver.
  - destruct wc as [| | | | | | | | |[]]; simplify_eq; split; job_cases; cbn in *; naive_solver.
  - destruct sd; simplify_eq. split; job_cases; cbn in *; done.
Qed.

(** Threads other than the caller exist only once they are spawned. *)
Lemma spawned_inv now j :
  job_inv now j -> j_send j <> SNone \/ j_waitc j <> WNone \/ j_waitr j <> RNone ->
  match j_main j with MCall | MStart | MRefused | MFailed _ => False | _ => True end /\
  j_send j <> SNone /\ j_waitc j <> WNone /\ j_waitr j <> RNone.
Proof. intros [Ht _ _ _]. unfold threads_inv in Ht. destruct (j_main j); naive_solver. Qed.

Lemma spawned_intro now j j' :
  job_inv now j -> j_send j <> SNone \/ j_waitc j <> WNone \/ j_waitr j <> RNone ->
  j_main j' = j_main j -> j_send j' <> SNone -> j_waitc j' <> WNone -> j_waitr j' <> RNone ->
  threads_inv j'.
Proof.
  intros Hj Hs E. destruct (spawned_inv _ _ Hj Hs) as [Hm _].
  unfold threads_inv. rewrite E. by destruct (j_main j).
Qed.

Lemma send_step_inv failing e now j sd p :
  send_step capacity failing e (j_proc j) (j_send j) = Some (sd, p) -> job_inv now j ->
  job_inv now (MkJob (j_main j) sd (j_waitc j) (j_waitr j) p).
Proof.
  intros E Hj. assert (Hs : j_send j <> SNone) by (by destruct (j_send j)).
  destruct (spawned_inv now j Hj (or_introl Hs)) as (Hm & _ & Hw & Hr).
  assert (Hsd : sd <> SNone /\ p_state p = p_state (j_proc j) /\ p_pipe p = p_pipe (j_proc j) /\
    p_wrote p = p_wrote (j_proc j) /\ p_killed p = p_killed (j_proc j)).
  { destruct (j_send j) as [|[|n]|]; cbn in E; repeat case_match; simplify_eq; done. }
  destruct Hsd as (Hsd & E1 & E2 & E3 & E4).
  split.
  - apply (spawned_intro now j); [done|by left|done..].
  - apply Hj.
  - destruct Hj as [_ _ Hd _]. unfold ready_inv in *. cbn. by rewrite E2, E3.
  - destruct Hj as [_ _ _ Hc]. unfold waitc_inv, past_store, p_running in *. cbn.
    by rewrite E1, E4.
Qed.

(** A thread that has been joined is finished. *)
Lemma result_inv_waitc now j w p :
  job_inv now j -> (forall r, j_waitc j <> WDone r) ->
  result_inv (MkJob (j_main j) (j_send j) w (j_waitr j) p).
Proof.
  intros [_ Hr _ _] Hw. unfold result_inv in *. cbn in *.
  destruct (j_main j); try done; destruct Hr as (? & ? & _ & ? & _); naive_solver.
Qed.

Lemma proc_wait_cases failing p :
  (exists p', proc_wait (K := K) failing p = (Err ChildExit, p') /\ p_killed p' = p_killed p /\
     p_wrote p' = p_wrote p /\ p_pipe p' = p_pipe p) \/
  (proc_wait (K := K) failing p = (Ok tt, p) /\ p_running p = true /\ failing = false).
Proof.
  unfold proc_wait, p_running. destruct failing; [left; by eexists|].
  destruct (p_state p) eqn:E; [by right|left; by eexists..].
Qed.

Lemma waitc_step_inv failing u now j w p :
  waitc_step failing u now (j_proc j) (j_waitc j) = Some (w, p) -> job_inv now j ->
  (u = false -> ~ holds j) ->
  job_inv now (MkJob (j_main j) (j_send j) w (j_waitr j) p).
Proof.
  intros E Hj Hu. assert (Hw : j_waitc j <> WNone) by (by destruct (j_waitc j)).
  destruct (spawned_inv now j Hj (or_intror (or_introl Hw))) as (Hm & Hs & _ & Hr).
  assert (Hne : forall r, j_waitc j <> WDone r) by (intros r Hr'; by rewrite Hr' in E).
  pose proof (result_inv_waitc now j w p Hj Hne) as Hres.
  destruct Hj as [_ _ Hd Hc]. unfold waitc_inv in Hc.
  assert (Hps : u = false -> past_store j).
  { intros Hf. specialize (Hu Hf). unfold holds, past_store in *. by destruct (j_main j). }
  enough (w <> WNone /\ p_wrote p = p_wrote (j_proc j) /\ p_pipe p = p_pipe (j_proc j) /\
    waitc_inv now (MkJob (j_main j) (j_send j) w (j_waitr j) p)) as (Hw' & E1 & E2 & Hc').
  { split; [|done| |done].
    - unfold threads_inv. cbn. by destruct (j_main j).
    - unfold ready_inv in *. cbn. by rewrite E1, E2. }
  unfold waitc_inv, past_store in *. unfold timeout, nap in *. cbn [j_waitc j_proc j_main].
  destruct (j_waitc j) as [| |st n|st n wake|st n|st n| |st|st|r]; cbn in E; try done.
  - simplify_eq. split_and!; try done; lia.
  - destruct Hc as (Hk & Hn & Ht). case_bool_decide; simplify_eq; split_and!; unfold timeout, nap in *; try done; lia.
  - destruct Hc as (Hk & Hn & Ht). case_bool_decide; simplify_eq. split_and!; try done; lia.
  - destruct Hc as (Hk & Hn & Ht).
    destruct (proc_wait_cases failing (j_proc j)) as [(p' & Ep & ? & ? & ?)|(Ep & _ & _)];
      rewrite Ep in E; simplify_eq; split_and!; try done. congruence.
  - destruct Hc as (Hk & Hn & Ht). destruct u; simplify_eq; split_and!; try done; [lia..|].
    by apply Hps.
  - destruct Hc as (Hk & Hn).
    destruct (proc_wait_cases failing (j_proc j)) as [(p' & Ep & ? & ? & ?)|(Ep & _ & _)];
      rewrite Ep in E; simplify_eq; split_and!; try done. congruence.
  - destruct Hc as (Hk & Ht). simplify_eq. unfold kill_proc.
    destruct (p_running (j_proc j)) eqn:Er; split_and!; done.
  - destruct (p_running (j_proc j)); simplify_eq. done.
Qed.

Lemma waitr_step_inv failing now j r p :
  waitr_step failing (j_proc j) (j_waitr j) = Some (r, p) -> job_inv now j ->
  job_inv now (MkJob (j_main j) (j_send j) (j_waitc j) r p).
Proof.
  intros E Hj. assert (Hw : exists buf, j_waitr j = RRead buf).
  { destruct (j_waitr j); try done. by eexists. }
  destruct Hw as [buf Hb]. rewrite Hb in E.
  assert (Hn : j_waitr j <> RNone) by (by rewrite Hb).
  destruct (spawned_inv now j Hj (or_intror (or_intror Hn))) as (Hm & Hs & Hw & _).
  destruct Hj as [_ Hres Hd Hc].
  enough (r <> RNone /\ p_state p = p_state (j_proc j) /\ p_killed p = p_killed (j_proc j) /\
    ready_inv (MkJob (j_main j) (j_send j) (j_waitc j) r p)) as (Hr & E1 & E2 & Hd').
  { split; [|..|done|].
    - unfold threads_inv. cbn. by destruct (j_main j).
    - unfold result_inv in *. cbn. rewrite Hb in Hres. destruct (j_main j); naive_solver.
    - unfold waitc_inv, past_store, p_running in *. cbn. by rewrite E1, E2. }
  unfold ready_inv in *. rewrite Hb in Hd. destruct Hd as [Hd Hl]. cbn in E |- *.
  destruct failing; [by simplify_eq|]. case_bool_decide as H2.
  - simplify_eq. split_and!; try done. case_bool_decide; [subst; by eexists|done].
  - destruct (p_pipe (j_proc j)) as [|c rest] eqn:Ep; [by destruct (ready_writers _); simplify_eq|].
    simplify_eq. split_and!; try done; cbn.
    + rewrite string_app_assoc. exact Hd.
    + rewrite string_app_length. cbn. lia.
Qed.

Lemma child_step_inv a now j p :
  may_act a j = true -> child_step a (j_proc j) = Some p -> job_inv now j ->
  job_inv now (MkJob (j_main j) (j_send j) (j_waitc j) (j_waitr j) p).
Proof.
  intros Ha E Hj. assert (Hn : j_waitr j <> RNone).
  { unfold may_act in Ha. intros Hn. rewrite Hn in Ha. by destruct a. }
  pose proof (spawned_inv now j Hj (or_intror (or_intror Hn))) as (Hm & Hs & Hw & _).
  destruct Hj as [Ht Hres Hd Hc].
  assert (Hp : p_killed p = p_killed (j_proc j) /\
    (p_running (j_proc j) = false -> p_state p = p_state (j_proc j)) /\
    (p_pipe p = p_pipe (j_proc j) /\ p_wrote p = p_wrote (j_proc j) \/
     (exists c, p = write_ready c (j_proc j)) /\ exists buf, j_waitr j = RRead buf)).
  { destruct a; cbn in E, Ha; unfold listener_readers in *;
      repeat case_match; simplify_eq; cbn; split_and!; auto;
      try (by right; split; eexists); intros Hf; rewrite Hf in *; done. }
  destruct Hp as (E1 & E2 & E3). split; [| exact Hres | |].
  - unfold threads_inv. cbn. by destruct (j_main j).
  - unfold ready_inv in *. cbn. destruct E3 as [[-> ->]|[[c ->] [buf Hb]]]; [done|].
    rewrite Hb in *. cbn. destruct Hd as [-> ?]. by rewrite string_app_assoc.
  - unfold waitc_inv in *. cbn. rewrite E1.
    destruct (j_waitc j) as [| | | | | | | |st|[|[]]]; try done.
    + destruct Hc as [? Hr]. split; [done|]. unfold p_running. by rewrite (E2 Hr).
    + rewrite E2; [done|]. unfold p_running. by rewrite Hc.
Qed.

Lemma job_step_inv ev u now j u' j' :
  job_step capacity ev u now j = Some (u', j') -> (u = false -> ~ holds j) ->
  job_inv now j -> job_inv now j'.
Proof.
  intros E Hu Hj. destruct ev; cbn in E.
  - by eapply main_step_inv.
  - destruct (send_step _ _ _ _ _) as [[]|] eqn:Es; simplify_eq/=. by eapply send_step_inv.
  - destruct (waitc_step _ _ _ _ _) as [[]|] eqn:Es; simplify_eq/=. by eapply waitc_step_inv.
  - destruct (waitr_step _ _ _) as [[]|] eqn:Es; simplify_eq/=. by eapply waitr_step_inv.
  - destruct (may_act a j) eqn:Em; [|done].
    destruct (child_step _ _) eqn:Es; simplify_eq/=. by eapply child_step_inv.
Qed.

(** How an action changes who holds the flag. *)
Lemma job_step_flag ev u now j u' j' :
  job_step capacity ev u now j = Some (u', j') ->
  (u' = u /\ (holds j' <-> holds j)) \/ (u = false /\ u' = true /\ holds j') \/
  (u' = false /\ holds j /\ ~ holds j').
Proof.
  intros E. destruct ev; cbn in E; [|
    match goal with H : context [?m ≫= _] |- _ => destruct m as [[]|] end; simplify_eq/=; by left..|].
  - destruct j as [m sd wc wr p]. unfold main_step in E. cbn in E. unfold holds.
    destruct m; repeat case_match; simplify_eq/=; auto 6.
  - destruct (may_act a j); [|done]. destruct (child_step _ _); simplify_eq/=. by left.
Qed.

Lemma job_inv_later now now' j : now <= now' -> job_inv now j -> job_inv now' j.
Proof.
  intros Hle [Ht Hr Hd Hc]. split; try done. unfold waitc_inv in *.
  destruct (j_waitc j) as [| | | | | | | | |[|[]]]; try done;
    destruct_and?; split_and?; try done; lia.
Qed.

Lemma called_inv now : job_inv now called.
Proof. by split. Qed.

Lemma call_inv s : sys_inv s -> sys_inv (MkSys (now s) (upgrading s) (jobs s ++ [called])).
Proof.
  intros [Hj Hf Hh Ho]. split; cbn.
  - apply Forall_app. split; [done|]. apply Forall_singleton, called_inv.
  - intros Hu. apply Forall_app. split; [by apply Hf|]. apply Forall_singleton. by intros [].
  - intros Hu. destruct (Hh Hu) as (i & j & Hi & Hhj). exists i, j. split; [|done].
    by apply lookup_app_l_Some.
  - intros i1 i2 j1 j2 H1 H2 Hh1 Hh2.
    apply lookup_app_Some in H1 as [H1|[_ H1]]; [|by apply list_lookup_singleton_Some in H1 as [_ <-]].
    apply lookup_app_Some in H2 as [H2|[_ H2]]; [|by apply list_lookup_singleton_Some in H2 as [_ <-]].
    by eapply Ho.
Qed.

Section act.
Context s i j ev u j' (Hinv : sys_inv s) (Hi : jobs s !! i = Some j)
  (Es : job_step capacity ev (upgrading s) (now s) j = Some (u, j')).

Lemma act_free : upgrading s = false -> ~ holds j.
Proof using Hinv Hi. intros Hu. exact (Forall_lookup_1 _ _ _ _ (si_free _ Hinv Hu) Hi). Qed.

Lemma act_only i0 j0 : jobs s !! i0 = Some j0 -> holds j0 -> holds j' -> i0 = i.
Proof using Hinv Hi Es.
  intros H0 Hh0 Hh'.
  destruct (job_step_flag _ _ _ _ _ _ Es) as [[_ Hiff]|[(Hu & _)|(_ & _ & ?)]]; [|exfalso|done].
  - apply (si_one _ Hinv i0 i j0 j); [done..|by apply Hiff].
  - by apply (Forall_lookup_1 _ _ _ _ (si_free _ Hinv Hu) H0).
Qed.

Lemma act_held : u = true -> exists i0 j0, <[i := j']> (jobs s) !! i0 = Some j0 /\ holds j0.
Proof using Hinv Hi Es.
  intros ->. assert (Hl : <[i := j']> (jobs s) !! i = Some j').
  { apply list_lookup_insert_eq. by eapply lookup_lt_Some. }
  destruct (job_step_flag _ _ _ _ _ _ Es) as [[Hu Hiff]|[(_ & _ & Hh')|(? & _)]]; [|by exists i, j'|done].
  destruct (si_held _ Hinv (eq_sym Hu)) as (i2 & j2 & H2 & Hh2). destruct (decide (i = i2)) as [<-|Hne].
  - exists i, j'. rewrite Hi in H2. simplify_eq. by rewrite Hiff.
  - exists i2, j2. by rewrite list_lookup_insert_ne.
Qed.

Lemma act_inv : sys_inv (MkSys (now s) u (<[i := j']> (jobs s))).
Proof using Hinv Hi Es.
  split; cbn.
  - apply Forall_insert; [apply Hinv|].
    eapply job_step_inv; [exact Es|exact act_free|]. pose proof (si_jobs _ Hinv).
    by eapply Forall_lookup_1.
  - intros ->. apply Forall_lookup. intros i2 j2 [(<- & <- & _)|[Hne H2]]%list_lookup_insert_Some Hh2.
    + destruct (job_step_flag _ _ _ _ _ _ Es) as [[Hu Hiff]|[(_ & ? & _)|(_ & _ & ?)]]; [|done..].
      apply act_free; [done|by apply Hiff].
    + destruct (job_step_flag _ _ _ _ _ _ Es) as [[Hu _]|[(_ & ? & _)|(_ & Hhj & _)]]; [|done|].
      * by apply (Forall_lookup_1 _ _ _ _ (si_free _ Hinv (eq_sym Hu)) H2).
      * apply Hne. by apply (si_one _ Hinv i i2 j j2).
  - exact act_held.
  - intros i1 i2 j1 j2 [(<- & <- & _)|[? H1]]%list_lookup_insert_Some
      [(<- & <- & _)|[? H2]]%list_lookup_insert_Some Hh1 Hh2; [done|..].
    + symmetry. by eapply act_only.
    + by eapply act_only.
    + by apply (si_one _ Hinv i1 i2 j1 j2).
Qed.
End act.

Lemma sys_step_inv a s s' : sys_step capacity a s = Some s' -> sys_inv s -> sys_inv s'.
Proof.
  intros E Hinv. destruct a as [d| |i ev]; cbn in E.
  - simplify_eq. destruct Hinv as [Hj Hf Hh Ho]. split; try done. cbn.
    apply (Forall_impl _ _ _ Hj). intros j. apply job_inv_later. lia.
  - simplify_eq. by apply call_inv.
  - destruct (jobs s !! i) as [j|] eqn:Hi; simplify_eq/=.
    destruct (job_step _ _ _ _ _) as [[u j']|] eqn:Es; simplify_eq/=.
    by eapply act_inv.
Qed.

Lemma booted_inv : sys_inv booted.
Proof. split; cbn; [constructor|by constructor|done|]. intros ? ? ? ? H. by rewrite lookup_nil in H. Qed.

Lemma run_inv tr s s' : run capacity tr s = Some s' -> sys_inv s -> sys_inv s'.
Proof.
  revert s. induction tr as [|a tr IH]; intros s E Hs; cbn in E; [by simplify_eq|].
  destruct (sys_step capacity a s) as [s1|] eqn:E1; simplify_eq/=.
  eapply IH; [done|]. by eapply sys_step_inv.
Qed.

(** Every state the process can be in. *)
Definition reachable s : Prop := exists tr, run capacity tr booted = Some s.

Lemma reachable_inv s : reachable s -> sys_inv s.
Proof. intros [tr E]. eapply run_inv; [exact E|apply booted_inv]. Qed.

Lemma reachable_job s i j : reachable s -> jobs s !! i = Some j -> job_inv (now s) j.
Proof. intros Hr Hi. pose proof (si_jobs _ (reachable_inv _ Hr)). by eapply Forall_lookup_1. Qed.
End invariant.
