(* ===== verification/UpgradeSpec.v ===== *)
(** * UpgradeSpec: what the threads of [upgrade] guarantee

    Over every interleaving of [UpgradeThreads]: mutual exclusion, what each
    result of [upgrade] means, when the child is killed, how many steps the
    threads take and when they cannot get stuck; and three runs in which they
    do what they should not. *)

From S2P Require Import Prelude Text Posix PosixModel Bincode Executioner UpgradeThreads.
From Stdlib Require Import Ascii.
Local Open Scope Z_scope.

Section spec.
Context {K : Type} `{BC : Bincode K} (capacity : nat).
Implicit Types (j : job (K := K)) (s : system (K := K)) (ev : event (K := K)) (a : action (K := K)).

(** ** Runs *)

Lemma run_app tr1 tr2 s :
  run capacity (tr1 ++ tr2) s = s1 ← run capacity tr1 s; run capacity tr2 s1.
Proof.
  revert s. induction tr1 as [|a tr1 IH]; intros s; [done|]. cbn.
  destruct (sys_step capacity a s); cbn; [apply IH|done].
Qed.

Lemma run_snoc_inv tr a s s' :
  run capacity (tr ++ [a]) s = Some s' ->
  exists s1, run capacity tr s = Some s1 /\ sys_step capacity a s1 = Some s'.
Proof.
  rewrite run_app. destruct (run capacity tr s) as [s1|]; [|done]. cbn.
  destruct (sys_step capacity a s1) as [s2|] eqn:E; [|done]. intros [= ->]. by exists s1.
Qed.

(** What an action does to one job. *)
Lemma sys_step_job a s s' i j' :
  sys_step capacity a s = Some s' -> jobs s' !! i = Some j' ->
  (a = Call /\ j' = called /\ jobs s !! i = None) \/
  (jobs s !! i = Some j' /\ forall ev, a <> Act i ev) \/
  (exists ev j, a = Act i ev /\ jobs s !! i = Some j /\
     job_step capacity ev (upgrading s) (now s) j = Some (upgrading s', j')).
Proof.
  intros E Hj. destruct a as [d| |i0 ev]; cbn in E.
  - simplify_eq. cbn in Hj. right; left. done.
  - simplify_eq. cbn in Hj.
    apply lookup_app_Some in Hj as [Hj|[Hl Hj]]; [right; left; done|left].
    apply list_lookup_singleton_Some in Hj as [_ <-]. peel 2.
    by apply lookup_ge_None_2.
  - destruct (jobs s !! i0) as [j|] eqn:Hi; simplify_eq/=.
    destruct (job_step _ _ _ _ _) as [[u j1]|] eqn:Es; simplify_eq/=.
    apply list_lookup_insert_Some in Hj as [(<- & <- & _)|[Hne Hj]].
    + right; right. by exists ev, j.
    + right; left. split; [done|]. intros ev' [=]. congruence.
Qed.

Lemma job_survives a s s' i j :
  sys_step capacity a s = Some s' -> jobs s !! i = Some j -> exists j', jobs s' !! i = Some j'.
Proof.
  intros E Hj. destruct a as [d| |i0 ev]; cbn in E; simplify_eq/=.
  - by exists j.
  - exists j. by apply lookup_app_l_Some.
  - destruct (jobs s !! i0) as [j0|] eqn:Hi; simplify_eq/=.
    destruct (job_step _ _ _ _ _) as [[u j1]|] eqn:Es; simplify_eq/=.
    apply lookup_lt_is_Some_2. rewrite length_insert. by eapply lookup_lt_Some.
Qed.

(** A property of a job that its own actions keep, a run keeps. *)
Lemma run_job_stable (P : job -> Prop) tr s s' i j :
  (forall ev u n j u' j', P j -> job_step capacity ev u n j = Some (u', j') -> P j') ->
  run capacity tr s = Some s' -> jobs s !! i = Some j -> P j ->
  exists j', jobs s' !! i = Some j' /\ P j'.
Proof.
  intros HP. revert s j. induction tr as [|a tr IH]; intros s j E Hj Hp; cbn in E.
  - simplify_eq. by exists j.
  - destruct (sys_step capacity a s) as [s1|] eqn:E1; simplify_eq/=.
    destruct (job_survives _ _ _ _ _ E1 Hj) as [j1 Hj1]. apply (IH s1 j1); [done..|].
    destruct (sys_step_job _ _ _ _ _ E1 Hj1) as [(_ & _ & ?)|[[? _]|(ev & j0 & _ & ? & Es)]].
    + congruence.
    + by simplify_eq.
    + simplify_eq. by eapply HP.
Qed.

(** The reader's answer is final. *)
Definition answered (r : UpgradeFinished) j : Prop :=
  j_waitr j = RDone r /\ j_main j <> MCall /\ j_main j <> MStart.

Lemma answered_stable r ev u n j u' j' :
  answered r j -> job_step capacity ev u n j = Some (u', j') -> answered r j'.
Proof.
  intros (Hr & Hm1 & Hm2) E. destruct j as [m sd wc wr p]. cbn in *. subst wr.
  destruct ev as [st|f e|f|f|c]; cbn in E.
  - destruct m; cbn in E; repeat case_match; simplify_eq; done.
  - destruct (send_step _ _ _ _ _) as [[]|]; simplify_eq/=. done.
  - destruct (waitc_step _ _ _ _ _) as [[]|]; simplify_eq/=. done.
  - done.
  - destruct (may_act _ _); [|done]. destruct (child_step _ _); simplify_eq/=. done.
Qed.

Lemma waitc_step_ok f u n p (w : waitc_pc (K := K)) p' :
  waitc_step f u n p w = Some (WDone (Ok tt), p') ->
  w = WPollLast /\ f = false /\ p_running p = true.
Proof.
  destruct w; cbn; intros E.
  all: destruct (proc_wait_cases (K := K) f p) as [(? & Ep & _)|(Ep & ? & ->)]; rewrite ?Ep in E.
  all: repeat case_match; by simplify_eq.
Qed.

(** Where a success of [wait_child] came from. *)
Lemma waitc_ok_origin tr s i j :
  run capacity tr booted = Some s -> jobs s !! i = Some j -> j_waitc j = WDone (Ok tt) ->
  exists tr1 tr2 s1 j1, tr = tr1 ++ Act i (WaitC false) :: tr2 /\
    run capacity tr1 booted = Some s1 /\ run capacity (Act i (WaitC false) :: tr2) s1 = Some s /\
    jobs s1 !! i = Some j1 /\ j_waitc j1 = WPollLast /\ p_running (j_proc j1) = true.
Proof.
  revert s j. induction tr as [|a tr IH] using rev_ind; intros s j E Hj Hw.
  { cbn in E. by simplify_eq. }
  destruct (run_snoc_inv _ _ _ _ E) as (s0 & E0 & Ea).
  assert (Hold : forall j0, jobs s0 !! i = Some j0 -> j_waitc j0 = WDone (Ok tt) ->
    exists tr1 tr2 s1 j1, tr ++ [a] = tr1 ++ Act i (WaitC false) :: tr2 /\
      run capacity tr1 booted = Some s1 /\ run capacity (Act i (WaitC false) :: tr2) s1 = Some s /\
      jobs s1 !! i = Some j1 /\ j_waitc j1 = WPollLast /\ p_running (j_proc j1) = true).
  { intros j0 Hj0 Hw0. destruct (IH _ _ E0 Hj0 Hw0) as (tr1 & tr2 & s1 & j1 & -> & E1 & E2 & H).
    exists tr1, (tr2 ++ [a]), s1, j1. rewrite <- app_assoc, app_comm_cons, run_app, E2. cbn.
    rewrite Ea. done. }
  destruct (sys_step_job _ _ _ _ _ Ea Hj) as [(_ & -> & _)|[[? _]|(ev & j0 & -> & H0 & Es)]];
    [done|by eapply Hold|].
  destruct ev as [st|f e|f|f|c]; cbn in Es.
  - apply (Hold j0 H0). destruct j0 as [m sd wc wr p]. cbn in *.
    destruct m; cbn in Es; repeat case_match; simplify_eq/=; done.
  - destruct (send_step _ _ _ _ _) as [[]|]; simplify_eq/=. by eapply Hold.
  - destruct (waitc_step _ _ _ _ _) as [[w p]|] eqn:Ew; simplify_eq/=.
    apply waitc_step_ok in Ew as (Hl & -> & Hp). exists tr, [], s0, j0.
    peel 2. split; [|done]. cbn [run]. by rewrite Ea.
  - destruct (waitr_step _ _ _) as [[]|]; simplify_eq/=. by eapply Hold.
  - destruct (may_act _ _); [|done]. destruct (child_step _ _); simplify_eq/=. by eapply Hold.
Qed.

(** The only action that kills. *)
Lemma job_step_kills ev u n j u' j' :
  job_step capacity ev u n j = Some (u', j') ->
  p_killed (j_proc j) = false -> p_killed (j_proc j') = true ->
  exists f st, ev = WaitC f /\ j_waitc j = WKill st.
Proof.
  intros E Hk Hk'. destruct ev as [st|f e|f|f|c]; cbn in E.
  - destruct j as [m sd wc wr p]. destruct m; cbn in E; repeat case_match; simplify_eq/=; congruence.
  - destruct (j_send j); cbn in E; repeat case_match; simplify_eq/=; congruence.
  - destruct (waitc_step _ _ _ _ _) as [[w p]|] eqn:Ew; simplify_eq/=.
    exists f. destruct (proc_wait_cases (K := K) f (j_proc j)) as [(p1 & Ep & Hp & _)|(Ep & _)].
    all: destruct (j_waitc j) as [| | | | | | |st| |]; cbn in Ew; rewrite ?Ep in Ew;
      repeat case_match; simplify_eq/=; try congruence; by exists st.
  - destruct (j_waitr j); cbn in E; repeat case_match; simplify_eq/=; congruence.
  - destruct (may_act _ _); [|done]. destruct (child_step _ _) as [p|] eqn:Ec; simplify_eq/=.
    destruct c; cbn in Ec; repeat case_match; simplify_eq/=; congruence.
Qed.

Lemma done_parts s i j r :
  reachable capacity s -> jobs s !! i = Some j -> j_main j = MDone r ->
  exists rr rc, j_waitr j = RDone rr /\ j_waitc j = WDone rc /\
    r = match rc with Ok _ => rr | Err e => Err e end.
Proof.
  intros Hr Hj Hm. destruct (reachable_job _ _ _ _ Hr Hj) as [_ Hres _ _].
  unfold result_inv in Hres. by rewrite Hm in Hres.
Qed.

(** At the last poll of [wait_child] the reader has answered. *)
Lemma last_poll_answered s i j :
  reachable capacity s -> jobs s !! i = Some j -> j_waitc j = WPollLast ->
  exists r, answered r j.
Proof.
  intros Hr Hj Hw. destruct (reachable_job _ _ _ _ Hr Hj) as [_ Hres _ Hc].
  unfold waitc_inv in Hc. rewrite Hw in Hc. destruct Hc as [_ Hp].
  unfold past_store, result_inv in *. unfold answered. destruct (j_main j) as [| | | |r|r|r| |]; try done.
  - by exists r.
  - destruct Hres as (? & ? & _ & ? & _). congruence.
  - destruct Hres as (? & ? & _ & ? & _). congruence.
Qed.

(** ** The work left to the parent's threads *)

Definition main_work (m : main_pc (K := K)) : nat :=
  match m with MJoinReady => 4 | MStore _ => 3 | MJoinChild _ => 2 | MJoinSend _ => 1 | _ => 0 end.

Definition send_work (x : send_pc (K := K)) : nat :=
  match x with SWrite n => S n | _ => 0 end.

Definition waitr_work (r : waitr_pc (K := K)) : nat :=
  match r with RRead buf => 3 - String.length buf | _ => 0 end.

Definition waitc_work (w : waitc_pc (K := K)) : nat :=
  match w with
  | WSpawned => 46
  | WHead _ n => 4 * (10 - n) + 5
  | WSleep _ n _ => 4 * (10 - n) + 4
  | WPoll _ n => 4 * (10 - n) + 3
  | WLoad _ n => 4 * (10 - n) + 2
  | WKill _ => 2
  | WPollLast | WReap _ => 1
  | WNone | WDone _ => 0
  end.

Definition work j : nat :=
  main_work (j_main j) + send_work (j_send j) + waitc_work (j_waitc j) + waitr_work (j_waitr j).

Definition started j : Prop :=
  match j_main j with MCall | MStart | MRefused | MFailed _ => False | _ => True end.

Definition by_parent ev : bool := match ev with ChildDo _ => false | _ => true end.

Definition parent_act (i : nat) a : bool :=
  match a with Act i' ev => bool_decide (i' = i) && by_parent ev | _ => false end.

Lemma job_step_work ev u n j u' j' :
  job_inv n j -> started j -> job_step capacity ev u n j = Some (u', j') ->
  started j' /\ (work j' + (if by_parent ev then 1 else 0) <= work j)%nat.
Proof.
  intros [_ _ Hd Hc] Hs E. unfold started, work in *. destruct ev as [st|f e|f|f|c]; cbn in E.
  - destruct j as [m sd wc wr p]. cbn in *.
    destruct m; cbn in *; try done; repeat case_match; simplify_eq/=; (split; [done|lia]).
  - clear Hd Hc. destruct (send_step _ _ _ _ _) as [[x p]|] eqn:Ew; simplify_eq/=.
    split; [done|]. enough (send_work x < send_work (j_send j))%nat by lia.
    destruct (j_send j) as [|[|m]|]; cbn in Ew; repeat case_match; simplify_eq/=; lia.
  - unfold waitc_inv in Hc. destruct (waitc_step _ _ _ _ _) as [[w p]|] eqn:Ew; simplify_eq/=.
    split; [done|]. enough (waitc_work w < waitc_work (j_waitc j))%nat by lia.
    destruct (j_waitc j) as [| | | | | | | | |]; cbn in Ew; repeat case_match; simplify_eq/=; lia.
  - unfold ready_inv in Hd.
    destruct (j_waitr j) as [|buf|] eqn:Hw; cbn in E; try done. destruct Hd as [_ Hl].
    destruct f; [simplify_eq/=; split; [done|lia]|].
    case_bool_decide; [simplify_eq/=; split; [done|lia]|].
    destruct (p_pipe _); [destruct (ready_writers _)|]; simplify_eq/=; rewrite ?string_app_length; cbn;
      (split; [done|lia]).
  - destruct (may_act _ _); [|done]. destruct (child_step _ _) as [p|]; simplify_eq/=.
    split; [done|lia].
Qed.

Lemma run_work tr s s' i j :
  reachable capacity s -> jobs s !! i = Some j -> started j -> run capacity tr s = Some s' ->
  (length (filter (fun a => parent_act i a = true) tr) <= work j)%nat.
Proof.
  revert s j. induction tr as [|a tr IH]; intros s j Hr Hj Hs E; cbn in E; [cbn; lia|].
  destruct (sys_step capacity a s) as [s1|] eqn:E1; simplify_eq/=.
  assert (Hr1 : reachable capacity s1).
  { destruct Hr as [tr0 E0]. exists (tr0 ++ [a]). rewrite run_app, E0. cbn. by rewrite E1. }
  destruct (job_survives _ _ _ _ _ E1 Hj) as [j1 Hj1].
  destruct (sys_step_job _ _ _ _ _ E1 Hj1) as [(_ & _ & ?)|[[? Hne]|(ev & j0 & -> & ? & Es)]]; [congruence|..].
  - simplify_eq. assert (parent_act i a = false) as Hp.
    { destruct a as [d| |i' ev]; cbn; try done. rewrite bool_decide_eq_false_2; [done|].
      intros ->. by destruct (Hne ev). }
    rewrite filter_cons_False by congruence. by apply (IH s1 j).
  - simplify_eq. destruct (job_step_work _ _ _ _ _ _ (reachable_job _ _ _ _ Hr Hj) Hs Es) as [Hs1 Hw].
    specialize (IH s1 j1 Hr1 Hj1 Hs1 E).
    assert (Hp : parent_act i (Act i ev) = by_parent ev).
    { cbn. by rewrite bool_decide_eq_true_2. }
    destruct (by_parent ev); [rewrite filter_cons_True by done|rewrite filter_cons_False by congruence];
      cbn [length] in *; lia.
Qed.

(** ** Runs without failures *)

(** The system calls of the parent do not fail, and no program started by the
    child inherits the ready pipe. *)
Definition clean a : bool :=
  match a with
  | Act _ (Send f _) | Act _ (WaitC f) | Act _ (WaitR f) => negb f
  | Act _ (ChildDo (CFork | HWrite _ | HClose)) => false
  | _ => true
  end.

Record clean_inv j : Prop := {
  ci_helper : p_helper (j_proc j) = false;
  ci_order : p_ready_open (j_proc j) = false \/ p_wrote (j_proc j) <> "" ->
    p_recv_open (j_proc j) = false;
  ci_exit : j_waitc j = WDone (Err ChildExit) -> p_running (j_proc j) = false;
  ci_answer : forall r, j_waitr j = RDone r -> listener_readers (j_proc j) = false
}.

Lemma clean_called : clean_inv called.
Proof. split; cbn; try done. by intros [|]. Qed.

Lemma clean_step i ev u n j u' j' :
  clean (Act i ev) = true -> job_inv n j -> job_step capacity ev u n j = Some (u', j') ->
  clean_inv j -> clean_inv j'.
Proof.
  intros Hcl [Ht _ Hd Hc] E [H1 H2 H3 H4]. destruct ev as [st|f e|f|f|c]; cbn in E, Hcl.
  - destruct j as [m sd wc wr p].
    destruct m; cbn in *; repeat case_match; simplify_eq/=; by split; cbn; try done; intros [|].
  - destruct f; [done|].
    destruct (j_send j) as [|[|m]|]; cbn in E; repeat case_match; simplify_eq/=; by split.
  - destruct f; [done|]. destruct (waitc_step _ _ _ _ _) as [[w p]|] eqn:Ew; simplify_eq/=.
    enough (p_helper p = p_helper (j_proc j) /\ p_ready_open p = p_ready_open (j_proc j) /\
      p_wrote p = p_wrote (j_proc j) /\ p_recv_open p = p_recv_open (j_proc j) /\
      (p_running (j_proc j) = false -> p_running p = false) /\
      (w = WDone (Err ChildExit) -> p_running p = false)) as (E1 & E2 & E3 & E4 & E5 & E6).
    { split; cbn; rewrite ?E1, ?E2, ?E3, ?E4; try done. intros r Hr. specialize (H4 r Hr).
      unfold listener_readers in *. rewrite E4. apply andb_false_iff in H4 as [H4|H4].
      - by rewrite E5. - rewrite H4. by destruct (p_running p). }
    unfold proc_wait, kill_proc in Ew.
    destruct (j_waitc j); cbn in Ew; unfold proc_wait, kill_proc in Ew;
      repeat case_match; simplify_eq/=; done.
  - destruct f; [done|]. unfold ready_inv in Hd.
    destruct (j_waitr j) as [|buf|] eqn:Hw; cbn in E; try done. destruct Hd as [Hd _].
    case_bool_decide as Hl.
    + simplify_eq/=. split; cbn; try done. intros r _. unfold listener_readers.
      rewrite H2; [by rewrite andb_false_r|]. right. rewrite Hd. by destruct buf.
    + unfold ready_writers in E. rewrite H1, orb_false_r in E.
      destruct (p_pipe (j_proc j)) as [|c rest]; [|simplify_eq/=; by split].
      destruct (p_running (j_proc j) && p_ready_open (j_proc j)) eqn:Er; simplify_eq/=.
      split; cbn; try done. intros r _. unfold listener_readers.
      apply andb_false_iff in Er as [->|Er]; [done|]. rewrite H2 by (by left). by rewrite andb_false_r.
  - destruct (may_act _ _); [|done]. destruct (child_step _ _) as [p|] eqn:Ec; simplify_eq/=.
    unfold listener_readers, p_running in *.
    destruct c; cbn in Ec, Hcl; try done; unfold listener_readers, p_running in *;
      repeat case_match; simplify_eq/=.
    all: split_bools.
    all: split; cbn; auto; intros; rewrite ?andb_false_r; auto; try (by rewrite bool_decide_eq_false_2).
    + by specialize (H4 _ ltac:(eassumption)).
    + unfold listener_readers. by rewrite andb_false_r.
Qed.

Lemma clean_run_inv (P : job -> Prop) tr s :
  P called ->
  (forall i ev u n j u' j', clean (Act i ev) = true -> job_inv n j ->
     job_step capacity ev u n j = Some (u', j') -> P j -> P j') ->
  forallb clean tr = true -> run capacity tr booted = Some s -> Forall P (jobs s).
Proof.
  intros Hc Hst. revert s. induction tr as [|a tr IH] using rev_ind; intros s Hcl E.
  { cbn in E. simplify_eq. constructor. }
  rewrite forallb_app in Hcl. apply andb_true_iff in Hcl as [Hcl Ha]. cbn in Ha. rewrite andb_true_r in Ha.
  destruct (run_snoc_inv _ _ _ _ E) as (s0 & E0 & Ea). specialize (IH s0 Hcl E0).
  apply Forall_lookup. intros i j Hj.
  destruct (sys_step_job _ _ _ _ _ Ea Hj) as [(_ & -> & _)|[[H0 _]|(ev & j0 & -> & H0 & Es)]].
  - exact Hc.
  - by eapply Forall_lookup_1.
  - eapply Hst; [exact Ha| |exact Es|by eapply Forall_lookup_1].
    eapply reachable_job; [by exists tr|done].
Qed.

Lemma clean_run tr s :
  forallb clean tr = true -> run capacity tr booted = Some s -> Forall clean_inv (jobs s).
Proof. apply clean_run_inv; [apply clean_called|intros; by eapply clean_step]. Qed.

(** A reader that gave up had not been sent "OK", and nothing is sent to it any
    more. *)
Definition refused_inv j : Prop :=
  forall e rest, j_waitr j = RDone (Err e) -> p_wrote (j_proc j) <> "OK" +:+ rest.

Lemma waitr_refuses p r r' p' e :
  ready_inv (MkJob MCall SNone WNone r p) -> waitr_step (K := K) false p r = Some (r', p') ->
  r' = RDone (Err e) -> forall rest, p_wrote p' <> "OK" +:+ rest.
Proof.
  intros Hi E -> rest. destruct r as [|buf|]; cbn in E; try done. unfold ready_inv in Hi. cbn in Hi.
  destruct Hi as [Hw Hl]. case_bool_decide as Hb.
  - injection E as E <-. rewrite Hw. case_bool_decide as Ho; [done|]. intros Heq.
    destruct buf as [|x [|y [|z buf]]]; try done. cbn in Heq. by simplify_eq.
  - destruct (p_pipe p) eqn:Hp; [|done]. destruct (ready_writers p); simplify_eq. rewrite Hw.
    destruct buf as [|x [|y buf]]; cbn in *; try done. destruct buf; cbn in *; [done|lia].
Qed.

Lemma refused_step i ev u n j u' j' :
  clean (Act i ev) = true -> job_inv n j -> job_step capacity ev u n j = Some (u', j') ->
  refused_inv j -> refused_inv j'.
Proof.
  intros Hcl [_ _ Hd _] E H e rest. destruct ev as [st|f e0|f|f|c]; cbn in E, Hcl.
  - destruct (main_step st u j) as [[u1 j1]|] eqn:Em; simplify_eq.
    destruct j as [m sd wc wr p]. intros Hr. destruct m; cbn in *; repeat case_match; simplify_eq/=; by apply (H e rest).
  - destruct (send_step _ _ _ _ _) as [[x p]|] eqn:Es; simplify_eq/=. intros Hr.
    destruct (j_send j) as [|[|m]|]; cbn in Es; repeat case_match; simplify_eq/=; by apply (H e rest).
  - destruct (waitc_step _ _ _ _ _) as [[w p]|] eqn:Ew; simplify_eq/=. intros Hr.
    replace (p_wrote p) with (p_wrote (j_proc j)); [by apply (H e)|].
    destruct (j_waitc j); cbn in Ew; unfold proc_wait, kill_proc in Ew; repeat case_match; simplify_eq/=; done.
  - destruct f; [done|]. destruct (waitr_step _ _ _) as [[w p]|] eqn:Ew; simplify_eq/=. intros ->.
    by eapply waitr_refuses.
  - destruct (may_act _ _) eqn:Em; [|done]. destruct (child_step _ _) as [p|] eqn:Ec; simplify_eq/=.
    intros Hr. unfold may_act in Em. rewrite Hr in Em.
    destruct c; cbn in Ec; try done; repeat case_match; simplify_eq/=; by apply (H e rest).
Qed.

Definition finished j : Prop :=
  match j_main j with MDone _ | MRefused | MFailed _ => True | _ => False end.

Definition overslept (n : Z) j : Prop :=
  forall st r wake, j_waitc j = WSleep st r wake -> wake <= n.

(** [wait_child] is never blocked but by its sleep. *)
Lemma waitc_can_step u n j :
  job_inv n j -> overslept n j -> j_waitc j <> WNone -> (forall r, j_waitc j <> WDone r) ->
  exists x, job_step capacity (WaitC false) u n j = Some x.
Proof.
  intros [_ _ _ Hc] Ho Hn Hd. cbn. unfold waitc_inv in Hc.
  destruct (j_waitc j) as [| |st r|st r wake|st r|st r| |st|st|r] eqn:Hw; try done; cbn.
  - by eexists.
  - case_bool_decide; by eexists.
  - rewrite bool_decide_eq_true_2 by (by eapply Ho). by eexists.
  - destruct (p_state (j_proc j)); by eexists.
  - by eexists.
  - destruct (p_state (j_proc j)); by eexists.
  - by eexists.
  - destruct Hc as [_ ->]. by eexists.
  - by destruct (Hd r).
Qed.

(** While the caller waits for the reader, the reader or [wait_child] can move. *)
Lemma reader_or_waitc u n j :
  job_inv n j -> clean_inv j -> overslept n j -> j_main j = MJoinReady ->
  exists ev x, by_parent ev = true /\ (forall i, clean (Act i ev) = true) /\ job_step capacity ev u n j = Some x.
Proof.
  intros Hj [Hh Ho He Ha] Hos Hm. pose proof Hj as [Ht _ Hd Hc].
  unfold threads_inv in Ht. rewrite Hm in Ht. destruct Ht as (_ & Hwn & Hrn).
  unfold ready_inv in Hd. destruct (j_waitr j) as [|buf|r] eqn:Hw; [done| |].
  2:{ exists (Main (Ok 0%nat)). eexists. peel 2. cbn. unfold main_step.
      by rewrite Hm, Hw. }
  destruct (ready_writers (j_proc j)) eqn:Hrw.
  - assert (Hrun : p_running (j_proc j) = true).
    { unfold ready_writers in Hrw. rewrite Hh, orb_false_r in Hrw. by apply andb_true_iff in Hrw as [? _]. }
    destruct (waitc_can_step u n j Hj Hos Hwn) as [x Hx]; [|by exists (WaitC false), x].
    intros r Hr. unfold waitc_inv in Hc. rewrite Hr in Hc. unfold past_store in Hc. rewrite Hm in Hc.
    destruct r as [?|[]]; try done; [by destruct Hc|by rewrite He in Hrun|].
    unfold p_running in Hrun. by rewrite Hc in Hrun.
  - exists (WaitR false). cbn. rewrite Hw. cbn. case_bool_decide; [by eexists|].
    rewrite Hrw. destruct (p_pipe (j_proc j)); by eexists.
Qed.

Lemma parent_can_step u n j :
  job_inv n j -> clean_inv j -> overslept n j -> started j -> ~ finished j ->
  exists ev x, by_parent ev = true /\ (forall i, clean (Act i ev) = true) /\ job_step capacity ev u n j = Some x.
Proof.
  intros Hj Hcl Hos Hs Hf. pose proof Hj as [Ht Hres _ _]. unfold started, finished, threads_inv, result_inv in *.
  destruct (j_main j) as [| | |r|r|r|r| |] eqn:Hm; try done.
  - by eapply reader_or_waitc.
  - exists (Main (Ok 0%nat)). cbn. unfold main_step. rewrite Hm. by eexists.
  - destruct Ht as (_ & Hwn & _).
    destruct (j_waitc j) as [| | | | | | | | |rc] eqn:Hw; try done.
    all: try (destruct (waitc_can_step u n j Hj Hos) as [x Hx]; [by rewrite Hw..|by exists (WaitC false), x]).
    exists (Main (Ok 0%nat)). cbn. unfold main_step. rewrite Hm, Hw. destruct rc; by eexists.
  - destruct Hres as (rr & rc & Hrr & _). pose proof (ci_answer _ Hcl _ Hrr) as Hl.
    destruct (j_send j) as [|[|left]|] eqn:Hsd; [by destruct Ht| | |].
    + exists (Send false ChildExit). cbn. rewrite Hsd. by eexists.
    + exists (Send false ChildExit). cbn. rewrite Hsd. cbn. rewrite Hl. by eexists.
    + exists (Main (Ok 0%nat)). cbn. unfold main_step. rewrite Hm, Hsd. by eexists.
Qed.

Definition deadline (n : Z) j : N :=
  match j_waitc j with WSleep _ _ wake => Z.to_N (wake - n) | _ => 0%N end.

Lemma deadline_overslept n j : overslept (n + Z.of_N (deadline n j)) j.
Proof. intros st r wake Hw. unfold deadline. rewrite Hw. lia. Qed.

Lemma act_runs i ev s j u j' :
  jobs s !! i = Some j -> job_step capacity ev (upgrading s) (now s) j = Some (u, j') ->
  sys_step capacity (Act i ev) s = Some (MkSys (now s) u (<[i := j']> (jobs s))) /\
  <[i := j']> (jobs s) !! i = Some j'.
Proof.
  intros Hj E. cbn. rewrite Hj. cbn. rewrite E. split; [done|].
  apply list_lookup_insert_eq. by eapply lookup_lt_Some.
Qed.

(** An action of the parent's threads for this call, or the passing of time. *)
Definition own_act (i : nat) a : bool :=
  match a with Tick _ => true | _ => parent_act i a end && clean a.

Lemma finish_from w tr s i j :
  (work j <= w)%nat -> forallb clean tr = true -> run capacity tr booted = Some s ->
  jobs s !! i = Some j -> started j ->
  exists tr' s' j', forallb (own_act i) tr' = true /\ run capacity tr' s = Some s' /\
    jobs s' !! i = Some j' /\ finished j'.
Proof.
  revert tr s j. induction w as [w IH] using lt_wf_ind. intros tr s j Hw Hcl E Hj Hs.
  assert (Hdec : finished j \/ ~ finished j) by (unfold finished; destruct (j_main j); auto).
  destruct Hdec as [Hf|Hf]; [by exists [], s, j|].
  set (m := deadline (now s) j). set (s1 := MkSys (now s + Z.of_N m) (upgrading s) (jobs s)).
  assert (E1 : run capacity (tr ++ [Tick m]) booted = Some s1).
  { by rewrite run_app, E. }
  assert (Hcl1 : forallb clean (tr ++ [Tick m]) = true).
  { by rewrite forallb_app, Hcl. }
  assert (Hr1 : reachable capacity s1) by (by eexists).
  pose proof (reachable_job _ s1 i j Hr1 Hj) as Hinv.
  destruct (parent_can_step (upgrading s) (now s1) j Hinv) as (ev & [u j1] & Hp & Hc & Es);
    [exact (Forall_lookup_1 _ _ _ _ (clean_run _ _ Hcl1 E1) Hj)|apply deadline_overslept|done..|].
  destruct (act_runs i ev s1 j u j1 Hj Es) as [Ea Hj1].
  destruct (job_step_work _ _ _ _ _ _ Hinv Hs Es) as [Hs1 Hw1]. rewrite Hp in Hw1.
  destruct (IH (work j1) ltac:(lia) ((tr ++ [Tick m]) ++ [Act i ev])
    (MkSys (now s1) u (<[i:=j1]> (jobs s1))) j1 (le_n _)) as (tr' & s' & j' & H1 & H2 & H3); [|..|done|].
  - rewrite forallb_app, Hcl1. cbn [forallb]. by rewrite Hc.
  - rewrite run_app, E1. cbn [mbind option_bind run]. by rewrite Ea.
  - done.
  - exists ([Tick m] ++ Act i ev :: tr'), s', j'. split; [|split; [|done]].
    + cbn [forallb app]. rewrite H1, andb_true_r.
      unfold own_act, parent_act. rewrite bool_decide_eq_true_2 by done. by rewrite Hp, Hc.
    + change ((s2 ← sys_step capacity (Act i ev) s1; run capacity tr' s2) = Some s'). by rewrite Ea.
Qed.

(** ** A flag that stays clear, and a reader that waits for nobody *)

(** A safety property of one job and of the flag, along a run. *)
Lemma run_flag_stable (P : bool -> job -> Prop) (ok : action -> bool) tr s s' i j :
  (forall a s s' j j', ok a = true -> sys_step capacity a s = Some s' -> reachable capacity s ->
     jobs s !! i = Some j -> jobs s' !! i = Some j' -> P (upgrading s) j -> P (upgrading s') j') ->
  forallb ok tr = true -> run capacity tr s = Some s' -> reachable capacity s ->
  jobs s !! i = Some j -> P (upgrading s) j ->
  exists j', jobs s' !! i = Some j' /\ P (upgrading s') j' /\ reachable capacity s'.
Proof.
  intros HP. revert s j. induction tr as [|a tr IH]; intros s j Hok E Hr Hj Hp; cbn in E, Hok.
  - simplify_eq. by exists j.
  - apply andb_true_iff in Hok as [Ha Hok].
    destruct (sys_step capacity a s) as [s1|] eqn:E1; simplify_eq/=.
    destruct (job_survives _ _ _ _ _ E1 Hj) as [j1 Hj1].
    apply (IH s1 j1); [done..| |done|by eapply HP].
    destruct Hr as [tr0 E0]. exists (tr0 ++ [a]). rewrite run_app, E0. cbn. by rewrite E1.
Qed.

(** [wait_child] between its sleep and its last load, or done without killing. *)
Definition will_spare j : Prop :=
  match j_waitc j with
  | WSleep _ _ _ | WPoll _ _ | WLoad _ _ | WPollLast | WDone (Ok _) | WDone (Err ChildExit) => True
  | _ => False
  end.

Definition others_idle (i : nat) a : bool :=
  match a with Act i' (Main _) => bool_decide (i' = i) | _ => true end.

Definition spared (u : bool) j : Prop :=
  u = false /\ past_store j /\ will_spare j /\ p_killed (j_proc j) = false.

Lemma spared_own ev n j u' j' :
  spared false j -> job_step capacity ev false n j = Some (u', j') -> spared u' j'.
Proof.
  intros (_ & Hp & Hw & Hk) E.
  assert (Hk' : p_killed (j_proc j') = false).
  { destruct (p_killed (j_proc j')) eqn:Hk'; [|done].
    destruct (job_step_kills _ _ _ _ _ _ E Hk Hk') as (f & st & _ & Hf).
    unfold will_spare in Hw. by rewrite Hf in Hw. }
  enough (u' = false /\ past_store j' /\ will_spare j') as (? & ? & ?) by done. clear Hk Hk'.
  destruct ev as [st|f e|f|f|c]; cbn in E.
  - unfold past_store in *. unfold main_step in E.
    destruct (j_main j) eqn:Hm; try done; repeat case_match; simplify_eq/=; done.
  - destruct (send_step _ _ _ _ _) as [[]|]; by simplify_eq/=.
  - destruct (waitc_step _ _ _ _ _) as [[w p]|] eqn:Ew; simplify_eq/=.
    peel 2. unfold will_spare in *. cbn.
    destruct (proc_wait_cases (K := K) f (j_proc j)) as [(p1 & Ep & _)|(Ep & _)];
      destruct (j_waitc j); cbn in Ew; rewrite ?Ep in Ew; repeat case_match; by simplify_eq/=.
  - destruct (waitr_step _ _ _) as [[]|]; by simplify_eq/=.
  - destruct (may_act _ _); [|done]. destruct (child_step _ _); by simplify_eq/=.
Qed.

(** Only the caller's thread touches the flag. *)
Lemma flag_untouched a s s' :
  (forall i st, a <> Act i (Main st)) -> sys_step capacity a s = Some s' -> upgrading s' = upgrading s.
Proof.
  intros Hne E. destruct a as [d| |i ev]; cbn in E; [by simplify_eq|by simplify_eq|].
  destruct (jobs s !! i) as [j|]; simplify_eq/=.
  destruct ev as [st|f e|f|f|c]; cbn in E; [by destruct (Hne i st)|..].
  - destruct (send_step _ _ _ _ _) as [[]|]; by simplify_eq/=.
  - destruct (waitc_step _ _ _ _ _) as [[]|]; by simplify_eq/=.
  - destruct (waitr_step _ _ _) as [[]|]; by simplify_eq/=.
  - destruct (may_act _ _); [|done]. destruct (child_step _ _); by simplify_eq/=.
Qed.

Lemma spared_step i a s s' j j' :
  others_idle i a = true -> sys_step capacity a s = Some s' ->
  jobs s !! i = Some j -> jobs s' !! i = Some j' -> spared (upgrading s) j -> spared (upgrading s') j'.
Proof.
  intros Ha E Hj Hj' Hs. pose proof Hs as (Hu & Hrest).
  destruct (sys_step_job _ _ _ _ _ E Hj') as [(_ & _ & ?)|[[Hsame Hne]|(ev & j0 & -> & H0 & Es)]]; [congruence|..].
  - rewrite Hj in Hsame. injection Hsame as <-. split; [|done].
    rewrite (flag_untouched a s s'); [done| |done]. intros i' st ->. cbn in Ha.
    apply bool_decide_eq_true in Ha as ->. by destruct (Hne (Main st)).
  - rewrite Hj in H0. injection H0 as <-. rewrite Hu in *. by eapply spared_own.
Qed.

(** The child is gone, but a program it started still holds the ready pipe. *)
Definition abandoned j : Prop :=
  j_main j = MJoinReady /\ p_running (j_proc j) = false /\ p_helper (j_proc j) = true /\
  p_pipe (j_proc j) = "" /\ (exists buf, j_waitr j = RRead buf /\ (String.length buf < 2)%nat) /\
  exists r, j_waitc j = WDone r.

Definition helper_silent (i : nat) a : bool :=
  match a with
  | Act i' (ChildDo (HWrite _ | HClose)) | Act i' (WaitR true) => negb (bool_decide (i' = i))
  | _ => true
  end.

Lemma abandoned_step i a s s' j j' :
  helper_silent i a = true -> sys_step capacity a s = Some s' ->
  jobs s !! i = Some j -> jobs s' !! i = Some j' -> abandoned j -> abandoned j'.
Proof.
  intros Ha E Hj Hj' Hab.
  destruct (sys_step_job _ _ _ _ _ E Hj') as [(_ & _ & ?)|[[Hsame _]|(ev & j0 & -> & H0 & Es)]];
    [congruence|congruence|].
  rewrite Hj in H0. injection H0 as <-. destruct Hab as (Hm & Hr & Hh & Hp & (buf & Hb & Hl) & r & Hw).
  destruct ev as [st|f e|f|f|c]; cbn in Es.
  - unfold main_step in Es. by rewrite Hm, Hb in Es.
  - unfold abandoned, p_running in *.
    destruct (j_send j) as [|[|m]|]; cbn in Es; repeat case_match; simplify_eq/=; eauto 10.
  - by rewrite Hw in Es.
  - destruct f; cbn in Ha; [by rewrite bool_decide_eq_true_2 in Ha|].
    rewrite Hb in Es. cbn in Es. rewrite bool_decide_eq_false_2, Hp in Es by lia.
    unfold ready_writers in Es. rewrite Hh, orb_true_r in Es. done.
  - destruct (may_act _ _); [|done]. destruct (child_step _ _) as [p|] eqn:Ec; simplify_eq/=.
    destruct c; cbn [child_step] in Ec; cbn in Ha; unfold listener_readers in *; rewrite ?Hr in Ec;
      cbn [andb] in Ec; repeat case_match; try done; by rewrite bool_decide_eq_true_2 in Ha.
Qed.

(** The child of a call that returned [Ok]. *)
Lemma done_ok_child s i j :
  reachable capacity s -> jobs s !! i = Some j -> j_main j = MDone (Ok tt) ->
  j_waitr j = RDone (Ok tt) /\ j_waitc j = WDone (Ok tt) /\
  (exists rest, p_wrote (j_proc j) = "OK" +:+ rest) /\ p_killed (j_proc j) = false.
Proof.
  intros Hr Hj Hm. destruct (done_parts _ _ _ _ Hr Hj Hm) as (rr & rc & Hrr & Hrc & Eq).
  destruct rc as [[]|e]; [subst rr|done].
  pose proof (reachable_job _ _ _ _ Hr Hj) as [_ _ Hd Hc].
  unfold ready_inv in Hd. rewrite Hrr in Hd. unfold waitc_inv in Hc. rewrite Hrc in Hc.
  peel 3. apply Hc.
Qed.

(** ** Properties *)

(** C4. [upgrade] returns [Ok] only for a child that took over: in every
    interleaving with any number of other calls, when a call has returned [Ok],
    the first two bytes its child wrote were "OK", the parent never killed the
    child, and at some moment of the run, after the parent had read "OK", the
    child was seen running by [try_wait]. *)
Theorem upgrade_ok_means_ready (tr : list action) (s : system) (i : nat) (j : job) :
  run capacity tr booted = Some s -> jobs s !! i = Some j -> j_main j = MDone (Ok tt) ->
  (exists rest, p_wrote (j_proc j) = "OK" +:+ rest) /\ p_killed (j_proc j) = false /\
  exists tr1 tr2 s1 j1, tr = tr1 ++ Act i (WaitC false) :: tr2 /\
    run capacity tr1 booted = Some s1 /\ jobs s1 !! i = Some j1 /\
    j_waitr j1 = RDone (Ok tt) /\ p_running (j_proc j1) = true.
Proof.
  intros E Hj Hm. assert (Hr : reachable capacity s) by (by exists tr).
  destruct (done_ok_child _ _ _ Hr Hj Hm) as (Hrr & Hrc & Hw & Hk). peel 2.
  destruct (waitc_ok_origin _ _ _ _ E Hj Hrc) as (tr1 & tr2 & s1 & j1 & -> & E1 & E2 & Hj1 & Hw1 & Hp).
  exists tr1, tr2, s1, j1. peel 3. split; [|done].
  destruct (last_poll_answered s1 i j1) as [r Ha]; [by exists tr1|done..|].
  destruct (run_job_stable (answered r) _ _ _ _ _ (answered_stable r) E2 Hj1 Ha) as (j' & Hj' & Ha').
  simplify_eq. destruct Ha as [-> _], Ha' as [Hr' _]. congruence.
Qed.

(** C18. What the answer depends on: in a run without failing system calls and
    without a leaked ready pipe, under any interleaving, a call that has
    returned while its child is still running returned [Ok] exactly if the child
    had reported "OK". *)
Theorem upgrade_ok_iff_reported (tr : list action) (s : system) (i : nat) (j : job) (r : UpgradeFinished) :
  run capacity tr booted = Some s -> forallb clean tr = true -> jobs s !! i = Some j ->
  j_main j = MDone r -> p_running (j_proc j) = true ->
  r = Ok tt <-> exists rest, p_wrote (j_proc j) = "OK" +:+ rest.
Proof.
  intros E Hcl Hj Hm Hp. assert (Hr : reachable capacity s) by (by exists tr). split.
  { intros ->. by apply (done_ok_child _ _ _ Hr Hj Hm). }
  intros [rest Hw]. destruct (done_parts _ _ _ _ Hr Hj Hm) as (rr & rc & Hrr & Hrc & ->).
  pose proof (Forall_lookup_1 _ _ _ _ (clean_run _ _ Hcl E) Hj) as [_ _ Hex _].
  assert (Hre : refused_inv j).
  { eapply Forall_lookup_1; [|exact Hj]. eapply clean_run_inv; [by intros ??| |done..].
    intros; by eapply refused_step. }
  pose proof (reachable_job _ _ _ _ Hr Hj) as [_ _ _ Hc]. unfold waitc_inv in Hc. rewrite Hrc in *.
  destruct rc as [[]|e]; [destruct rr as [[]|e]; [done|by destruct (Hre e rest)]|].
  unfold p_running in *. apply bool_decide_eq_true in Hp.
  destruct e; try done; [|congruence]. specialize (Hex eq_refl). by apply bool_decide_eq_false in Hex.
Qed.

(** C19. The other results: a call that got as far as starting its child and
    returns an error returns [ChildTimeout], and then the child is dead and
    reaped, or [ChildExit], and then the parent has not killed it. *)
Theorem upgrade_error_means (s : system) (i : nat) (j : job) (e : UpgradeError K) :
  reachable capacity s -> jobs s !! i = Some j -> j_main j = MDone (Err e) ->
  (e = ChildTimeout /\ p_state (j_proc j) = PReaped) \/
  (e = ChildExit /\ p_killed (j_proc j) = false).
Proof.
  intros Hr Hj Hm.
  destruct (done_parts _ _ _ _ Hr Hj Hm) as (rr & rc & Hrr & Hrc & Eq).
  pose proof (reachable_job _ _ _ _ Hr Hj) as [_ _ Hd Hc].
  unfold ready_inv in Hd. rewrite Hrr in Hd. unfold waitc_inv in Hc. rewrite Hrc in Hc.
  destruct rc as [?|e']; [subst rr; right; split; [done|apply Hc]|].
  injection Eq as ->. destruct e'; try done; [by right|by left].
Qed.

(** The child is killed only by its own [wait_child], at least five seconds
    after that thread began; and that thread goes round its loop at most ten
    times. *)
Theorem killed_only_after_timeout (s s' : system) (a : action) (i : nat) (j j' : job) :
  reachable capacity s -> sys_step capacity a s = Some s' ->
  jobs s !! i = Some j -> jobs s' !! i = Some j' ->
  (p_killed (j_proc j) = false -> p_killed (j_proc j') = true ->
   exists f start, a = Act i (WaitC f) /\ j_waitc j = WKill start /\ start + 5000 <= now s) /\
  (forall start n, j_waitc j = WHead start n -> (n <= 10)%nat /\ start + 500 * Z.of_nat n <= now s).
Proof.
  intros Hr E Hj Hj'. pose proof (reachable_job _ _ _ _ Hr Hj) as [_ _ _ Hc]. split.
  - intros Hk Hk'.
    destruct (sys_step_job _ _ _ _ _ E Hj') as [(_ & -> & ?)|[[? _]|(ev & j0 & -> & H0 & Es)]]; [done|congruence|].
    rewrite Hj in H0. injection H0 as <-. destruct (job_step_kills _ _ _ _ _ _ Es Hk Hk') as (f & st & -> & Hw).
    exists f, st. peel 2. unfold waitc_inv in Hc. rewrite Hw in Hc. apply Hc.
  - intros st n Hw. unfold waitc_inv in Hc. rewrite Hw in Hc. unfold nap in Hc. naive_solver.
Qed.

(** C36. Mutual exclusion: at most one call is between setting [UPGRADING] and
    clearing it (or returned early without clearing it); and a call is refused
    exactly when there is such a call. *)
Theorem upgrade_exclusion (s : system) :
  reachable capacity s ->
  (forall i1 i2 j1 j2, jobs s !! i1 = Some j1 -> jobs s !! i2 = Some j2 ->
     holds j1 -> holds j2 -> i1 = i2) /\
  (forall i j start s' j', jobs s !! i = Some j -> j_main j = MCall ->
     sys_step capacity (Act i (Main start)) s = Some s' -> jobs s' !! i = Some j' ->
     (j_main j' = MRefused <-> exists i2 j2, jobs s !! i2 = Some j2 /\ holds j2)).
Proof.
  intros [Hj Hf Hh Ho]%reachable_inv. split; [done|].
  intros i j st s' j' Hi Hm E Hi'.
  destruct (sys_step_job _ _ _ _ _ E Hi') as [(? & _)|[[_ Hne]|(ev & j0 & [= <-] & H0 & Es)]];
    [done|by destruct (Hne (Main st))|].
  rewrite Hi in H0. injection H0 as <-. cbn in Es. unfold main_step in Es. rewrite Hm in Es.
  injection Es as _ <-. cbn. destruct (upgrading s); split; auto; [done|].
  intros (i2 & j2 & H2 & Hh2). by destruct (Forall_lookup_1 _ _ _ _ (Hf eq_refl) H2).
Qed.

(** C23. Termination of the threads: from the moment the child runs, with [n]
    bytes of listeners to send, the parent's four threads together take at most
    [54 + n] actions, however they interleave with the child, the clock and
    other calls. *)
Theorem upgrade_steps_bounded (tr : list action) (s s' : system) (i n : nat) (j : job) :
  reachable capacity s -> jobs s !! i = Some j -> j_main j = MStart ->
  run capacity (Act i (Main (Ok n)) :: tr) s = Some s' ->
  (length (filter (fun a => parent_act i a = true) tr) <= 54 + n)%nat.
Proof.
  intros Hr Hj Hm E. cbn [run] in E.
  destruct (act_runs i (Main (Ok n)) s j (upgrading s)
    (MkJob MJoinReady (SWrite n) WSpawned (RRead "") spawned) Hj) as [Ea Hj1].
  { cbn. unfold main_step. by rewrite Hm. }
  rewrite Ea in E. cbn [mbind option_bind] in E.
  eapply (run_work _ _ _ i) in E; [|..|exact Hj1|done]; [etrans; [exact E|unfold work; cbn; lia]|].
  destruct Hr as [tr0 E0]. exists (tr0 ++ [Act i (Main (Ok n))]). rewrite run_app, E0.
  cbn [mbind option_bind run]. by rewrite Ea.
Qed.

(** No deadlock: if the parent's system calls do not fail and the child has
    started no program that inherited the ready pipe, then in every reachable
    state in which a call has not returned and no sleep is pending, one of its
    threads can act. *)
Theorem upgrade_never_stuck (tr : list action) (s : system) (i : nat) (j : job) :
  forallb clean tr = true -> run capacity tr booted = Some s ->
  jobs s !! i = Some j -> started j -> ~ finished j -> overslept (now s) j ->
  exists ev s', by_parent ev = true /\ sys_step capacity (Act i ev) s = Some s'.
Proof.
  intros Hcl E Hj Hs Hf Ho.
  destruct (parent_can_step (upgrading s) (now s) j) as (ev & [u j'] & Hp & _ & Es); try done.
  - eapply reachable_job; [by exists tr|done].
  - exact (Forall_lookup_1 _ _ _ _ (clean_run _ _ Hcl E) Hj).
  - destruct (act_runs i ev s j u j' Hj Es) as [Ea _]. by eexists _, _.
Qed.

(** C20. Every started call can return: in any state that a clean run reaches (no
    system call of the parent has failed, and no child has started a program that
    holds the ready pipe), the call's own threads and the clock alone, without any
    further action of the child, can bring the call to its end. *)
Theorem upgrade_finishes (tr : list action) (s : system) (i : nat) (j : job) :
  forallb clean tr = true -> run capacity tr booted = Some s ->
  jobs s !! i = Some j -> started j ->
  exists tr' s' j', forallb (own_act i) tr' = true /\ run capacity tr' s = Some s' /\
    jobs s' !! i = Some j' /\ finished j'.
Proof. intros Hcl E Hj Hs. by eapply finish_from. Qed.

(** C39. A child that is ready in time is spared, if upgrades do not overlap:
    once the call has cleared [UPGRADING] while [wait_child] is between a sleep
    and its next look at the flag, and no other call sets it again, the child
    is never killed. *)
Theorem cleared_flag_spares_child (tr : list action) (s s' : system) (i : nat) (j : job) :
  reachable capacity s -> upgrading s = false -> jobs s !! i = Some j ->
  past_store j -> will_spare j -> forallb (others_idle i) tr = true ->
  run capacity tr s = Some s' ->
  exists j', jobs s' !! i = Some j' /\ p_killed (j_proc j') = false.
Proof.
  intros Hr Hu Hj Hp Hw Hok E.
  assert (Hk : p_killed (j_proc j) = false).
  { destruct (reachable_job _ _ _ _ Hr Hj) as [_ _ _ Hc]. unfold waitc_inv, will_spare in *.
    destruct (j_waitc j) as [| | | | | | | | |[|[]]]; naive_solver. }
  destruct (run_flag_stable spared (others_idle i) tr s s' i j) as (j' & Hj' & Hs' & _); [|done..|].
  - intros a s1 s2 j1 j2 Ha Ea _ H1 H2. by apply (spared_step i a s1 s2).
  - exists j'. split; [done|apply Hs'].
Qed.

(** C40. The ready pipe leaks into what the child starts: when the child exits
    without reporting while a program it started still holds its write end,
    the call never returns and no other call is accepted, however long the
    threads run, until that program closes the pipe. *)
Theorem helper_blocks_upgrade (tr : list action) (s s' : system) (i : nat) (j : job) :
  reachable capacity s -> jobs s !! i = Some j -> abandoned j ->
  forallb (helper_silent i) tr = true -> run capacity tr s = Some s' ->
  exists j', jobs s' !! i = Some j' /\ j_main j' = MJoinReady /\ upgrading s' = true.
Proof.
  intros Hr Hj Hab Hok E.
  destruct (run_flag_stable (fun _ => abandoned) (helper_silent i) tr s s' i j)
    as (j' & Hj' & Hab' & Hr'); [|done..|].
  - intros a s1 s2 j1 j2 Ha Ea _ H1 H2. by apply (abandoned_step i a s1 s2).
  - exists j'. split; [done|]. split; [apply Hab'|].
    destruct (upgrading s') eqn:Hu; [done|]. exfalso.
    apply (Forall_lookup_1 _ _ _ _ (si_free _ (reachable_inv _ _ Hr') Hu) Hj').
    unfold holds. by rewrite (proj1 Hab').
Qed.

(** ** Three runs, and what they show *)

Definition caller (i : nat) : action (K := K) := Act i (Main (Ok 0%nat)).
Definition watch : action (K := K) := Act 0 (WaitC false).

(** The first call starts a child; the child reports at once, and the call has
    read the report and cleared [UPGRADING]. *)
Definition prompt_child : list action :=
  [Call; caller 0; caller 0; watch; watch; Act 0 (ChildDo CCloseRecv);
   Act 0 (ChildDo (CWrite "O")); Act 0 (ChildDo (CWrite "K"));
   Act 0 (WaitR false); Act 0 (WaitR false); Act 0 (WaitR false); caller 0; caller 0].

Definition round : list action := [Tick 500] ++ [watch; watch; watch; watch].

(** A second call begins before [wait_child] of the first has woken up. *)
Definition overlap : list action :=
  prompt_child ++ [Call; caller 1; caller 1] ++ concat (replicate 10 round) ++
  [watch; watch; Act 0 (Send false ChildExit); caller 0; caller 0].

(** Overlapping upgrades kill a healthy child: there is a run without any
    failure in which the child reports "OK" at once, the parent reads it and
    clears [UPGRADING], and then, because a second call sets the flag again, the
    first call's [wait_child] keeps counting, kills the ready child after five
    seconds and the first call returns [ChildTimeout]. *)
Theorem overlapping_upgrades_kill_ready_child :
  forallb clean overlap = true /\
  (exists s1 j1, run capacity prompt_child booted = Some s1 /\ jobs s1 !! 0%nat = Some j1 /\
     j_main j1 = MJoinChild (Ok tt) /\ upgrading s1 = false /\ now s1 = 0) /\
  (exists s j, run capacity overlap booted = Some s /\ jobs s !! 0%nat = Some j /\
     j_main j = MDone (Err ChildTimeout) /\ p_wrote (j_proc j) = "OK" /\ p_killed (j_proc j) = true).
Proof.
  split; [vm_compute; reflexivity|]. split.
  - eexists _, _. split; [vm_compute; reflexivity|]. done.
  - eexists _, _. split; [vm_compute; reflexivity|]. done.
Qed.

(** A child that gives up its [Ecdysis] without calling [ready], and goes on. *)
Definition silent_child : list action :=
  [Call; caller 0; caller 0; watch; watch; Act 0 (ChildDo CCloseRecv); Act 0 (ChildDo CCloseReady);
   Act 0 (WaitR false); caller 0; caller 0] ++ [Tick 500] ++
  [watch; watch; watch; watch; Act 0 (Send false ChildExit); caller 0; caller 0].

(** "Child exited unexpectedly" does not mean that it exited: a child that
    drops the ready pipe without reporting makes the call return [ChildExit]
    while the child is running, with the parent's sockets, and is not killed. *)
Theorem child_exit_of_a_running_child :
  forallb clean silent_child = true /\
  exists s j, run capacity silent_child booted = Some s /\ jobs s !! 0%nat = Some j /\
    j_main j = MDone (Err ChildExit) /\ p_running (j_proc j) = true /\
    p_killed (j_proc j) = false.
Proof.
  split; [vm_compute; reflexivity|].
  eexists _, _. split; [vm_compute; reflexivity|]. done.
Qed.
End spec.

(** ** Witnesses *)

(** The threads use only the codec's error type: the smallest codec will do. *)
Definition tiny_codec : Bincode unit := {|
  bincode_error := unit;
  serialize _ := Err tt;
  deserialize_from _ k := (Err tt, k)
|}.
#[local] Existing Instance tiny_codec.

(** A successful upgrade, to the end. *)
Definition success : list (action (K := unit)) :=
  prompt_child ++ [Tick 500] ++
  [watch; watch; watch; watch; Act 0 (Send false ChildExit); caller 0; caller 0].

Definition at_end (tr : list (action (K := unit))) : system :=
  default booted (run 4 tr booted).

Lemma upgrade_ok_means_ready_witness :
  exists j, jobs (at_end success) !! 0%nat = Some j /\ j_main j = MDone (Ok tt) /\
    p_killed (j_proc j) = false.
Proof.
  eexists. split; [vm_compute; reflexivity|]. split; [done|].
  apply (upgrade_ok_means_ready 4 success (at_end success) 0); [|vm_compute; reflexivity|done].
  vm_compute; reflexivity.
Defined.

Lemma upgrade_ok_iff_reported_witness :
  exists j r, jobs (at_end success) !! 0%nat = Some j /\ j_main j = MDone r /\ r = Ok tt.
Proof.
  eexists _, _. split; [vm_compute; reflexivity|]. split; [reflexivity|].
  refine (proj2 (upgrade_ok_iff_reported 4 success (at_end success) 0 _ _ _ _ _ _ _) _);
    [vm_compute; reflexivity..|exists ""; vm_compute; reflexivity].
Defined.

Lemma reachable_end tr s : run 4 tr booted = Some s -> reachable (K := unit) 4 (at_end tr).
Proof. intros E. exists tr. unfold at_end. by rewrite E. Qed.

Lemma upgrade_error_means_witness :
  exists j, jobs (at_end overlap) !! 0%nat = Some j /\ p_state (j_proc j) = PReaped.
Proof.
  eexists. split; [vm_compute; reflexivity|].
  destruct (upgrade_error_means 4 (at_end overlap) 0 _ ChildTimeout
    ltac:(eapply reachable_end; vm_compute; reflexivity) ltac:(vm_compute; reflexivity) eq_refl)
    as [[_ H]|[H _]]; [exact H|discriminate H].
Defined.

(** Ten rounds, and the kill is next. *)
Definition about_to_kill : list (action (K := unit)) :=
  [Call; caller 0; caller 0; watch; watch] ++ concat (replicate 10 round).

Lemma killed_only_after_timeout_witness :
  exists s' j j', jobs (at_end about_to_kill) !! 0%nat = Some j /\
    sys_step 4 watch (at_end about_to_kill) = Some s' /\ jobs s' !! 0%nat = Some j' /\
    exists f start, watch = Act 0 (WaitC f) /\ j_waitc j = WKill start /\
      start + 5000 <= now (at_end about_to_kill).
Proof.
  eexists _, _, _. split; [vm_compute; reflexivity|]. split; [vm_compute; reflexivity|].
  split; [vm_compute; reflexivity|].
  eapply (killed_only_after_timeout 4 (at_end about_to_kill) _ watch 0);
    [eapply reachable_end; vm_compute; reflexivity|vm_compute; reflexivity..].
Defined.

Lemma upgrade_exclusion_witness :
  let s := at_end (prompt_child ++ [Call; Call; caller 1]) in
  exists s' j', sys_step 4 (caller 2) s = Some s' /\ jobs s' !! 2%nat = Some j' /\
    (j_main j' = MRefused <-> exists i2 j2, jobs s !! i2 = Some j2 /\ holds j2).
Proof.
  intros s. eexists _, _. split; [vm_compute; reflexivity|]. split; [vm_compute; reflexivity|].
  eapply (proj2 (upgrade_exclusion 4 s ltac:(eapply reachable_end; vm_compute; reflexivity))
    2%nat called (Ok 0%nat));
    vm_compute; reflexivity.
Defined.

Lemma upgrade_steps_bounded_witness :
  (length (filter (fun a => parent_act 0 a = true) (drop 3 success)) <= 54 + 0)%nat.
Proof.
  eapply (upgrade_steps_bounded 4 (drop 3 success) (at_end (firstn 2 success)) _ 0 0);
    [eapply reachable_end; vm_compute; reflexivity|vm_compute; reflexivity..].
Defined.

Lemma upgrade_never_stuck_witness :
  exists ev s', by_parent ev = true /\ sys_step 4 (Act 0 ev) (at_end (prompt_child ++ [Tick 500])) = Some s'.
Proof.
  eapply (upgrade_never_stuck 4 (prompt_child ++ [Tick 500]) _ 0);
    [vm_compute; reflexivity..|exact I|by intros []|intros st r wake [= _ _ <-]; done].
Defined.

Lemma upgrade_finishes_witness :
  exists tr' s' j', forallb (own_act 0) tr' = true /\ run 4 tr' (at_end prompt_child) = Some s' /\
    jobs s' !! 0%nat = Some j' /\ finished j'.
Proof.
  eapply (upgrade_finishes 4 prompt_child (at_end prompt_child) 0);
    [vm_compute; reflexivity..|exact I].
Defined.

Lemma cleared_flag_spares_child_witness :
  exists j', jobs (at_end success) !! 0%nat = Some j' /\ p_killed (j_proc j') = false.
Proof.
  eapply (cleared_flag_spares_child 4 (drop 13 success) (at_end prompt_child) (at_end success) 0);
    [eapply reachable_end; vm_compute; reflexivity|vm_compute; reflexivity|vm_compute; reflexivity|
     exact I|exact I|vm_compute; reflexivity..].
Defined.

(** A child that starts a program and dies. *)
Definition orphaned : list (action (K := unit)) :=
  [Call; caller 0; caller 0; watch; watch; Act 0 (ChildDo CCloseRecv); Act 0 (ChildDo CFork);
   Act 0 (ChildDo CExit)] ++ [Tick 500] ++ [watch; watch].

Lemma helper_blocks_upgrade_witness :
  exists j', jobs (at_end (orphaned ++ [Tick 1000])) !! 0%nat = Some j' /\
    j_main j' = MJoinReady /\ upgrading (at_end (orphaned ++ [Tick 1000])) = true.
Proof.
  eapply (helper_blocks_upgrade 4 ([Tick 1000]) (at_end orphaned) _ 0);
    [eapply reachable_end; vm_compute; reflexivity|vm_compute; reflexivity| |vm_compute; reflexivity..].
  do 4 (split; [vm_compute; reflexivity|]). split; [|by eexists].
  exists ""; split; [done|cbn; lia].
Defined.
