(* ===== verification/UpgradeTiming.v ===== *)
(** * UpgradeTiming: how long an upgrade takes

    In [UpgradeThreads] a thread may be arbitrarily late. Here the threads of one
    call are punctual: time passes only while none of them can act, and never
    past the moment [wait_child] is to wake up. Then, in runs without failing
    system calls and without a program that the child has started and that holds
    the ready pipe, the call returns within the five seconds that [wait_child]
    gives the child, and within half a second of the child's report when no other
    call interferes. *)

From S2P Require Import Prelude Text Posix Bincode Executioner UpgradeThreads UpgradeSpec.
Local Open Scope Z_scope.

Section timing.
Context {K : Type} `{BC : Bincode K} (capacity : nat).
Implicit Types (j : job (K := K)) (s : system (K := K)) (ev : event (K := K)) (a : action (K := K)).

(** No thread of the call can act, unless a system call fails. *)
Definition waits s j : Prop :=
  forall ev x, by_parent ev = true -> (forall i, clean (Act i ev) = true) ->
    job_step capacity ev (upgrading s) (now s) j <> Some x.

Definition punctual (i : nat) s a : Prop :=
  match a with
  | Tick d => forall j, jobs s !! i = Some j -> started j -> ~ finished j ->
      waits s j /\ forall st r wake, j_waitc j = WSleep st r wake -> now s + Z.of_N d <= wake
  | _ => True
  end.

Inductive punctual_run (i : nat) : list action -> system -> system -> Prop :=
| punctual_nil s : punctual_run i [] s s
| punctual_cons a tr s s1 s2 :
    punctual i s a -> sys_step capacity a s = Some s1 -> punctual_run i tr s1 s2 ->
    punctual_run i (a :: tr) s s2.

(** The four threads, looked at one by one. *)
Lemma waits_intro s j :
  started j ->
  Forall (fun ev => job_step capacity ev (upgrading s) (now s) j = None)
    [Main (Ok 0%nat); Send false ChildExit; WaitC false; WaitR false] -> waits s j.
Proof.
  intros Hs H ev x Hp Hc. repeat (apply Forall_cons in H as [? H]).
  destruct ev as [st|f e|f|f|c]; specialize (Hc 0%nat); cbn in Hc, Hp; try (destruct f; [done|]); try congruence.
  - unfold started in Hs. cbn in *. unfold main_step in *. destruct (j_main j); try done; congruence.
  - cbn in *. destruct (j_send j) as [|[|m]|]; cbn in *; repeat case_match; done.
Qed.

Lemma punctual_run_run i tr s s' : punctual_run i tr s s' -> run capacity tr s = Some s'.
Proof. induction 1 as [|a tr s s1 s2 _ E _ IH]; [done|]. cbn. by rewrite E. Qed.

Definition untimed a : bool := match a with Tick _ => false | _ => true end.

Lemma punctual_untimed i tr s s' :
  (if forallb untimed tr then run capacity tr s else None) = Some s' -> punctual_run i tr s s'.
Proof.
  revert s. induction tr as [|a tr IH]; intros s E; cbn in E; [simplify_eq; constructor|].
  destruct (untimed a) eqn:Ha; [|done]. destruct (forallb untimed tr) eqn:Ht; [|done].
  destruct (sys_step capacity a s) as [s1|] eqn:Ea; [|done].
  apply punctual_cons with s1; [by destruct a|done|]. by apply IH.
Qed.

Lemma punctual_app i tr1 tr2 s s1 s2 :
  punctual_run i tr1 s s1 -> punctual_run i tr2 s1 s2 -> punctual_run i (tr1 ++ tr2) s s2.
Proof. induction 1; [done|]. intros. eapply punctual_cons; eauto. Qed.

(** Where a punctual [wait_child] that began at [t0] is at time [n]. *)
Definition timely (t0 n : Z) j : Prop :=
  match j_waitc j with
  | WSpawned => n = t0
  | WHead st r => st = t0 /\ n = t0 + nap * Z.of_nat r
  | WSleep st r wake => st = t0 /\ wake = t0 + nap * Z.of_nat (S r) /\ n <= wake
  | WPoll st r | WLoad st r => st = t0 /\ n = t0 + nap * Z.of_nat (S r)
  | WKill st => st = t0 /\ n <= t0 + timeout
  | WNone => False
  | _ => n <= t0 + timeout
  end.

Lemma timely_bound t0 n j : job_inv n j -> timely t0 n j -> n <= t0 + timeout.
Proof.
  intros [_ _ _ Hc] H. unfold waitc_inv, timely, nap, timeout in *. destruct (j_waitc j); try done; lia.
Qed.

(** The threads' own actions take no time. *)
Lemma timely_act t0 ev u n j u' j' :
  job_inv n j -> started j -> job_step capacity ev u n j = Some (u', j') ->
  timely t0 n j -> timely t0 n j'.
Proof.
  intros Hinv Hs E H. pose proof (timely_bound _ _ _ Hinv H) as Hb. destruct Hinv as [_ _ _ Hc].
  assert (Hsame : j_waitc j' = j_waitc j -> timely t0 n j') by (unfold timely; by intros ->).
  destruct ev as [st|f e|f|f|c]; cbn in E.
  - apply Hsame. destruct j as [m sd wc wr p]. unfold started in Hs. cbn in *.
    destruct m; cbn in E; try done; repeat case_match; simplify_eq/=; done.
  - apply Hsame. destruct (send_step _ _ _ _ _) as [[x p]|]; by simplify_eq/=.
  - destruct (waitc_step _ _ _ _ _) as [[w p]|] eqn:Ew; simplify_eq/=.
    unfold timely, waitc_inv in *. cbn. unfold nap, timeout in *.
    destruct (j_waitc j) as [| |st r|st r wake|st r|st r| |st|st|rc]; cbn in Ew;
      repeat case_match; simplify_eq/=; unfold timeout, nap in *; try case_bool_decide; simplify_eq/=; lia.
  - apply Hsame. destruct (waitr_step _ _ _) as [[x p]|]; by simplify_eq/=.
  - apply Hsame. destruct (may_act _ _); [|done]. destruct (child_step _ _) as [p|]; by simplify_eq/=.
Qed.

Lemma finished_stable ev u n j u' j' :
  job_step capacity ev u n j = Some (u', j') -> finished j -> finished j'.
Proof.
  intros E Hf. unfold finished in *. destruct ev as [st|f e|f|f|c]; cbn in E.
  - destruct j as [m sd wc wr p]. cbn in *. by destruct m.
  - destruct (send_step _ _ _ _ _) as [[x p]|]; by simplify_eq/=.
  - destruct (waitc_step _ _ _ _ _) as [[x p]|]; by simplify_eq/=.
  - destruct (waitr_step _ _ _) as [[x p]|]; by simplify_eq/=.
  - destruct (may_act _ _); [|done]. destruct (child_step _ _) as [p|]; by simplify_eq/=.
Qed.

(** The child is killed when its five seconds are over. *)
Lemma killed_act t0 ev u n j u' j' :
  job_inv n j -> finished j \/ timely t0 n j -> job_step capacity ev u n j = Some (u', j') ->
  (p_killed (j_proc j) = true -> t0 + timeout <= n) -> p_killed (j_proc j') = true -> t0 + timeout <= n.
Proof.
  intros [Hth Hres _ Hc] Ht E Hk Hk'. destruct (p_killed (j_proc j)) eqn:Hp; [by apply Hk|].
  destruct (job_step_kills capacity _ _ _ _ _ _ E Hp Hk') as (f & st & -> & Hw).
  unfold waitc_inv in Hc. rewrite Hw in Hc. destruct Ht as [Hf|Ht].
  - unfold finished, result_inv, threads_inv in *. destruct (j_main j); try done.
    + destruct Hres as (? & ? & _ & ? & _). congruence.
    + destruct Hth as (_ & ? & _). congruence.
    + destruct Hth as (_ & ? & _). congruence.
  - unfold timely in Ht. rewrite Hw in Ht. lia.
Qed.

Definition on_time (t0 : Z) s j : Prop :=
  started j /\ (finished j \/ timely t0 (now s) j) /\
  (p_killed (j_proc j) = true -> t0 + timeout <= now s).

(** Time passes only in the sleep of [wait_child]. *)
Lemma sleeps_or_acts s i j tr :
  run capacity tr booted = Some s -> forallb clean tr = true -> jobs s !! i = Some j ->
  started j -> ~ finished j -> waits s j -> exists st r wake, j_waitc j = WSleep st r wake.
Proof.
  intros E Hcl Hj Hs Hf Hw.
  destruct (j_waitc j) as [| | |st r wake| | | | | |] eqn:Hwc; try by eexists _, _, _.
  all: destruct (parent_can_step capacity (upgrading s) (now s) j) as (ev & x & H1 & H2 & H3);
    [eapply reachable_job; [by exists tr|done]
    |exact (Forall_lookup_1 _ _ _ _ (clean_run capacity _ _ Hcl E) Hj)
    |intros ? ? ? ?; congruence|done..|by destruct (Hw ev x H1 H2)].
Qed.

Lemma on_time_tick t0 i d tr s j :
  run capacity tr booted = Some s -> forallb clean tr = true -> jobs s !! i = Some j ->
  punctual i s (Tick d) -> on_time t0 s j ->
  on_time t0 (MkSys (now s + Z.of_N d) (upgrading s) (jobs s)) j.
Proof.
  intros E Hcl Hj Hp (Hs & H & Hk). split; [done|]. split; [|cbn; intros Hx; specialize (Hk Hx); lia].
  assert (Hdec : finished j \/ ~ finished j) by (unfold finished; destruct (j_main j); auto).
  destruct Hdec as [Hf|Hf]; [by left|right]. destruct H as [|H]; [done|].
  destruct (Hp j Hj Hs Hf) as [Hw Hd].
  destruct (sleeps_or_acts s i j tr E Hcl Hj Hs Hf Hw) as (st & r & wake & Hwc). specialize (Hd st r wake Hwc).
  unfold timely in *. rewrite Hwc in *. cbn. lia.
Qed.

Lemma on_time_step t0 i a tr s s' j :
  run capacity tr booted = Some s -> forallb clean tr = true -> jobs s !! i = Some j ->
  punctual i s a -> sys_step capacity a s = Some s' -> on_time t0 s j ->
  exists j', jobs s' !! i = Some j' /\ on_time t0 s' j'.
Proof.
  intros E Hcl Hj Hp Ea Ht. assert (Hr : reachable capacity s) by (by exists tr).
  destruct (job_survives _ _ _ _ _ _ Ea Hj) as [j' Hj']. exists j'. split; [done|].
  destruct (sys_step_job _ _ _ _ _ _ Ea Hj') as [(_ & _ & ?)|[[? Hne]|(ev & j0 & -> & ? & Es)]]; [congruence|..];
    simplify_eq.
  - destruct a as [d| |i' ev]; cbn in Ea.
    + simplify_eq. by eapply on_time_tick.
    + by simplify_eq.
    + destruct (jobs s !! i') as [j0|]; [|done]. cbn in Ea.
      destruct (job_step _ _ _ _ _) as [[u x]|]; by simplify_eq/=.
  - pose proof (reachable_job _ _ _ _ Hr Hj) as Hinv. destruct Ht as (Hs & Ht & Hk).
    destruct (job_step_work _ _ _ _ _ _ _ Hinv Hs Es) as [Hs' _].
    destruct (act_runs capacity i ev s j _ j' Hj Es) as [Ea' _]. rewrite Ea in Ea'.
    assert (Hn : now s' = now s) by (injection Ea' as Ea'; by rewrite Ea'). unfold on_time. rewrite Hn.
    split; [done|]. split; [|exact (killed_act t0 _ _ _ _ _ _ Hinv Ht Es Hk)].
    destruct Ht as [Hf|Ht]; [left; by eapply finished_stable|right; by eapply timely_act].
Qed.

Lemma on_time_run t0 i tr tr0 s s' j :
  run capacity tr0 booted = Some s -> forallb clean (tr0 ++ tr) = true -> jobs s !! i = Some j ->
  punctual_run i tr s s' -> on_time t0 s j ->
  exists j', jobs s' !! i = Some j' /\ on_time t0 s' j'.
Proof.
  intros E Hcl Hj Hr. revert tr0 j E Hcl Hj. induction Hr as [s|a tr s s1 s2 Hp Ea Hr IH]; intros tr0 j E Hcl Hj Ht.
  { by exists j. }
  assert (Hcl0 : forallb clean tr0 = true) by (rewrite forallb_app in Hcl; by apply andb_true_iff in Hcl as [? _]).
  destruct (on_time_step t0 i a tr0 s s1 j) as (j1 & Hj1 & Ht1); [done..|].
  apply (IH (tr0 ++ [a]) j1); [|by rewrite <- app_assoc|done..].
  rewrite run_app, E. cbn. by rewrite Ea.
Qed.

(** C21. The grace period is five seconds: if the threads of a call are punctual,
    and in the whole run no system call of the parent fails and no child starts a
    program that holds the ready pipe (such a program can keep the call waiting
    for ever), then from the moment the child is started the call has returned
    when more than five seconds have passed, however slowly the child reads,
    reports or ends, and however other calls go; and the child is not killed
    before they have passed. *)
Theorem upgrade_within_timeout (tr0 tr : list action) (s0 s1 s : system) (i n : nat) (j0 j : job) :
  run capacity tr0 booted = Some s0 -> jobs s0 !! i = Some j0 -> j_main j0 = MStart ->
  sys_step capacity (Act i (Main (Ok n))) s0 = Some s1 -> punctual_run i tr s1 s ->
  forallb clean (tr0 ++ tr) = true -> jobs s !! i = Some j ->
  (now s0 + 5000 < now s -> finished j) /\
  (p_killed (j_proc j) = true -> now s0 + 5000 <= now s).
Proof.
  change 5000 with timeout.
  intros E0 Hj0 Hm Ea Hr Hcl Hj.
  destruct (act_runs capacity i (Main (Ok n)) s0 j0 (upgrading s0)
    (MkJob MJoinReady (SWrite n) WSpawned (RRead "") spawned) Hj0) as [Ea' Hj1].
  { cbn. unfold main_step. by rewrite Hm. }
  rewrite Ea in Ea'. injection Ea' as ->.
  assert (Hcl' : forallb clean ((tr0 ++ [Act i (Main (Ok n))]) ++ tr) = true).
  { rewrite <- app_assoc. rewrite forallb_app in *. exact Hcl. }
  assert (E1 : run capacity (tr0 ++ [Act i (Main (Ok n))]) booted =
    Some (MkSys (now s0) (upgrading s0) (<[i:=MkJob MJoinReady (SWrite n) WSpawned (RRead "") spawned]> (jobs s0)))).
  { rewrite run_app, E0. cbn [mbind option_bind run]. by rewrite Ea. }
  destruct (on_time_run (now s0) i tr _ _ s _ E1 Hcl' Hj1 Hr) as (j' & Hj' & Hs & Ht & Hk).
  { split; [done|]. split; [by right|done]. }
  rewrite Hj in Hj'. injection Hj' as <-. split; [|done].
  intros Hlate. destruct Ht as [Hf|Ht]; [done|]. exfalso.
  assert (Hrs : reachable capacity s).
  { eexists. rewrite run_app, E1. cbn [mbind option_bind]. by eapply punctual_run_run. }
  pose proof (timely_bound _ _ _ (reachable_job _ _ _ _ Hrs Hj) Ht). lia.
Qed.

(** ** How long a report waits *)

(** [wait_child] never sleeps longer than its nap. *)
Definition naps s : Prop :=
  Forall (fun j => forall st r wake, j_waitc j = WSleep st r wake -> wake <= now s + nap) (jobs s).

Lemma naps_step a s s' : naps s -> sys_step capacity a s = Some s' -> naps s'.
Proof.
  unfold naps. rewrite !Forall_lookup. intros Hn E i j' Hj' st r wake Hw.
  assert (Hnow : now s <= now s').
  { destruct a as [d| |i' ev]; cbn in E; [simplify_eq/=; lia|simplify_eq/=; lia|].
    destruct (jobs s !! i') as [j0|]; simplify_eq/=.
    destruct (job_step _ _ _ _ _) as [[u x]|]; simplify_eq/=; lia. }
  destruct (sys_step_job _ _ _ _ _ _ E Hj') as [(_ & -> & _)|[[Hj _]|(ev & j & -> & Hj & Es)]]; [done|..].
  { specialize (Hn i j' Hj st r wake Hw). lia. }
  assert (Hold : j_waitc j = WSleep st r wake -> wake <= now s' + nap).
  { intros H. specialize (Hn i j Hj st r wake H). lia. }
  destruct ev as [x|f e|f|f|c]; cbn in Es.
  - apply Hold. destruct j as [m sd wc wr p]. cbn in *.
    destruct m; cbn in Es; try done; repeat case_match; by simplify_eq/=.
  - destruct (send_step _ _ _ _ _) as [[x p]|]; simplify_eq/=. by apply Hold.
  - destruct (waitc_step _ _ _ _ _) as [[w p]|] eqn:Ew; simplify_eq/=.
    destruct (j_waitc j); cbn in Ew; repeat case_match; simplify_eq/=; lia.
  - destruct (waitr_step _ _ _) as [[x p]|]; simplify_eq/=. by apply Hold.
  - destruct (may_act _ _); [|done]. destruct (child_step _ _) as [p|]; simplify_eq/=. by apply Hold.
Qed.

Lemma naps_run tr s s' : naps s -> run capacity tr s = Some s' -> naps s'.
Proof.
  revert s. induction tr as [|a tr IH]; intros s Hn E; cbn in E; [by simplify_eq|].
  destruct (sys_step capacity a s) as [s1|] eqn:E1; simplify_eq/=.
  eapply IH; [|done]. by eapply naps_step.
Qed.

(** The child has written two bytes: its report, or something else. *)
Definition reported j : Prop := (2 <= String.length (p_wrote (j_proc j)))%nat.

Definition awaits_report j : Prop :=
  match j_main j with MJoinReady | MStore _ => True | _ => False end.

(** Where [wait_child] is at time [n], when the report came at [t1]. *)
Definition wakes_soon (t1 n : Z) j : Prop :=
  match j_waitc j with
  | WSleep _ _ wake => wake <= t1 + nap
  | WNone | WSpawned | WHead _ _ => n = t1
  | _ => True
  end.

Definition noticing (t1 n : Z) (u : bool) j : Prop :=
  started j /\
  (finished j \/
   (n <= t1 + nap /\ wakes_soon t1 n j /\
    (past_store j /\ u = false \/ awaits_report j /\ n = t1 /\ reported j))).

Lemma wrote_grows c p p' :
  child_step c p = Some p' -> (String.length (p_wrote p) <= String.length (p_wrote p'))%nat.
Proof.
  intros E. destruct c; cbn in E; repeat case_match; simplify_eq/=; try lia;
    rewrite string_app_length; lia.
Qed.

Lemma noticing_act t1 ev n u j u' j' :
  job_inv n j -> job_step capacity ev u n j = Some (u', j') -> noticing t1 n u j -> noticing t1 n u' j'.
Proof.
  intros Hinv E [Hs H]. split; [by eapply (job_step_work capacity ev u n j u' j' Hinv Hs E)|].
  destruct H as [Hf|(Hn & Hw & H)]; [left; by eapply finished_stable|].
  destruct ev as [x|f e|f|f|c]; cbn in E.
  - destruct j as [m sd wc wr p]. unfold finished, wakes_soon, past_store, awaits_report, reported in *.
    cbn in *. destruct m; cbn in E; try (by destruct H as [[]|[]]); repeat case_match; simplify_eq/=;
      destruct H as [(Hm & Hu)|(Hm & Ht & Hr)]; try done; auto 10.
  - right. destruct (send_step _ _ _ _ _) as [[x p]|] eqn:Es; simplify_eq/=. peel 2.
    destruct H as [H|(Hm & Ht & Hr)]; [by left|right]. peel 2. unfold reported in *. cbn.
    destruct (j_send j) as [|[|m]|]; cbn in Es; repeat case_match; by simplify_eq/=.
  - right. destruct (waitc_step _ _ _ _ _) as [[w p]|] eqn:Es; simplify_eq/=. 
    assert (Hsw : p_wrote p = p_wrote (j_proc j)).
    { unfold proc_wait, kill_proc in Es. destruct (j_waitc j); cbn in Es;
        unfold proc_wait, kill_proc in Es; repeat case_match; by simplify_eq/=. }
    split; [done|]. split.
    + unfold wakes_soon in *. cbn.
      destruct (j_waitc j) as [| |st r|st r wake|st r|st r| |st|st|rc]; cbn in Es;
        repeat case_match; simplify_eq/=; done || lia.
    + destruct H as [H|(Hm & Ht & Hr)]; [by left|right]. unfold reported. cbn. by rewrite Hsw.
  - right. destruct (waitr_step _ _ _) as [[x p]|] eqn:Es; simplify_eq/=. peel 2.
    destruct H as [H|(Hm & Ht & Hr)]; [by left|right]. peel 2. unfold reported in *. cbn.
    destruct (j_waitr j); cbn in Es; repeat case_match; by simplify_eq/=.
  - right. destruct (may_act _ _); [|done]. destruct (child_step _ _) as [p|] eqn:Es; simplify_eq/=. peel 2.
    destruct H as [H|(Hm & Ht & Hr)]; [by left|right]. peel 2. unfold reported in *. cbn.
    apply wrote_grows in Es. lia.
Qed.

(** A report that is in is read, and the flag cleared, before time passes. *)
Lemma report_pending s j :
  job_inv (now s) j -> waits s j -> awaits_report j -> reported j -> False.
Proof.
  intros [Hth _ Hd _] Hwait Hm Hr. unfold awaits_report, reported, threads_inv, ready_inv in *.
  destruct (j_main j) as [| | |r|r|r|r| |] eqn:Em; try done.
  - destruct (j_waitr j) as [|buf|r] eqn:Ew; [by destruct Hth as (_ & _ & ?)| |].
    + destruct (job_step capacity (WaitR false) (upgrading s) (now s) j) as [x|] eqn:E;
        [by eapply (Hwait (WaitR false) x)|].
      cbn in E. rewrite Ew in E. cbn in E. case_bool_decide as Hb; [done|].
      destruct (p_pipe (j_proc j)) as [|c str]; [|done].
      destruct Hd as [Hd Hl]. rewrite Hd, string_app_empty_r in Hr. lia.
    + eapply (Hwait (Main (Ok 0%nat))); [done|done|]. cbn. unfold main_step. by rewrite Em, Ew.
  - eapply (Hwait (Main (Ok 0%nat))); [done|done|]. cbn. unfold main_step. by rewrite Em.
Qed.

(** When time passes, [wait_child] sleeps and the report has been dealt with. *)
Lemma noticing_tick t1 i d tr s j :
  run capacity tr booted = Some s -> forallb clean tr = true -> jobs s !! i = Some j ->
  punctual i s (Tick d) -> noticing t1 (now s) (upgrading s) j ->
  noticing t1 (now s + Z.of_N d) (upgrading s) j.
Proof.
  intros E Hcl Hj Hp (Hs & H). split; [done|].
  assert (Hdec : finished j \/ ~ finished j) by (unfold finished; destruct (j_main j); auto).
  destruct Hdec as [Hf|Hf]; [by left|right]. destruct H as [|(Hn & Hw & H)]; [done|].
  destruct (Hp j Hj Hs Hf) as [Hwait Hd].
  pose proof (reachable_job capacity s i j ltac:(by exists tr) Hj) as Hinv.
  destruct (sleeps_or_acts s i j tr E Hcl Hj Hs Hf Hwait) as (st & r & wake & Hsl).
  specialize (Hd st r wake Hsl). unfold wakes_soon in *. rewrite Hsl in *.
  split; [lia|]. split; [done|]. destruct H as [H|(Hm & Ht & Hr)]; [by left|exfalso].
  exact (report_pending s j Hinv Hwait Hm Hr).
Qed.

Lemma noticing_step t1 i a tr s s' j :
  run capacity tr booted = Some s -> forallb clean tr = true -> jobs s !! i = Some j ->
  others_idle i a = true -> punctual i s a -> sys_step capacity a s = Some s' ->
  noticing t1 (now s) (upgrading s) j ->
  exists j', jobs s' !! i = Some j' /\ noticing t1 (now s') (upgrading s') j'.
Proof.
  intros E Hcl Hj Ho Hp Ea Ht. assert (Hr : reachable capacity s) by (by exists tr).
  destruct (job_survives _ _ _ _ _ _ Ea Hj) as [j' Hj']. exists j'. split; [done|].
  destruct (sys_step_job _ _ _ _ _ _ Ea Hj') as [(_ & _ & ?)|[[? Hne]|(ev & j0 & -> & ? & Es)]]; [congruence|..];
    simplify_eq.
  - destruct a as [d| |i' ev].
    + cbn in Ea. simplify_eq. by eapply noticing_tick.
    + cbn in Ea. by simplify_eq.
    + rewrite (flag_untouched capacity (Act i' ev) s s'); [|intros x st [= -> ->]|done].
      * cbn in Ea. destruct (jobs s !! i') as [j0|]; [|done]. cbn in Ea.
        destruct (job_step _ _ _ _ _) as [[u x]|]; by simplify_eq/=.
      * cbn in Ho. apply bool_decide_eq_true in Ho as ->. by destruct (Hne (Main st)).
  - destruct (act_runs capacity i ev s j _ j' Hj Es) as [Ea' _]. rewrite Ea in Ea'.
    assert (Hn : now s' = now s) by (injection Ea' as Ea'; by rewrite Ea'). rewrite Hn.
    eapply noticing_act; [by eapply reachable_job|exact Es|done].
Qed.

Lemma noticing_run t1 i tr tr0 s s' j :
  run capacity tr0 booted = Some s -> forallb clean (tr0 ++ tr) = true -> jobs s !! i = Some j ->
  forallb (others_idle i) tr = true -> punctual_run i tr s s' ->
  noticing t1 (now s) (upgrading s) j ->
  exists j', jobs s' !! i = Some j' /\ noticing t1 (now s') (upgrading s') j'.
Proof.
  intros E Hcl Hj Ho Hr. revert tr0 j E Hcl Hj Ho.
  induction Hr as [s|a tr s s1 s2 Hp Ea Hr IH]; intros tr0 j E Hcl Hj Ho Ht.
  { by exists j. }
  assert (Hcl0 : forallb clean tr0 = true) by (rewrite forallb_app in Hcl; by apply andb_true_iff in Hcl as [? _]).
  cbn in Ho. apply andb_true_iff in Ho as [Ha Ho].
  destruct (noticing_step t1 i a tr0 s s1 j) as (j1 & Hj1 & Ht1); [done..|].
  apply (IH (tr0 ++ [a]) j1); [|by rewrite <- app_assoc|done..].
  rewrite run_app, E. cbn. by rewrite Ea.
Qed.

(** C22. A report is answered within half a second: if the child of a call that is
    waiting for its report has written two bytes, then, with punctual threads and
    no other call of [upgrade] acting in the meantime, the call has returned when
    more than five hundred milliseconds have passed, whether the child goes on or
    ends. As in the theorem before, in the whole run no system call of the parent
    fails and no child starts a program that holds the ready pipe. *)
Theorem report_answered_in_time (tr0 tr : list action) (s s' : system) (i : nat) (j j' : job) :
  run capacity tr0 booted = Some s -> jobs s !! i = Some j -> j_main j = MJoinReady ->
  (2 <= String.length (p_wrote (j_proc j)))%nat ->
  punctual_run i tr s s' -> forallb clean (tr0 ++ tr) = true -> forallb (others_idle i) tr = true ->
  jobs s' !! i = Some j' -> now s + 500 < now s' -> finished j'.
Proof.
  intros E Hj Hm Hw Hr Hcl Ho Hj' Hlate.
  assert (H0 : noticing (now s) (now s) (upgrading s) j).
  { split; [unfold started; by rewrite Hm|]. right. split; [unfold nap; lia|]. split.
    - assert (Hnaps : naps s) by (eapply naps_run; [|exact E]; constructor).
      pose proof (Forall_lookup_1 _ _ _ _ Hnaps Hj) as Hns. unfold wakes_soon.
      destruct (j_waitc j) as [| |st r|st r wake|st r|st r| |st|st|rc] eqn:Ewc; try done.
      by apply (Hns st r).
    - right. unfold awaits_report. by rewrite Hm. }
  destruct (noticing_run (now s) i tr tr0 s s' j E Hcl Hj Ho Hr H0) as (j1 & Hj1 & _ & [Hf|(Hn & _)]).
  - rewrite Hj' in Hj1. by injection Hj1 as <-.
  - unfold nap in Hn. lia.
Qed.
End timing.

(** ** Witness *)

#[local] Existing Instance tiny_codec.

(** A child that reports at once: the call returns half a second later. *)
Definition before_start : list (action (K := unit)) := [Call; caller 0].
Definition reporting : list (action (K := unit)) :=
  drop 3 prompt_child ++ [Act 0 (Send false ChildExit)].
Definition returning : list (action (K := unit)) := [watch; watch; watch; watch; caller 0; caller 0].

Definition prompt_run : list (action (K := unit)) := reporting ++ [Tick 500] ++ returning ++ [Tick 6000].

Definition just_started : system := at_end (before_start ++ [caller 0]).

(** Where the child's bytes are written, and where they have been read. *)
Definition report_written : system := at_end (take 8 prompt_child).
Definition report_read : system := at_end (prompt_child ++ [Act 0 (Send false ChildExit)]).
Definition until_returned : list (action (K := unit)) := [Tick 500] ++ returning ++ [Tick 6000].
Definition from_report : list (action (K := unit)) :=
  (drop 8 prompt_child ++ [Act 0 (Send false ChildExit)]) ++ until_returned.

Lemma until_returned_punctual :
  punctual_run 4 0 until_returned report_read (default booted (run 4 until_returned report_read)).
Proof.
  eapply punctual_cons; [|vm_compute; reflexivity|].
  - intros j Hj Hs _. vm_compute in Hj. injection Hj as <-. split.
    + apply waits_intro; [exact Hs|]. repeat (apply Forall_cons; split; [vm_compute; reflexivity|]). apply Forall_nil_2.
    + intros st r wake H. vm_compute in H. injection H as <- <- <-. vm_compute. discriminate.
  - eapply punctual_app; [apply punctual_untimed; vm_compute; reflexivity|].
    eapply punctual_cons; [|vm_compute; reflexivity|].
    + intros j Hj _ Hf. vm_compute in Hj. injection Hj as <-. by destruct Hf.
    + vm_compute. apply punctual_nil.
Qed.

Lemma prompt_run_punctual :
  punctual_run 4 0 prompt_run just_started (default booted (run 4 until_returned report_read)).
Proof.
  eapply punctual_app; [apply punctual_untimed; vm_compute; reflexivity|apply until_returned_punctual].
Qed.

Lemma upgrade_within_timeout_witness :
  exists j, jobs (default booted (run 4 until_returned report_read)) !! 0%nat = Some j /\ finished j.
Proof.
  eexists. split; [vm_compute; reflexivity|].
  refine (proj1 (upgrade_within_timeout 4 before_start prompt_run (at_end before_start) just_started
    (default booted (run 4 until_returned report_read)) 0 0 (MkJob MStart SNone WNone RNone spawned) _
    _ _ _ _ prompt_run_punctual _ _) _); vm_compute; reflexivity.
Defined.

Lemma report_answered_in_time_witness :
  exists j, jobs (default booted (run 4 until_returned report_read)) !! 0%nat = Some j /\ finished j.
Proof.
  eexists. split; [vm_compute; reflexivity|].
  eapply (report_answered_in_time 4 (take 8 prompt_child) from_report report_written
    (default booted (run 4 until_returned report_read)) 0).
  - vm_compute. reflexivity.
  - vm_compute. reflexivity.
  - reflexivity.
  - vm_compute. repeat constructor.
  - eapply punctual_app; [apply punctual_untimed; vm_compute; reflexivity|apply until_returned_punctual].
  - vm_compute. reflexivity.
  - vm_compute. reflexivity.
  - vm_compute. reflexivity.
  - vm_compute. reflexivity.
Defined.
