(* ===== verification/Lineage.v ===== *)
(** * Lineage: processes that upgrade into one another

    The whole of an application's life: a first process, the children its
    upgrades start, their children, and so on, all running at the same time.
    Every process has its [Ecdysis] object with the descriptor table it lives in,
    and the calls of [upgrade] it makes, as threads. A child may crash or be
    killed while it starts up, upgrades may fail, overlap and be repeated; a
    process leaves only when one of its upgrades has returned [Ok]. The theorem
    is what the library is for: at every moment a live process that has reported
    ready holds the listening socket. *)

From S2P Require Import Prelude Text Addr Posix PosixModel Utils Registry RegistrySpec.
From S2P Require Import Bincode Listener Inheriter Executioner Ecdysis EcdysisSpec Handover Handshake.
From S2P Require Import UpgradeThreads UpgradeSpec.
From Stdlib Require Import Ascii.

(** ** Processes *)

Inductive life : Type :=
| Starting             (* between exec and ready *)
| Serving              (* the first process, or one whose ready returned Ok *)
| Crashed              (* while it was starting *)
| Exited.              (* after an upgrade that returned Ok *)

Section lineage.
Context {K : Type} `{HV : HasView K, FO : FdOps K, FL : !FdLaws K, PO : PipeOps K,
  PL : !PipeLaws K, PR : ProcOps K, PRL : !ProcLaws K, FS : FsOps K, FSL : !FsLaws K,
  SO : SockOps K, BC : Bincode K, BL : !BincodeLaws K}.
Context (debug_io : io_error -> string) (systemd_sockets : bool) (capacity : nat).
(** The address whose socket is followed. *)
Context (si : SockInfo).

Record process : Type := MkProcess {
  pr_object : Ecdysis * K;
  pr_parent : option (nat * nat);    (* the process and the call that started it *)
  pr_life : life;
  pr_log : list label                (* its registry operations so far *)
}.

(** All processes there ever were, each with its calls of [upgrade]. *)
Record family : Type := MkFamily { procs : list process; calls : list (system (K := K)) }.

Definition set_life (x : life) (pr : process) : process :=
  MkProcess (pr_object pr) (pr_parent pr) x (pr_log pr).
Definition set_object (s : Ecdysis * K) (pr : process) : process :=
  MkProcess s (pr_parent pr) (pr_life pr) (pr_log pr).

Definition call_of (ss : list (system (K := K))) (p i : nat) : option job :=
  s ← ss !! p; jobs s !! i.

(** A child runs as long as its parent's call says so. *)
Definition runs_still (ss : list (system (K := K))) (par : option (nat * nat)) : bool :=
  match par with
  | None => true
  | Some (p, i) => match call_of ss p i with Some j => p_running (j_proc j) | None => false end
  end.

Definition alive (f : family) (pr : process) : Prop :=
  (pr_life pr = Starting \/ pr_life pr = Serving) /\ runs_still (calls f) (pr_parent pr) = true.

(** What the child of call [i] of process [p] does, as that call sees it. *)
Definition child_does (acts : list child_act) (par : option (nat * nat)) (ss : list (system (K := K))) :
    option (list (system (K := K))) :=
  match par with
  | None => Some ss
  | Some (p, i) =>
    s ← ss !! p;
    s' ← run capacity ((fun a => Act i (ChildDo a)) <$> acts) s;
    Some (<[p := s']> ss)
  end.

(** What threads do by themselves, and the child's reading of the list; starting
    the child is a step of its own, with the snapshot of the registry that it
    sends and the child's [Ecdysis::new]. *)
Definition by_itself (s : system (K := K)) (a : action (K := K)) : bool :=
  match a with
  | Act i (ChildDo (CRecv | CCloseRecv)) => true
  | Act i (ChildDo _) => false
  | Act i (Main (Ok _)) =>
    match jobs s !! i with Some j => match j_main j with MStart => false | _ => true end | None => false end
  | _ => true
  end.

(** The application's own operations on the registry. Whatever else it does, it
    leaves the object's pipe to the parent alone. *)
Definition app_label (l : label) : bool :=
  match l with LCloseUsed | LCloseInherited => false | _ => true end.

Inductive step : family -> family -> Prop :=
| step_app f q pr s' l :
    procs f !! q = Some pr -> alive f pr -> app_label l = true -> runs (pr_object pr) [l] s' ->
    (forall w d, holds_notifier w d (pr_object pr) -> holds_notifier w d s') ->
    step f (MkFamily (<[q := MkProcess s' (pr_parent pr) (pr_life pr) (pr_log pr ++ [l])]> (procs f)) (calls f))
| step_threads f p pr s a s' :
    procs f !! p = Some pr -> alive f pr -> pr_life pr = Serving ->
    calls f !! p = Some s -> by_itself s a = true -> sys_step capacity a s = Some s' ->
    step f (MkFamily (procs f) (<[p := s']> (calls f)))
| step_spawn f p pr s i j n s' k' o1 :
    procs f !! p = Some pr -> alive f pr -> pr_life pr = Serving ->
    calls f !! p = Some s -> jobs s !! i = Some j -> j_main j = MStart ->
    Handover.started debug_io systemd_sockets (pr_object pr) k' o1 ->
    sys_step capacity (Act i (Main (Ok n))) s = Some s' ->
    step f (MkFamily (<[p := set_object ((pr_object pr).1, k') pr]> (procs f) ++
                       [MkProcess o1 (Some (p, i)) Starting []])
                     (<[p := s']> (calls f) ++ [booted]))
| step_ready f q pr s' ss :
    procs f !! q = Some pr -> alive f pr -> pr_life pr = Starting -> keeps si (pr_log pr) ->
    ready (pr_object pr) = (Ret (Ok tt), s') ->
    child_does [CWrite "O"; CWrite "K"; CCloseReady] (pr_parent pr) (calls f) = Some ss ->
    step f (MkFamily (<[q := set_life Serving (set_object s' pr)]> (procs f)) ss)
| step_crash f q pr ss :
    procs f !! q = Some pr -> alive f pr -> pr_life pr = Starting ->
    child_does [CExit] (pr_parent pr) (calls f) = Some ss ->
    step f (MkFamily (<[q := set_life Crashed pr]> (procs f)) ss)
| step_leave f p pr s i j s' ss :
    procs f !! p = Some pr -> alive f pr -> pr_life pr = Serving ->
    calls f !! p = Some s -> jobs s !! i = Some j -> j_main j = MDone (Ok tt) ->
    quit (pr_object pr) = (Ret tt, s') ->
    child_does [CExit] (pr_parent pr) (calls f) = Some ss ->
    step f (MkFamily (<[p := set_life Exited (set_object s' pr)]> (procs f)) ss).

Inductive steps : family -> family -> Prop :=
| steps_refl f : steps f f
| steps_snoc f1 f2 f3 : steps f1 f2 -> step f2 f3 -> steps f1 f3.

(** ** The invariant *)

(** A child that is starting has written nothing; one that serves runs, unless
    its parent has killed it. *)
Definition link (x : life) (pc : proc) : Prop :=
  match x with
  | Starting | Crashed => p_wrote pc = ""
  | Serving => p_running pc = true \/ p_killed pc = true
  | Exited => True
  end.

Definition holding (d : N) (pr : process) : Prop :=
  match pr_life pr with
  | Starting => exists a0 si0 a w dw, asked si (a_inherited a0) = Some (si0, d) /\
      asked si (a_used a0) = None /\ a_steps a0 (pr_log pr) a /\
      ecdysis_at a (pr_object pr) /\ holds_notifier w dw (pr_object pr)
  | Serving => exists a si', ecdysis_at a (pr_object pr) /\ asked si (a_used a) = Some (si', d)
  | Crashed | Exited => True
  end.

Record family_wf (d : N) (f : family) : Prop := {
  fw_length : length (calls f) = length (procs f);
  fw_reachable : Forall (reachable capacity) (calls f);
  fw_holding : Forall (holding d) (procs f);
  fw_parent q pr p i : procs f !! q = Some pr -> pr_parent pr = Some (p, i) ->
    p < q /\ exists j, call_of (calls f) p i = Some j /\ started j /\ link (pr_life pr) (j_proc j);
  fw_unique q q' pr pr' x : procs f !! q = Some pr -> procs f !! q' = Some pr' ->
    pr_parent pr = Some x -> pr_parent pr' = Some x -> q = q';
  fw_child p i j : call_of (calls f) p i = Some j -> started j ->
    exists q pr, procs f !! q = Some pr /\ pr_parent pr = Some (p, i);
  fw_left q pr : procs f !! q = Some pr -> pr_life pr = Exited ->
    exists i j, call_of (calls f) q i = Some j /\ j_main j = MDone (Ok tt);
  fw_first : exists pr, procs f !! 0 = Some pr /\ pr_parent pr = None;
  fw_orphan q pr : procs f !! q = Some pr -> pr_parent pr = None ->
    pr_life pr = Serving \/ pr_life pr = Exited
}.

(** A process that has left was followed by one that serves or has left. *)
Lemma successor d f p pr :
  family_wf d f -> procs f !! p = Some pr -> pr_life pr = Exited ->
  exists q prq, p < q /\ procs f !! q = Some prq /\
    (pr_life prq = Exited \/ pr_life prq = Serving /\ runs_still (calls f) (pr_parent prq) = true).
Proof.
  intros Hwf Hp Hx. destruct (fw_left _ _ Hwf _ _ Hp Hx) as (i & j & Hj & Hm).
  assert (Hs : started j) by (unfold started; by rewrite Hm).
  destruct (fw_child _ _ Hwf _ _ _ Hj Hs) as (q & prq & Hq & Hpar).
  destruct (fw_parent _ _ Hwf _ _ _ _ Hq Hpar) as (Hlt & j' & Hj' & _ & Hl).
  rewrite Hj in Hj'. injection Hj' as <-. exists q, prq. split; [done|]. split; [done|].
  pose proof Hj as (s & Hs' & Hji)%bind_Some.
  pose proof (Forall_lookup_1 _ _ _ _ (fw_reachable _ _ Hwf) Hs') as Hr.
  destruct (done_ok_child capacity s i j Hr Hji Hm) as (_ & _ & (rest & Hw) & Hk).
  unfold link in Hl. destruct (pr_life prq) eqn:Hq'; [by rewrite Hw in Hl| |by rewrite Hw in Hl|by left].
  right. split; [done|]. cbn. rewrite Hpar. cbn. rewrite Hj. destruct Hl; congruence.
Qed.

Lemma someone_serves d f :
  family_wf d f -> exists q pr, procs f !! q = Some pr /\ alive f pr /\ pr_life pr = Serving.
Proof.
  intros Hwf.
  assert (Hgo : forall n p pr, length (procs f) - p <= n -> procs f !! p = Some pr ->
    pr_life pr = Exited \/ pr_life pr = Serving /\ runs_still (calls f) (pr_parent pr) = true ->
    exists q pr, procs f !! q = Some pr /\ alive f pr /\ pr_life pr = Serving).
  { induction n as [|n IH]; intros p pr Hn Hp H; (destruct H as [Hx|[Hs Hr]]; [|exists p, pr; split; [done|]; split; [split; auto|done]]).
    - apply lookup_lt_Some in Hp. lia.
    - destruct (successor _ _ _ _ Hwf Hp Hx) as (q & prq & Hlt & Hq & H). apply (IH q prq); [|done..].
      apply lookup_lt_Some in Hp. lia. }
  destruct (fw_first _ _ Hwf) as (pr & Hp & Hpar).
  apply (Hgo (length (procs f)) 0 pr); [lia|done|].
  destruct (fw_orphan _ _ Hwf _ _ Hp Hpar); [right|by left]. by rewrite Hpar.
Qed.

(** ** Every step keeps it *)

(** Calls that went on: none started a child; the child of the call [keep] is now
    in the state [x], the others are as they were. *)
Record evolves (keep : option (nat * nat)) (x : life) (ss ss' : list (system (K := K))) : Prop := {
  ev_length : length ss' = length ss;
  ev_reachable : Forall (reachable capacity) ss';
  ev_old p i j' : call_of ss' p i = Some j' -> started j' -> exists j, call_of ss p i = Some j /\ started j;
  ev_call p i j : call_of ss p i = Some j -> started j -> exists j', call_of ss' p i = Some j' /\ started j' /\
    (j_main j = MDone (Ok tt) -> j_main j' = MDone (Ok tt)) /\
    (keep <> Some (p, i) -> forall y, link y (j_proc j) -> link y (j_proc j')) /\
    (keep = Some (p, i) -> link x (j_proc j'))
}.

Lemma evolves_refl x ss : Forall (reachable capacity) ss -> evolves None x ss ss.
Proof. intros H. split; [done|done|by eauto|]. intros p i j Hj Hs. by exists j. Qed.

Lemma family_wf_update d f q pr pr' keep ss' :
  family_wf d f -> procs f !! q = Some pr -> pr_parent pr' = pr_parent pr -> holding d pr' ->
  evolves keep (pr_life pr') (calls f) ss' ->
  keep = pr_parent pr \/ keep = None /\ pr_life pr' = pr_life pr ->
  (pr_life pr' = Exited -> exists i j, call_of ss' q i = Some j /\ j_main j = MDone (Ok tt)) ->
  (pr_parent pr = None -> pr_life pr' = Serving \/ pr_life pr' = Exited) ->
  family_wf d (MkFamily (<[q := pr']> (procs f)) ss').
Proof.
  intros Hwf Hq Hpar Hh Hev Hkeep Hexit Horph.
  pose proof (lookup_lt_Some _ _ _ Hq) as Hlt.
  assert (Hback : forall q0 pr0, <[q:=pr']> (procs f) !! q0 = Some pr0 ->
    q0 = q /\ pr0 = pr' \/ q0 <> q /\ procs f !! q0 = Some pr0).
  { intros q0 pr0. rewrite list_lookup_insert_Some. naive_solver. }
  assert (Hold : forall q0 pr0, <[q:=pr']> (procs f) !! q0 = Some pr0 ->
    exists pr1, procs f !! q0 = Some pr1 /\ pr_parent pr1 = pr_parent pr0).
  { intros q0 pr0 [[-> ->]|[_ H]]%Hback; [by exists pr|by exists pr0]. }
  split; cbn.
  - rewrite length_insert. rewrite (ev_length _ _ _ _ Hev). apply (fw_length _ _ Hwf).
  - apply (ev_reachable _ _ _ _ Hev).
  - apply Forall_insert; [apply (fw_holding _ _ Hwf)|done].
  - intros q0 pr0 p i H0 H1. destruct (Hold _ _ H0) as (pr1 & H1' & Hp1). rewrite H1 in Hp1.
    destruct (fw_parent _ _ Hwf _ _ _ _ H1' Hp1) as (Hlt' & j & Hj & Hs & Hl). split; [done|].
    destruct (ev_call _ _ _ _ Hev _ _ _ Hj Hs) as (j' & Hj' & Hs' & _ & Hne & Heq).
    exists j'. split; [done|]. split; [done|]. destruct (Hback _ _ H0) as [[-> ->]|[Hneq H2]].
    + rewrite Hq in H1'. injection H1' as <-. destruct Hkeep as [->|[-> ->]]; [by apply Heq|by apply Hne].
    + rewrite H2 in H1'. injection H1' as <-. apply Hne; [|done]. intros Hk.
      destruct Hkeep as [Hk'|[-> _]]; [|done]. destruct Hneq.
      apply (fw_unique _ _ Hwf q0 q pr0 pr (p, i)); congruence.
  - intros q1 q2 pr1 pr2 x H1 H2 E1 E2. destruct (Hold _ _ H1) as (x1 & ? & ?), (Hold _ _ H2) as (x2 & ? & ?).
    apply (fw_unique _ _ Hwf q1 q2 x1 x2 x); congruence.
  - intros p i j' Hj' Hs'. destruct (ev_old _ _ _ _ Hev _ _ _ Hj' Hs') as (j & Hj & Hs).
    destruct (fw_child _ _ Hwf _ _ _ Hj Hs) as (q0 & pr0 & H0 & H1).
    destruct (decide (q0 = q)) as [->|Hne].
    + exists q, pr'. rewrite list_lookup_insert_eq by done. split; [done|congruence].
    + exists q0, pr0. by rewrite list_lookup_insert_ne.
  - intros q0 pr0 [[-> ->]|[_ H0]]%Hback Hx; [by apply Hexit|].
    destruct (fw_left _ _ Hwf _ _ H0 Hx) as (i & j & Hj & Hm).
    destruct (ev_call _ _ _ _ Hev _ _ _ Hj) as (j' & Hj' & _ & Hd & _); [unfold started; by rewrite Hm|].
    exists i, j'. split; [done|by apply Hd].
  - destruct (fw_first _ _ Hwf) as (pr0 & H0 & H1). destruct (decide (q = 0)) as [->|Hne].
    + exists pr'. rewrite list_lookup_insert_eq by done. split; [done|congruence].
    + exists pr0. by rewrite list_lookup_insert_ne.
  - intros q0 pr0 [[-> ->]|[_ H0]]%Hback Hp0; [apply Horph; congruence|by apply (fw_orphan _ _ Hwf q0)].
Qed.

Definition own_event (ev : event (K := K)) (j : job (K := K)) : bool :=
  match ev with
  | ChildDo (CRecv | CCloseRecv) => true
  | ChildDo _ => false
  | Main (Ok _) => match j_main j with MStart => false | _ => true end
  | _ => true
  end.

Lemma link_proc x (pc pc' : proc) :
  p_wrote pc' = p_wrote pc -> (p_running pc' = p_running pc \/ p_running pc = true /\ p_killed pc' = true) ->
  (p_killed pc = true -> p_killed pc' = true) -> link x pc -> link x pc'.
Proof.
  intros Hw Hr Hk Hl. destruct x; cbn in *; [congruence| |congruence|done].
  destruct Hr as [->|[_ ?]]; [|by right]. destruct Hl; auto.
Qed.

(** What the threads do to the child. *)
Lemma waitc_link x f u n (p : proc) (w w' : waitc_pc (K := K)) p' :
  waitc_step f u n p w = Some (w', p') -> link x p -> link x p'.
Proof.
  intros E. assert (Hp : forall r q, proc_wait (K := K) f p = (r, q) -> link x p -> link x q).
  { intros r q Eq. unfold proc_wait in Eq. destruct f; [by simplify_eq|].
    destruct (p_state p) eqn:Hs; simplify_eq; try done.
    all: apply link_proc; [done| |done]; left; unfold p_running; by rewrite Hs. }
  destruct w as [| |st m|st m wake|st m|st m| |st|st|r]; cbn in E; try done.
  - by simplify_eq.
  - case_bool_decide; by simplify_eq.
  - case_bool_decide; by simplify_eq.
  - destruct (proc_wait f p) as [[]] eqn:Eq; simplify_eq; by eapply Hp.
  - by simplify_eq.
  - destruct (proc_wait f p) as [r q] eqn:Eq. simplify_eq. by eapply Hp.
  - simplify_eq. apply link_proc; unfold kill_proc; destruct (p_running p) eqn:Hr; cbn; auto.
  - destruct (p_running p) eqn:Hr; [done|]. simplify_eq. apply link_proc; cbn; auto.
Qed.

Lemma own_step ev u n j u' j' :
  own_event ev j = true -> job_step capacity ev u n j = Some (u', j') ->
  (started j <-> started j') /\ (j_main j = MDone (Ok tt) -> j_main j' = MDone (Ok tt)) /\
  forall x, link x (j_proc j) -> link x (j_proc j').
Proof.
  intros Ho E. destruct ev as [st|f e|f|f|c]; cbn in E, Ho.
  - destruct j as [m sd wc wr pc]. unfold started.
    destruct m; cbn in *; repeat case_match; simplify_eq/=; try done.
  - destruct (send_step _ _ _ _ _) as [[y pc]|] eqn:Es; simplify_eq/=. peel 2. intros x.
    destruct (j_send j) as [|[|m]|]; cbn in Es; repeat case_match; simplify_eq/=; done.
  - destruct (waitc_step _ _ _ _ _) as [[y pc]|] eqn:Es; simplify_eq/=. peel 2. intros x. by eapply waitc_link.
  - destruct (waitr_step _ _ _) as [[y pc]|] eqn:Es; simplify_eq/=. peel 2. intros x.
    destruct (j_waitr j); cbn in Es; repeat case_match; simplify_eq/=; done.
  - destruct (may_act _ _); [|done]. destruct (child_step _ _) as [pc|] eqn:Ec; simplify_eq/=. peel 2.
    intros x. destruct c; cbn in Ec; try done; repeat case_match; simplify_eq/=; apply link_proc; cbn; auto.
Qed.

Lemma call_of_insert ss p s' p0 i :
  p < length ss -> call_of (<[p := s']> ss) p0 i = if decide (p0 = p) then jobs s' !! i else call_of ss p0 i.
Proof.
  intros Hp. unfold call_of. case_decide as Hd; [subst; by rewrite list_lookup_insert_eq|].
  by rewrite list_lookup_insert_ne.
Qed.

Lemma evolves_threads x ss p s a s' :
  Forall (reachable capacity) ss -> ss !! p = Some s -> by_itself s a = true ->
  sys_step capacity a s = Some s' -> evolves None x ss (<[p := s']> ss).
Proof.
  intros Hr Hp Hb E. pose proof (lookup_lt_Some _ _ _ Hp) as Hlt.
  assert (Hown : forall i ev j, a = Act i ev -> jobs s !! i = Some j -> own_event ev j = true).
  { intros i ev j -> Hj. cbn in Hb. destruct ev as [[n|e]| | | |c]; cbn; try done. by rewrite Hj in Hb. }
  split.
  - by rewrite length_insert.
  - apply Forall_insert; [done|]. pose proof (Forall_lookup_1 _ _ _ _ Hr Hp) as [tr Etr].
    exists (tr ++ [a]). rewrite run_app, Etr. cbn. by rewrite E.
  - intros p0 i j'. rewrite call_of_insert by done. case_decide as Hd; [subst|by eauto].
    intros Hj' Hs'. unfold call_of. rewrite Hp. cbn.
    destruct (sys_step_job _ _ _ _ _ _ E Hj') as [(_ & -> & _)|[[? _]|(ev & j & -> & Hj & Es)]]; [done|by eauto|].
    exists j. split; [done|]. by apply (own_step _ _ _ _ _ _ (Hown _ _ _ eq_refl Hj) Es).
  - intros p0 i j. rewrite call_of_insert by done. case_decide as Hd; [subst|intros; by exists j].
    unfold call_of. rewrite Hp. cbn. intros Hj Hs.
    destruct (job_survives _ _ _ _ _ _ E Hj) as [j' Hj']. exists j'. split; [done|].
    destruct (sys_step_job _ _ _ _ _ _ E Hj') as [(_ & _ & ?)|[[? _]|(ev & j0 & -> & Hj0 & Es)]]; [congruence|by simplify_eq|].
    simplify_eq. destruct (own_step _ _ _ _ _ _ (Hown _ _ _ eq_refl Hj) Es) as (H1 & H2 & H3). naive_solver.
Qed.

(** What a child does changes its own state, and nothing else of the call. *)
Definition set_proc (pc : proc) (j : job (K := K)) : job :=
  MkJob (j_main j) (j_send j) (j_waitc j) (j_waitr j) pc.

Fixpoint child_run (acts : list child_act) (pc : proc) : option proc :=
  match acts with
  | [] => Some pc
  | a :: acts' => pc' ← child_step a pc; child_run acts' pc'
  end.

Lemma run_child acts i s s' j :
  run capacity ((fun a => Act i (ChildDo a)) <$> acts) s = Some s' -> jobs s !! i = Some j ->
  exists pc, child_run acts (j_proc j) = Some pc /\ jobs s' = <[i := set_proc pc j]> (jobs s).
Proof.
  revert s j. induction acts as [|a acts IH]; intros s j E Hj.
  { cbn in E. simplify_eq. exists (j_proc j). split; [done|]. rewrite list_insert_id; [done|]. by destruct j. }
  cbn [fmap list_fmap run] in E. destruct (sys_step _ _ s) as [s1|] eqn:E1; [|done]. cbn in E, E1.
  rewrite Hj in E1. cbn in E1. destruct (may_act a j); [|done].
  destruct (child_step a (j_proc j)) as [pc1|] eqn:Ec; [|done]. cbn in E1. simplify_eq.
  destruct (IH _ (set_proc pc1 j) E) as (pc & Hr & Hjs).
  { cbn. apply list_lookup_insert_eq. by eapply lookup_lt_Some. }
  exists pc. cbn. rewrite Ec. split; [done|]. rewrite Hjs. cbn. by rewrite list_insert_insert_eq.
Qed.

Lemma evolves_child x ss ss' p i acts j :
  Forall (reachable capacity) ss -> child_does acts (Some (p, i)) ss = Some ss' ->
  call_of ss p i = Some j -> (forall pc, child_run acts (j_proc j) = Some pc -> link x pc) ->
  evolves (Some (p, i)) x ss ss'.
Proof.
  intros Hr E Hj Hl. cbn in E. destruct (ss !! p) as [s|] eqn:Hp; [|done]. cbn in E.
  destruct (run _ _ s) as [s'|] eqn:Es; [|done]. cbn in E. injection E as <-.
  pose proof (lookup_lt_Some _ _ _ Hp) as Hlt. unfold call_of in Hj. rewrite Hp in Hj. cbn in Hj.
  destruct (run_child _ _ _ _ _ Es Hj) as (pc & Hc & Hjs).
  assert (Hat : forall p0 i0 j0, call_of (<[p := s']> ss) p0 i0 = Some j0 <->
    if decide (p0 = p /\ i0 = i) then j0 = set_proc pc j else call_of ss p0 i0 = Some j0).
  { intros p0 i0 j0. rewrite call_of_insert by done. case_decide as Hd.
    - subst. unfold call_of. rewrite Hp, Hjs. cbn. case_decide as Hi.
      + destruct Hi as [_ ->]. rewrite list_lookup_insert_eq by (by eapply lookup_lt_Some). naive_solver.
      + rewrite list_lookup_insert_ne by naive_solver. done.
    - rewrite decide_False by naive_solver. done. }
  split.
  - by rewrite length_insert.
  - apply Forall_insert; [done|]. pose proof (Forall_lookup_1 _ _ _ _ Hr Hp) as [tr Etr].
    eexists. by rewrite run_app, Etr.
  - intros p0 i0 j' Hj' Hs'. apply Hat in Hj'. case_decide as Hd; [|by eauto].
    destruct Hd as [-> ->]. subst. exists j. split; [|done]. unfold call_of. by rewrite Hp.
  - intros p0 i0 j0 Hj0 Hs0. destruct (decide (p0 = p /\ i0 = i)) as [[-> ->]|Hne].
    + unfold call_of in Hj0. rewrite Hp in Hj0. cbn in Hj0. rewrite Hj in Hj0. injection Hj0 as <-.
      exists (set_proc pc j). split; [apply Hat; by rewrite decide_True|]. peel 2. split; [done|]. by intros _; apply Hl.
    + exists j0. split; [apply Hat; by rewrite decide_False|]. peel 2. split; [done|]. intros [= -> ->]. by destruct Hne.
Qed.

(** The same for any process, the first included. *)
Lemma evolves_does x f pr acts ss' :
  Forall (reachable capacity) (calls f) -> alive f pr -> child_does acts (pr_parent pr) (calls f) = Some ss' ->
  (forall p i j pc, pr_parent pr = Some (p, i) -> call_of (calls f) p i = Some j ->
     p_running (j_proc j) = true -> child_run acts (j_proc j) = Some pc -> link x pc) ->
  evolves (pr_parent pr) x (calls f) ss'.
Proof.
  intros Hr [_ Ha] E Hl. destruct (pr_parent pr) as [[p i]|].
  - cbn in Ha. destruct (call_of (calls f) p i) as [j|] eqn:Hj; [|done].
    eapply evolves_child; [done..|]. intros pc. by apply (Hl p i j).
  - cbn in E. injection E as <-. by apply evolves_refl.
Qed.

(** What an application does keeps the socket. *)
Lemma holding_app d pr s' l :
  holding d pr -> app_label l = true -> runs (pr_object pr) [l] s' ->
  (forall w dw, holds_notifier w dw (pr_object pr) -> holds_notifier w dw s') ->
  holding d (MkProcess s' (pr_parent pr) (pr_life pr) (pr_log pr ++ [l])).
Proof.
  intros H Hl Hr Hn. unfold holding in *. cbn. destruct (pr_life pr); try done.
  - destruct H as (a0 & si0 & a & w & dw & H1 & H2 & H3 & H4 & H5).
    destruct (runs_simulated _ _ _ _ H4 Hr) as (a' & Hs & Hat).
    exists a0, si0, a', w, dw. peel 2. split; [by eapply a_steps_app|]. split; [done|by apply Hn].
  - destruct H as (a & si' & Hat & Ha). destruct (runs_simulated _ _ _ _ Hat Hr) as (a' & Hs & Hat').
    exists a', si'. split; [done|]. eapply a_steps_used_stable; [exact Hs| |done].
    intros <-%list_elem_of_singleton. done.
Qed.

Lemma holding_ready d pr s' :
  holding d pr -> pr_life pr = Starting -> keeps si (pr_log pr) -> ready (pr_object pr) = (Ret (Ok tt), s') ->
  holding d (set_life Serving (set_object s' pr)).
Proof.
  intros H Hx Hk E. unfold holding in *. rewrite Hx in H. cbn.
  destruct H as (a0 & si0 & a & w & dw & H1 & H2 & H3 & H4 & H5).
  destruct (pr_object pr) as [e k]. destruct (ready_outcome _ _ _ _ _ _ _ H4 H5 E) as [_ Hat].
  destruct (a_steps_keeps si si0 d _ _ _ H3 Hk H1 H2) as (_ & si' & Hu). by exists (AReg [] (a_used a)), si'.
Qed.

(** The new child is holding what its parent uses. *)
Lemma holding_spawn d pr k' o1 x :
  holding d pr -> pr_life pr = Serving -> Handover.started debug_io systemd_sockets (pr_object pr) k' o1 ->
  holding d (set_object ((pr_object pr).1, k') pr) /\ holding d (MkProcess o1 x Starting []).
Proof.
  intros H Hx Hs. unfold holding in *. cbn. rewrite Hx in *. destruct H as (a & si' & Hat & Ha).
  destruct (started_both _ _ _ _ _ _ Hat Hs) as (H1 & (w & dw & H2) & H3). split; [by exists a, si'|].
  exists (AReg (a_used a) []), si', (AReg (a_used a) []), w, dw. peel 2. split; [constructor|done].
Qed.

(** The lists after a start: the parent's entry changed, the child's new. *)
Lemma spawn_procs l q pr pr' c :
  l !! q = Some pr -> pr_parent pr' = pr_parent pr -> pr_life pr' = pr_life pr ->
  (forall x prx, (<[q := pr']> l ++ [c]) !! x = Some prx ->
     (exists prx0, l !! x = Some prx0 /\ pr_parent prx0 = pr_parent prx /\ pr_life prx0 = pr_life prx) \/
     x = length l /\ prx = c) /\
  (forall x prx0, l !! x = Some prx0 -> exists prx, (<[q := pr']> l ++ [c]) !! x = Some prx /\
     pr_parent prx = pr_parent prx0).
Proof.
  intros Hq Hpar Hlife. pose proof (lookup_lt_Some _ _ _ Hq) as Hlt. split.
  - intros x prx [H|[Hge H]]%lookup_app_Some.
    + left. apply list_lookup_insert_Some in H as [(<- & <- & _)|[_ H]]; [by exists pr|by exists prx].
    + right. rewrite length_insert in *. apply list_lookup_singleton_Some in H as [H <-]. split; [lia|done].
  - intros x prx0 Hx. destruct (decide (x = q)) as [->|Hne].
    + exists pr'. rewrite lookup_app_l, list_lookup_insert_eq by (rewrite ?length_insert; lia).
      split; [done|congruence].
    + exists prx0. split; [|done]. apply lookup_app_l_Some. by rewrite list_lookup_insert_ne.
Qed.

Lemma spawn_calls ss p s s' i j1 :
  ss !! p = Some s -> i < length (jobs s) -> jobs s' = <[i := j1]> (jobs s) -> forall p0 i0,
  call_of (<[p := s']> ss ++ [booted]) p0 i0 =
    if decide ((p0, i0) = (p, i)) then Some j1 else call_of ss p0 i0.
Proof.
  intros Hp Hi Hj p0 i0. pose proof (lookup_lt_Some _ _ _ Hp) as Hlt. unfold call_of.
  destruct (decide (p0 = p)) as [->|Hne].
  - rewrite lookup_app_l, list_lookup_insert_eq, Hp by (rewrite ?length_insert; lia). cbn. rewrite Hj.
    case_decide as Hd; [injection Hd as ->; by apply list_lookup_insert_eq|].
    rewrite list_lookup_insert_ne by congruence. done.
  - rewrite decide_False by congruence. destruct (decide (p0 < length ss)) as [Hl|Hl].
    + by rewrite lookup_app_l, list_lookup_insert_ne by (rewrite ?length_insert; lia).
    + rewrite lookup_app_r by (rewrite length_insert; lia). rewrite length_insert.
      rewrite (lookup_ge_None_2 ss p0) by lia. by destruct (p0 - length ss) as [|[|?]].
Qed.

Lemma family_wf_spawn d f p pr s i j n s' k' o1 :
  family_wf d f -> procs f !! p = Some pr -> pr_life pr = Serving ->
  calls f !! p = Some s -> jobs s !! i = Some j -> j_main j = MStart ->
  Handover.started debug_io systemd_sockets (pr_object pr) k' o1 ->
  sys_step capacity (Act i (Main (Ok n))) s = Some s' ->
  family_wf d (MkFamily (<[p := set_object ((pr_object pr).1, k') pr]> (procs f) ++
                          [MkProcess o1 (Some (p, i)) Starting []])
                        (<[p := s']> (calls f) ++ [booted])).
Proof.
  intros Hwf Hp Hx Hs Hj Hm Hst E. pose proof (fw_length _ _ Hwf) as Hlen.
  pose proof (lookup_lt_Some _ _ _ Hp) as Hlt.
  destruct (holding_spawn d pr k' o1 (Some (p, i))) as [Hh1 Hh2]; [by eapply Forall_lookup_1, Hp; apply Hwf|done..|].
  set (j1 := MkJob MJoinReady (SWrite n) WSpawned (RRead "") spawned).
  destruct (act_runs capacity i (Main (Ok n)) s j (upgrading s) j1 Hj) as [Ea _].
  { cbn. unfold main_step. by rewrite Hm. }
  pose proof (spawn_calls (calls f) p s s' i j1 Hs (lookup_lt_Some _ _ _ Hj)) as Hc.
  rewrite E in Ea. injection Ea as ->. specialize (Hc eq_refl).
  destruct (spawn_procs (procs f) p pr (set_object ((pr_object pr).1, k') pr)
    (MkProcess o1 (Some (p, i)) Starting []) Hp eq_refl eq_refl) as [Hback Hfor].
  assert (Hnot : forall j0, call_of (calls f) p i = Some j0 -> ~ started j0).
  { unfold call_of. rewrite Hs. cbn. rewrite Hj. intros j0 [= <-]. unfold started. rewrite Hm. intros []. }
  assert (Hold : forall q pr0, procs f !! q = Some pr0 -> pr_parent pr0 <> Some (p, i)).
  { intros q pr0 H0 H1. destruct (fw_parent _ _ Hwf _ _ _ _ H0 H1) as (_ & j0 & Hj0 & Hs0 & _). by apply (Hnot j0). }
  split; cbn.
  - rewrite !length_app, !length_insert. cbn. lia.
  - apply Forall_app. split; [|repeat constructor; by exists []].
    apply Forall_insert; [apply Hwf|]. destruct (Forall_lookup_1 _ _ _ _ (fw_reachable _ _ Hwf) Hs) as [tr Etr].
    exists (tr ++ [Act i (Main (Ok n))]). rewrite run_app, Etr. cbn [mbind option_bind run]. by rewrite E.
  - apply Forall_app. split; [apply Forall_insert; [apply Hwf|done]|by repeat constructor].
  - intros q pr0 p0 i0 [(pr1 & H1 & Hp1 & Hl1)|[-> ->]]%Hback Hpar.
    + destruct (fw_parent _ _ Hwf _ _ p0 i0 H1) as (Hlt' & j0 & Hj0 & Hs0 & Hl0); [congruence|]. split; [done|].
      exists j0. rewrite Hc, decide_False by (intros [= -> ->]; by apply (Hold q pr1); [done|congruence]).
      split; [done|]. by rewrite <- Hl1.
    + injection Hpar as <- <-. split; [done|]. exists j1. by rewrite Hc, decide_True.
  - intros q q' pr0 pr0' x [(pr1 & H1 & Hp1 & _)|[-> ->]]%Hback [(pr1' & H1' & Hp1' & _)|[-> ->]]%Hback E0 E0'; [..|done].
    + apply (fw_unique _ _ Hwf q q' pr1 pr1' x); congruence.
    + injection E0' as <-. destruct (Hold q pr1); [done|congruence].
    + injection E0 as <-. destruct (Hold q' pr1'); [done|congruence].
  - intros p0 i0 j0. rewrite Hc. case_decide as Hd; intros Hj0 Hs0.
    + injection Hd as -> ->. exists (length (procs f)), (MkProcess o1 (Some (p, i)) Starting []). split; [|done].
      rewrite lookup_app_r, length_insert, Nat.sub_diag by (rewrite length_insert; lia). done.
    + destruct (fw_child _ _ Hwf _ _ _ Hj0 Hs0) as (q & pr0 & H0 & H1). destruct (Hfor _ _ H0) as (pr1 & H2 & H3).
      exists q, pr1. split; [done|congruence].
  - intros q pr0 [(pr1 & H1 & _ & Hl1)|[-> ->]]%Hback Hl; [|done].
    destruct (fw_left _ _ Hwf q pr1 H1) as (i0 & j0 & Hj0 & Hm0); [congruence|]. exists i0, j0. split; [|done].
    rewrite Hc, decide_False; [done|]. intros [= -> ->]. apply (Hnot j0 Hj0). unfold started. by rewrite Hm0.
  - destruct (fw_first _ _ Hwf) as (pr0 & H0 & H1). destruct (Hfor _ _ H0) as (pr1 & H2 & H3).
    exists pr1. split; [done|congruence].
  - intros q pr0 [(pr1 & H1 & Hp1 & Hl1)|[-> ->]]%Hback Hn; [|done].
    rewrite <- Hl1. apply (fw_orphan _ _ Hwf q); congruence.
Qed.

Lemma report_link pc pc' :
  p_running pc = true -> child_run [CWrite "O"; CWrite "K"; CCloseReady] pc = Some pc' -> link Serving pc'.
Proof.
  assert (Hw : forall a q q', match a with CExit => False | _ => True end -> child_step a q = Some q' -> p_running q = true -> p_running q' = true).
  { intros a q q' Ha E Hr. destruct a; cbn in E; try done; repeat case_match; by simplify_eq/=. }
  intros Hr E. left. cbn [child_run mbind option_bind] in E.
  destruct (child_step (CWrite "O") pc) as [p1|] eqn:E1; [|done]. cbn [mbind option_bind] in E.
  destruct (child_step (CWrite "K") p1) as [p2|] eqn:E2; [|done]. cbn [mbind option_bind] in E.
  destruct (child_step CCloseReady p2) as [p3|] eqn:E3; [|done]. injection E as <-.
  apply (Hw CCloseReady _ _ I E3), (Hw (CWrite "K") _ _ I E2), (Hw (CWrite "O") _ _ I E1), Hr.
Qed.

Lemma exit_link x pc pc' :
  link Starting pc -> x = Crashed \/ x = Exited -> child_run [CExit] pc = Some pc' -> link x pc'.
Proof. intros Hl Hx E. cbn in E. destruct (p_running pc); [|done]. cbn in E. simplify_eq. by destruct Hx as [->| ->]. Qed.

Lemma step_wf d f f' : step f f' -> family_wf d f -> family_wf d f'.
Proof.
  intros Hst Hwf. pose proof (fw_reachable _ _ Hwf) as Hre.
  assert (Hhold : forall q pr, procs f !! q = Some pr -> holding d pr).
  { intros q pr Hq. exact (Forall_lookup_1 _ _ _ _ (fw_holding _ _ Hwf) Hq). }
  destruct Hst as [f q pr s' l Hq Ha Hl Hr Hn|f p pr s a s' Hp Ha Hx Hs Hb E|f p pr s i j n s' k' o1 Hp Ha Hx Hs Hj Hm Hst E|
    f q pr s' ss Hq Ha Hx Hk Er E|f q pr ss Hq Ha Hx E|f p pr s i j s' ss Hp Ha Hx Hs Hj Hm Eq E].
  - eapply family_wf_update; [done..| | |right; done|cbn; by apply (fw_left _ _ Hwf)|cbn; by apply (fw_orphan _ _ Hwf q)].
    + apply holding_app; eauto.
    + by apply evolves_refl.
  - rewrite <- (list_insert_id (procs f) p pr Hp).
    eapply (family_wf_update d f p pr pr None); [done..|by eapply Hhold|by eapply evolves_threads|by right| |].
    + congruence.
    + intros; by left.
  - by eapply family_wf_spawn.
  - eapply (family_wf_update d f q pr _ (pr_parent pr)); [done..| | |by left|done|intros; by left].
    + eapply holding_ready; eauto.
    + eapply evolves_does; [done..|]. intros p i j pc _ _. apply report_link.
  - eapply (family_wf_update d f q pr _ (pr_parent pr)); [done..| |by left|done|].
    + eapply evolves_does; [done..|]. intros p i j pc Hpar Hj _. apply exit_link; [|by left].
      destruct (fw_parent _ _ Hwf _ _ _ _ Hq Hpar) as (_ & j' & Hj' & _ & Hl). rewrite Hx in Hl. congruence.
    + intros Hpar. destruct (fw_orphan _ _ Hwf _ _ Hq Hpar); congruence.
  - assert (Hev : evolves (pr_parent pr) Exited (calls f) ss) by (by eapply evolves_does).
    eapply (family_wf_update d f p pr _ (pr_parent pr)); [done..|by left| |intros; by right].
    intros _. assert (Hc : call_of (calls f) p i = Some j) by (unfold call_of; by rewrite Hs).
    destruct (ev_call _ _ _ _ Hev p i j Hc) as (j' & Hj' & _ & Hd & _); [unfold started; by rewrite Hm|].
    exists i, j'. split; [done|by apply Hd].
Qed.

Lemma first_wf (first : process) (a : ARegistry) (si0 : SockInfo) (d : N) :
  pr_parent first = None -> pr_life first = Serving ->
  ecdysis_at a (pr_object first) -> asked si (a_used a) = Some (si0, d) ->
  family_wf d (MkFamily [first] [booted]).
Proof.
  intros Hpar Hx Hat Ha.
  assert (H1 : forall q pr, [first] !! q = Some pr -> pr = first).
  { by intros q pr [_ <-]%list_lookup_singleton_Some. }
  assert (H2 : forall p i j, call_of [booted] p i = Some j -> False).
  { intros p i j (s & Hs & Hj)%bind_Some. apply list_lookup_singleton_Some in Hs as [_ <-]. done. }
  split; cbn.
  - done.
  - repeat constructor. by exists [].
  - repeat constructor. unfold holding. rewrite Hx. by exists a, si0.
  - intros q pr p i ->%H1. congruence.
  - intros q q' pr pr' x ->%H1. congruence.
  - intros p i j Hj. by destruct (H2 _ _ _ Hj).
  - intros q pr ->%H1. congruence.
  - by exists first.
  - intros q pr ->%H1 _. by left.
Qed.

Lemma asked_open a (s : Ecdysis * K) si' d :
  ecdysis_at a s -> asked si (a_used a) = Some (si', d) -> exists fd, desc_of (fds s.2) fd = Some d.
Proof.
  intros (i & u & _ & _ & Ha) Hs. apply find_some in Hs as [Hin _].
  apply list_elem_of_In, list_elem_of_lookup in Hin as [n Hn].
  destruct (Forall2_lookup_r _ _ _ _ _ (abs_used _ _ _ _ Ha) Hn) as (li & _ & _ & Hd). by exists (li_fd li).
Qed.

(** C2. The listening socket is never lost. Follow the socket of one address from
    a first process that has it in use, through any history of its descendants:
    calls of [upgrade] that fail, overlap or are repeated, children that crash or
    are killed while they start, descriptor activity of the applications, in any
    interleaving, where a process ends only after one of its upgrades returned
    [Ok] and a child reports ready only after it asked for the address. Then at
    every moment some live process that has reported ready has this very socket
    registered for its own children, and open. *)
Theorem socket_never_lost (first : process) (a : ARegistry) (si0 : SockInfo) (d : N) (f : family) :
  pr_parent first = None -> pr_life first = Serving ->
  ecdysis_at a (pr_object first) -> asked si (a_used a) = Some (si0, d) ->
  steps (MkFamily [first] [booted]) f ->
  exists q pr a' si' fd, procs f !! q = Some pr /\ alive f pr /\ pr_life pr = Serving /\
    ecdysis_at a' (pr_object pr) /\ asked si (a_used a') = Some (si', d) /\
    desc_of (fds (pr_object pr).2) fd = Some d.
Proof.
  intros Hpar Hx Hat Ha Hst. remember (MkFamily [first] [booted]) as f0 eqn:E0.
  assert (Hwf : family_wf d f).
  { induction Hst as [f|f1 f2 f3 _ IH Hs]; [|eapply step_wf; [exact Hs|by apply IH]]. subst. by eapply first_wf. }
  destruct (someone_serves _ _ Hwf) as (q & pr & Hq & Hal & Hl).
  pose proof (Forall_lookup_1 _ _ _ _ (fw_holding _ _ Hwf) Hq) as Hh. unfold holding in Hh. rewrite Hl in Hh.
  destruct Hh as (a' & si' & Hat' & Ha'). destruct (asked_open _ _ _ _ Hat' Ha') as [fd Hfd].
  by exists q, pr, a', si', fd.
Qed.
End lineage.

(** ** Witness: an upgrade from the first call to the end of the parent *)

Section threads_alone.
Context {K : Type} `{HV : HasView K, FO : FdOps K, PO : PipeOps K, PR : ProcOps K, FS : FsOps K,
  SO : SockOps K, BC : Bincode K}.
Context (debug_io : io_error -> string) (systemd_sockets : bool) (capacity : nat) (si : SockInfo).

Fixpoint run_alone (tr : list action) (s : system (K := K)) : option system :=
  match tr with
  | [] => Some s
  | a :: tr' => if by_itself s a then s' ← sys_step capacity a s; run_alone tr' s' else None
  end.

(** Several steps of the threads of the first process. *)
Lemma steps_alone f0 f pr tr s s' :
  steps debug_io systemd_sockets capacity si f0 f ->
  procs f !! 0 = Some pr -> pr_parent pr = None -> pr_life pr = Serving ->
  calls f !! 0 = Some s -> run_alone tr s = Some s' ->
  steps debug_io systemd_sockets capacity si f0 (MkFamily (procs f) (<[0 := s']> (calls f))).
Proof.
  intros H0 Hp Hpar Hx. revert f s H0 Hp. induction tr as [|a tr IH]; intros f s H0 Hp Hs E; cbn in E.
  - simplify_eq. rewrite list_insert_id by done. by destruct f.
  - destruct (by_itself s a) eqn:Hb; [|done]. destruct (sys_step capacity a s) as [s1|] eqn:Ea; [|done]. cbn in E.
    assert (H1 : steps debug_io systemd_sockets capacity si f0 (MkFamily (procs f) (<[0 := s1]> (calls f)))).
    { eapply steps_snoc; [exact H0|]. eapply step_threads; [exact Hp| |done..]. split; [by right|by rewrite Hpar]. }
    pose proof (lookup_lt_Some _ _ _ Hs) as Hlt.
    specialize (IH _ s1 H1 Hp ltac:(by apply list_lookup_insert_eq) E). cbn in IH.
    by rewrite list_insert_insert_eq in IH.
Qed.
End threads_alone.

#[local] Notation action := (action (K := model)).
#[local] Notation st := (steps show_error false 4 (Tcp (V4 0 80))).

Definition first_server : process := MkProcess (serving_object, serving) None Serving [].

Definition up_to_start : list action := [Call; caller 0].
Definition child_reads : list action := [watch; watch; Act 0 (ChildDo CCloseRecv)].
Definition to_the_end : list action :=
  [Act 0 (WaitR false); Act 0 (WaitR false); Act 0 (WaitR false); caller 0; caller 0; Act 0 (Send false ChildExit);
   Tick 500; watch; watch; watch; watch; caller 0; caller 0].

Definition sys_after (tr : list action) (s : system (K := model)) : system :=
  default booted (run_alone 4 tr s).

Definition calls1 := sys_after up_to_start booted.
Definition calls2 := default booted (sys_step (K := model) 4 (caller 0) calls1).
Definition calls3 := sys_after child_reads calls2.
Definition calls4 := default booted (run (K := model) 4
  ((fun a => Act 0 (ChildDo a)) <$> [CWrite "O"; CWrite "K"; CCloseReady]) calls3).
Definition calls5 := sys_after to_the_end calls4.

Definition served : process :=
  MkProcess (ready serving_child').2 (Some (0, 0)) Serving [LInherit (Tcp (V4 0 80)) (Some 40%N)].
Definition parent_left : Ecdysis * model := (quit (serving_object, serving_start.2.2)).2.

Definition after_upgrade : family :=
  MkFamily [set_life Exited (set_object parent_left first_server); served] [calls5; booted].

Lemma child_keeps_pipe w d : holds_notifier w d serving_child -> holds_notifier w d serving_child'.
Proof.
  intros (Hn & _ & c & Hc). vm_compute in Hn. injection Hn as <-. vm_compute in Hc. injection Hc as <- <-.
  split; [vm_compute; reflexivity|]. split; [|exists false; vm_compute; reflexivity].
  intros i u E. vm_compute in E. injection E as <- <-.
  apply not_elem_of_cons. split; [discriminate|apply not_elem_of_nil].
Qed.

Definition parent2 : process := set_object (serving_object, serving_start.2.2) first_server.
Definition newborn : process := MkProcess serving_child (Some (0, 0)) Starting [].
Definition asked_child : process :=
  MkProcess serving_child' (Some (0, 0)) Starting [LInherit (Tcp (V4 0 80)) (Some 40%N)].

Lemma history_start : st (MkFamily [first_server] [booted]) (MkFamily [parent2; newborn] [calls2; booted]).
Proof.
  eapply steps_snoc.
  - apply (steps_alone _ _ _ _ _ (MkFamily [first_server] [booted]) first_server up_to_start booted calls1);
      [constructor|reflexivity..|vm_compute; reflexivity].
  - apply (step_spawn _ _ _ _ (MkFamily [first_server] [calls1]) 0 first_server calls1 0
      (MkJob MStart SNone WNone RNone spawned) 0 calls2 serving_start.2.2 serving_child);
      [reflexivity|split; [by right|reflexivity]|reflexivity|reflexivity|vm_compute; reflexivity|reflexivity
      |exact serving_started|vm_compute; reflexivity].
Qed.

Lemma history_ready : st (MkFamily [first_server] [booted]) (MkFamily [parent2; served] [calls4; booted]).
Proof.
  eapply steps_snoc; [eapply steps_snoc|].
  - apply (steps_alone _ _ _ _ _ (MkFamily [parent2; newborn] [calls2; booted]) parent2 child_reads calls2 calls3);
      [exact history_start|reflexivity..|vm_compute; reflexivity].
  - apply (step_app _ _ _ _ (MkFamily [parent2; newborn] [calls3; booted]) 1 newborn serving_child'
      (LInherit (Tcp (V4 0 80)) (Some 40%N))); [reflexivity|split; [by left|vm_compute; reflexivity]|reflexivity| |exact child_keeps_pipe].
    apply (runs_inherit _ (Tcp (V4 0 80)) 4); by vm_compute.
  - apply (step_ready _ _ _ _ (MkFamily [parent2; asked_child] [calls3; booted]) 1 asked_child (ready serving_child').2
      [calls4; booted]); [reflexivity|split; [by left|vm_compute; reflexivity]|reflexivity| | |vm_compute; reflexivity].
    + cbn. split; [by eexists|apply not_elem_of_nil].
    + vm_compute. reflexivity.
Qed.

Lemma history : st (MkFamily [first_server] [booted]) after_upgrade.
Proof.
  eapply steps_snoc.
  - apply (steps_alone _ _ _ _ _ (MkFamily [parent2; served] [calls4; booted]) parent2 to_the_end calls4 calls5);
      [exact history_ready|reflexivity..|vm_compute; reflexivity].
  - eapply (step_leave _ _ _ _ (MkFamily [parent2; served] [calls5; booted]) 0 parent2 calls5 0 _ parent_left
      [calls5; booted]); [reflexivity|split; [by right|reflexivity]|reflexivity|reflexivity|vm_compute; reflexivity|reflexivity
      |vm_compute; reflexivity|reflexivity].
Qed.

(** After it the parent has left and the child holds the socket. *)
Lemma socket_never_lost_witness :
  exists q pr fd, procs after_upgrade !! q = Some pr /\ alive after_upgrade pr /\
    desc_of (fds (pr_object pr).2) fd = Some 40%N.
Proof.
  destruct (socket_never_lost show_error false 4 (Tcp (V4 0 80)) first_server
    (AReg [] [(Tcp (V4 0 80), 40%N)]) (Tcp (V4 0 80)) 40%N after_upgrade eq_refl eq_refl serving_at eq_refl history)
    as (q & pr & a' & si' & fd & H1 & H2 & _ & _ & _ & H6).
  exists q, pr, fd. exact (conj H1 (conj H2 H6)).
Defined.
