(* ===== verification/Supervisor.v ===== *)
(** * Supervisor: [src/tokio_ecdysis/supervisor.rs]

    One [watch] channel tells every listening stream and socket of the process
    how it is to end. The channel is tokio's: an interface with laws taken from
    its documentation. The theorems: a supervised stream behaves at every poll
    exactly as the channel's latest value says, however many values it missed;
    once stopped for good it never touches its listener again; an interruptible
    operation ends as soon as it is polled after the stop, and panics when the
    supervisor is dropped while it waits. *)

From S2P Require Import Prelude.

(** ** The types of [mod.rs] and [supervisor.rs] *)

Inductive ExitCondition : Type := Upgrade | Stop | PartialStop.

#[export] Instance ExitCondition_eq_dec : EqDecision ExitCondition.
Proof. solve_decision. Defined.

Definition RunState : Type := option ExitCondition.

Inductive StopOnShutdown : Type := Yes | No.

#[export] Instance StopOnShutdown_eq_dec : EqDecision StopOnShutdown.
Proof. solve_decision. Defined.

Definition should_continue (s : StopOnShutdown) (state : RunState) : bool :=
  match state with
  | None => true
  | Some Upgrade => false
  | Some Stop | Some PartialStop => match s with No => true | Yes => false end
  end.

(** [std::task::Poll] *)
Inductive poll (A : Type) : Type :=
| Ready (a : A)
| Pending.
Arguments Ready {A} a.
Arguments Pending {A}.

Definition poll_map {A B} (f : A -> B) (p : poll A) : poll B :=
  match p with Ready a => Ready (f a) | Pending => Pending end.

(** ** [tokio::sync::watch] and [WatchStream]

    [C] is the shared channel, [R] a receiver, [W] a receiver made into a
    stream. A channel here always has a receiver: the supervisor keeps one. *)

Class WatchOps (C R W : Type) := {
  watch_channel : RunState -> C * R;
  watch_send : RunState -> C -> result unit string * C;
  watch_drop_sender : C -> C;
  watch_borrow : C -> R -> RunState;
  watch_changed : C -> R -> poll (result unit unit) * R;
  watch_stream : R -> W;
  watch_stream_next : C -> W -> poll (option RunState) * W
}.

(** The documented behaviour, in terms of the channel's value and version: a
    receiver remembers the version it has seen, a stream yields the current
    value when it is first polled and then whenever the version has moved. *)
Class WatchLaws (C R W : Type) `{WatchOps C R W} := {
  wl_value : C -> RunState;
  wl_version : C -> nat;
  wl_alive : C -> bool;
  wl_seen : R -> nat;
  wl_wseen : W -> option nat;
  channel_law v :
    wl_value (watch_channel v).1 = v /\ wl_version (watch_channel v).1 = 0 /\
    wl_alive (watch_channel v).1 = true /\ wl_seen (watch_channel v).2 = 0;
  send_law v c :
    exists c', watch_send v c = (Ok tt, c') /\ wl_value c' = v /\
      wl_version c' = S (wl_version c) /\ wl_alive c' = wl_alive c;
  drop_law c :
    wl_value (watch_drop_sender c) = wl_value c /\
    wl_version (watch_drop_sender c) = wl_version c /\ wl_alive (watch_drop_sender c) = false;
  borrow_law c r : watch_borrow c r = wl_value c;
  changed_law c r :
    exists r', watch_changed c r =
      (if bool_decide (wl_seen r = wl_version c)
       then (if wl_alive c then Pending else Ready (Err tt))
       else Ready (Ok tt), r') /\ wl_seen r' = wl_version c;
  stream_law r : wl_wseen (watch_stream r) = None;
  stream_next_law c w :
    exists w', watch_stream_next c w =
      (if bool_decide (wl_wseen w = Some (wl_version c))
       then (if wl_alive c then Pending else Ready None)
       else Ready (Some (wl_value c)), w') /\ wl_wseen w' = Some (wl_version c)
}.

Section supervisor.
Context {C R W : Type} `{WO : WatchOps C R W}.

(** ** [Supervisor] *)

Record Supervisor : Type := MkSup { sup_rx : R; sup_state : RunState }.

Definition Supervisor_new : Supervisor * C :=
  let state := None in
  let '(tx, rx) := watch_channel state in
  (MkSup rx state, tx).

Definition stop_all (ec : ExitCondition) (c : C) : result unit string * C :=
  let '(r, c') := watch_send (Some ec) c in
  (map_err (fun e => "Error stopping supervisor: " +:+ e) r, c').

(** ** [StoppableStream] over an inner stream *)

Section stream.
Context {St Item : Type} (inner_next : St -> poll (option Item) * St).

Record StoppableStream : Type := MkStoppableStream {
  ss_stream : St;
  ss_stop : StopOnShutdown;
  ss_rx : W;
  ss_state : RunState
}.

Definition StoppableStream_new (stream : St) (stop : StopOnShutdown) (rx : R) : StoppableStream :=
  MkStoppableStream stream stop (watch_stream rx) None.

Definition supervise_stream (sup : Supervisor) (stream : St) (stop : StopOnShutdown) :
    StoppableStream :=
  StoppableStream_new stream stop (sup_rx sup).

(** [while let Poll::Ready(Some(state)) = self.rx.poll_next_unpin(cx)] *)
Fixpoint drain (fuel : nat) (c : C) (w : W) (state : RunState) : W * RunState :=
  match fuel with
  | O => (w, state)
  | S fuel' =>
    match watch_stream_next c w with
    | (Ready (Some state'), w') => drain fuel' c w' state'
    | (_, w') => (w', state)
    end
  end.

Definition poll_next (c : C) (ss : StoppableStream) : poll (option Item) * StoppableStream :=
  let '(rx, state) := drain 2 c (ss_rx ss) (ss_state ss) in
  if should_continue (ss_stop ss) state then
    let '(r, stream) := inner_next (ss_stream ss) in
    (r, MkStoppableStream stream (ss_stop ss) rx state)
  else (Ready None, MkStoppableStream (ss_stream ss) (ss_stop ss) rx state).
End stream.

(** ** [Stoppable::until_stopped]: the future, polled *)

Section stoppable.
Context {A Fut Out : Type} (fut_poll : Fut -> poll Out * Fut).

Record Stoppable : Type := MkStoppable {
  sp_inner : A;
  sp_rx : R;
  sp_stop : StopOnShutdown
}.

Definition Stoppable_new (s : A) (stop : StopOnShutdown) (rx : R) : Stoppable :=
  MkStoppable s rx stop.

Definition supervise (sup : Supervisor) (s : A) (stop : StopOnShutdown) : Stoppable :=
  Stoppable_new s stop (sup_rx sup).

(** [stopped_fut] is at the loop's test, or waiting in [changed()]. *)
Inductive stopped_fut : Type :=
| AtTest (rx : R)
| InChanged (rx : R).

(** One poll of it; [None] is the panic of the [unwrap]. *)
Fixpoint stopped_poll (fuel : nat) (stop : StopOnShutdown) (c : C) (st : stopped_fut) :
    option (poll unit * stopped_fut) :=
  match fuel with
  | O => Some (Pending, st)
  | S fuel' =>
    let wait rx :=
      match watch_changed c rx with
      | (Pending, rx') => Some (Pending, InChanged rx')
      | (Ready (Ok _), rx') => stopped_poll fuel' stop c (AtTest rx')
      | (Ready (Err _), _) => None
      end in
    match st with
    | AtTest rx =>
      if should_continue stop (watch_borrow c rx) then wait rx
      else Some (Ready tt, AtTest rx)
    | InChanged rx => wait rx
    end
  end.

(** The future of [until_stopped]: the two branches of the [select!]. *)
Record until_fut : Type := MkUntil { uf_stop : StopOnShutdown; uf_op : Fut; uf_stopped : stopped_fut }.

Definition until_stopped (sp : Stoppable) (f : A -> Fut) : until_fut :=
  MkUntil (sp_stop sp) (f (sp_inner sp)) (AtTest (sp_rx sp)).

(** [until_stopped_mut] is the same future on the object's own receiver, which
    keeps what it has seen. *)
Definition put_back (u : until_fut) (sp : Stoppable) : Stoppable :=
  MkStoppable (sp_inner sp)
    (match uf_stopped u with AtTest rx | InChanged rx => rx end) (sp_stop sp).

Definition poll_op (u : until_fut) (k : until_fut -> outcome (poll (option Out)) * until_fut) :=
  match fut_poll (uf_op u) with
  | (Ready o, op) => (Ret (Ready (Some o)), MkUntil (uf_stop u) op (uf_stopped u))
  | (Pending, op) => k (MkUntil (uf_stop u) op (uf_stopped u))
  end.

Definition poll_stopped (c : C) (u : until_fut)
    (k : until_fut -> outcome (poll (option Out)) * until_fut) :=
  match stopped_poll 3 (uf_stop u) c (uf_stopped u) with
  | None => (Panic "called `Result::unwrap()` on an `Err` value: RecvError(())", u)
  | Some (Ready _, st) => (Ret (Ready None), MkUntil (uf_stop u) (uf_op u) st)
  | Some (Pending, st) => k (MkUntil (uf_stop u) (uf_op u) st)
  end.

(** [select!] polls its branches in a random order. *)
Definition until_poll (op_first : bool) (c : C) (u : until_fut) :
    outcome (poll (option Out)) * until_fut :=
  let pending u := (Ret Pending, u) in
  if op_first then poll_op u (fun u => poll_stopped c u pending)
  else poll_stopped c u (fun u => poll_op u pending).
End stoppable.
End supervisor.

(** ** Streams *)

Section stream_lemmas.
Context {C R W : Type} `{WO : WatchOps C R W, WL : !WatchLaws C R W}.
Context {St Item : Type} (inner_next : St -> poll (option Item) * St).
Implicit Types (c : C) (w : W) (ss : StoppableStream (W := W) (St := St)).

(** The loop that empties the channel ends at its second round. *)
Lemma drain_spec n c w state :
  exists w', drain (S (S n)) c w state =
      (w', if bool_decide (wl_wseen w = Some (wl_version c)) then state else wl_value c) /\
    wl_wseen w' = Some (wl_version c).
Proof.
  destruct (stream_next_law c w) as (w1 & E1 & H1). cbn. rewrite E1.
  case_bool_decide as Hw; [exists w1; by destruct (wl_alive c)|].
  destruct (stream_next_law c w1) as (w2 & E2 & H2). rewrite E2, bool_decide_eq_true_2 by done.
  exists w2. by destruct (wl_alive c).
Qed.

(** What a stream remembers is what it last saw. *)
Definition ss_wf c ss : Prop :=
  match wl_wseen (ss_rx ss) with
  | None => True
  | Some n => n <= wl_version c /\ (n = wl_version c -> ss_state ss = wl_value c)
  end.

Lemma supervised_wf sup c stream stop : ss_wf c (supervise_stream sup stream stop).
Proof. unfold ss_wf. cbn. by rewrite stream_law. Qed.

Lemma poll_next_cases c ss :
  ss_wf c ss ->
  exists w', wl_wseen w' = Some (wl_version c) /\
    poll_next inner_next c ss =
      if should_continue (ss_stop ss) (wl_value c)
      then ((inner_next (ss_stream ss)).1,
            MkStoppableStream (inner_next (ss_stream ss)).2 (ss_stop ss) w' (wl_value c))
      else (Ready None, MkStoppableStream (ss_stream ss) (ss_stop ss) w' (wl_value c)).
Proof.
  intros Hw. destruct (drain_spec 0 c (ss_rx ss) (ss_state ss)) as (w' & E & Hw').
  exists w'. split; [done|]. unfold poll_next. rewrite E.
  assert (Hst : (if bool_decide (wl_wseen (ss_rx ss) = Some (wl_version c))
                 then ss_state ss else wl_value c) = wl_value c).
  { case_bool_decide as Hs; [|done]. unfold ss_wf in Hw. rewrite Hs in Hw. by apply Hw. }
  rewrite Hst. by destruct (inner_next (ss_stream ss)).
Qed.

Lemma poll_next_wf c ss : ss_wf c ss -> ss_wf c (poll_next inner_next c ss).2.
Proof.
  intros Hw. destruct (poll_next_cases c ss Hw) as (w' & Hs & ->).
  destruct (should_continue _ _); unfold ss_wf; cbn; by rewrite Hs.
Qed.

Lemma stop_all_run ec c :
  exists c', stop_all ec c = (Ok tt, c') /\ wl_value c' = Some ec /\
    wl_version c' = S (wl_version c) /\ wl_alive c' = wl_alive c.
Proof.
  destruct (send_law (Some ec) c) as (c' & E & H). exists c'. unfold stop_all. by rewrite E.
Qed.

Lemma stop_all_wf ec c ss : ss_wf c ss -> ss_wf (stop_all ec c).2 ss.
Proof.
  destruct (stop_all_run ec c) as (c' & E & _ & Hv & _). rewrite E. cbn. unfold ss_wf.
  destruct (wl_wseen (ss_rx ss)); [|done]. rewrite Hv. lia.
Qed.

Lemma drop_wf c ss : ss_wf c ss -> ss_wf (watch_drop_sender c) ss.
Proof. destruct (drop_law c) as (Hv & Hn & _). unfold ss_wf. by rewrite Hv, Hn. Qed.

(** What happens around a stream: polls of it, stops, the supervisor dropped. *)
Inductive stream_event : Type := EPoll | EStop (ec : ExitCondition) | EDrop.

Fixpoint stream_run (evs : list stream_event) c ss :
    list (poll (option Item)) * (C * StoppableStream) :=
  match evs with
  | [] => ([], (c, ss))
  | EPoll :: evs' =>
    let '(r, ss') := poll_next inner_next c ss in
    let '(rs, s) := stream_run evs' c ss' in (r :: rs, s)
  | EStop ec :: evs' => stream_run evs' (stop_all ec c).2 ss
  | EDrop :: evs' => stream_run evs' (watch_drop_sender c) ss
  end.

Lemma stopped_run evs c ss :
  ss_wf c ss -> should_continue (ss_stop ss) (wl_value c) = false ->
  Forall (fun e => match e with EStop ec => should_continue (ss_stop ss) (Some ec) = false | _ => True end) evs ->
  Forall (eq (Ready None)) (stream_run evs c ss).1 /\
  ss_stream (stream_run evs c ss).2.2 = ss_stream ss.
Proof.
  intros Hw Hs He. revert c ss Hw Hs He. induction evs as [|e evs IH]; intros c ss Hw Hs He; [done|].
  apply Forall_cons in He as [He Hes]. destruct e as [|ec|]; cbn [stream_run].
  - destruct (poll_next_cases c ss Hw) as (w' & Hs' & E). pose proof (poll_next_wf c ss Hw) as Hw'.
    rewrite Hs in E. rewrite E in *. cbn in Hw'.
    destruct (IH c _ Hw' Hs Hes) as [H1 H2]. destruct (stream_run evs c _) as [rs s]. cbn in *.
    split; [by constructor|done].
  - destruct (stop_all_run ec c) as (c' & E & Hv & _). pose proof (stop_all_wf ec c ss Hw) as Hw'.
    rewrite E in *. apply IH; [done| |done]. cbn. by rewrite Hv.
  - apply IH; [by apply drop_wf| |done]. by rewrite (proj1 (drop_law c)).
Qed.

(** The listener alone, polled [n] times. *)
Fixpoint bare_polls (n : nat) (s : St) : list (poll (option Item)) :=
  match n with
  | O => []
  | S n' => (inner_next s).1 :: bare_polls n' (inner_next s).2
  end.

Definition poll_count (evs : list stream_event) : nat :=
  sum_list_with (fun e => match e with EPoll => 1 | _ => 0 end) evs.

(** Commands the stream does not heed change nothing of what it yields. *)
Lemma continuing_run evs c ss :
  ss_wf c ss -> should_continue (ss_stop ss) (wl_value c) = true ->
  Forall (fun e => match e with EStop ec => should_continue (ss_stop ss) (Some ec) = true | _ => True end) evs ->
  (stream_run evs c ss).1 = bare_polls (poll_count evs) (ss_stream ss).
Proof.
  revert c ss. induction evs as [|e evs IH]; intros c ss Hw Hs He; [done|].
  apply Forall_cons in He as [He Hes]. destruct e as [|ec|]; cbn [stream_run].
  - destruct (poll_next_cases c ss Hw) as (w' & Hs' & E). pose proof (poll_next_wf c ss Hw) as Hw'.
    rewrite Hs in E. rewrite E in *. cbn in Hw'. specialize (IH c _ Hw' Hs Hes).
    destruct (stream_run evs c _) as [rs s]. cbn in *. by rewrite IH.
  - destruct (stop_all_run ec c) as (c' & E & Hv & _). pose proof (stop_all_wf ec c ss Hw) as Hw'.
    rewrite E in *. apply IH; [done| |done]. cbn. by rewrite Hv.
  - apply IH; [by apply drop_wf| |done]. by rewrite (proj1 (drop_law c)).
Qed.
End stream_lemmas.

(** ** Interruptible operations *)

Section until_lemmas.
Context {C R W : Type} `{WO : WatchOps C R W, WL : !WatchLaws C R W}.
Context {Fut Out : Type} (fut_poll : Fut -> poll Out * Fut).
Implicit Types (c : C) (r : R) (u : until_fut (R := R) (Fut := Fut)).

(** It waits only for changes from a value that lets it continue. *)
Definition stopped_wf (stop : StopOnShutdown) c (st : stopped_fut (R := R)) : Prop :=
  match st with
  | AtTest _ => True
  | InChanged r =>
    wl_seen r <= wl_version c /\
    (wl_seen r = wl_version c -> should_continue stop (wl_value c) = true)
  end.

Definition until_wf c u : Prop := stopped_wf (uf_stop u) c (uf_stopped u).

(** Waiting for a change after the value was last seen to let it continue. *)
Lemma stopped_poll_seen n stop c r :
  wl_seen r = wl_version c -> should_continue stop (wl_value c) = true ->
  if wl_alive c
  then exists r', stopped_poll (S n) stop c (AtTest r) = Some (Pending, InChanged r') /\
         wl_seen r' = wl_version c
  else stopped_poll (S n) stop c (AtTest r) = None.
Proof.
  intros Hs Hc. cbn. rewrite borrow_law, Hc.
  destruct (changed_law c r) as (r' & -> & Hr'). rewrite bool_decide_eq_true_2 by done.
  destruct (wl_alive c); [by exists r'|done].
Qed.

Lemma stopped_poll_cases stop c st :
  stopped_wf stop c st ->
  if should_continue stop (wl_value c)
  then if wl_alive c
       then exists st', stopped_poll 3 stop c st = Some (Pending, st') /\ stopped_wf stop c st'
       else stopped_poll 3 stop c st = None
  else exists st', stopped_poll 3 stop c st = Some (Ready tt, st').
Proof.
  intros Hw. destruct (should_continue stop (wl_value c)) eqn:Hc.
  - assert (Hseen : forall r, wl_seen r = wl_version c ->
      if wl_alive c
      then exists st', stopped_poll 2 stop c (AtTest r) = Some (Pending, st') /\ stopped_wf stop c st'
      else stopped_poll 2 stop c (AtTest r) = None).
    { intros r Hr. pose proof (stopped_poll_seen 1 stop c r Hr Hc) as H. destruct (wl_alive c); [|done].
      destruct H as (r' & E & Hr'). exists (InChanged r'). split; [done|]. cbn. rewrite Hr'. done. }
    assert (Hgo : forall r,
      match watch_changed c r with
      | (Pending, rx') => Some (Pending, InChanged rx')
      | (Ready (Ok _), rx') => stopped_poll 2 stop c (AtTest rx')
      | (Ready (Err _), _) => None
      end = stopped_poll 3 stop c st ->
      if wl_alive c
      then exists st', stopped_poll 3 stop c st = Some (Pending, st') /\ stopped_wf stop c st'
      else stopped_poll 3 stop c st = None).
    { intros r <-. destruct (changed_law c r) as (r' & -> & Hr'). specialize (Hseen r' Hr').
      case_bool_decide; [|by destruct (wl_alive c)].
      destruct (wl_alive c); [|done]. exists (InChanged r'). split; [done|]. cbn. by rewrite Hr'. }
    destruct st as [r|r]; [|by apply (Hgo r)].
    apply (Hgo r). cbn [stopped_poll]. by rewrite borrow_law, Hc.
  - destruct st as [r|r].
    + exists (AtTest r). cbn. by rewrite borrow_law, Hc.
    + destruct Hw as [_ Hw]. destruct (changed_law c r) as (r' & E & _).
      exists (AtTest r'). cbn [stopped_poll]. rewrite E, bool_decide_eq_false_2.
      * by rewrite borrow_law, Hc.
      * intros Hs. specialize (Hw Hs). congruence.
Qed.
End until_lemmas.

#[local] Arguments stopped_poll : simpl never.

(** ** Properties *)

Section properties.
Context {C R W : Type} `{WO : WatchOps C R W, WL : !WatchLaws C R W}.

(** C12. A supervised stream follows the latest command: at every poll, whatever
    values were sent and missed since the last one, the stream polls its
    listener and returns what it returned if the channel's latest value lets it
    continue, and otherwise reports its end without touching the listener; and
    the loop that reads the channel has read everything there is. *)
Theorem stream_follows_supervisor {St Item : Type}
    (inner_next : St -> poll (option Item) * St) (c : C) (ss : StoppableStream) :
  ss_wf c ss ->
  (poll_next inner_next c ss).1 =
    (if should_continue (ss_stop ss) (wl_value c) then (inner_next (ss_stream ss)).1 else Ready None) /\
  ss_stream (poll_next inner_next c ss).2 =
    (if should_continue (ss_stop ss) (wl_value c) then (inner_next (ss_stream ss)).2 else ss_stream ss) /\
  ss_wf c (poll_next inner_next c ss).2 /\
  forall v, (watch_stream_next c (ss_rx (poll_next inner_next c ss).2)).1 <> Ready (Some v).
Proof.
  intros Hw. pose proof (poll_next_wf inner_next c ss Hw) as Hw'.
  destruct (poll_next_cases inner_next c ss Hw) as (w' & Hs & E). rewrite E in *.
  destruct (stream_next_law c w') as (w2 & E2 & _). rewrite Hs, bool_decide_eq_true_2 in E2 by done.
  destruct (should_continue _ _); cbn in *; rewrite E2; cbn; by destruct (wl_alive c).
Qed.

(** Stopped means stopped: after a [stop_all] that stops the stream, and as
    long as any later command also does (for [StopOnShutdown::Yes] every one
    does), every poll of it reports the end and its listener is never polled
    again, also after the supervisor is dropped. *)
Theorem stopped_stream_stays_stopped {St Item : Type}
    (inner_next : St -> poll (option Item) * St) (c : C) (ss : StoppableStream)
    (ec : ExitCondition) (evs : list stream_event) :
  ss_wf c ss -> should_continue (ss_stop ss) (Some ec) = false ->
  Forall (fun e => match e with
                   | EStop ec' => should_continue (ss_stop ss) (Some ec') = false
                   | _ => True
                   end) evs ->
  Forall (eq (Ready None)) (stream_run inner_next evs (stop_all ec c).2 ss).1 /\
  ss_stream (stream_run inner_next evs (stop_all ec c).2 ss).2.2 = ss_stream ss.
Proof.
  intros Hw Hs He. pose proof (stop_all_wf ec c ss Hw) as Hw'.
  destruct (stop_all_run ec c) as (c' & E & Hv & _). rewrite E in *.
  apply stopped_run; [done| |done]. cbn. by rewrite Hv.
Qed.

(** C28. [until_stopped]: polled after a stop, it is over at once, with [None]
    unless the operation had finished as well and was looked at first; polled
    before one, it is exactly the operation; and polled after the supervisor
    was dropped without stopping it, it panics unless the operation finished
    first. *)
Theorem until_stopped_spec {Fut Out : Type} (fut_poll : Fut -> poll Out * Fut)
    (op_first : bool) (c : C) (u : until_fut) :
  until_wf c u ->
  let op := (fut_poll (uf_op u)).1 in
  let r := (until_poll fut_poll op_first c u).1 in
  if should_continue (uf_stop u) (wl_value c)
  then if wl_alive c
       then r = Ret (poll_map Some op) /\ until_wf c (until_poll fut_poll op_first c u).2
       else match op with
            | Ready o => if op_first then r = Ret (Ready (Some o)) else exists msg, r = Panic msg
            | Pending => exists msg, r = Panic msg
            end
  else r = Ret (Ready (match op with Ready o => if op_first then Some o else None | Pending => None end)).
Proof.
  intros Hw op r. subst op r. pose proof (stopped_poll_cases (uf_stop u) c (uf_stopped u) Hw) as H.
  unfold until_wf in *. unfold until_poll, poll_op, poll_stopped.
  destruct (should_continue _ _); [destruct (wl_alive c)|].
  - destruct H as (st' & E & Hst). destruct op_first; cbn; rewrite ?E; cbn;
      destruct (fut_poll (uf_op u)) as [[o|] op']; cbn; rewrite ?E; cbn; done.
  - destruct op_first; cbn; rewrite ?H; cbn;
      destruct (fut_poll (uf_op u)) as [[o|] op']; cbn; rewrite ?H; cbn; eauto.
  - destruct H as (st' & E). destruct op_first; cbn; rewrite ?E; cbn;
      destruct (fut_poll (uf_op u)) as [[o|] op']; cbn; rewrite ?E; cbn; done.
Qed.
End properties.

(** ** A channel, and witnesses *)

#[export] Instance simple_watch : WatchOps (RunState * nat * bool) nat (option nat) := {|
  watch_channel v := ((v, 0, true), 0);
  watch_send v '(_, n, b) := (Ok tt, (v, S n, b));
  watch_drop_sender '(v, n, _) := (v, n, false);
  watch_borrow '(v, _, _) _ := v;
  watch_changed '(_, n, b) r :=
    (if bool_decide (r = n) then (if b then Pending else Ready (Err tt)) else Ready (Ok tt), n);
  watch_stream _ := None;
  watch_stream_next '(v, n, b) w :=
    (if bool_decide (w = Some n) then (if b then Pending else Ready None) else Ready (Some v), Some n)
|}.

#[export] Instance simple_watch_laws : WatchLaws (RunState * nat * bool) nat (option nat).
Proof.
  refine {| wl_value c := c.1.1; wl_version c := c.1.2; wl_alive c := c.2;
            wl_seen (r : nat) := r; wl_wseen (w : option nat) := w |}.
  - done.
  - intros v [[? n] b]. by exists (v, S n, b).
  - by intros [[v n] b].
  - by intros [[v n] b] r.
  - intros [[v n] b] r. by exists n.
  - done.
  - intros [[v n] b] w. by exists (Some n).
Defined.

(** A listener with connections to hand out. *)
Definition accept (q : list nat) : poll (option nat) * list nat :=
  match q with [] => (Pending, []) | x :: q' => (Ready (Some x), q') end.

Definition listening : StoppableStream (W := option nat) :=
  supervise_stream (Supervisor_new (C := RunState * nat * bool) (R := nat) (W := option nat)).1 [1; 2] Yes.

Lemma stream_follows_supervisor_witness :
  (poll_next accept (Supervisor_new (R := nat) (W := option nat)).2 listening).1 = Ready (Some 1).
Proof.
  pose proof (stream_follows_supervisor (R := nat) accept (Supervisor_new (R := nat) (W := option nat)).2 listening)
    as [H _]; [|exact H]. exact I.
Defined.

Lemma stopped_stream_stays_stopped_witness :
  let c := (stop_all (R := nat) (W := option nat) Stop (None, 0, true)).2 in
  (stream_run (R := nat) accept [EPoll; EDrop; EPoll] c listening).1 = [Ready None; Ready None] /\
  ss_stream (stream_run (R := nat) accept [EPoll; EDrop; EPoll] c listening).2.2 = [1; 2].
Proof.
  intros c. split; [vm_compute; reflexivity|].
  apply (stopped_stream_stays_stopped (R := nat) accept (None, 0, true) listening Stop [EPoll; EDrop; EPoll]);
    [exact I|reflexivity|repeat constructor].
Defined.

(** An operation that never finishes, on a socket that survives a stop. *)
Definition endless (x : unit) : poll unit * unit := (Pending, x).

Lemma until_stopped_spec_witness :
  exists msg, (until_poll (C := RunState * nat * bool) (R := nat) (W := option nat) endless false
    (Some Stop, 1, false) (MkUntil No tt (AtTest 0))).1 = Panic msg.
Proof.
  exact (until_stopped_spec (C := RunState * nat * bool) (R := nat) (W := option nat) endless false
    (Some Stop, 1, false) (MkUntil No tt (AtTest 0)) I).
Defined.
