(* ===== verification/SystemdSockets.v ===== *)
(** * SystemdSockets: [src/tokio_ecdysis/systemd_sockets.rs]

    Reading the sockets systemd passed: the process checks that they are meant
    for it, marks each close-on-exec and remembers the first descriptor of each
    ordinary name. *)

From S2P Require Import Prelude Text Addr Posix PosixModel Utils Executioner.
From Stdlib Require Import Ascii.
Local Open Scope Z_scope.

Definition SD_LISTEN_FDS_START : Z := 3.

Inductive SystemdSocketsReadError : Type :=
| EnvironmentVariableError (msg : string)
| DoesNotMatchListenPid
| DuplicateSystemdSocketsRead.

Inductive SystemdSocketError : Type :=
| SystemdSocketsNotInitialized
| SocketNotFoundInParent (msg : string)
| SocketNotFoundInChildRegistry (msg : string)
| IoError (e : io_error)
| SockInfoIncorrect (msg : string).

(** [HashMap<String, i32>] *)
Notation SystemdSockets := (gmap string Z).

Definition special_socket_names : list string := ["unknown"; "stored"; "connection"].

(** [as i32] of a [u32]. *)
Definition as_i32 (z : Z) : Z := (z + 2 ^ 31) mod 2 ^ 32 - 2 ^ 31.

Section systemd_sockets.
Context {K : Type} `{HV : HasView K, FO : FdOps K}.
(** [format!("{:?}", e)] of the two errors, and of a string. *)
Context (debug_var : VarError -> string) (debug_parse : IntErrorKind -> string)
  (debug_str : string -> string).

(** The loop over the names, from the [i]-th on. *)
Fixpoint read_names (i : Z) (names : list string) (map : SystemdSockets) : M K SystemdSockets :=
  match names with
  | [] => mret map
  | fd_name :: names' =>
    let fd := SD_LISTEN_FDS_START + i in
    _ ← set_cloexec fd;
    if bool_decide (fd_name ∈ special_socket_names) then read_names (i + 1) names' map
    else match map !! fd_name with
         | Some _ => read_names (i + 1) names' map
         | None => read_names (i + 1) names' (<[fd_name := fd]> map)
         end
  end.

Definition SystemdSockets_new : M K (result SystemdSockets SystemdSocketsReadError) :=
  listen_pid_str ←? gets (fun k => map_err
    (fun e => EnvironmentVariableError ("env LISTEN_PID missing " +:+ debug_var e))
    (env_var LISTEN_PID k));
  listen_pid ←? mret (map_err
    (fun e => EnvironmentVariableError ("parsing pid from string failed " +:+ debug_parse e))
    (parse_i32 listen_pid_str));
  listen_fd_names ←? gets (fun k => map_err
    (fun e => EnvironmentVariableError ("env LISTEN_FDNAMES missing " +:+ debug_var e))
    (env_var LISTEN_FDNAMES k));
  id ← gets (fun k => v_pid (view k));
  if bool_decide (listen_pid <> as_i32 id) then mret (Err DoesNotMatchListenPid)
  else
    map ← read_names 0 (split_on ":" listen_fd_names) ∅;
    mret (Ok map).

Definition find (name : string) (s : SystemdSockets) : result Z SystemdSocketError :=
  match s !! name with
  | Some fd => Ok fd
  | None => Err (SocketNotFoundInParent ("fd " +:+ debug_str name +:+ " not found LISTEN_FDNAMES"))
  end.
End systemd_sockets.

#[global] Arguments read_names : simpl never.

(** ** What the loop leaves *)

Section lemmas.
Context {K : Type} `{HV : HasView K, FO : FdOps K, FL : !FdLaws K}.
Implicit Types (k : K) (names : list string) (map : SystemdSockets).

(** The first index of a name. *)
Fixpoint first_index (name : string) names : option Z :=
  match names with
  | [] => None
  | n :: names' => if bool_decide (n = name) then Some 0 else Z.succ <$> first_index name names'
  end.

(** The descriptors of [names] from the [i]-th on. *)
Definition passed (i : Z) names (fd : Z) : bool :=
  bool_decide (SD_LISTEN_FDS_START + i <= fd < SD_LISTEN_FDS_START + i + Z.of_nat (length names)).

Definition all_open (i : Z) names k : Prop :=
  forall fd, passed i names fd = true -> is_Some (fds k !! fd).

Definition resolve (i : Z) names map (name : string) : option Z :=
  match map !! name with
  | Some fd => Some fd
  | None =>
    if bool_decide (name ∈ special_socket_names) then None
    else Z.add (SD_LISTEN_FDS_START + i) <$> first_index name names
  end.

Lemma resolve_skip i n names map name :
  (n ∈ special_socket_names \/ is_Some (map !! n)) ->
  resolve (i + 1) names map name = resolve i (n :: names) map name.
Proof.
  intros Hn. unfold resolve. cbn. destruct (map !! name) eqn:Em; [done|].
  case_bool_decide as Hs; [done|]. rewrite bool_decide_eq_false_2.
  - destruct (first_index name names); cbn; f_equal. lia.
  - intros ->. destruct Hn as [|[? ?]]; congruence.
Qed.

Lemma resolve_insert i n names map name :
  n ∉ special_socket_names -> map !! n = None ->
  resolve (i + 1) names (<[n := SD_LISTEN_FDS_START + i]> map) name = resolve i (n :: names) map name.
Proof.
  intros Hn Hm. unfold resolve. cbn. rewrite lookup_insert. case_decide as Hd.
  - subst. rewrite Hm, bool_decide_eq_false_2, bool_decide_eq_true_2 by done. cbn. f_equal. lia.
  - destruct (map !! name); [done|]. case_bool_decide; [done|].
    rewrite bool_decide_eq_false_2 by done. destruct (first_index name names); cbn; f_equal. lia.
Qed.

Lemma passed_cons i n names fd :
  passed i (n :: names) fd = bool_decide (fd = SD_LISTEN_FDS_START + i) || passed (i + 1) names fd.
Proof.
  unfold passed. cbn [length]. apply eq_true_iff_eq. rewrite orb_true_iff, !bool_decide_eq_true. lia.
Qed.

Lemma read_names_cons i n names map :
  read_names (K := K) i (n :: names) map =
    (_ ← set_cloexec (SD_LISTEN_FDS_START + i);
     if bool_decide (n ∈ special_socket_names) then read_names (i + 1) names map
     else match map !! n with
          | Some _ => read_names (i + 1) names map
          | None => read_names (i + 1) names (<[n := SD_LISTEN_FDS_START + i]> map)
          end).
Proof. done. Qed.

(** Names beyond the [i]-th, with their descriptors open. *)
Lemma read_names_run i names map k :
  all_open i names k ->
  exists map' k', read_names i names map k = (Ret map', k') /\
    (forall name, map' !! name = resolve i names map name) /\
    (forall fd, fds k' !! fd =
       if passed i names fd then (fun e => Fd (fd_desc e) true) <$> fds k !! fd else fds k !! fd) /\
    same_rest k k'.
Proof.
  revert i map k. induction names as [|n names IH]; intros i map k Ho.
  { exists map, k. split; [done|]. split; [|split; [|done]].
    - intros name. unfold resolve. cbn. destruct (map !! name); [done|]. by case_bool_decide.
    - intros fd. unfold passed. cbn. rewrite bool_decide_eq_false_2 by lia. done. }
  destruct (Ho (SD_LISTEN_FDS_START + i)) as [e He].
  { rewrite passed_cons. by rewrite bool_decide_eq_true_2. }
  destruct (set_cloexec_open _ _ _ He) as (k1 & E1 & V1). pose proof (fds_set_fds _ _ _ V1) as T1.
  assert (Ho1 : all_open (i + 1) names k1).
  { intros fd Hp. rewrite T1, lookup_insert. case_decide; [done|].
    apply Ho. rewrite passed_cons, Hp. by rewrite orb_true_r. }
  assert (Hnext : forall map1, (forall name, resolve (i + 1) names map1 name = resolve i (n :: names) map name) ->
    exists map' k', read_names (i + 1) names map1 k1 = (Ret map', k') /\
      (forall name, map' !! name = resolve i (n :: names) map name) /\
      (forall fd, fds k' !! fd = if passed i (n :: names) fd
         then (fun e => Fd (fd_desc e) true) <$> fds k !! fd else fds k !! fd) /\ same_rest k k').
  { intros map1 Hm. destruct (IH (i + 1) map1 k1 Ho1) as (map' & k' & E & Hres & Hfd & Hr).
    exists map', k'. split; [done|]. split; [intros name; by rewrite Hres|]. split.
    - intros fd. rewrite Hfd, passed_cons, T1. destruct (decide (fd = SD_LISTEN_FDS_START + i)) as [->|Hd].
      + rewrite lookup_insert_eq, bool_decide_eq_true_2, He by done. by destruct (passed _ _ _).
      + by rewrite lookup_insert_ne, bool_decide_eq_false_2 by congruence.
    - etrans; [by eapply same_rest_fds|done]. }
  rewrite read_names_cons, (run_bind _ _ _ _ _ E1).
  case_bool_decide as Hs; [apply Hnext; intros; apply resolve_skip; by left|].
  destruct (map !! n) eqn:Hm; apply Hnext; intros.
  - apply resolve_skip. right. by eexists.
  - by apply resolve_insert.
Qed.

(** A name without a descriptor is a panic. *)
Lemma read_names_closed i names map k fd :
  passed i names fd = true -> fds k !! fd = None ->
  exists k', read_names i names map k = (Panic "Failed to get info for file descriptor", k').
Proof.
  revert i map k. induction names as [|n names IH]; intros i map k Hp Hn.
  { unfold passed in Hp. cbn in Hp. apply bool_decide_eq_true in Hp. lia. }
  rewrite read_names_cons.
  destruct (fds k !! (SD_LISTEN_FDS_START + i)) as [e|] eqn:He.
  - destruct (set_cloexec_open _ _ _ He) as (k1 & E1 & V1). pose proof (fds_set_fds _ _ _ V1) as T1.
    rewrite (run_bind _ _ _ _ _ E1).
    assert (Hp1 : passed (i + 1) names fd = true).
    { rewrite passed_cons in Hp. apply orb_true_iff in Hp as [Hp|?]; [|done].
      apply bool_decide_eq_true in Hp. congruence. }
    assert (Hn1 : fds k1 !! fd = None) by (rewrite T1, lookup_insert_ne; congruence).
    case_bool_decide; [by apply IH|]. destruct (map !! n); by apply IH.
  - rewrite (run_bind_panic _ _ _ _ _ (set_cloexec_closed _ _ He)). by exists k.
Qed.
End lemmas.

(** ** Properties *)

Section properties.
Context {K : Type} `{HV : HasView K, FO : FdOps K, FL : !FdLaws K}.
Context (debug_var : VarError -> string) (debug_parse : IntErrorKind -> string).

(** The variables systemd sets for this very process. *)
Definition activated (pid names : string) (k : K) : Prop :=
  env_var LISTEN_PID k = Ok pid /\ parse_i32 pid = Ok (as_i32 (v_pid (view k))) /\
  env_var LISTEN_FDNAMES k = Ok names.

Lemma SystemdSockets_new_run pid names k :
  activated pid names k ->
  SystemdSockets_new debug_var debug_parse k =
    (m ← read_names 0 (split_on ":" names) ∅; mret (Ok m) : M K _) k.
Proof.
  intros (Hp & Hi & Hn). unfold SystemdSockets_new.
  rewrite (run_bindq_ok _ _ k pid k) by (unfold gets; by rewrite Hp).
  rewrite (run_bindq_ok _ _ k (as_i32 (v_pid (view k))) k) by (by rewrite Hi).
  rewrite (run_bindq_ok _ _ k names k) by (unfold gets; by rewrite Hn).
  rewrite (run_bind _ _ k (v_pid (view k)) k) by done.
  rewrite bool_decide_eq_false_2 by (intros H; by apply H). done.
Qed.

(** C29. Socket activation: in the process systemd started, with the named
    descriptors open from 3 on, reading them returns a map in which a name
    stands for its first descriptor, and the names systemd reserves for nothing;
    every passed descriptor is then close-on-exec, duplicates and reserved ones
    included, and no other descriptor has changed. If fewer descriptors are open
    than are named, it panics. *)
Theorem systemd_names_resolved (pid names : string) (k : K) :
  activated pid names k ->
  (all_open 0 (split_on ":" names) k ->
   exists map k', SystemdSockets_new debug_var debug_parse k = (Ret (Ok map), k') /\
     (forall name, map !! name =
        if bool_decide (name ∈ special_socket_names) then None
        else Z.add 3 <$> first_index name (split_on ":" names)) /\
     (forall fd, fds k' !! fd =
        if passed 0 (split_on ":" names) fd
        then (fun e => Fd (fd_desc e) true) <$> fds k !! fd else fds k !! fd)) /\
  (forall fd, passed 0 (split_on ":" names) fd = true -> fds k !! fd = None ->
   exists k', SystemdSockets_new debug_var debug_parse k =
     (Panic "Failed to get info for file descriptor", k')).
Proof.
  intros Ha. rewrite (SystemdSockets_new_run pid names k Ha). split.
  - intros Ho. destruct (read_names_run 0 _ ∅ k Ho) as (map & k' & E & Hres & Hfd & _).
    exists map, k'. rewrite (run_bind _ _ _ _ _ E). split; [done|]. split; [|done].
    intros name. rewrite Hres. unfold resolve. rewrite lookup_empty. done.
  - intros fd Hp Hn. destruct (read_names_closed 0 _ ∅ k fd Hp Hn) as (k' & E).
    exists k'. by rewrite (run_bind_panic _ _ _ _ _ E).
Qed.

(** Sockets meant for another process are left alone: when [LISTEN_PID] is
    missing, malformed or another process's, or [LISTEN_FDNAMES] is missing,
    the call fails and no descriptor has changed. *)
Theorem systemd_foreign_untouched (k : K) :
  (forall pid names, ~ activated pid names k) ->
  exists e, SystemdSockets_new debug_var debug_parse k = (Ret (Err e), k) /\
    e <> DuplicateSystemdSocketsRead.
Proof.
  intros Hno. unfold SystemdSockets_new.
  destruct (env_var LISTEN_PID k) as [pid|e] eqn:Hp.
  2:{ rewrite (run_bindq_err _ _ k _ k) by (unfold gets; rewrite Hp; done). by eexists. }
  rewrite (run_bindq_ok _ _ k pid k) by (unfold gets; by rewrite Hp).
  destruct (parse_i32 pid) as [n|e] eqn:Hi.
  2:{ rewrite (run_bindq_err _ _ k _ k) by (cbn; done). by eexists. }
  rewrite (run_bindq_ok _ _ k n k) by done.
  destruct (env_var LISTEN_FDNAMES k) as [names|e] eqn:Hn.
  2:{ rewrite (run_bindq_err _ _ k _ k) by (unfold gets; rewrite Hn; done). by eexists. }
  rewrite (run_bindq_ok _ _ k names k) by (unfold gets; by rewrite Hn).
  rewrite (run_bind _ _ k (v_pid (view k)) k) by done.
  case_bool_decide as Hd; [by eexists|]. exfalso. apply (Hno pid names). split; [done|].
  split; [|done]. rewrite Hi. f_equal. destruct (decide (n = as_i32 (v_pid (view k)))); [done|].
  by destruct Hd.
Qed.
End properties.

(** ** Witnesses *)

Definition show_var (e : VarError) : string :=
  match e with NotPresent => "NotPresent" | NotUnicode => "NotUnicode" end.
Definition show_parse (e : IntErrorKind) : string :=
  match e with
  | Empty => "Empty" | InvalidDigit => "InvalidDigit"
  | PosOverflow => "PosOverflow" | NegOverflow => "NegOverflow"
  end.

(** Three sockets, two of them under one name. *)
Definition activated_os : model :=
  boot (<[LISTEN_PID := Some "4242"]> {[LISTEN_FDNAMES := Some "web:web:stats"]})
    (<[3 := Fd 30 false]> (<[4 := Fd 40 false]> {[5 := Fd 50 false]})).

Lemma systemd_names_resolved_witness :
  exists map k', SystemdSockets_new show_var show_parse activated_os = (Ret (Ok map), k') /\
    map !! "web" = Some 3 /\ map !! "stats" = Some 5.
Proof.
  destruct (systemd_names_resolved show_var show_parse "4242" "web:web:stats" activated_os) as [H _].
  - split; [vm_compute; reflexivity|]. split; vm_compute; reflexivity.
  - destruct H as (map & k' & E & Hm & _).
    + intros fd Hp. unfold passed in Hp. apply bool_decide_eq_true in Hp.
      unfold SD_LISTEN_FDS_START in Hp. change (Z.of_nat _) with 3 in Hp.
      assert (fd = 3 \/ fd = 4 \/ fd = 5) as [->|[->| ->]] by lia; by eexists.
    + exists map, k'. split; [done|]. split; rewrite Hm; vm_compute; reflexivity.
Defined.

Lemma systemd_foreign_untouched_witness :
  exists e, SystemdSockets_new show_var show_parse serving = (Ret (Err e), serving) /\
    e <> DuplicateSystemdSocketsRead.
Proof.
  apply (systemd_foreign_untouched show_var show_parse serving).
  intros pid names (H & _). revert H. vm_compute. discriminate.
Defined.
