(* ===== verification/TokioEcdysis.v ===== *)
(** * TokioEcdysis: the wrapper object of [src/tokio_ecdysis/mod.rs]

    The asynchronous listeners: each [listen] call asks the inner [Ecdysis],
    makes the socket nonblocking, registers it with the reactor and puts it
    under the supervisor. And the sockets passed by systemd: the first process
    takes them from its environment, later ones from the registry. *)

From S2P Require Import Prelude Text Addr Posix PosixModel Utils Registry RegistrySpec.
From S2P Require Import Bincode Listener Inheriter Executioner Ecdysis EcdysisSpec.
From S2P Require Import Supervisor SystemdSockets.
Local Open Scope Z_scope.

(** ** What the reactor needs of the operating system *)

(** [set_nonblocking] of the standard library's sockets, [fcntl] on status
    flags with nix's [OFlag], and tokio's [from_std]. *)
Class AsyncOps (K : Type) := {
  sock_set_nonblocking : Z -> bool -> K -> result unit io_error * K;
  fcntl_getfl : Z -> K -> result Z Z;
  fcntl_setfl : Z -> Z -> K -> result unit Z * K;
  oflag_from_bits : Z -> option Z;
  from_std : Z -> K -> result unit io_error * K
}.

(** [O_NONBLOCK] is bit 11 on Linux. *)
Definition O_NONBLOCK : Z := 2 ^ 11.

(** None of this opens or closes a descriptor; [F_SETFL] can change
    [O_NONBLOCK] and leaves the rest of the flags; nix knows the flags it is
    shown. *)
Class AsyncLaws (K : Type) `{HasView K, AsyncOps K} : Prop := {
  set_nonblocking_view fd b k : view (sock_set_nonblocking fd b k).2 = view k;
  from_std_view fd k : view (from_std fd k).2 = view k;
  setfl_view fd w k : view (fcntl_setfl fd w k).2 = view k;
  setfl_ok fd w0 w k k' :
    fcntl_getfl fd k = Ok w0 -> Z.lor w O_NONBLOCK = Z.lor w0 O_NONBLOCK ->
    fcntl_setfl fd w k = (Ok tt, k') -> fcntl_getfl fd k' = Ok w;
  oflag_known w w' : oflag_from_bits w = Some w' -> w' = w
}.

Section tokio.
Context {K : Type} `{HV : HasView K, FO : FdOps K, PO : PipeOps K, PR : ProcOps K,
  FS : FsOps K, SO : SockOps K, BC : Bincode K, AO : AsyncOps K}.
Context {C R W : Type} `{WO : WatchOps C R W}.

(** ** [seqpacket::set_nonblocking] *)

Definition set_nonblocking (fd : Z) (nonblocking : bool) : M K (result unit io_error) :=
  w ←? gets (fun k => map_err OsError (fcntl_getfl fd k));
  match oflag_from_bits w with
  | None => mret (Err (CustomError "fcntl F_GETFL returned invalid flags"))
  | Some oflags =>
    let oflags := if nonblocking then Z.lor oflags O_NONBLOCK else Z.ldiff oflags O_NONBLOCK in
    r ← call (fcntl_setfl fd oflags);
    mret (map_err OsError r)
  end.

(** ** [seqpacket::UnixSeqpacketListenerStream]

    The listener as a stream: whatever [poll_accept] of the seqpacket library
    answers is an item, errors included, and the stream itself never ends. *)

Record UnixSeqpacketListenerStream : Type := MkSeqStream { seq_listener : UnixSeqpacketListener }.

Definition UnixSeqpacketListenerStream_new (listener : UnixSeqpacketListener) :
    UnixSeqpacketListenerStream :=
  MkSeqStream listener.

Definition seq_poll_next {Conn : Type}
    (poll_accept : UnixSeqpacketListener -> K -> poll (result Conn io_error) * (UnixSeqpacketListener * K))
    (self : UnixSeqpacketListenerStream * K) :
    poll (option (result Conn io_error)) * (UnixSeqpacketListenerStream * K) :=
  let '(s, k) := self in
  let '(r, (l, k')) := poll_accept (seq_listener s) k in
  (poll_map Some r, (MkSeqStream l, k')).

(** ** The object *)

Record TokioEcdysis : Type := MkTokio {
  te_supervisor : Supervisor (R := R);
  te_chan : C;
  te_inner : Ecdysis;
  te_systemd : option SystemdSockets
}.

Definition set_inner (e : Ecdysis) (t : TokioEcdysis) : TokioEcdysis :=
  MkTokio (te_supervisor t) (te_chan t) e (te_systemd t).

Definition inner {A} (m : M (Ecdysis * K) A) : M (TokioEcdysis * K) A :=
  field te_inner set_inner m.

Definition TokioEcdysis_new : M K TokioEcdysis :=
  let '(sup, chan) := Supervisor_new in
  e ← Ecdysis_new;
  mret (MkTokio sup chan e None).

Definition te_is_child (t : TokioEcdysis) : bool := is_child (te_inner t).

(** [set_nonblocking(true)?] and tokio's [from_std(..)?]: either failure drops
    the socket. *)
Definition make_async (fd : Z) : M K (result unit io_error) :=
  owning (close_fd_quiet fd)
    (_ ←? call (sock_set_nonblocking fd true);
     call (from_std fd)).

(** [self.supervisor.read().supervise_stream(listener, stop_on_shutdown)] *)
Definition supervised {L} (stop : StopOnShutdown) (l : L) :
    M (TokioEcdysis * K) (result (StoppableStream (W := W) (St := L)) io_error) :=
  t ← self;
  mret (Ok (supervise_stream (te_supervisor t) l stop)).

(** A listener of the inner object as a supervised stream. *)
Definition async_listen {L} `{Listener K L} (stop : StopOnShutdown)
    (m : M (Ecdysis * K) (result L io_error)) :
    M (TokioEcdysis * K) (result (StoppableStream (W := W) (St := L)) io_error) :=
  l ←? inner m;
  _ ←? kern (make_async (as_raw_fd l));
  supervised stop l.

Definition te_listen_unix (stop : StopOnShutdown) (path : string) :=
  async_listen stop (listen_unix path).

(** The seqpacket library makes its sockets nonblocking itself. *)
Definition te_listen_unix_seqpacket (stop : StopOnShutdown) (path : string) :
    M (TokioEcdysis * K) (result (StoppableStream (W := W) (St := UnixSeqpacketListenerStream)) io_error) :=
  l ←? inner (listen_unix_seqpacket path);
  supervised stop (UnixSeqpacketListenerStream_new l).

Definition te_build_listen_tcp (stop : StopOnShutdown) (addr : SocketAddr)
    (sock_build : Z -> SocketAddr -> M K (result TcpListener io_error)) :=
  async_listen stop (build_listen_tcp addr sock_build).

Definition te_listen_tcp (stop : StopOnShutdown) (addr : SocketAddr) :=
  te_build_listen_tcp stop addr bind_and_listen.

Definition te_build_socket_udp (addr : SocketAddr)
    (sock_build : Z -> SocketAddr -> M K (result UdpSocket io_error)) :
    M (TokioEcdysis * K) (result UdpSocket io_error) :=
  s ←? inner (build_socket_udp addr sock_build);
  _ ←? kern (make_async (udp_fd s));
  mret (Ok s).

(** [UdpFramed::new(socket, BytesCodec::new()).split()]: the writing half is
    dropped at once, the reading half yields the datagrams. *)
Record UdpStream : Type := MkUdpStream { framed_socket : UdpSocket }.

Definition udp_reader (socket : UdpSocket) : UdpStream := MkUdpStream socket.

Definition te_build_stream_udp (stop : StopOnShutdown) (addr : SocketAddr)
    (sock_build : Z -> SocketAddr -> M K (result UdpSocket io_error)) :=
  s ←? te_build_socket_udp addr sock_build;
  supervised stop (udp_reader s).

Definition te_build_stoppable_socket_udp (stop : StopOnShutdown) (addr : SocketAddr)
    (sock_build : Z -> SocketAddr -> M K (result UdpSocket io_error)) :
    M (TokioEcdysis * K) (result (Stoppable (R := R)) io_error) :=
  s ←? te_build_socket_udp addr sock_build;
  t ← self;
  mret (Ok (supervise (te_supervisor t) s stop)).

Definition datagram_async (s : UnixDatagram) : M K (result UnixDatagram io_error) :=
  _ ←? make_async (datagram_fd s);
  mret (Ok s).

Definition te_unix_datagram_pair (name : string) :
    M (TokioEcdysis * K) (option (result UnixDatagram io_error) * result UnixDatagram io_error) :=
  '(to_parent, to_child) ← inner (unix_datagram_pair name);
  p ← match to_parent with
      | None => mret None
      | Some s => r ← kern (datagram_async s); mret (Some r)
      end;
  c ← match to_child with
      | Err e => mret (Err e)
      | Ok s => kern (datagram_async s)
      end;
  mret (p, c).

(** ** Sockets passed by systemd *)

Context (debug_var : VarError -> string) (debug_parse : IntErrorKind -> string)
  (debug_str : string -> string) (debug_info : SockInfo -> string).

Definition read_systemd_sockets : M (TokioEcdysis * K) (result unit SystemdSocketsReadError) :=
  t ← self;
  if te_is_child t then mret (Ok tt)
  else match te_systemd t with
       | Some _ => mret (Err DuplicateSystemdSocketsRead)
       | None =>
         s ←? kern (SystemdSockets_new debug_var debug_parse);
         _ ← set_self (MkTokio (te_supervisor t) (te_chan t) (te_inner t) (Some s));
         mret (Ok tt)
       end.

(** [?] on an [io::Result]. *)
Definition io_q {A} (m : M (TokioEcdysis * K) (result A io_error)) :
    M (TokioEcdysis * K) (result A SystemdSocketError) :=
  r ← m; mret (map_err IoError r).

Definition read_sock_from_registry_of_proto {P} `{TryFromRawFd K P} (sock_info : SockInfo) :
    M (TokioEcdysis * K) (result P SystemdSocketError) :=
  o ← inner (in_registry (inherit sock_info));
  match o with
  | Some fd => io_q (kern (try_from_raw_fd fd))
  | None =>
    mret (Err (SocketNotFoundInChildRegistry ("socket not found with SockInfo " +:+ debug_info sock_info)))
  end.

(** The listener made of the found descriptor owns it, and closes it on every
    error after that. *)
Definition systemd_sock_of_proto {P} `{TryFromRawFd K P, Listener K P}
    (name : string) (sock_info : SockInfo) : M (TokioEcdysis * K) (result P SystemdSocketError) :=
  t ← self;
  if te_is_child t then read_sock_from_registry_of_proto sock_info
  else match te_systemd t with
       | None => mret (Err SystemdSocketsNotInitialized)
       | Some s =>
         fd ←? mret (find debug_str name s);
         listener ←? io_q (kern (try_from_raw_fd fd));
         owning (kern (drop_listener listener))
           (listener_info ←? io_q (kern (info listener));
            if negb (sock_info_eqb (li_sock_info listener_info) sock_info) then
              mret (Err (SockInfoIncorrect
                ("systemd sock info " +:+ debug_info (li_sock_info listener_info) +:+
                 " does not match expected sock info " +:+ debug_info sock_info)))
            else
              again ←? io_q (kern (info listener));
              _ ←? io_q (inner (in_registry (add again)));
              mret (Ok listener))
       end.

(** A socket of systemd's as a supervised stream. *)
Definition systemd_listen {P} `{TryFromRawFd K P, Listener K P} (stop : StopOnShutdown)
    (name : string) (sock_info : SockInfo) :
    M (TokioEcdysis * K) (result (StoppableStream (W := W) (St := P)) SystemdSocketError) :=
  l ←? systemd_sock_of_proto name sock_info;
  _ ←? io_q (kern (make_async (as_raw_fd l)));
  io_q (supervised stop l).

Definition systemd_listen_unix (stop : StopOnShutdown) (name path : string) :=
  systemd_listen (P := UnixListener) stop name (Unix (Some path)).

Definition systemd_listen_tcp (stop : StopOnShutdown) (name : string) (addr : SocketAddr) :=
  systemd_listen (P := TcpListener) stop name (Tcp addr).

Definition systemd_listen_unix_seqpacket (stop : StopOnShutdown) (name path : string) :
    M (TokioEcdysis * K)
      (result (StoppableStream (W := W) (St := UnixSeqpacketListenerStream)) SystemdSocketError) :=
  l ←? systemd_sock_of_proto (P := UnixSeqpacketListener) name (UnixSeqpacket (Some path));
  _ ←? io_q (owning (kern (drop_listener l)) (kern (set_nonblocking (seqpacket_fd l) true)));
  io_q (supervised stop (UnixSeqpacketListenerStream_new l)).

Definition systemd_socket_udp (name : string) (addr : SocketAddr) :
    M (TokioEcdysis * K) (result UdpSocket SystemdSocketError) :=
  s ←? systemd_sock_of_proto (P := UdpSocket) name (Udp addr);
  _ ←? io_q (kern (make_async (udp_fd s)));
  mret (Ok s).

Definition systemd_stream_udp (stop : StopOnShutdown) (name : string) (addr : SocketAddr) :=
  s ←? systemd_socket_udp name addr;
  io_q (supervised stop (udp_reader s)).
End tokio.
