(* ===== verification/TokioSpec.v ===== *)
(** * TokioSpec: the asynchronous listeners and systemd's sockets

    What the calls of [TokioEcdysis] leave behind on success and on each error,
    for listeners in general and for the sockets systemd passed. *)

From S2P Require Import Prelude Text Addr Posix PosixModel Utils Registry RegistrySpec.
From S2P Require Import Bincode Listener Inheriter Executioner Ecdysis EcdysisSpec.
From S2P Require Import Supervisor SystemdSockets TokioEcdysis.
Local Open Scope Z_scope.

(** ** A listener made of a descriptor *)

(** It owns that descriptor, and making it opens and closes nothing. *)
Class FromRawLaws (K P : Type) `{HasView K, TryFromRawFd K P, Listener K P} : Prop := {
  from_raw_ok fd k (l : P) k' :
    try_from_raw_fd fd k = (Ret (Ok l), k') -> as_raw_fd l = fd /\ fds k' = fds k;
  from_raw_returns fd k : exists r k', try_from_raw_fd (L := P) fd k = (Ret r, k')
}.

Section instances.
Context {K : Type} `{HV : HasView K, FO : FdOps K, SO : SockOps K, SL : !SockLaws K}.

#[export] Instance tcp_raw_laws : FromRawLaws K TcpListener.
Proof. split; [by intros fd k l k' [= <- <-]|intros fd k; by eexists _, _]. Qed.
#[export] Instance udp_raw_laws : FromRawLaws K UdpSocket.
Proof. split; [by intros fd k l k' [= <- <-]|intros fd k; by eexists _, _]. Qed.
#[export] Instance unix_raw_laws : FromRawLaws K UnixListener.
Proof. split; [by intros fd k l k' [= <- <-]|intros fd k; by eexists _, _]. Qed.
#[export] Instance seqpacket_raw_laws : FromRawLaws K UnixSeqpacketListener.
Proof.
  split.
  - intros fd k l k'. cbn. msimpl. destruct (seqpacket_from_raw_fd fd k) as [[[]|e] k1] eqn:E;
      intros [= <- <-]. split; [done|]. by eapply seqpacket_from_raw_ok.
  - intros fd k. cbn. msimpl. destruct (seqpacket_from_raw_fd fd k) as [[[]|e] k1]; by eexists _, _.
Qed.
End instances.

Section spec.
Context {K : Type} `{HV : HasView K, FO : FdOps K, FL : !FdLaws K, PO : PipeOps K,
  PR : ProcOps K, FS : FsOps K, SO : SockOps K, BC : Bincode K, AO : AsyncOps K, AL : !AsyncLaws K}.
Context {C R W : Type} `{WO : WatchOps C R W}.
#[local] Notation TE := (TokioEcdysis (C := C) (R := R)).
Implicit Types (k : K) (e : Ecdysis) (a : ARegistry) (t : TE).

Lemma run_inner {A} (m : M (Ecdysis * K) A) t k r e' k' :
  m (te_inner t, k) = (r, (e', k')) -> inner m (t, k) = (r, (set_inner e' t, k')).
Proof. apply run_field. Qed.

Lemma make_async_cases fd k :
  (exists k', make_async fd k = (Ret (Ok tt), k') /\ fds k' = fds k) \/
  (exists err k', make_async fd k = (Ret (Err err), k') /\ fds k' = delete fd (fds k)).
Proof.
  unfold make_async. pose proof (set_nonblocking_view fd true k) as V1.
  destruct (sock_set_nonblocking fd true k) as [[[]|e1] k1] eqn:E1; cbn in V1.
  - pose proof (from_std_view fd k1) as V2. destruct (from_std fd k1) as [[[]|e2] k2] eqn:E2; cbn in V2.
    + left. exists k2. split; [|unfold fds; congruence]. apply run_owning_ok.
      rewrite (run_bindq_ok _ _ _ _ _ (run_call_eq _ _ _ _ E1)). by rewrite (run_call_eq _ _ _ _ E2).
    + right. destruct (close_fd_quiet_run fd k2) as (k3 & E3 & V3%fds_set_fds).
      exists e2, k3. split; [|rewrite V3; unfold fds; congruence].
      erewrite run_owning_err; [by rewrite E3|].
      rewrite (run_bindq_ok _ _ _ _ _ (run_call_eq _ _ _ _ E1)). by rewrite (run_call_eq _ _ _ _ E2).
  - right. destruct (close_fd_quiet_run fd k1) as (k3 & E3 & V3%fds_set_fds).
    exists e1, k3. split; [|rewrite V3; unfold fds; congruence].
    erewrite run_owning_err; [by rewrite E3|].
    by rewrite (run_bindq_err _ _ _ _ _ (run_call_eq _ _ _ _ E1)).
Qed.

Lemma ecdysis_at_same_fds a e k k' : ecdysis_at a (e, k) -> fds k' = fds k -> ecdysis_at a (e, k').
Proof. intros Hat T. eapply ecdysis_at_foreign; [done|]. intros. by rewrite T. Qed.

Lemma set_inner_same t : set_inner (te_inner t) t = t.
Proof. by destruct t. Qed.

Lemma run_io_q_ok {A} (m : M (TokioEcdysis * K) (result A io_error)) s x s' :
  m s = (Ret (Ok x), s') -> io_q (C := C) (R := R) m s = (Ret (Ok x), s').
Proof. intros E. unfold io_q. by rewrite (run_bind _ _ _ _ _ E). Qed.

Lemma run_io_q_err {A} (m : M (TokioEcdysis * K) (result A io_error)) s x s' :
  m s = (Ret (Err x), s') -> io_q (C := C) (R := R) m s = (Ret (Err (IoError x)), s').
Proof. intros E. unfold io_q. by rewrite (run_bind _ _ _ _ _ E). Qed.

Lemma run_self t k : self (t, k) = (Ret t, (t, k)).
Proof. done. Qed.

(** ** Sockets of systemd in the first process *)

Section systemd.
Context (debug_str : string -> string) (debug_info : SockInfo -> string).
Context {P : Type} `{TP : TryFromRawFd K P, LP : Listener K P, IL : !InfoLaws K P, RL : !FromRawLaws K P}.

Lemma systemd_parent_run name si t k s fd (l : P) k1 :
  te_is_child t = false -> te_systemd t = Some s -> s !! name = Some fd ->
  try_from_raw_fd fd k = (Ret (Ok l), k1) ->
  systemd_sock_of_proto debug_str debug_info name si (t, k) =
    owning (kern (drop_listener l))
      (listener_info ←? io_q (kern (info l));
       if negb (sock_info_eqb (li_sock_info listener_info) si) then
         mret (Err (SockInfoIncorrect
           ("systemd sock info " +:+ debug_info (li_sock_info listener_info) +:+
            " does not match expected sock info " +:+ debug_info si)))
       else
         again ←? io_q (kern (info l));
         _ ←? io_q (inner (in_registry (add again)));
         mret (Ok l)) (t, k1).
Proof.
  intros Hc Hs Hn Hl. unfold systemd_sock_of_proto. rewrite (run_bind _ _ _ _ _ (run_self t k)), Hc, Hs.
  rewrite (run_bindq_ok _ _ (t, k) fd (t, k)) by (unfold find; by rewrite Hn).
  by rewrite (run_bindq_ok _ _ _ _ _ (run_io_q_ok _ _ _ _ (run_kern _ t _ _ _ Hl))).
Qed.

Lemma systemd_parent_found name si t k (l : P) t' k' :
  te_is_child t = false ->
  systemd_sock_of_proto debug_str debug_info name si (t, k) = (Ret (Ok l), (t', k')) ->
  exists s fd, te_systemd t = Some s /\ s !! name = Some fd /\ as_raw_fd l = fd /\
    te_is_child t' = false /\ te_systemd t' = te_systemd t.
Proof.
  intros Hc E. assert (E' := E). unfold systemd_sock_of_proto in E.
  rewrite (run_bind _ _ _ _ _ (run_self t k)), Hc in E.
  destruct (te_systemd t) as [s|] eqn:Hs; [|done].
  destruct (s !! name) as [fd|] eqn:Hn.
  2:{ rewrite (run_bindq_err _ _ (t, k) (SocketNotFoundInParent ("fd " +:+ debug_str name +:+ " not found LISTEN_FDNAMES")) (t, k)) in E
        by (unfold find; by rewrite Hn). done. }
  rewrite (run_bindq_ok _ _ (t, k) fd (t, k)) in E by (unfold find; by rewrite Hn).
  destruct (from_raw_returns (P := P) fd k) as ([l0|err] & k1 & El).
  2:{ rewrite (run_bindq_err _ _ _ _ _ (run_io_q_err _ _ _ _ (run_kern _ t _ _ _ El))) in E. done. }
  rewrite (systemd_parent_run name si t k s fd l0 k1 Hc Hs Hn El) in E'. clear E.
  destruct (from_raw_ok _ _ _ _ El) as [Hfd _]. exists s, fd.
  unfold owning in E'. destruct (info_pure l0 k1) as ([li|err] & Ei & _).
  2:{ by rewrite (run_bindq_err _ _ _ _ _ (run_io_q_err _ _ _ _ (run_kern _ t _ _ _ Ei))) in E'. }
  pose proof (run_io_q_ok _ _ _ _ (run_kern _ t _ _ _ Ei)) as Eq.
  rewrite (run_bindq_ok _ _ _ _ _ Eq) in E'. destruct (negb _); [done|].
  rewrite (run_bindq_ok _ _ _ _ _ Eq) in E'.
  destruct (add li (registry (te_inner t), k1)) as [[[[]|err]| |] [reg k2]] eqn:Ea;
    apply in_registry_run, run_inner in Ea.
  - rewrite (run_bindq_ok _ _ _ _ _ (run_io_q_ok _ _ _ _ Ea)) in E'. simplify_eq/=. done.
  - by rewrite (run_bindq_err _ _ _ _ _ (run_io_q_err _ _ _ _ Ea)) in E'.
  - exfalso. revert E'. unfold io_q, bindq, mbind, M_bind. by rewrite Ea.
  - exfalso. revert E'. unfold io_q, bindq, mbind, M_bind. by rewrite Ea.
Qed.

Lemma drop_found (l : P) t k a fd :
  as_raw_fd l = fd -> ecdysis_at a (te_inner t, k) -> unlisted fd (te_inner t) ->
  exists k', kern (drop_listener l) (t, k) = (Ret tt, (t, k')) /\
    fds k' = delete fd (fds k) /\ ecdysis_at a (te_inner t, k').
Proof.
  intros <- Hat Hul. destruct (close_fd_quiet_run (as_raw_fd l) k) as (k' & E & V%fds_set_fds).
  exists k'. unfold drop_listener. rewrite (run_kern _ t _ _ _ E). split; [done|].
  split; [done|by eapply ecdysis_at_close].
Qed.

Lemma systemd_parent_cases name si t k s fd (l : P) k1 a d :
  te_is_child t = false -> te_systemd t = Some s -> s !! name = Some fd ->
  ecdysis_at a (te_inner t, k) -> desc_of (fds k) fd = Some d -> unlisted fd (te_inner t) ->
  try_from_raw_fd fd k = (Ret (Ok l), k1) ->
  (exists li n e' k',
     systemd_sock_of_proto debug_str debug_info name si (t, k) = (Ret (Ok l), (set_inner e' t, k')) /\
     as_raw_fd l = fd /\ sock_info_equiv (li_sock_info li) si /\ fds k !! n = None /\
     fds k' = <[n := Fd d true]> (fds k) /\ same_object (te_inner t) e' /\
     ecdysis_at (AReg (a_inherited a) (a_used a ++ [(li_sock_info li, d)])) (e', k')) \/
  (exists err k',
     systemd_sock_of_proto (P := P) debug_str debug_info name si (t, k) = (Ret (Err err), (t, k')) /\
     fds k' = delete fd (fds k) /\ ecdysis_at a (te_inner t, k')).
Proof.
  intros Hc Hs Hn Hat Hd Hul Hl. rewrite (systemd_parent_run _ _ _ _ _ _ _ _ Hc Hs Hn Hl).
  destruct (from_raw_ok _ _ _ _ Hl) as [Hfd T1].
  pose proof (ecdysis_at_same_fds _ _ _ _ Hat T1) as Hat1.
  destruct (drop_found l t k1 a fd Hfd Hat1 Hul) as (k3 & E3 & T3 & Hat3). rewrite T1 in T3.
  destruct (info_pure l k1) as ([li|err] & Ei & Hli).
  2:{ right. exists (IoError err), k3. split; [|done].
      erewrite run_owning_err; [by rewrite E3|].
      by rewrite (run_bindq_err _ _ _ _ _ (run_io_q_err _ _ _ _ (run_kern _ t _ _ _ Ei))). }
  pose proof (run_io_q_ok _ _ _ _ (run_kern _ t _ _ _ Ei)) as Eq.
  destruct (sock_info_eqb (li_sock_info li) si) eqn:Hsi.
  2:{ right. eexists _, k3. split; [|done].
      erewrite run_owning_err; [by rewrite E3|]. rewrite (run_bindq_ok _ _ _ _ _ Eq), Hsi. done. }
  pose proof Hat1 as (i & u & Hr & Hw & Ha). cbn in Hr, Hw, Ha.
  destruct (add_spec li i u k1 a Hw Ha)
    as [(n & d' & k2 & Ea & Hd' & Hfree & T2 & Hw' & Ha')|(err & k2 & Ea & T2)];
    rewrite <- Hr in Ea; apply in_registry_run, run_inner in Ea.
  - left. rewrite Hli, Hfd, T1, Hd in Hd'. injection Hd' as <-. rewrite T1 in Hfree, T2.
    exists li, n, (set_registry (live i (u ++ [LInfo n (li_sock_info li)])) (te_inner t)), k2.
    split; [|peel 5; by eexists _, _].
    apply run_owning_ok. rewrite (run_bindq_ok _ _ _ _ _ Eq), Hsi. cbn [negb].
    rewrite (run_bindq_ok _ _ _ _ _ Eq). by rewrite (run_bindq_ok _ _ _ _ _ (run_io_q_ok _ _ _ _ Ea)).
  - right.
    assert (Hsame : set_inner (set_registry (registry (te_inner t)) (te_inner t)) t = t)
      by (destruct t as [? ? [] ?]; done). rewrite Hsame in Ea.
    pose proof (ecdysis_at_same_fds _ _ _ _ Hat1 T2) as Hat2.
    destruct (drop_found l t k2 a fd Hfd Hat2 Hul) as (k4 & E4 & T4 & Hat4). rewrite T2, T1 in T4.
    exists (IoError (OsError err)), k4. split; [|done].
    erewrite run_owning_err; [by rewrite E4|]. rewrite (run_bindq_ok _ _ _ _ _ Eq), Hsi. cbn [negb].
    rewrite (run_bindq_ok _ _ _ _ _ Eq).
    by rewrite (run_bindq_err _ _ _ _ _ (run_io_q_err _ _ _ _ Ea)).
Qed.
End systemd.

(** ** Properties *)

(** An asynchronous listener: when the inner call gives a listener, the
    wrapper returns it supervised with the wanted [StopOnShutdown] and the
    descriptors as the inner call left them; or, if it cannot be made
    asynchronous, it fails and the listener is closed, while the registry still
    holds its own descriptor of the socket, which thus stays bound. *)
Theorem async_listen_spec {L : Type} `{LI : Listener K L} (stop : StopOnShutdown)
    (m : M (Ecdysis * K) (result L io_error)) (t : TE) (k : K)
    (l : L) (e' : Ecdysis) (k' : K) (a : ARegistry) :
  m (te_inner t, k) = (Ret (Ok l), (e', k')) -> ecdysis_at a (e', k') ->
  unlisted (as_raw_fd l) e' ->
  (exists k2, async_listen (C := C) (W := W) stop m (t, k) =
       (Ret (Ok (supervise_stream (te_supervisor t) l stop)), (set_inner e' t, k2)) /\
     fds k2 = fds k' /\ ecdysis_at a (e', k2)) \/
  (exists err k2, async_listen (C := C) (W := W) stop m (t, k) =
       (Ret (Err err), (set_inner e' t, k2)) /\
     fds k2 = delete (as_raw_fd l) (fds k') /\ ecdysis_at a (e', k2)).
Proof.
  intros E Hat Hul. unfold async_listen. rewrite (run_bindq_ok _ _ _ _ _ (run_inner m t k _ _ _ E)).
  destruct (make_async_cases (as_raw_fd l) k') as [(k2 & E2 & T2)|(err & k2 & E2 & T2)];
    apply (run_kern _ (set_inner e' t)) in E2.
  - left. exists k2. rewrite (run_bindq_ok _ _ _ _ _ E2). peel 2.
    by eapply ecdysis_at_same_fds.
  - right. exists err, k2. rewrite (run_bindq_err _ _ _ _ _ E2). peel 2.
    by eapply ecdysis_at_close.
Qed.

Section systemd_properties.
Context (debug_str : string -> string) (debug_info : SockInfo -> string).
Context {P : Type} `{TP : TryFromRawFd K P, LP : Listener K P, IL : !InfoLaws K P, RL : !FromRawLaws K P}.


(** C25. In a later generation the environment is not consulted: if the parent
    registered a socket for that address, the call returns it, on the same
    description and registered again for the next generation, unless its
    descriptor cannot be duplicated ([inherit] finds nothing) or the socket
    type refuses the duplicate; if the parent registered none, the call fails,
    creating and changing nothing. *)
Theorem systemd_child_uses_registry (name : string) (si : SockInfo) (t : TE) (k : K)
    (a : ARegistry) :
  te_is_child t = true -> ecdysis_at a (te_inner t, k) ->
  (position (a_asks si) (a_inherited a) = None ->
   systemd_sock_of_proto (P := P) debug_str debug_info name si (t, k) =
     (Ret (Err (SocketNotFoundInChildRegistry
        ("socket not found with SockInfo " +:+ debug_info si))), (t, k))) /\
  (forall p si' d, position (a_asks si) (a_inherited a) = Some p ->
   a_inherited a !! p = Some (si', d) ->
   let call := systemd_sock_of_proto (P := P) debug_str debug_info name si (t, k) in
   (exists l t' k', call = (Ret (Ok l), (t', k')) /\ fds k' !! as_raw_fd l = Some (Fd d true) /\
      ecdysis_at (AReg (delete p (a_inherited a)) (a_used a ++ [(si, d)])) (te_inner t', k')) \/
   ((in_registry (inherit si) (te_inner t, k)).1 = Ret None /\
      call.1 = Ret (Err (SocketNotFoundInChildRegistry
                 ("socket not found with SockInfo " +:+ debug_info si)))) \/
   (exists fd k1 err k2, try_from_raw_fd (L := P) fd k1 = (Ret (Err err), k2) /\
      fds k1 !! fd = Some (Fd d true) /\ call.1 = Ret (Err (IoError err)))).
Proof.
  intros Hc Hat. unfold systemd_sock_of_proto, read_sock_from_registry_of_proto.
  rewrite (run_bind _ _ _ _ _ (run_self t k)), Hc. split.
  - intros Hp. pose proof (inherit_miss si a _ _ Hat Hp) as E.
    rewrite (run_bind _ _ _ _ _ (run_inner _ t k _ _ _ E)). by rewrite set_inner_same.
  - intros p si' d Hp Hd.
    destruct (inherit_outcome si a _ _ p si' d Hat Hp Hd)
      as [(fd & e' & k1 & E & Hfd & _ & Ha)|(e' & k1 & E & _)];
      rewrite (run_bind _ _ _ _ _ (run_inner _ t k _ _ _ E)); [|right; left; by rewrite E].
    destruct (from_raw_returns (P := P) fd k1) as ([l|err] & k2 & El);
      [rewrite (run_io_q_ok _ _ _ _ (run_kern _ _ _ _ _ El))
      |rewrite (run_io_q_err _ _ _ _ (run_kern _ _ _ _ _ El))].
    + left. exists l, (set_inner e' t), k2. destruct (from_raw_ok _ _ _ _ El) as [-> T2].
      split; [done|]. rewrite T2. split; [done|by eapply ecdysis_at_same_fds].
    + right. right. by exists fd, k1, err, k2.
Qed.

(** Asking twice for a name makes two owners of one descriptor: two
    successful calls for the same name in the first process return listeners on
    the same descriptor, and dropping the first closes the second's. *)
Theorem systemd_name_taken_twice (name : string) (si si2 : SockInfo) (t t1 t2 : TE)
    (k k1 k2 : K) (l1 l2 : P) :
  te_is_child t = false ->
  systemd_sock_of_proto debug_str debug_info name si (t, k) = (Ret (Ok l1), (t1, k1)) ->
  systemd_sock_of_proto debug_str debug_info name si2 (t1, k1) = (Ret (Ok l2), (t2, k2)) ->
  as_raw_fd l1 = as_raw_fd l2 /\ fds (drop_listener l1 k2).2 !! as_raw_fd l2 = None.
Proof.
  intros Hc E1 E2.
  destruct (systemd_parent_found _ _ _ _ _ _ _ _ _ Hc E1) as (s & fd & Hs & Hn & Hfd & Hc1 & Hs1).
  destruct (systemd_parent_found _ _ _ _ _ _ _ _ _ Hc1 E2) as (s2 & fd2 & Hs2 & Hn2 & Hfd2 & _).
  rewrite Hs1, Hs in Hs2. injection Hs2 as <-.
  assert (Heq : as_raw_fd l1 = as_raw_fd l2) by congruence. split; [done|].
  destruct (close_fd_quiet_run (as_raw_fd l1) k2) as (k3 & E & V%fds_set_fds).
  unfold drop_listener. rewrite E. cbn. rewrite V, <- Heq. apply lookup_delete_eq.
Qed.
End systemd_properties.

(** [seqpacket::set_nonblocking] sets or clears [O_NONBLOCK] and keeps every
    other status flag; when it fails it has changed nothing it can see. *)
Theorem set_nonblocking_spec (fd : Z) (b : bool) (k : K) (w : Z) :
  fcntl_getfl fd k = Ok w ->
  (exists k', set_nonblocking fd b k = (Ret (Ok tt), k') /\ view k' = view k /\
     exists w', fcntl_getfl fd k' = Ok w' /\ Z.testbit w' 11 = b /\
       forall i, 0 <= i -> i <> 11 -> Z.testbit w' i = Z.testbit w i) \/
  (exists err k', set_nonblocking fd b k = (Ret (Err err), k') /\ view k' = view k).
Proof.
  intros Hw. unfold set_nonblocking.
  rewrite (run_bindq_ok _ _ k w k) by (unfold gets; by rewrite Hw).
  destruct (oflag_from_bits w) as [w0|] eqn:Ho; [|right; by eexists _, k].
  apply oflag_known in Ho as ->. set (w' := if b then _ else _).
  pose proof (setfl_view fd w' k) as V. destruct (fcntl_setfl fd w' k) as [[[]|err] k'] eqn:E; cbn in V.
  - left. exists k'. rewrite (run_bind _ _ _ _ _ (run_call_eq _ _ _ _ E)). peel 2.
    exists w'. split; [eapply setfl_ok; [done| |done]|].
    + unfold w'. apply Z.bits_inj'. intros i Hi. destruct b;
        rewrite ?Z.lor_spec, ?Z.ldiff_spec, ?Z.lor_spec; destruct (Z.testbit w i), (Z.testbit O_NONBLOCK i); done.
    + unfold w', O_NONBLOCK. split.
      * destruct b; rewrite ?Z.lor_spec, ?Z.ldiff_spec, Z.pow2_bits_true by lia; by destruct (Z.testbit w 11).
      * intros i Hi Hne. destruct b; rewrite ?Z.lor_spec, ?Z.ldiff_spec, Z.pow2_bits_false by lia;
          by destruct (Z.testbit w i).
  - right. rewrite (run_bind _ _ _ _ _ (run_call_eq _ _ _ _ E)). by eexists _, k'.
Qed.
End spec.

(** ** Witnesses *)

(** The model keeps no status flags: [fcntl] on them fails. *)
#[export] Instance model_async : AsyncOps model := {|
  sock_set_nonblocking fd b m := (Ok tt, m);
  fcntl_getfl fd m := Err EBADF;
  fcntl_setfl fd w m := (Err EBADF, m);
  oflag_from_bits w := Some w;
  from_std fd m := (Ok tt, m)
|}.

#[export] Instance model_async_laws : AsyncLaws model.
Proof. split; try done. by intros w w' [= ->]. Qed.

#[local] Notation Chan := (RunState * nat * bool)%type.
#[local] Notation tokio e s := (@MkTokio Chan nat (MkSup 0%nat None) (None, 0%nat, true) e s).

Lemma async_listen_spec_witness :
  exists k2, async_listen (C := Chan) (W := option nat) Yes (listen_tcp (V4 0 80))
      (tokio child_object None, child_os) =
    (Ret (Ok (supervise_stream (MkSup 0%nat None) (MkTcp 5) Yes)),
     (tokio (listen_tcp (V4 0 80) (child_object, child_os)).2.1 None, k2)).
Proof.
  set (r := listen_tcp (V4 0 80) (child_object, child_os)).
  assert (E : listen_tcp (V4 0 80) (child_object, child_os) = (Ret (Ok (MkTcp 5)), (r.2.1, r.2.2)))
    by (vm_compute; reflexivity).
  destruct (inherit_outcome (Tcp (V4 0 80)) _ _ _ 0%nat (Tcp addr80) 7%N child_object_at eq_refl eq_refl)
    as [(fd & e' & k' & Ei & _ & _ & Ha)|(e' & k' & Ei & _)]; [|exfalso; revert Ei; vm_compute; discriminate].
  assert (Hs : r.2 = (e', k')).
  { unfold r, listen_tcp, build_listen_tcp. by rewrite (run_bind _ _ _ _ _ Ei). }
  destruct (async_listen_spec (C := Chan) (W := option nat) Yes (listen_tcp (V4 0 80))
    (tokio child_object None) child_os (MkTcp 5) r.2.1 r.2.2
    (AReg [] [(Tcp (V4 0 80), 7%N)]) E) as [(k2 & H & _)|(err & k2 & H & _)].
  - rewrite Hs. exact Ha.
  - intros i u Hr. revert Hr. vm_compute. intros [= <- <-]. apply not_elem_of_cons. split; [discriminate|apply not_elem_of_nil].
  - exists k2. exact H.
  - exfalso. revert H. vm_compute. discriminate.
Defined.

(** The first process, with the socket of port 80 from systemd on descriptor 3. *)
Definition sd_os : model :=
  Model (md_view (boot ∅ {[3 := Fd 30 true]})) 64 {[30%N := inl (V4 0 80)]} true.
Definition sd_te := tokio (MkEcdysis reg_new None None false) (Some {["web" := 3]}).

Lemma sd_at : ecdysis_at (AReg [] []) (te_inner sd_te, sd_os).
Proof. exists [], []. repeat split; cbn; try constructor. Qed.

Definition quoted (s : string) : string := s.
Definition unshown (i : SockInfo) : string := "".


(** A call in the child that inherited the socket of port 80. *)
Lemma systemd_child_uses_registry_witness :
  let t := tokio child_object None in
  exists l t' k', systemd_sock_of_proto (P := TcpListener) quoted unshown "web" (Tcp addr80) (t, child_os) =
    (Ret (Ok l), (t', k')) /\ fds k' !! as_raw_fd l = Some (Fd 7 true).
Proof.
  intros t. destruct (proj2 (systemd_child_uses_registry (P := TcpListener) quoted unshown "web" (Tcp addr80)
    t child_os _ eq_refl child_object_at) 0%nat (Tcp addr80) 7%N eq_refl eq_refl)
    as [(l & t' & k' & E & Hl & _)|[[H _]|(fd & k1 & err & k2 & H & _)]].
  - by exists l, t', k'.
  - exfalso. by vm_compute in H.
  - exfalso. by vm_compute in H.
Defined.

Lemma systemd_name_taken_twice_witness :
  let call := systemd_sock_of_proto (C := Chan) (R := nat) (P := TcpListener) quoted unshown "web" (Tcp (V4 0 80)) in
  let s1 := (call (sd_te, sd_os)).2 in
  fds (drop_listener (MkTcp 3) (call s1).2.2).2 !! 3 = None.
Proof.
  intros call s1.
  destruct (systemd_name_taken_twice (C := Chan) (R := nat) (P := TcpListener) quoted unshown "web"
    (Tcp (V4 0 80)) (Tcp (V4 0 80)) sd_te s1.1 (call s1).2.1 sd_os s1.2 (call s1).2.2 (MkTcp 3) (MkTcp 3))
    as [_ H]; [vm_compute; reflexivity..|]. vm_compute. vm_compute in H. exact H.
Defined.

(** Descriptors with status flags, and nothing else. *)
Definition flags : Type := gmap Z Z.
#[local] Instance flags_view : HasView flags := fun _ => KView ∅ ∅ ∅ 1 [] ∅ ∅.
#[local] Instance flags_async : AsyncOps flags := {|
  sock_set_nonblocking fd b m := (Ok tt, m);
  fcntl_getfl fd m := match (m : gmap Z Z) !! fd with Some w => Ok w | None => Err EBADF end;
  fcntl_setfl fd w m := match (m : gmap Z Z) !! fd with
    | Some _ => (Ok tt, <[fd := w]> (m : gmap Z Z)) | None => (Err EBADF, m) end;
  oflag_from_bits w := Some w;
  from_std fd m := (Ok tt, m)
|}.
#[local] Instance flags_laws : AsyncLaws flags.
Proof.
  split; try done.
  - intros fd w0 w k k' _ _ E. cbn in *. destruct (_ !! fd); simplify_eq. by rewrite lookup_insert_eq.
  - by intros w w' [= ->].
Qed.

(** Descriptor 3 with the access mode [O_RDWR] alone. *)
Definition blocking : flags := ({[3 := 2]} : gmap Z Z).

Lemma blocking_flags : fcntl_getfl 3 blocking = Ok 2.
Proof. vm_compute. reflexivity. Qed.

Lemma set_nonblocking_spec_witness :
  exists k', set_nonblocking 3 true blocking = (Ret (Ok tt), k') /\
    exists w', fcntl_getfl 3 k' = Ok w' /\ Z.testbit w' 11 = true.
Proof.
  destruct (set_nonblocking_spec (K := flags) 3 true blocking 2 blocking_flags)
    as [(k' & E & _ & w' & Hw & Hb & _)|(err & k' & E & _)].
  - exists k'. split; [exact E|]. exists w'. split; [exact Hw|exact Hb].
  - exfalso. revert E. vm_compute. discriminate.
Defined.
