(* ===== verification/SeqpacketSpec.v ===== *)
(** * SeqpacketSpec: the seqpacket listener as a supervised stream

    The stream that [listen_unix_seqpacket] returns, polled among commands of
    the supervisor: [src/seqpacket.rs] composed with
    [src/tokio_ecdysis/supervisor.rs]. *)

From S2P Require Import Prelude Text Addr Posix PosixModel Utils Registry RegistrySpec.
From S2P Require Import Bincode Listener Inheriter Executioner Ecdysis EcdysisSpec.
From S2P Require Import Supervisor SystemdSockets TokioEcdysis TokioSpec.
Local Open Scope Z_scope.

Section spec.
Context {K : Type} `{HV : HasView K, FO : FdOps K, PO : PipeOps K, PR : ProcOps K,
  FS : FsOps K, SO : SockOps K, BC : Bincode K, AO : AsyncOps K}.
Context {C R W : Type} `{WO : WatchOps C R W, WL : !WatchLaws C R W}.
Context {Conn : Type}.
Context (poll_accept : UnixSeqpacketListener -> K -> poll (result Conn io_error) * (UnixSeqpacketListener * K)).
#[local] Notation TE := (TokioEcdysis (C := C) (R := R)).
#[local] Notation stream := (StoppableStream (W := W) (St := UnixSeqpacketListenerStream)).

(** The stream with the system its listener lives in. *)
Definition in_system (k : K) (ss : stream) :
    StoppableStream (W := W) (St := UnixSeqpacketListenerStream * K) :=
  MkStoppableStream (ss_stream ss, k) (ss_stop ss) (ss_rx ss) (ss_state ss).

(** The answers of [n] calls of [poll_accept]. *)
Fixpoint accepts (n : nat) (l : UnixSeqpacketListener) (k : K) : list (poll (result Conn io_error)) :=
  match n with
  | O => []
  | S n' => let '(r, (l', k')) := poll_accept l k in r :: accepts n' l' k'
  end.

Lemma bare_accepts n s k :
  bare_polls (seq_poll_next poll_accept) n (s, k) = poll_map Some <$> accepts n (seq_listener s) k.
Proof.
  revert s k. induction n as [|n IH]; intros s k; [done|]. cbn.
  destruct (poll_accept (seq_listener s) k) as [r [l' k']]. cbn. by rewrite IH.
Qed.

Lemma accepts_never_end n l k : Ready None ∉ (poll_map Some <$> accepts n l k).
Proof. intros ([r|] & H & _)%list_elem_of_fmap; cbn in H; congruence. Qed.

Lemma listen_seqpacket_stream stop path t k ss s' :
  te_listen_unix_seqpacket (C := C) stop path (t, k) = (Ret (Ok ss), s') ->
  exists (t' : TE) l, ss = supervise_stream (te_supervisor t') (UnixSeqpacketListenerStream_new l) stop.
Proof.
  unfold te_listen_unix_seqpacket, supervised. intros H.
  apply run_inv_bind in H as (r & s1 & _ & H). destruct r as [l|err]; [|discriminate].
  apply run_inv_bind in H as (t' & s2 & _ & H). injection H as <- _. by exists t', l.
Qed.

(** C34. The stream that [listen_unix_seqpacket] returns is the listener until a
    stop it heeds: polled among any commands it does not heed, it yields
    exactly what the library's [poll_accept] answers, failed accepts as items;
    and if any poll ever reports the end of the stream, a command that stops
    it was sent. *)
Theorem seqpacket_stream_serves (stop : StopOnShutdown) (path : string) (t : TE) (k : K)
    (ss : stream) (s' : TE * K) (c : C) (evs : list stream_event) (k0 : K) :
  te_listen_unix_seqpacket (C := C) stop path (t, k) = (Ret (Ok ss), s') ->
  should_continue stop (wl_value c) = true ->
  let polls := (stream_run (seq_poll_next poll_accept) evs c (in_system k0 ss)).1 in
  ((forall ec, EStop ec ∈ evs -> should_continue stop (Some ec) = true) ->
   polls = poll_map Some <$> accepts (poll_count evs) (seq_listener (ss_stream ss)) k0) /\
  (Ready None ∈ polls -> exists ec, EStop ec ∈ evs /\ should_continue stop (Some ec) = false).
Proof.
  intros (t' & l & ->)%listen_seqpacket_stream Hc polls.
  assert (Hgo : (forall ec, EStop ec ∈ evs -> should_continue stop (Some ec) = true) ->
    polls = poll_map Some <$> accepts (poll_count evs) l k0).
  { intros He. unfold polls. rewrite continuing_run; [apply bare_accepts| |done|].
    - apply (supervised_wf (te_supervisor t') c (UnixSeqpacketListenerStream_new l, k0) stop).
    - apply Forall_forall. intros [|ec|] Hin; [done|by apply He|done]. }
  split; [exact Hgo|]. intros Hend.
  set (heeded e := match e with EStop ec => negb (should_continue stop (Some ec)) | _ => false end).
  destruct (existsb heeded evs) eqn:Hx.
  - apply existsb_exists in Hx as ([|ec|] & Hin & H); try discriminate.
    exists ec. split; [by apply list_elem_of_In|]. by apply negb_true_iff.
  - exfalso. rewrite Hgo in Hend; [by apply accepts_never_end in Hend|]. intros ec Hin.
    apply not_false_iff_true. intros E. apply list_elem_of_In in Hin.
    assert (existsb heeded evs = true); [|congruence].
    apply existsb_exists. exists (EStop ec). split; [done|]. by apply negb_true_iff.
Qed.
End spec.

(** ** Witness *)

(** A listener in a process that is out of descriptors. *)
Definition exhausted (l : UnixSeqpacketListener) (k : model) :
    poll (result Z io_error) * (UnixSeqpacketListener * model) :=
  (Ready (Err (OsError EMFILE)), (l, k)).

#[local] Notation Chan := (RunState * nat * bool)%type.

(** A stream that survives a stop goes on yielding its failed accepts. *)
Lemma seqpacket_stream_serves_witness :
  exists ss s', te_listen_unix_seqpacket (C := Chan) (R := nat) (W := option nat) No "/run/s.sock" (sd_te, sd_os) =
      (Ret (Ok ss), s') /\
    (stream_run (C := Chan) (R := nat) (seq_poll_next exhausted) [EPoll; EStop Stop; EPoll]
       (None, 0%nat, true) (in_system sd_os ss)).1 =
    [Ready (Some (Err (OsError EMFILE))); Ready (Some (Err (OsError EMFILE)))].
Proof.
  set (call := te_listen_unix_seqpacket (C := Chan) (R := nat) (W := option nat) No "/run/s.sock" (sd_te, sd_os)).
  set (ss := supervise_stream (C := Chan) (W := option nat) (MkSup 0%nat None)
    (UnixSeqpacketListenerStream_new (MkSeqpacket 4)) No).
  assert (E : call = (Ret (Ok ss), call.2)) by (vm_compute; reflexivity).
  exists ss, call.2. split; [exact E|].
  destruct (seqpacket_stream_serves (R := nat) exhausted No "/run/s.sock" sd_te sd_os ss call.2
    (None, 0%nat, true) [EPoll; EStop Stop; EPoll] sd_os) as [H _]; [exact E|reflexivity|].
  apply H. intros ec Hin. set_unfold in Hin. destruct Hin as [Hin|[Hin|[Hin|[]]]]; simplify_eq; reflexivity.
Defined.
