(* ===== verification/Monitor.v ===== *)
(** * Monitor: the upgrader of [src/tokio_ecdysis/mod.rs], with [trigger.rs] and
    [systemd_notify.rs]

    The future [TokioEcdysisBuilder::ready] returns: report readiness, wait for
    a trigger, upgrade or stop; after a failed upgrade, start over. The reactor
    and systemd are behind an interface: [poll]s of the signal and listener
    streams, datagrams to the notification socket. The field [up_sent] is a
    ghost: the notifications systemd has accepted. *)

From S2P Require Import Prelude Text Addr Posix PosixModel Utils Registry RegistrySpec.
From S2P Require Import Bincode Listener Inheriter Executioner Ecdysis EcdysisSpec.
From S2P Require Import Supervisor SystemdSockets TokioEcdysis TokioSpec.
From Stdlib Require Import Ascii.
Local Open Scope Z_scope.

Class ReactorOps (K : Type) := {
  datagram_unbound : K -> result Z io_error * K;
  datagram_connect : Z -> string -> K -> result unit io_error * K;
  datagram_send : Z -> string -> K -> result unit io_error * K;
  clock_monotonic_us : K -> result Z io_error * K;     (* as_micros, a u128 *)
  signal_next : nat -> K -> poll (option unit) * K;    (* a SignalStream *)
  accept_next : Z -> K -> poll (option (result Z io_error)) * K;
  remove_file : string -> K -> result unit io_error * K
}.

Inductive SystemdNotifierError : Type :=
| NotifySocketUnset
| SocketCreateError (e : io_error)
| SocketConnectError (e : io_error).

(** [Display], over the one of [io::Error]. *)
Definition SystemdNotifierError_fmt (show_io : io_error -> string) (x : SystemdNotifierError) : string :=
  match x with
  | NotifySocketUnset => "The NOTIFY_SOCKET environment variable is not set!"
  | SocketCreateError err =>
    "Error creating unbound unix datagram socket to receive systemd notifications: " +:+ show_io err
  | SocketConnectError err => "Error connecting to NOTIFY_SOCKET: " +:+ show_io err
  end.

Inductive ExitMode : Type :=
| ModeUpgrade | ModeFullStop | ModePartialStop | ModePartialStopWithSystemd (notifier : Z).

Inductive ExitReason : Type :=
| ReasonSignal (kind : Z)
| ReasonUnixListener (path : string).

Inductive TriggerReason : Type :=
| TrSignal (kind : Z)
| TrUnixStream (path : string) (stream : Z).

Definition exit_reason (r : TriggerReason) : ExitReason :=
  match r with TrSignal kind => ReasonSignal kind | TrUnixStream path _ => ReasonUnixListener path end.

(** ** The messages of [systemd_notify.rs] *)

Definition newline : ascii := "010"%char.

Definition notify_message (states : list (string * string)) : string :=
  join_with newline ((fun '(k, v) => k +:+ "=" +:+ v) <$> states).

Definition states_ready (pid : Z) : list (string * string) :=
  [("READY", "1"); ("MAINPID", fmt_int pid)].
Definition states_reloading (us : Z) : list (string * string) :=
  [("RELOADING", "1"); ("MONOTONIC_USEC", fmt_int us)].
Definition states_stopping : list (string * string) := [("STOPPING", "1")].
Definition states_extend (us : Z) : list (string * string) := [("EXTEND_TIMEOUT_USEC", fmt_int us)].

(** [u64::try_from] of a [u128]. *)
Definition u64_try_from (msg : string) (us : Z) : result Z io_error :=
  if bool_decide (us <= u64_max) then Ok us else Err (CustomError msg).

Section monitor.
Context {K : Type} `{HV : HasView K, FO : FdOps K, PO : PipeOps K, PR : ProcOps K,
  FS : FsOps K, SO : SockOps K, BC : Bincode K, AO : AsyncOps K, RO : ReactorOps K}.
Context {C R W : Type} `{WO : WatchOps C R W}.
#[local] Notation TE := (TokioEcdysis (C := C) (R := R)).

(** [Display] of an [io::Error]. *)
Context (show_io : io_error -> string).
(** What the rest of the program does while the monitor waits for a trigger or
    for the answer of an upgrade. *)
Context (idle : TE * K -> TE * K).
(** The thread that runs [executioner::upgrade], and the channel it answers on:
    an error when the thread ended without an answer. *)
Context (upgrade_thread : list ListenerInfo -> K -> result (result unit (UpgradeError K)) string * K).

Inductive Trigger : Type :=
| TSignal (kind : Z) (stream : nat)
| TUds (path : string) (listener : StoppableStream (W := W) (St := Z)).

Record Upgrader : Type := MkUpgrader {
  up_te : TE;
  up_triggers : list (Trigger * ExitCondition);
  up_notifier : option Z;
  up_sent : list (list (string * string))
}.

Definition set_te (t : TE) (u : Upgrader) : Upgrader :=
  MkUpgrader t (up_triggers u) (up_notifier u) (up_sent u).
Definition set_triggers (l : list (Trigger * ExitCondition)) (u : Upgrader) : Upgrader :=
  MkUpgrader (up_te u) l (up_notifier u) (up_sent u).
Definition set_sent (l : list (list (string * string))) (u : Upgrader) : Upgrader :=
  MkUpgrader (up_te u) (up_triggers u) (up_notifier u) l.

Definition UM (A : Type) : Type := M (Upgrader * K) A.
Definition in_te {A} (m : M (TE * K) A) : UM A := field up_te set_te m.

(** Other tasks run. *)
Definition others : UM unit := in_te (fun s => (Ret tt, idle s)).

(** ** [systemd_notify.rs] *)

Definition SystemdNotifier_new : M K (result Z SystemdNotifierError) :=
  path ←? gets (fun k => map_err (fun _ => NotifySocketUnset) (env_var "NOTIFY_SOCKET" k));
  r ← call datagram_unbound;
  match r with
  | Err e => mret (Err (SocketCreateError e))
  | Ok socket =>
    owning (close_fd_quiet socket)
      (r ← call (datagram_connect socket path);
       mret (map_err SocketConnectError (res_map (fun _ => socket) r)))
  end.

(** [notify], on the upgrader's notifier; the ghost records what was sent. *)
Definition notify (socket : Z) (states : list (string * string)) : UM (result unit io_error) :=
  r ← kern (call (datagram_send socket (notify_message states)));
  match r with
  | Ok _ =>
    u ← self;
    _ ← set_self (set_sent (up_sent u ++ [states]) u);
    mret (Ok tt)
  | Err e => mret (Err (CustomError ("Failed to send notification to systemd: " +:+ show_io e)))
  end.

Definition notify_ready (socket : Z) : UM (result unit io_error) :=
  pid ← kern (gets (fun k => v_pid (view k)));
  notify socket (states_ready pid).

Definition notify_reloading (socket : Z) : UM (result unit io_error) :=
  us ←? kern (call clock_monotonic_us);
  us ←? mret (u64_try_from "CLOCK_MONOTONIC value is greater than the size of a u64" us);
  notify socket (states_reloading us).

Definition notify_stopping (socket : Z) : UM (result unit io_error) :=
  notify socket states_stopping.

Definition notify_extend_timeouts (socket extension_us : Z) : UM (result unit io_error) :=
  us ←? mret (u64_try_from "extension value is greater than the size of a u64" extension_us);
  notify socket (states_extend us).

(** ** [trigger.rs] *)

Definition cleanup (t : Trigger) : M K (result unit string) :=
  match t with
  | TSignal _ _ => mret (Ok tt)
  | TUds path l =>
    dropping (r ← call (remove_file path); mret (map_err show_io r))
      (close_fd_quiet (ss_stream l))
  end.

(** The supervised listener, polled: the listener's state is the system. *)
Definition poll_listener (l : StoppableStream (W := W) (St := Z)) (c : C) (k : K) :
    poll (option (result Z io_error)) * (StoppableStream (W := W) (St := Z) * K) :=
  let next '(fd, k) := let '(r, k') := accept_next fd k in (r, (fd, k')) in
  let '(r, l') := poll_next next c (MkStoppableStream (ss_stream l, k) (ss_stop l) (ss_rx l) (ss_state l)) in
  (r, (MkStoppableStream (ss_stream l) (ss_stop l') (ss_rx l') (ss_state l'), (ss_stream l').2)).

(** [impl Stream for Trigger]; [None] from a signal stream is unreachable. *)
Definition poll_trigger (t : Trigger) (c : C) (k : K) :
    outcome (poll (option (result TriggerReason io_error))) * (Trigger * K) :=
  match t with
  | TSignal kind stream =>
    let '(r, k') := signal_next stream k in
    (match r with
     | Pending => Ret Pending
     | Ready None => Panic "internal error: entered unreachable code"
     | Ready (Some _) => Ret (Ready (Some (Ok (TrSignal kind))))
     end, (t, k'))
  | TUds path l =>
    let '(r, (l', k')) := poll_listener l c k in
    (Ret (match r with
          | Pending => Pending
          | Ready None => Ready (Some (Err (CustomError "Socket shut down unexpectedly.")))
          | Ready (Some (Err e)) =>
            Ready (Some (Err (CustomError
              ("Unexpected error accepting connection on socket: " +:+ show_io e))))
          | Ready (Some (Ok stream)) => Ready (Some (Ok (TrUnixStream path stream)))
          end), (TUds path l', k'))
  end.

(** ** [TokioEcdysisUpgrader] *)

(** [poll_triggers]: the first that is ready, in the order they were added. *)
Fixpoint poll_triggers (l : list (Trigger * ExitCondition)) (c : C) (k : K) :
    outcome (poll (result (TriggerReason * ExitCondition) io_error)) *
      (list (Trigger * ExitCondition) * K) :=
  match l with
  | [] => (Ret Pending, ([], k))
  | (t, ec) :: l' =>
    match poll_trigger t c k with
    | (Ret (Ready (Some r)), (t', k')) => (Ret (Ready (res_map (fun o => (o, ec)) r)), ((t', ec) :: l', k'))
    | (Ret (Ready None), (t', k')) => (Panic "internal error: entered unreachable code", ((t', ec) :: l', k'))
    | (Ret Pending, (t', k')) =>
      let '(r, (l2, k2)) := poll_triggers l' c k' in (r, ((t', ec) :: l2, k2))
    | (Panic p, (t', k')) => (Panic p, ((t', ec) :: l', k'))
    | (Exit x, (t', k')) => (Exit x, ((t', ec) :: l', k'))
    end
  end.

(** [monitor_triggers], for at most [n] polls: [None] is still waiting. *)
Fixpoint monitor_triggers (n : nat) : UM (option (result (TriggerReason * ExitCondition) io_error)) :=
  match n with
  | O => mret None
  | S n' =>
    r ← (fun '(u, k) =>
      let '(r, (l, k')) := poll_triggers (up_triggers u) (te_chan (up_te u)) k in
      (r, (set_triggers l u, k')));
    match r with
    | Ready x => mret (Some x)
    | Pending => _ ← others; monitor_triggers n'
    end
  end.

(** [map_err(|e| e.to_string())?] *)
Definition io_str {A} (m : UM (result A io_error)) : UM (result A string) :=
  r ← m; mret (map_err show_io r).

(** [if let Some(systemd_notifier) = ... { f(..)? }] *)
Definition if_notifier (f : Z -> UM (result unit io_error)) : UM (result unit string) :=
  u ← self;
  match up_notifier u with
  | Some socket => io_str (f socket)
  | None => mret (Ok tt)
  end.

Definition initialize : UM (result unit string) := if_notifier notify_ready.

Definition up_upgrade : UM (result (result unit (UpgradeError K)) string) :=
  _ ←? if_notifier notify_reloading;
  fds ← in_te (inner (in_registry get_fds_for_child));
  r ← kern (call (upgrade_thread fds));
  _ ← others;
  mret r.

(** Dropping a trigger closes its listener. *)
Definition drop_trigger (t : Trigger) : M K unit :=
  match t with TSignal _ _ => mret tt | TUds _ l => close_fd_quiet (ss_stream l) end.

(** [for .. in self.triggers.drain(..) { .. .await? }] *)
Fixpoint drain_triggers (l : list (Trigger * ExitCondition)) : M K (result unit string) :=
  match l with
  | [] => mret (Ok tt)
  | (t, _) :: l' =>
    r ← cleanup t;
    match r with
    | Ok _ => drain_triggers l'
    | Err e => _ ← for_each (fun x => drop_trigger x.1) l'; mret (Err e)
    end
  end.

Definition clean_up_triggers : UM (result unit string) :=
  u ← self;
  _ ← set_self (set_triggers [] u);
  kern (drain_triggers (up_triggers u)).

Definition on_shutdown : UM (result unit string) :=
  _ ←? clean_up_triggers;
  if_notifier notify_stopping.

Definition up_quit (ec : ExitCondition) : UM (result unit string) :=
  _ ← in_te (inner quit);
  u ← self;
  let t := up_te u in
  let '(r, c') := stop_all ec (te_chan t) in
  _ ← set_self (set_te (MkTokio (te_supervisor t) c' (te_inner t) (te_systemd t)) u);
  mret (map_err (fun _ => "Cannot stop supervised listeners!") r).

(** The branch of [monitor] for a trigger that is not an upgrade. *)
Definition stop_branch (reason : TriggerReason) (ec : ExitCondition) :
    UM (result (ExitMode * ExitReason) string) :=
  _ ←? up_quit ec;
  match ec with
  | PartialStop =>
    _ ←? clean_up_triggers;
    u ← self;
    match up_notifier u with
    | Some socket => mret (Ok (ModePartialStopWithSystemd socket, exit_reason reason))
    | None => mret (Ok (ModePartialStop, exit_reason reason))
    end
  | _ =>
    _ ←? on_shutdown;
    mret (Ok (ModeFullStop, exit_reason reason))
  end.

(** A connection that asked for an upgrade is closed when that is over; one that
    asked for a stop is leaked on purpose. *)
Definition drop_reason (r : TriggerReason) : M K unit :=
  match r with TrSignal _ => mret tt | TrUnixStream _ stream => close_fd_quiet stream end.

(** [monitor], for at most [n] rounds of at most [w] polls each: [None] when it
    is still running. *)
Fixpoint monitor (n w : nat) : UM (option (result (ExitMode * ExitReason) string)) :=
  match n with
  | O => mret None
  | S n' =>
    i ← initialize;
    match i with
    | Err e => mret (Some (Err e))
    | Ok _ =>
      t ← monitor_triggers w;
      match t with
      | None => mret None
      | Some (Err e) =>
        s ← on_shutdown;
        mret (Some (match s with
                    | Err x => Err x
                    | Ok _ => Err ("Encountered error while polling triggers: " +:+ show_io e)
                    end))
      | Some (Ok (reason, Upgrade)) =>
        r ← unwinding (kern (drop_reason reason)) up_upgrade;
        match r with
        | Ok (Ok _) =>
          dropping
            (q ← up_quit Upgrade;
             mret (Some (res_map (fun _ => (ModeUpgrade, exit_reason reason)) q)))
            (kern (drop_reason reason))
        | Ok (Err _) =>
          _ ← dropping (in_te (inner write_pidfile)) (kern (drop_reason reason));
          monitor n' w
        | Err err_str =>
          dropping
            (s ← on_shutdown;
             mret (Some (match s with
                         | Err x => Err x
                         | Ok _ => Err ("Encountered a problem during upgrade: " +:+ err_str)
                         end)))
            (kern (drop_reason reason))
        end
      | Some (Ok (reason, ec)) =>
        x ← stop_branch reason ec;
        mret (Some x)
      end
    end
  end.

(** The future's end: what is left of the upgrader is dropped, except a notifier
    that is part of the answer. *)
Definition drop_upgrader (x : result (ExitMode * ExitReason) string) : UM unit :=
  u ← self;
  _ ← kern (for_each (fun t => drop_trigger t.1) (up_triggers u));
  match x, up_notifier u with
  | Ok (ModePartialStopWithSystemd _, _), _ | _, None => mret tt
  | _, Some socket => kern (close_fd_quiet socket)
  end.

Definition monitor_future (n w : nat) : UM (option (result (ExitMode * ExitReason) string)) :=
  r ← monitor n w;
  match r with
  | None => mret None
  | Some x => _ ← drop_upgrader x; mret (Some x)
  end.
End monitor.

(** ** Notifications along a run *)

(** The key of a message. *)
Definition key (states : list (string * string)) : string :=
  match states with (k, _) :: _ => k | [] => EmptyString end.

Inductive phase : Type := PStart | PReady | PReloading | PStopped.

(** What systemd may be told next. *)
Definition phase_step (p : phase) (k : string) : option phase :=
  match p with
  | PStart => if bool_decide (k = "READY") then Some PReady else None
  | PReady =>
    if bool_decide (k = "RELOADING") then Some PReloading
    else if bool_decide (k = "STOPPING") then Some PStopped else None
  | PReloading =>
    if bool_decide (k = "READY") then Some PReady
    else if bool_decide (k = "STOPPING") then Some PStopped else None
  | PStopped => None
  end.

Fixpoint phases (p : phase) (l : list (list (string * string))) : option phase :=
  match l with
  | [] => Some p
  | s :: l' => p' ← phase_step p (key s); phases p' l'
  end.

Lemma phases_snoc p l s :
  phases p (l ++ [s]) = p' ← phases p l; phase_step p' (key s).
Proof.
  revert p. induction l as [|x l IH]; intros p; cbn.
  - by destruct (phase_step p (key s)).
  - destruct (phase_step p (key x)); cbn; [apply IH|done].
Qed.

(** ** What a computation of the upgrader leaves alone *)

Section keeps.
Context {K C R W X : Type} `{WO : WatchOps C R W}.
#[local] Notation UP := (Upgrader (C := C) (R := R) (W := W)).
Context (proj : UP -> X).

Definition keeps {A} (m : M (UP * K) A) : Prop := forall s, proj (m s).2.1 = proj s.1.

Lemma keeps_ret {A} (x : A) : keeps (mret x).
Proof. done. Qed.

Lemma keeps_self : keeps self.
Proof. by intros []. Qed.

Lemma keeps_kern {A} (m : M K A) : keeps (kern m).
Proof. intros [u k]. unfold kern. by destruct (m k). Qed.

Lemma keeps_bind {A B} (m : M (UP * K) A) (f : A -> M (UP * K) B) :
  keeps m -> (forall x, keeps (f x)) -> keeps (m ≫= f).
Proof.
  intros Hm Hf s. unfold mbind, M_bind. specialize (Hm s).
  destruct (m s) as [[x| |] s']; cbn in *; [|done..]. rewrite <- Hm. apply Hf.
Qed.

Lemma keeps_bindq {A B E} (m : M (UP * K) (result A E)) (f : A -> M (UP * K) (result B E)) :
  keeps m -> (forall x, keeps (f x)) -> keeps (bindq m f).
Proof. intros Hm Hf. apply keeps_bind; [done|]. by intros []. Qed.

Lemma keeps_dropping {A} (m : M (UP * K) A) d : keeps m -> keeps d -> keeps (dropping m d).
Proof.
  intros Hm Hd s. unfold dropping. specialize (Hm s).
  destruct (m s) as [[x| |] s']; cbn in *; [|..|done]; rewrite <- Hm; apply Hd.
Qed.

Lemma keeps_unwinding {A} (m : M (UP * K) A) d : keeps m -> keeps d -> keeps (unwinding d m).
Proof.
  intros Hm Hd s. unfold unwinding. specialize (Hm s).
  destruct (m s) as [[x| |] s']; cbn in *; [done|..|done]. rewrite <- Hm. apply Hd.
Qed.
End keeps.

#[export] Hint Resolve keeps_ret keeps_self keeps_kern keeps_bind keeps_bindq
  keeps_dropping keeps_unwinding : ecd.

Section quiet.
Context {K C R W : Type} `{WO : WatchOps C R W}.
#[local] Notation UP := (Upgrader (C := C) (R := R) (W := W)).

(** It sends no notification and keeps the notifier. *)
Definition quiet {A} (m : M (UP * K) A) : Prop := keeps (fun u => (up_sent u, up_notifier u)) m.

Lemma quiet_at {A} (m : M (UP * K) A) s :
  quiet m -> up_sent (m s).2.1 = up_sent s.1 /\ up_notifier (m s).2.1 = up_notifier s.1.
Proof. intros Hq. specialize (Hq s). by simplify_eq/=. Qed.

Lemma quiet_in_te {A} (m : M (TokioEcdysis (C := C) (R := R) * K) A) : quiet (in_te m).
Proof. intros [u k]. unfold in_te, field. by destruct (m (up_te u, k)) as [? []]. Qed.

(** It does not touch the supervisor's channel. *)
Definition unstopped {A} (m : M (UP * K) A) : Prop := keeps (fun u => te_chan (up_te u)) m.

Lemma unstopped_inner {A} (m : M (Ecdysis * K) A) : unstopped (in_te (inner m)).
Proof.
  intros [u k]. unfold in_te, inner, field. cbn. by destruct (m (te_inner (up_te u), k)) as [? []].
Qed.
End quiet.

#[export] Hint Resolve quiet_in_te unstopped_inner : ecd.
