(* ===== verification/MonitorSpec.v ===== *)
(** * MonitorSpec: what the monitor does

    Along every run: what systemd is told and in which order, which trigger
    wins, when the listeners are stopped, and what a failed upgrade leaves. *)

From S2P Require Import Prelude Text Addr Posix PosixModel Utils Registry RegistrySpec.
From S2P Require Import Bincode Listener Inheriter Executioner Ecdysis EcdysisSpec.
From S2P Require Import Supervisor SystemdSockets TokioEcdysis TokioSpec Monitor.
From Stdlib Require Import Ascii.
Local Open Scope Z_scope.

Section spec.
Context {K : Type} `{HV : HasView K, FO : FdOps K, PO : PipeOps K, PR : ProcOps K,
  FS : FsOps K, SO : SockOps K, BC : Bincode K, AO : AsyncOps K, RO : ReactorOps K}.
Context {C R W : Type} `{WO : WatchOps C R W}.
#[local] Notation TE := (TokioEcdysis (C := C) (R := R)).
#[local] Notation UP := (Upgrader (C := C) (R := R) (W := W)).
Context (show_io : io_error -> string) (idle : TE * K -> TE * K).
Context (upgrade_thread : list ListenerInfo -> K -> result (result unit (UpgradeError K)) string * K).
Implicit Types (s : UP * K) (u : UP) (k : K).

#[local] Notation monitor := (monitor show_io idle upgrade_thread).
#[local] Notation on_shutdown := (on_shutdown show_io).
#[local] Notation initialize := (initialize show_io).
#[local] Notation up_upgrade := (up_upgrade show_io idle upgrade_thread).
#[local] Notation monitor_triggers := (monitor_triggers show_io idle).
#[local] Notation clean_up_triggers := (clean_up_triggers show_io).

Lemma monitor_triggers_quiet n : quiet (monitor_triggers n).
Proof.
  induction n as [|n IH]; [apply keeps_ret|]. cbn [Monitor.monitor_triggers].
  apply keeps_bind.
  - intros [u k]. cbn. destruct (poll_triggers _ _ _ _) as [? []]. done.
  - intros [x|]; [apply keeps_ret|]. apply keeps_bind; [apply quiet_in_te|done].
Qed.

Lemma clean_up_quiet : quiet (clean_up_triggers : M (UP * K) _).
Proof.
  unfold Monitor.clean_up_triggers. intros [u k]. unfold mbind, M_bind. cbn.
  unfold kern. by destruct (drain_triggers _ _ _).
Qed.

Lemma up_quit_quiet ec : quiet (up_quit ec : M (UP * K) _).
Proof.
  unfold up_quit. apply keeps_bind; [apply quiet_in_te|]. intros _ [u k].
  unfold mbind, M_bind. cbn. by destruct (stop_all ec _).
Qed.

Lemma drop_reason_quiet r : quiet (kern (drop_reason r) : M (UP * K) _).
Proof. apply keeps_kern. Qed.

(** ** Notifications *)

(** Sends exactly one message with this key, or none and fails. *)
Definition sends (key0 : string) (m : M (UP * K) (result unit io_error)) : Prop :=
  forall s, exists r s', m s = (Ret r, s') /\ up_notifier s'.1 = up_notifier s.1 /\
    match r with
    | Ok _ => exists st, key st = key0 /\ up_sent s'.1 = up_sent s.1 ++ [st]
    | Err _ => up_sent s'.1 = up_sent s.1
    end.

Lemma notify_sends socket st : sends (key st) (notify show_io socket st).
Proof.
  intros [u k]. unfold notify, mbind, M_bind, kern, call.
  destruct (datagram_send socket _ k) as [[[]|e] k']; cbn; eexists _, _; split; [done| |done|].
  - split; [done|]. by exists st.
  - done.
Qed.

Lemma notify_ready_sends socket : sends "READY" (notify_ready show_io socket).
Proof.
  intros [u k]. destruct (notify_sends socket (states_ready (v_pid (view k))) (u, k)) as (r & s' & E & H).
  exists r, s'. split; [|done]. exact E.
Qed.

Lemma notify_reloading_sends socket : sends "RELOADING" (notify_reloading show_io socket).
Proof.
  intros [u k]. unfold notify_reloading, bindq, mbind, M_bind, kern, call, mret, M_ret.
  destruct (clock_monotonic_us k) as [[us|e] k']; cbn; [|by eexists _, _].
  unfold u64_try_from. case_bool_decide; cbn; [|by eexists _, _].
  apply (notify_sends socket (states_reloading us) (u, k')).
Qed.

Lemma notify_stopping_sends socket : sends "STOPPING" (notify_stopping show_io socket).
Proof. apply notify_sends. Qed.

(** What systemd has been told. *)
Definition told (p : phase) u : Prop := phases PStart (up_sent u) = Some p.

Lemma told_eq p u u' : up_sent u' = up_sent u -> told p u -> told p u'.
Proof. unfold told. by intros ->. Qed.

Lemma notifier_step f key0 p p' s socket :
  (forall x, sends key0 (f x)) -> phase_step p key0 = Some p' ->
  up_notifier s.1 = Some socket -> told p s.1 ->
  exists r s', if_notifier show_io f s = (Ret r, s') /\ up_notifier s'.1 = Some socket /\
    told (match r with Ok _ => p' | Err _ => p end) s'.1.
Proof.
  intros Hf Hp Hn Ht. unfold if_notifier. rewrite (run_bind _ _ s s.1 s) by (by destruct s).
  rewrite Hn. destruct (Hf socket s) as (r & s' & E & Hn' & Hr). unfold io_str.
  rewrite (run_bind _ _ _ _ _ E). exists (map_err show_io r), s'. split; [done|].
  split; [congruence|]. destruct r as [[]|e]; cbn.
  - destruct Hr as (st & Hk & Hs). unfold told. rewrite Hs, phases_snoc, Ht. cbn. by rewrite Hk.
  - by eapply told_eq.
Qed.

(** [m] run from [s] ends in some phase, and [Q] holds of its outcome there. *)
Definition reaches {A} (Q : outcome A -> phase -> Prop) (m : M (UP * K) A) s : Prop :=
  exists p, told p (m s).2.1 /\ Q (m s).1 p.

Definition at_phase (p : phase) (socket : Z) s : Prop :=
  told p s.1 /\ up_notifier s.1 = Some socket.

Lemma reaches_ret {A} (Q : outcome A -> phase -> Prop) (x : A) s p socket :
  at_phase p socket s -> Q (Ret x) p -> reaches Q (mret x) s.
Proof. intros [Ht _] Hq. by exists p. Qed.

Lemma reaches_quiet {A B} (Q : outcome B -> phase -> Prop) (m : M (UP * K) A) f s p socket :
  quiet m -> at_phase p socket s ->
  (forall x s', m s = (Ret x, s') -> at_phase p socket s' -> reaches Q (f x) s') ->
  (forall msg, Q (Panic msg) p) -> (forall c, Q (Exit c) p) ->
  reaches Q (m ≫= f) s.
Proof.
  intros Hq [Ht Hn] Hf Hp Hx. unfold reaches, mbind, M_bind. pose proof (quiet_at _ s Hq) as Hs.
  destruct (m s) as [[x|msg|c] s'] eqn:E; cbn in Hs; destruct Hs as [Hs Hn'].
  - apply (Hf x s' eq_refl). split; [by eapply told_eq|congruence].
  - exists p. cbn. split; [by eapply told_eq|done].
  - exists p. cbn. split; [by eapply told_eq|done].
Qed.

Lemma reaches_notifier {B} (Q : outcome B -> phase -> Prop) f0 key0 (f : result unit string -> M (UP * K) B)
    s p p' socket :
  (forall x, sends key0 (f0 x)) -> phase_step p key0 = Some p' -> at_phase p socket s ->
  (forall r s', at_phase (match r with Ok _ => p' | Err _ => p end) socket s' -> reaches Q (f r) s') ->
  reaches Q (if_notifier show_io f0 ≫= f) s.
Proof.
  intros Hf Hp [Ht Hn] Hk.
  destruct (notifier_step f0 key0 p p' s socket Hf Hp Hn Ht) as (r & s' & E & Hn' & Ht').
  unfold reaches. rewrite (run_bind _ _ _ _ _ E). by apply Hk.
Qed.

Lemma reaches_weaken {A} (Q Q' : outcome A -> phase -> Prop) m s :
  (forall r p, Q r p -> Q' r p) -> reaches Q m s -> reaches Q' m s.
Proof. intros H (p & ? & ?). exists p. auto. Qed.

Lemma reaches_dropping {A} (Q : outcome A -> phase -> Prop) (m : M (UP * K) A) d s :
  quiet d -> reaches Q m s -> reaches Q (dropping m d) s.
Proof.
  intros Hd (p & Ht & Hq). exists p. unfold dropping.
  destruct (m s) as [[x|msg|c] s']; cbn in *; split; try done; (eapply told_eq; [apply (quiet_at _ _ Hd)|done]).
Qed.

Lemma reaches_assoc {A B D} Q (m : M (UP * K) A) (f : A -> M (UP * K) B) (g : B -> M (UP * K) D) s :
  reaches Q (m ≫= (fun x => f x ≫= g)) s -> reaches Q ((m ≫= f) ≫= g) s.
Proof. unfold reaches. by rewrite bind_assoc_run. Qed.

(** A shutdown tells systemd that the process stops, or fails. *)
Lemma reaches_shutdown {B} (Q : outcome B -> phase -> Prop) (f : result unit string -> M (UP * K) B)
    s p socket :
  p = PReady \/ p = PReloading -> at_phase p socket s ->
  (forall s', at_phase PStopped socket s' -> reaches Q (f (Ok tt)) s') ->
  (forall e s', at_phase p socket s' -> reaches Q (f (Err e)) s') ->
  (forall msg, Q (Panic msg) p) -> (forall c, Q (Exit c) p) ->
  reaches Q (on_shutdown ≫= f) s.
Proof.
  intros Hp Hat Hok Herr Hpan Hex. unfold Monitor.on_shutdown, bindq. apply reaches_assoc.
  eapply reaches_quiet; [apply clean_up_quiet|done| |done..].
  intros [[]|e] s1 _ Hat1.
  - eapply (reaches_notifier _ _ "STOPPING" _ _ p PStopped socket).
    + apply notify_stopping_sends.
    + by destruct Hp as [->| ->].
    + done.
    + intros [[]|e] s2 Hat2; [by apply Hok|by apply Herr].
  - unfold reaches. rewrite (run_bind _ _ s1 (Err e) s1) by done. by apply Herr.
Qed.

(** What the answer of the monitor means for systemd. *)
Definition answer_phase (socket : Z) (r : outcome (option (result (ExitMode * ExitReason) string)))
    (p : phase) : Prop :=
  match r with
  | Ret (Some (Ok (ModeUpgrade, _))) => p = PReloading
  | Ret (Some (Ok (ModeFullStop, _))) => p = PStopped
  | Ret (Some (Ok (ModePartialStopWithSystemd x, _))) => p = PReady /\ x = socket
  | Ret (Some (Ok (ModePartialStop, _))) => False
  | Ret None => p <> PStopped
  | _ => True
  end.

Lemma reaches_some {A} (Q : outcome (option A) -> phase -> Prop) (x : A) s p socket :
  at_phase p socket s -> Q (Ret (Some x)) p ->
  reaches Q (y ← (mret x : M (UP * K) A); mret (Some y)) s.
Proof. intros [Ht _] Hq. by exists p. Qed.

Lemma stop_branch_reaches reason ec s socket :
  ec <> Upgrade -> at_phase PReady socket s ->
  reaches (answer_phase socket) (x ← stop_branch show_io reason ec; mret (Some x)) s.
Proof.
  intros Hec Hat. unfold stop_branch, bindq. apply reaches_assoc.
  eapply reaches_quiet; [apply up_quit_quiet|done| |done..]. intros [[]|e] s1 _ Hat1;
    [|by eapply reaches_some].
  destruct ec; [done|..]; apply reaches_assoc.
  - eapply (reaches_shutdown _ _ _ PReady socket); [by left|done|..]; try done.
    + intros s2 Hat2. by eapply reaches_some.
    + intros e s2 Hat2. by eapply reaches_some.
  - eapply reaches_quiet; [apply clean_up_quiet|done| |done..]. intros [[]|e] s2 _ Hat2;
      [|by eapply reaches_some].
    apply reaches_assoc. eapply reaches_quiet; [apply keeps_self|done| |done..].
    intros u [u' k'] [= <- <-] Hat3. rewrite (proj2 Hat3). by eapply reaches_some.
Qed.

(** An upgrade tells systemd that the process reloads, or fails before. *)
Lemma reaches_upgrade {B} (Q : outcome B -> phase -> Prop) f reason s socket :
  at_phase PReady socket s ->
  (forall r s', at_phase PReloading socket s' -> reaches Q (f (Ok r)) s') ->
  (forall p e s', p = PReady \/ p = PReloading -> at_phase p socket s' -> reaches Q (f (Err e)) s') ->
  (forall msg p, Q (Panic msg) p) -> (forall c p, Q (Exit c) p) ->
  reaches Q (unwinding (kern (drop_reason reason)) up_upgrade ≫= f) s.
Proof.
  intros Hat Hok Herr Hp Hx.
  destruct (notifier_step (notify_reloading show_io) "RELOADING" PReady PReloading s socket)
    as (r & s1 & E1 & Hn1 & Ht1); [apply notify_reloading_sends|done|apply Hat|apply Hat|].
  set (m := in_te (inner (in_registry get_fds_for_child)) ≫= (fun fds =>
        r ← kern (call (upgrade_thread fds)); _ ← others idle; mret r) : M (UP * K) _).
  assert (Hu : up_upgrade s = match r with Ok _ => m s1 | Err e => (Ret (Err e), s1) end).
  { unfold Monitor.up_upgrade, bindq. rewrite (run_bind _ _ _ _ _ E1). by destruct r. }
  unfold reaches, mbind, M_bind, unwinding. rewrite Hu.
  destruct r as [[]|e]; [|exact (Herr PReady e s1 (or_introl eq_refl) (conj Ht1 Hn1))].
  assert (Hm : quiet m).
  { apply keeps_bind; [apply quiet_in_te|intros l]. apply keeps_bind; [apply keeps_kern|intros x].
    apply keeps_bind; [apply quiet_in_te|intros; apply keeps_ret]. }
  pose proof (quiet_at _ s1 Hm) as Hs. clear Hm. destruct (m s1) as [[[r|e]|msg|c] s2]; cbn in Hs; destruct Hs as [Hs2 Hn2].
  - refine (Hok r s2 _). split; [by eapply told_eq|congruence].
  - refine (Herr PReloading e s2 (or_intror eq_refl) _). split; [by eapply told_eq|congruence].
  - exists PReloading. split; [|apply Hp]. cbn. eapply told_eq; [apply (quiet_at _ _ (drop_reason_quiet _))|]. by eapply told_eq.
  - exists PReloading. split; [|apply Hx]. by eapply told_eq.
Qed.

Lemma monitor_reaches n w s p socket :
  p = PStart \/ p = PReloading -> at_phase p socket s ->
  reaches (answer_phase socket) (monitor n w) s.
Proof.
  revert s p. induction n as [|n IH]; intros s p Hp Hat.
  { eapply reaches_ret; [done|]. by destruct Hp as [->| ->]. }
  cbn [Monitor.monitor]. unfold Monitor.initialize.
  eapply (reaches_notifier _ _ "READY" _ _ p PReady socket);
    [apply notify_ready_sends|by destruct Hp as [->| ->]|done|].
  intros [[]|e] s1 Hat1; [|by eapply reaches_ret].
  eapply reaches_quiet; [apply monitor_triggers_quiet|done| |done..].
  intros [[[reason ec]|e]|] s2 _ Hat2; [| |by eapply reaches_ret].
  2:{ eapply (reaches_shutdown _ _ _ PReady socket); [by left|done|..]; try done.
      - intros s3 Hat3. by eapply reaches_ret.
      - intros e' s3 Hat3. by eapply reaches_ret. }
  destruct ec; [|by apply stop_branch_reaches..].
  eapply reaches_upgrade; [done|..]; try done.
  - intros [[]|ue] s3 Hat3.
    + apply reaches_dropping; [apply drop_reason_quiet|].
      eapply reaches_quiet; [apply up_quit_quiet|done| |done..].
      intros [[]|e] s4 _ Hat4; by eapply reaches_ret.
    + eapply (reaches_quiet _ _ _ _ PReloading socket); [|done| |done..].
      * apply keeps_dropping; [apply quiet_in_te|apply drop_reason_quiet].
      * intros x s4 _ Hat4. apply (IH s4 PReloading); [by right|done].
  - intros p' e s3 Hp' Hat3. apply reaches_dropping; [apply drop_reason_quiet|].
    eapply (reaches_shutdown _ _ _ p' socket); [done|done|..]; try done.
    + intros s4 Hat4. by eapply reaches_ret.
    + intros e' s4 Hat4. by eapply reaches_ret.
Qed.

(** ** The supervisor's channel *)

Section channel.
Context `{WL : !WatchLaws C R W}.
(** The rest of the program has no way to stop the listeners. *)
Context (idle_chan : forall x, te_chan (idle x).1 = te_chan x.1).

Definition chan s : C := te_chan (up_te s.1).

(** [m] run from [s] leaves the channel and the outcome as [Q] says. *)
Definition ends {A} (Q : outcome A -> C -> Prop) (m : M (UP * K) A) s : Prop :=
  Q (m s).1 (chan (m s).2).

Lemma ends_bind {A B} (Q : outcome B -> C -> Prop) (m : M (UP * K) A) f s :
  unstopped m -> (forall x s', chan s' = chan s -> ends Q (f x) s') ->
  (forall msg, Q (Panic msg) (chan s)) -> (forall c, Q (Exit c) (chan s)) ->
  ends Q (m ≫= f) s.
Proof.
  intros Hm Hf Hp Hx. unfold ends, mbind, M_bind. specialize (Hm s).
  destruct (m s) as [[x|msg|c] s'] eqn:E; cbn in Hm.
  - by apply Hf.
  - unfold chan in *. cbn. by rewrite Hm.
  - unfold chan in *. cbn. by rewrite Hm.
Qed.

Lemma ends_ret {A} (Q : outcome A -> C -> Prop) (x : A) s c :
  chan s = c -> Q (Ret x) c -> ends Q (mret x) s.
Proof. by intros <-. Qed.

Lemma ends_some {A} (Q : outcome (option A) -> C -> Prop) (x : A) s c :
  chan s = c -> Q (Ret (Some x)) c -> ends Q (y ← (mret x : M (UP * K) A); mret (Some y)) s.
Proof. by intros <-. Qed.

Lemma ends_assoc {A B D} Q (m : M (UP * K) A) (f : A -> M (UP * K) B) (g : B -> M (UP * K) D) s :
  ends Q (m ≫= (fun x => f x ≫= g)) s -> ends Q ((m ≫= f) ≫= g) s.
Proof. unfold ends. by rewrite bind_assoc_run. Qed.

Lemma ends_dropping {A} (Q : outcome A -> C -> Prop) (m : M (UP * K) A) d s :
  unstopped d -> ends Q m s -> ends Q (dropping m d) s.
Proof.
  intros Hd Hq. unfold ends, dropping, chan in *.
  destruct (m s) as [[x|msg|c] s']; cbn in *; rewrite ?Hd; done.
Qed.

Lemma others_unstopped : unstopped (others idle : M (UP * K) _).
Proof using idle_chan.
  intros [u k]. cbn. pose proof (idle_chan (up_te u, k)). by destruct (idle (up_te u, k)).
Qed.

Lemma triggers_unstopped n : unstopped (monitor_triggers n).
Proof using idle_chan.
  induction n as [|n IH]; [apply keeps_ret|]. cbn [Monitor.monitor_triggers].
  apply keeps_bind.
  - intros [u k]. cbn. by destruct (poll_triggers _ _ _ _) as [? []].
  - intros [x|]; [apply keeps_ret|]. apply keeps_bind; [apply others_unstopped|done].
Qed.

Lemma clean_up_unstopped : unstopped (clean_up_triggers : M (UP * K) _).
Proof.
  intros [u k]. unfold Monitor.clean_up_triggers, mbind, M_bind. cbn.
  unfold kern. by destruct (drain_triggers _ _ _).
Qed.

Lemma notify_keeps {X} (proj : UP -> X) socket st :
  (forall l u, proj (set_sent l u) = proj u) -> keeps proj (notify show_io socket st : M (UP * K) _).
Proof.
  intros Hp [u k]. unfold notify, mbind, M_bind, kern, call. destruct (datagram_send _ _ k) as [[] ?]; [apply Hp|done].
Qed.

Lemma notify_unstopped socket st : unstopped (notify show_io socket st : M (UP * K) _).
Proof. by apply notify_keeps. Qed.

Lemma if_notifier_keeps {X} (proj : UP -> X) f :
  (forall x, keeps proj (f x)) -> keeps proj (if_notifier show_io f : M (UP * K) _).
Proof.
  intros Hf. apply keeps_bind; [apply keeps_self|]. intros u. destruct (up_notifier u); [|apply keeps_ret].
  apply keeps_bind; [apply Hf|]. intros. apply keeps_ret.
Qed.

Lemma initialize_keeps {X} (proj : UP -> X) :
  (forall l u, proj (set_sent l u) = proj u) -> keeps proj (initialize : M (UP * K) _).
Proof.
  intros Hp. apply if_notifier_keeps. intros x. apply keeps_bind; [apply keeps_kern|]. intros.
  by apply notify_keeps.
Qed.

Lemma initialize_unstopped : unstopped (initialize : M (UP * K) _).
Proof. by apply initialize_keeps. Qed.

(** What [systemd] hears before an upgrade. *)
Lemma reloading_keeps {X} (proj : UP -> X) :
  (forall l u, proj (set_sent l u) = proj u) ->
  keeps proj (if_notifier show_io (notify_reloading show_io) : M (UP * K) _).
Proof.
  intros Hp. apply if_notifier_keeps. intros x. apply keeps_bindq; [apply keeps_kern|]. intros us.
  apply keeps_bindq; [apply keeps_ret|]. intros. by apply notify_keeps.
Qed.

Lemma on_shutdown_unstopped : unstopped (on_shutdown : M (UP * K) _).
Proof.
  apply keeps_bindq; [apply clean_up_unstopped|]. intros _. apply if_notifier_keeps.
  intros x. apply notify_unstopped.
Qed.

Lemma upgrade_unstopped reason :
  unstopped (unwinding (kern (drop_reason reason)) up_upgrade : M (UP * K) _).
Proof using idle_chan.
  apply keeps_unwinding; [|apply keeps_kern]. apply keeps_bindq.
  - by apply reloading_keeps.
  - intros _. apply keeps_bind; [apply unstopped_inner|]. intros l.
    apply keeps_bind; [apply keeps_kern|]. intros r. apply keeps_bind; [apply others_unstopped|].
    intros. apply keeps_ret.
Qed.

(** The channel has been told [ec], once. *)
Definition stopped_as (c : C) (ec : ExitCondition) (c' : C) : Prop :=
  c' = (stop_all ec c).2 /\ wl_value c' = Some ec /\ wl_version c' = S (wl_version c).

(** [quit] stops the listeners, or panics before doing so. *)
Lemma ends_quit {B} (Q : outcome B -> C -> Prop) ec f s :
  (forall s', stopped_as (chan s) ec (chan s') -> ends Q (f (Ok tt)) s') ->
  (forall msg, Q (Panic msg) (chan s)) -> (forall c, Q (Exit c) (chan s)) ->
  ends Q (up_quit ec ≫= f) s.
Proof.
  intros Hf Hp Hx. unfold up_quit. apply ends_assoc. apply ends_bind; [apply unstopped_inner| |done..].
  intros _ [u k] Hc. unfold ends. rewrite bind_assoc_run.
  rewrite (run_bind _ _ (u, k) u (u, k)) by done.
  destruct (stop_all_run ec (te_chan (up_te u))) as (c' & E & Hv & Hn & _). rewrite E.
  rewrite bind_assoc_run.
  set (s' := (set_te (MkTokio (te_supervisor (up_te u)) c' (te_inner (up_te u)) (te_systemd (up_te u))) u, k)).
  rewrite (run_bind _ _ (u, k) tt s') by done.
  rewrite (run_bind _ _ s' (Ok tt) s') by done. apply Hf.
  unfold stopped_as. unfold chan in *. cbn in *. rewrite <- Hc, E. done.
Qed.

Definition mode_condition (m : ExitMode) : ExitCondition :=
  match m with
  | ModeUpgrade => Upgrade
  | ModeFullStop => Stop
  | ModePartialStop | ModePartialStopWithSystemd _ => PartialStop
  end.

(** What the answer of the monitor means for the listeners. *)
Definition answer_chan (c : C) (r : outcome (option (result (ExitMode * ExitReason) string))) (c' : C) : Prop :=
  match r with
  | Ret (Some (Ok (mode, _))) => stopped_as c (mode_condition mode) c'
  | Ret None => c' = c
  | _ => c' = c \/ exists ec, stopped_as c ec c'
  end.

(** A stop, with whatever is made of its result: the listeners have been told
    when it answers; when it fails or panics they may not have been. *)
Lemma stop_branch_ends {B} (Q : outcome B -> C -> Prop) reason ec g s :
  ec <> Upgrade ->
  (forall m r s', mode_condition m = ec -> stopped_as (chan s) ec (chan s') -> ends Q (g (Ok (m, r))) s') ->
  (forall e s', chan s' = chan s \/ stopped_as (chan s) ec (chan s') -> ends Q (g (Err e)) s') ->
  (forall msg c, c = chan s \/ stopped_as (chan s) ec c -> Q (Panic msg) c) ->
  (forall x c, c = chan s \/ stopped_as (chan s) ec c -> Q (Exit x) c) ->
  ends Q (stop_branch show_io reason ec ≫= g) s.
Proof.
  intros Hec Hok Herr Hp Hx. unfold stop_branch, bindq. apply ends_assoc.
  apply ends_quit; [|by auto..]. intros s1 Hs1.
  assert (Herr' : forall e s', chan s' = chan s1 -> ends Q (g (Err e)) s').
  { intros e s' Hc. apply Herr. right. by rewrite Hc. }
  destruct ec; [done|..]; apply ends_assoc.
  - apply ends_bind; [apply on_shutdown_unstopped| |by auto..].
    intros [[]|e] s2 Hc; [|by apply Herr']. apply (Hok ModeFullStop); [done|]. by rewrite Hc.
  - apply ends_bind; [apply clean_up_unstopped| |by auto..].
    intros [[]|e] s2 Hc; [|by apply Herr'].
    apply ends_assoc. apply ends_bind; [apply keeps_self| |rewrite Hc; by auto..].
    intros u s3 Hc3. rewrite <- Hc, <- Hc3 in Hs1. destruct (up_notifier u) as [x|].
    + by apply (Hok (ModePartialStopWithSystemd x)).
    + by apply (Hok ModePartialStop).
Qed.

Lemma monitor_ends n w s : ends (answer_chan (chan s)) (monitor n w) s.
Proof using idle_chan WL.
  remember (chan s) as c eqn:Hc0. revert s Hc0. induction n as [|n IH]; intros s Hc0; [by subst|].
  cbn [Monitor.monitor]. apply ends_bind; [apply initialize_unstopped| |rewrite Hc0; by left..].
  intros [[]|e] s1 Hc1; [|apply ends_ret with c; [congruence|by left]].
  apply ends_bind; [apply triggers_unstopped| |rewrite Hc1, Hc0; by left..].
  intros [[[reason ec]|e]|] s2 Hc2; [| |apply ends_ret with c; [congruence|done]].
  2:{ apply ends_bind; [apply on_shutdown_unstopped| |left; congruence..].
      intros [[]|x] s3 Hc3; (eapply ends_ret; [reflexivity|]; left; congruence). }
  assert (Hc : c = chan s2) by congruence.
  assert (Hstop : forall ec, ec <> Upgrade ->
    ends (answer_chan c) (x ← stop_branch show_io reason ec; mret (Some x)) s2).
  { intros ec' Hec. rewrite Hc. apply stop_branch_ends; [done|..].
    - intros m r s' <- Hs'. eapply ends_ret; [reflexivity|exact Hs'].
    - intros e s' Hs'. eapply ends_ret; [reflexivity|]. cbn. naive_solver.
    - cbn. naive_solver.
    - cbn. naive_solver. }
  destruct ec; [|by apply Hstop..].
  apply ends_bind; [apply upgrade_unstopped| |left; congruence..].
  intros [[[]|ue]|e] s3 Hc3.
  - apply ends_dropping; [apply keeps_kern|]. apply ends_quit; [|left; congruence..].
    intros s4 Hs4. eapply ends_ret; [reflexivity|]. cbn. by rewrite Hc, <- Hc3.
  - apply ends_bind; [|intros x s4 Hc4; apply IH; congruence|left; congruence..].
    apply keeps_dropping; [apply unstopped_inner|apply keeps_kern].
  - apply ends_dropping; [apply keeps_kern|].
    apply ends_bind; [apply on_shutdown_unstopped| |left; congruence..].
    intros [[]|x] s4 Hc4; (eapply ends_ret; [reflexivity|]; left; congruence).
Qed.

(** ** Properties *)

End channel.

(** C10. What systemd is told: with a notifier, whatever the triggers, the upgrades
    and the datagram socket do, the accepted notifications are READY, then any
    number of RELOADING, READY for failed upgrades, with at most one final
    STOPPING and nothing after it. A full stop has sent STOPPING; a successful
    upgrade leaves the process in RELOADING, for the child to send READY; a
    partial stop sends no STOPPING and hands the notifier to the caller. *)
Theorem notification_protocol (n w : nat) (u : UP) (k : K) (socket : Z) :
  up_notifier u = Some socket -> up_sent u = [] ->
  exists p, phases PStart (up_sent (monitor n w (u, k)).2.1) = Some p /\
    match (monitor n w (u, k)).1 with
    | Ret (Some (Ok (ModeUpgrade, _))) => p = PReloading
    | Ret (Some (Ok (ModeFullStop, _))) => p = PStopped
    | Ret (Some (Ok (ModePartialStopWithSystemd x, _))) => p = PReady /\ x = socket
    | Ret (Some (Ok (ModePartialStop, _))) => False
    | Ret None => p <> PStopped
    | _ => True
    end.
Proof.
  intros Hn Hs. apply (monitor_reaches n w (u, k) PStart socket); [by left|].
  split; [|done]. unfold told. cbn. by rewrite Hs.
Qed.

(** Polling the triggers of a list when none is ready. *)
Fixpoint all_pending (l : list (Trigger (W := W) * ExitCondition)) (c : C) (k : K) :
    option (list (Trigger * ExitCondition) * K) :=
  match l with
  | [] => Some ([], k)
  | (t, ec) :: l' =>
    match poll_trigger show_io t c k with
    | (Ret Pending, (t', k')) => '(l2, k2) ← all_pending l' c k'; Some ((t', ec) :: l2, k2)
    | _ => None
    end
  end.

(** The first ready trigger wins: a poll that finds the triggers before [t]
    not ready and [t] ready answers with [t]'s reason and its condition, and does
    not look at the ones after it; if none is ready, it is pending. *)
Theorem first_ready_trigger_wins (pre post : list (Trigger (W := W) * ExitCondition))
    (t : Trigger) (ec : ExitCondition) (c : C) (k : K) pre' k1 :
  all_pending pre c k = Some (pre', k1) ->
  poll_triggers show_io pre c k = (Ret Pending, (pre', k1)) /\
  forall r t' k2, poll_trigger show_io t c k1 = (Ret (Ready (Some r)), (t', k2)) ->
    poll_triggers show_io (pre ++ (t, ec) :: post) c k =
      (Ret (Ready (res_map (fun o => (o, ec)) r)), (pre' ++ (t', ec) :: post, k2)).
Proof.
  revert k pre'. induction pre as [|[t0 ec0] pre IH]; intros k pre' H; cbn in H.
  - simplify_eq. split; [done|]. intros r t' k2 E. cbn. by rewrite E.
  - destruct (poll_trigger show_io t0 c k) as [[[|]| |] [t0' k0]] eqn:E0; simplify_eq.
    destruct (all_pending pre c k0) as [[l2 k2]|] eqn:E1; simplify_eq/=.
    destruct (IH k0 l2 E1) as [H1 H2]. rewrite E0. split; [by rewrite H1|].
    intros r t' k3 E. by rewrite (H2 r t' k3 E).
Qed.
End spec.

(** ** The text of a notification *)

Lemma char_in_digit c n : 0 <= n < 10 -> c = newline -> char_in c (String (digit_char n) "") = false.
Proof.
  intros Hn%digit_val_char ->. cbn [char_in]. rewrite orb_false_r, bool_decide_eq_false. by intros E; rewrite E in Hn.
Qed.

Lemma fmt_aux_no_newline fuel n acc :
  char_in newline acc = false -> char_in newline (fmt_nonneg_aux fuel n acc) = false.
Proof.
  revert n acc. induction fuel as [|f IH]; intros n acc Ha; [done|]. cbn [fmt_nonneg_aux].
  assert (Hs : char_in newline (String (digit_char (n mod 10)) acc) = false).
  { cbn [char_in]. rewrite Ha, orb_false_r.
    pose proof (char_in_digit newline (n mod 10) (Z.mod_pos_bound n 10 ltac:(lia)) eq_refl) as H.
    cbn [char_in] in H. by rewrite orb_false_r in H. }
  destruct (n <? 10); [done|by apply IH].
Qed.

Lemma fmt_int_no_newline z : char_in newline (fmt_int z) = false.
Proof.
  unfold fmt_int, fmt_nonneg. destruct (z <? 0); [|by apply fmt_aux_no_newline].
  cbn [char_in]. rewrite fmt_aux_no_newline by done. done.
Qed.

Lemma char_in_app c x y : char_in c (x +:+ y) = char_in c x || char_in c y.
Proof.
  induction x as [|d x IH]; [done|].
  change (bool_decide (d = c) || char_in c (x +:+ y) = bool_decide (d = c) || char_in c x || char_in c y).
  by rewrite IH, orb_assoc.
Qed.

(** A notification can be read back: splitting any of the messages the
    process sends at its line breaks gives back its assignments, one per line,
    in order, whatever the process id and the times are. *)
Theorem notification_lines (pid us : Z) :
  Forall (fun st => split_on newline (notify_message st) = (fun '(k, v) => k +:+ "=" +:+ v) <$> st)
    [states_ready pid; states_reloading us; states_stopping; states_extend us].
Proof.
  repeat constructor; unfold notify_message; apply split_join; try done;
    repeat constructor; cbn beta iota; rewrite ?char_in_app, ?fmt_int_no_newline; done.
Qed.

(** Times fit in 64 bits: a reload is announced with the monotonic clock in
    microseconds, and a timeout extension with its own length, only if that is
    at most [u64::MAX]; otherwise the call fails and nothing is sent. *)
Theorem times_fit_u64 {K C R W : Type} `{RO : ReactorOps K, WO : WatchOps C R W}
    (show_io : io_error -> string) (socket us : Z) (s : Upgrader (C := C) (R := R) (W := W) * K) (k' : K) :
  clock_monotonic_us s.2 = (Ok us, k') ->
  (us <= u64_max ->
   notify_reloading show_io socket s = notify show_io socket (states_reloading us) (s.1, k') /\
   notify_extend_timeouts show_io socket us s = notify show_io socket (states_extend us) s) /\
  (u64_max < us ->
   (exists e, notify_reloading show_io socket s = (Ret (Err e), (s.1, k'))) /\
   (exists e, notify_extend_timeouts show_io socket us s = (Ret (Err e), s))).
Proof.
  destruct s as [u k]. cbn. intros E. unfold notify_reloading, notify_extend_timeouts, u64_try_from.
  rewrite (run_bindq_ok _ _ (u, k) us (u, k')) by (unfold kern, call; by rewrite E).
  split; intros Hus.
  - rewrite bool_decide_eq_true_2 by done. by rewrite !(run_bindq_ok _ _ _ us _) by done.
  - rewrite bool_decide_eq_false_2 by lia. split; by eexists.
Qed.

(** ** Witnesses *)

(** The model with a reactor: a signal stream is a pipe whose unread bytes are
    the pending signals, nobody connects, systemd accepts every datagram. *)
#[export] Instance model_reactor : ReactorOps model := {|
  datagram_unbound m := open_new m;
  datagram_connect fd path m := (Ok tt, m);
  datagram_send fd msg m := (Ok tt, m);
  clock_monotonic_us m := (Ok 1000, m);
  signal_next n m :=
    match v_pipes (md_view m) !! N.of_nat n with
    | Some (String _ rest) =>
      (Ready (Some tt), md_set (set_pipes (<[N.of_nat n := rest]> (v_pipes (md_view m))) (md_view m)) m)
    | _ => (Pending, m)
    end;
  accept_next fd m := (Pending, m);
  remove_file path m := (Ok tt, m)
|}.

#[local] Notation Chan := (RunState * nat * bool)%type.

(** Two streams of one signal, which has arrived once. *)
Definition signalled : model :=
  md_set (set_pipes (<[0%N := "!"]> {[1%N := "!"]}) (md_view (boot ∅ ∅))) (boot ∅ ∅).

Definition idle_app (x : TokioEcdysis (C := Chan) (R := nat) * model) := x.

Definition failing_thread (l : list ListenerInfo) (m : model) :
    result (result unit (UpgradeError model)) string * model := (Ok (Err ChildExit), m).

Definition upgrader (ts : list (Trigger (W := option nat) * ExitCondition)) :
    Upgrader (C := Chan) (R := nat) (W := option nat) :=
  MkUpgrader (MkTokio (MkSup 0%nat None) (None, 0%nat, true) (MkEcdysis reg_new None None false) None)
    ts (Some 9) [].

(** SIGHUP to upgrade, SIGHUP to stop. *)
Definition both_hup := upgrader [(TSignal 1 0, Upgrade); (TSignal 1 1, Stop)].

Definition hup_run := monitor show_error idle_app failing_thread 3 2 (both_hup, signalled).

(** One signal for upgrading and stopping: the signal arrives once, the
    upgrade it asks for fails, and the monitor does not go back to waiting but
    stops the process: the same signal is still pending in the stream of the
    second trigger. *)
Theorem shared_signal_stops_after_failed_upgrade :
  hup_run.1 = Ret (Some (Ok (ModeFullStop, ReasonSignal 1))) /\
  key <$> up_sent hup_run.2.1 = ["READY"; "RELOADING"; "READY"; "STOPPING"].
Proof. split; vm_compute; reflexivity. Qed.


Lemma notification_protocol_witness :
  exists p, phases PStart (up_sent hup_run.2.1) = Some p /\ p = PStopped.
Proof.
  destruct (notification_protocol show_error idle_app failing_thread 3 2 both_hup signalled 9 eq_refl eq_refl)
    as (p & Hp & H).
  exists p. split; [exact Hp|].
  change (monitor show_error idle_app failing_thread 3 2 (both_hup, signalled)) with hup_run in H.
  assert (E : hup_run.1 = Ret (Some (Ok (ModeFullStop, ReasonSignal 1)))) by (vm_compute; reflexivity).
  rewrite E in H. exact H.
Defined.

(** A signal nobody sent, then one that has arrived. *)
Lemma first_ready_trigger_wins_witness :
  exists l k2, poll_triggers (C := Chan) (R := nat) show_error
      ([(TSignal 15 7, Stop)] ++ (TSignal 1 0, Upgrade) :: [(TSignal 2 1, PartialStop)])
      (None, 0%nat, true) signalled = (Ret (Ready (Ok (TrSignal 1, Upgrade))), (l, k2)).
Proof.
  destruct (first_ready_trigger_wins (C := Chan) (R := nat) (W := option nat) show_error
    [(TSignal 15 7, Stop)] [(TSignal 2 1, PartialStop)] (TSignal 1 0) Upgrade (None, 0%nat, true) signalled
    [(TSignal 15 7, Stop)] signalled) as [_ H]; [vm_compute; reflexivity|].
  eexists _, _. apply (H (Ok (TrSignal 1))). vm_compute. reflexivity.
Defined.

Lemma times_fit_u64_witness :
  notify_reloading show_error 9 (both_hup, signalled) =
    notify show_error 9 (states_reloading 1000) (both_hup, signalled).
Proof.
  destruct (times_fit_u64 (C := Chan) (R := nat) (W := option nat) show_error 9 1000
    (both_hup, signalled) signalled) as [H _]; [vm_compute; reflexivity|].
  apply H. vm_compute. discriminate.
Defined.
