(* ===== verification/MonitorTask.v ===== *)
(** * MonitorTask: the monitor as the future it is

    [Monitor] reads [TokioEcdysisUpgrader::monitor] from its start to its end,
    with everything else that happens as one function. Here it is what the
    compiler makes of it: a state, which is where it awaits, and a poll, which
    runs from one [await] to the next. In between, other tasks and threads take
    as many steps of their own as they like ([Service]).

    The theorem: polling it until it is ready, with the rest of the program run
    after each poll, is the function of [Monitor], outcome and state. *)

From S2P Require Import Prelude Text Addr Posix PosixModel Utils Registry RegistrySpec.
From S2P Require Import Bincode Listener Inheriter Executioner Ecdysis EcdysisSpec.
From S2P Require Import Supervisor SystemdSockets TokioEcdysis TokioSpec Monitor MonitorSpec.
Local Open Scope Z_scope.

(** ** Where the future awaits *)

Inductive mon_pc : Type :=
| MpStart                                  (* not polled yet *)
| MpWaiting                                (* in [monitor_triggers] *)
| MpUpgrading (reason : TriggerReason)     (* for the answer of the thread *)
| MpDone (r : result (ExitMode * ExitReason) string).

Section task.
Context {K : Type} `{HV : HasView K, FO : FdOps K, PO : PipeOps K, PR : ProcOps K,
  FS : FsOps K, SO : SockOps K, BC : Bincode K, AO : AsyncOps K, RO : ReactorOps K}.
Context {C R W : Type} `{WO : WatchOps C R W}.
#[local] Notation TE := (TokioEcdysis (C := C) (R := R)).
#[local] Notation UP := (Upgrader (C := C) (R := R) (W := W)).
#[local] Notation UM := (M (UP * K)).
Context (show_io : io_error -> string).

(** What a poll ends with: where it awaits now, and the list of the thread it has
    started, if it has started one. *)
Definition polled : Type := mon_pc * option (list ListenerInfo).
Definition answer_type : Type := result (result unit (UpgradeError K)) string.

(** [polling_fut] *)
Definition trigger_poll : UM (poll (result (TriggerReason * ExitCondition) io_error)) :=
  fun '(u, k) =>
    let '(r, (l, k')) := poll_triggers show_io (up_triggers u) (te_chan (up_te u)) k in
    (r, (set_triggers l u, k')).

(** [upgrade], up to where it awaits the thread. *)
Definition begin_upgrade : UM (result (list ListenerInfo) string) :=
  _ ←? if_notifier show_io (notify_reloading show_io);
  fds ← in_te (inner (in_registry get_fds_for_child));
  mret (Ok fds).

Definition finish (m : UM (result (ExitMode * ExitReason) string)) : UM polled :=
  x ← m; mret (MpDone x, None).

(** The last arm of [monitor], for an [Err] of [upgrade]. *)
Definition upgrade_broke (reason : TriggerReason) (err_str : string) :
    UM (result (ExitMode * ExitReason) string) :=
  dropping
    (s ← on_shutdown show_io;
     mret match s with
          | Err x => Err x
          | Ok _ => Err ("Encountered a problem during upgrade: " +:+ err_str)
          end)
    (kern (drop_reason reason)).

(** From the triggers on. *)
Definition poll_waiting : UM polled :=
  p ← trigger_poll;
  match p with
  | Pending => mret (MpWaiting, None)
  | Ready (Err e) =>
    finish
      (s ← on_shutdown show_io;
       mret match s with
            | Err x => Err x
            | Ok _ => Err ("Encountered error while polling triggers: " +:+ show_io e)
            end)
  | Ready (Ok (reason, Upgrade)) =>
    r ← unwinding (kern (drop_reason reason)) begin_upgrade;
    match r with
    | Ok fds => mret (MpUpgrading reason, Some fds)
    | Err err_str => finish (upgrade_broke reason err_str)
    end
  | Ready (Ok (reason, ec)) => finish (stop_branch show_io reason ec)
  end.

(** From the head of the loop on. *)
Definition poll_start : UM polled :=
  i ← initialize show_io;
  match i with
  | Err e => mret (MpDone (Err e), None)
  | Ok _ => poll_waiting
  end.

(** From the answer of the thread on. *)
Definition poll_answered (reason : TriggerReason) (r : answer_type) : UM polled :=
  match r with
  | Ok (Ok _) =>
    finish
      (dropping
         (q ← up_quit Upgrade;
          mret (res_map (fun _ => (ModeUpgrade, exit_reason reason)) q))
         (kern (drop_reason reason)))
  | Ok (Err _) =>
    _ ← dropping (in_te (inner write_pidfile)) (kern (drop_reason reason));
    poll_start
  | Err err_str => finish (upgrade_broke reason err_str)
  end.

(** One poll; [answer] is what the thread has answered so far. *)
Definition mon_poll (answer : option answer_type) (pc : mon_pc) : UM polled :=
  match pc with
  | MpStart => poll_start
  | MpWaiting => poll_waiting
  | MpUpgrading reason =>
    match answer with
    | None => mret (pc, None)
    | Some r => poll_answered reason r
    end
  | MpDone _ => panic "`async fn` resumed after completion"
  end.

(** One poll of the whole future, which drops its locals when it is ready. *)
Definition fut_poll (answer : option answer_type) (pc : mon_pc) : UM polled :=
  '(pc', sp) ← mon_poll answer pc;
  match pc' with
  | MpDone x => _ ← drop_upgrader x; mret (pc', sp)
  | _ => mret (pc', sp)
  end.

(** ** Polling it to the end *)

Context (idle : TE * K -> TE * K).
Context (upgrade_thread : list ListenerInfo -> K -> answer_type * K).

(** After a poll that is pending, the thread it has started runs to its end, and
    everything else takes its turn. *)
Definition between (sp : option (list ListenerInfo)) : UM (option answer_type) :=
  a ← match sp with
      | Some fds => r ← kern (call (upgrade_thread fds)); mret (Some r)
      | None => mret None
      end;
  _ ← others idle;
  mret a.

Fixpoint polls_from (m : nat) (p : UM polled) : UM (option (result (ExitMode * ExitReason) string)) :=
  match m with
  | O => mret None
  | S m' =>
    '(pc, sp) ← p;
    match pc with
    | MpDone x => mret (Some x)
    | _ => a ← between sp; polls_from m' (mon_poll a pc)
    end
  end.

(** The future, for at most [m] polls. *)
Definition polls (m : nat) : UM (option (result (ExitMode * ExitReason) string)) :=
  polls_from m (mon_poll None MpStart).

(** ** One poll, over what follows it *)

#[local] Notation monitor := (monitor show_io idle upgrade_thread).
#[local] Notation monitor_triggers := (monitor_triggers show_io idle).
#[local] Notation answer_res := (option (result (ExitMode * ExitReason) string)).

Definition some_of {A} (m : UM A) : UM (option A) := x ← m; mret (Some x).

Definition round (pending : UM answer_res) (answered : TriggerReason -> answer_type -> UM answer_res) :
    UM answer_res :=
  p ← trigger_poll;
  match p with
  | Pending => _ ← others idle; pending
  | Ready (Err e) =>
    s ← on_shutdown show_io;
    mret (Some match s with
               | Err x => Err x
               | Ok _ => Err ("Encountered error while polling triggers: " +:+ show_io e)
               end)
  | Ready (Ok (reason, Upgrade)) =>
    r ← unwinding (kern (drop_reason reason)) begin_upgrade;
    match r with
    | Ok fds => a ← kern (call (upgrade_thread fds)); _ ← others idle; answered reason a
    | Err err_str => some_of (upgrade_broke reason err_str)
    end
  | Ready (Ok (reason, ec)) => some_of (stop_branch show_io reason ec)
  end.

(** What [monitor] does with an answer; [again] is the next round. *)
Definition on_answer (again : UM answer_res) (reason : TriggerReason) (r : answer_type) : UM answer_res :=
  match r with
  | Ok (Ok _) =>
    some_of
      (dropping
         (q ← up_quit Upgrade;
          mret (res_map (fun _ => (ModeUpgrade, exit_reason reason)) q))
         (kern (drop_reason reason)))
  | Ok (Err _) =>
    _ ← dropping (in_te (inner write_pidfile)) (kern (drop_reason reason)); again
  | Err err_str => some_of (upgrade_broke reason err_str)
  end.

Definition on_start (again : UM answer_res) : UM answer_res :=
  i ← initialize show_io;
  match i with Err e => mret (Some (Err e)) | Ok _ => again end.

(** The rest of a round of [monitor], after its triggers. *)
Definition triggered (n w : nat)
    (t : option (result (TriggerReason * ExitCondition) io_error)) : UM answer_res :=
  match t with
  | None => mret None
  | Some (Err e) =>
    s ← on_shutdown show_io;
    mret (Some match s with
               | Err x => Err x
               | Ok _ => Err ("Encountered error while polling triggers: " +:+ show_io e)
               end)
  | Some (Ok (reason, Upgrade)) =>
    r ← unwinding (kern (drop_reason reason)) (up_upgrade show_io idle upgrade_thread);
    on_answer (monitor n w) reason r
  | Some (Ok (reason, ec)) => some_of (stop_branch show_io reason ec)
  end.

(** Equal from every state. *)
Definition same {A} (m1 m2 : UM A) : Prop := forall s, m1 s = m2 s.

#[local] Instance same_equivalence A : Equivalence (same (A := A)).
Proof. split; [done|by intros ??? ?|intros ??? H1 H2 s; by rewrite H1]. Qed.

Lemma same_bind {A B} (m : UM A) (f g : A -> UM B) :
  (forall x, same (f x) (g x)) -> same (m ≫= f) (m ≫= g).
Proof. intros Hfg s. unfold mbind, M_bind. destruct (m s) as [[] ?]; [apply Hfg|done..]. Qed.

Lemma same_assoc {A B D} (m : UM A) (f : A -> UM B) (g : B -> UM D) :
  same ((m ≫= f) ≫= g) (m ≫= (fun x => f x ≫= g)).
Proof. intros s. apply bind_assoc_run. Qed.

Lemma some_dropping {A} (m : UM A) d : same (some_of (dropping m d)) (dropping (some_of m) d).
Proof.
  intros s. unfold some_of, dropping, mbind, M_bind. by destruct (m s) as [[] ?].
Qed.

Lemma some_bind {A B} (m : UM A) (f : A -> B) :
  same (some_of (x ← m; mret (f x))) (x ← m; mret (Some (f x))).
Proof. apply same_assoc. Qed.

Lemma same_dropping {A} (m1 m2 : UM A) d : same m1 m2 -> same (dropping m1 d) (dropping m2 d).
Proof. intros H s. unfold dropping. by rewrite H. Qed.

Lemma some_dropping_bind {A B} (m : UM A) (f : A -> B) d :
  same (some_of (dropping (x ← m; mret (f x)) d)) (dropping (x ← m; mret (Some (f x))) d).
Proof. etransitivity; [apply some_dropping|]. apply same_dropping, some_bind. Qed.

(** *** The rounds of [monitor] *)

Lemma monitor_round n w :
  same (monitor (S n) w) (on_start (monitor_triggers w ≫= triggered n w)).
Proof.
  apply same_bind. intros [[]|e]; [|done]. apply same_bind.
  intros [[[reason ec]|e]|]; [|done..]. destruct ec; [|done..].
  apply same_bind. intros [[[]|e]|e]; cbn.
  - symmetry. apply some_dropping_bind.
  - done.
  - symmetry. apply some_dropping_bind.
Qed.

(** [up_upgrade] as the part before the thread and the part after it. *)
Lemma upgrade_parts {A} reason (f : answer_type -> UM A) :
  same (unwinding (kern (drop_reason reason)) (up_upgrade show_io idle upgrade_thread) ≫= f)
    (r ← unwinding (kern (drop_reason reason)) begin_upgrade;
     match r with
     | Ok fds => a ← kern (call (upgrade_thread fds)); _ ← others idle; f a
     | Err e => f (Err e)
     end).
Proof.
  intros s. unfold up_upgrade, begin_upgrade, bindq, unwinding, mbind, M_bind.
  destruct (if_notifier _ _ s) as [[[[]|e]|msg|c] s1]; [|done..].
  destruct (in_te (inner (in_registry get_fds_for_child)) s1) as [[fds|msg|c] [u2 k2]]; [|done..].
  unfold others, in_te, field, kern, call, mret, M_ret. destruct (upgrade_thread fds k2) as [a k3]. cbn.
  by destruct (idle (up_te u2, k3)).
Qed.

Lemma triggers_round n w w' :
  same (monitor_triggers (S w') ≫= triggered n w)
    (round (monitor_triggers w' ≫= triggered n w) (on_answer (monitor n w))).
Proof.
  etransitivity; [apply same_assoc|]. apply same_bind. intros [x|]; [|apply same_assoc].
  destruct x as [[reason ec]|e]; [|done]. destruct ec; [|done..].
  apply (upgrade_parts reason (on_answer (monitor n w) reason)).
Qed.

(** *** The polls of the future *)

(** What [polls_from] does after a poll. *)
Definition resume (m : nat) : polled -> UM answer_res := fun '(pc, sp) =>
  match pc with
  | MpDone x => mret (Some x)
  | _ => a ← between sp; polls_from m (mon_poll a pc)
  end.

Lemma polls_resume m p : polls_from (S m) p = p ≫= resume m.
Proof. done. Qed.

Lemma resume_finish m x : same (finish x ≫= resume m) (some_of x).
Proof. apply same_assoc. Qed.

Lemma waiting_round m :
  same (polls_from (S m) poll_waiting)
    (round (polls_from m poll_waiting) (fun reason a => polls_from m (poll_answered reason a))).
Proof.
  rewrite polls_resume. etransitivity; [apply same_assoc|]. apply same_bind.
  intros [[[reason ec]|e]|].
  - destruct ec; [|apply resume_finish..]. etransitivity; [apply same_assoc|]. apply same_bind.
    intros [fds|e]; [|apply resume_finish]. intros s. unfold resume, between.
    unfold mbind, M_bind, kern, call, mret, M_ret. cbn. destruct s as [u k].
    destruct (upgrade_thread fds k) as [a k1]. cbn.
    by destruct (idle (up_te u, k1)).
  - etransitivity; [apply resume_finish|apply same_assoc].
  - intros [u k]. unfold resume, between. unfold mbind, M_bind, mret, M_ret. cbn.
    by destruct (idle (up_te u, k)).
Qed.

Lemma start_round m : same (polls_from (S m) poll_start) (on_start (polls_from (S m) poll_waiting)).
Proof.
  rewrite !polls_resume. etransitivity; [apply same_assoc|]. apply same_bind. by intros [[]|e].
Qed.

Lemma answered_round m reason a :
  same (polls_from (S m) (poll_answered reason a)) (on_answer (polls_from (S m) poll_start) reason a).
Proof.
  rewrite polls_resume. destruct a as [[[]|e]|e]; [apply resume_finish|apply same_assoc|apply resume_finish].
Qed.

(** ** Whoever has an answer has the same *)

(** When the first computation gets to an answer, the second gets there too, in
    the same state. *)
Definition upto (m1 m2 : UM answer_res) : Prop := forall s, (m1 s).1 <> Ret None -> m2 s = m1 s.

#[local] Instance upto_proper : Proper (same ==> same ==> iff) upto.
Proof.
  intros a a' Ha b b' Hb. split; intros H s; [rewrite <- Ha, <- Hb|rewrite Ha, Hb]; apply H.
Qed.

Lemma upto_refl m : upto m m.
Proof. done. Qed.

Lemma upto_none m : upto (mret None) m.
Proof. by intros s []. Qed.

Lemma upto_bind {A} (m : UM A) f g : (forall x, upto (f x) (g x)) -> upto (m ≫= f) (m ≫= g).
Proof. intros Hfg s. unfold mbind, M_bind. destruct (m s) as [[] ?]; [apply Hfg|done..]. Qed.

Lemma upto_start p q : upto p q -> upto (on_start p) (on_start q).
Proof. intros Hpq. apply upto_bind. by intros [[]|e]. Qed.

Lemma upto_answer p q reason a : upto p q -> upto (on_answer p reason a) (on_answer q reason a).
Proof. intros Hpq. destruct a as [[[]|e]|e]; [done| |done]. by apply upto_bind. Qed.

Lemma upto_round p q f g :
  upto p q -> (forall reason a, upto (f reason a) (g reason a)) -> upto (round p f) (round q g).
Proof.
  intros Hpq Hfg. apply upto_bind. intros [[[reason ec]|e]|]; [|done|by apply upto_bind].
  destruct ec; [|done..]. apply upto_bind. intros [fds|e]; [|done].
  apply upto_bind. intros a. by apply upto_bind.
Qed.

Lemma monitor_by_polls n w :
  (forall m, (n * S w < m)%nat -> upto (monitor n w) (polls_from m poll_start)) /\
  (forall w' m, (w' + n * S w < m)%nat ->
     upto (monitor_triggers w' ≫= triggered n w) (polls_from m poll_waiting)).
Proof.
  assert (Hwait : forall n, (forall m, (n * S w < m)%nat -> upto (monitor n w) (polls_from m poll_start)) ->
    forall w' m, (w' + n * S w < m)%nat ->
     upto (monitor_triggers w' ≫= triggered n w) (polls_from m poll_waiting)).
  { clear n. intros n Hstart. induction w' as [|w' IH]; intros m Hm; [apply upto_none|].
    destruct m as [|m]; [lia|]. rewrite triggers_round, waiting_round.
    apply upto_round; [apply IH; lia|]. intros reason a.
    destruct m as [|m]; [lia|]. rewrite answered_round. apply upto_answer, Hstart. lia. }
  assert (Hstart : forall m, (n * S w < m)%nat -> upto (monitor n w) (polls_from m poll_start)).
  { induction n as [|n IH]; intros m Hm; [apply upto_none|]. destruct m as [|m]; [lia|].
    rewrite monitor_round, start_round. apply upto_start, Hwait; [done|lia]. }
  split; [done|by apply Hwait].
Qed.

Lemma polls_by_monitor m n w :
  ((m <= n)%nat -> (m <= w)%nat -> upto (polls_from m poll_start) (monitor n w)) /\
  (forall w', (m <= S n)%nat -> (m <= w')%nat -> (m <= S w)%nat ->
     upto (polls_from m poll_waiting) (monitor_triggers w' ≫= triggered n w)).
Proof.
  revert n. induction m as [|m IH]; intros n; [split; intros; apply upto_none|].
  assert (Hwait : forall n w', (S m <= S n)%nat -> (S m <= w')%nat -> (S m <= S w)%nat ->
     upto (polls_from (S m) poll_waiting) (monitor_triggers w' ≫= triggered n w)).
  { clear n. intros n [|w'] Hn Hw' Hw; [lia|]. rewrite triggers_round, waiting_round.
    apply upto_round; [apply IH; lia|]. intros reason a.
    destruct m as [|m]; [apply upto_none|]. rewrite answered_round. apply upto_answer, IH; lia. }
  split; [|by apply Hwait]. intros Hn Hw. destruct n as [|n]; [lia|].
  rewrite monitor_round, start_round. apply upto_start, Hwait; lia.
Qed.

(** [Monitor]'s reading of the future as one function is what polling it does:
    whatever the rest of the program does between two polls and whatever the
    upgrade threads answer, if [n] rounds of at most [w] polls bring the function
    to an answer (or to a panic), then that many polls of the state machine bring
    it to the same answer in the same state; and if [m] polls do, then so do [m]
    rounds of the function. *)
Theorem polls_are_monitor (n w m : nat) (s : UP * K) :
  ((monitor n w s).1 <> Ret None -> polls (S (n * S w)) s = monitor n w s) /\
  ((polls m s).1 <> Ret None -> monitor m m s = polls m s).
Proof.
  split; intros H.
  - apply (monitor_by_polls n w); [lia|done].
  - by apply (polls_by_monitor m m m).
Qed.
End task.

(** ** What a poll can end with *)

Section after_poll.
Context {K : Type} `{HV : HasView K, FO : FdOps K, PO : PipeOps K, PR : ProcOps K,
  FS : FsOps K, SO : SockOps K, BC : Bincode K, AO : AsyncOps K, RO : ReactorOps K}.
Context {C R W : Type} `{WO : WatchOps C R W}.
#[local] Notation UP := (Upgrader (C := C) (R := R) (W := W)).
#[local] Notation UM := (M (UP * K)).
Context (show_io : io_error -> string).
Implicit Types s : UP * K.

(** Every value [m] returns satisfies [P]. *)
Definition returns {A} (P : A -> Prop) (m : UM A) : Prop :=
  forall s x s', m s = (Ret x, s') -> P x.

Lemma returns_ret {A} (P : A -> Prop) x : P x -> returns P (mret x).
Proof. intros Hx s y s' E. by injection E as <- _. Qed.

Lemma returns_bind {A B} (Q : A -> Prop) (P : B -> Prop) (m : UM A) f :
  returns Q m -> (forall x, Q x -> returns P (f x)) -> returns P (m ≫= f).
Proof.
  intros Hm Hf s y s' E. apply run_inv_bind in E as (x & s1 & E1 & E2).
  exact (Hf x (Hm _ _ _ E1) _ _ _ E2).
Qed.

Lemma returns_any {A} (m : UM A) : returns (fun _ => True) m.
Proof. done. Qed.

Lemma returns_unwinding {A} (P : A -> Prop) (m : UM A) d : returns P m -> returns P (unwinding d m).
Proof. intros Hm s x s' E. unfold unwinding in E. destruct (m s) as [[] s1] eqn:E1; simplify_eq. by eapply Hm. Qed.

Lemma returns_dropping {A} (P : A -> Prop) (m : UM A) d : returns P m -> returns P (dropping m d).
Proof. intros Hm s x s' E. unfold dropping in E. destruct (m s) as [[] s1] eqn:E1; simplify_eq. by eapply Hm. Qed.

Definition not_upgrade (r : result (ExitMode * ExitReason) string) : Prop :=
  match r with Ok (ModeUpgrade, _) => False | _ => True end.

Lemma stop_branch_not_upgrade reason ec : returns not_upgrade (stop_branch show_io reason ec).
Proof.
  unfold stop_branch, bindq. eapply returns_bind; [apply returns_any|].
  intros [[]|e] _; [|by apply returns_ret].
  destruct ec; (eapply returns_bind; [apply returns_any|]; intros [[]|e] _; [|by apply returns_ret]);
    try by apply returns_ret.
  eapply returns_bind; [apply returns_any|]. intros u _. destruct (up_notifier u); by apply returns_ret.
Qed.

(** The list that a new child would get now. *)
Definition used_list (u : UP) : list ListenerInfo := m_val (used_fds (registry (te_inner (up_te u)))).

(** What [m] returns is related to the list there was before. *)
Definition reads {A} (P : list ListenerInfo -> A -> Prop) (m : UM A) : Prop :=
  forall s x s', m s = (Ret x, s') -> P (used_list s.1) x.

Lemma reads_ret {A} (P : list ListenerInfo -> A -> Prop) x : (forall l, P l x) -> reads P (mret x).
Proof. intros Hx s y s' E. by injection E as <- _. Qed.

Lemma reads_bind {A B} (P : list ListenerInfo -> B -> Prop) (m : UM A) (f : A -> UM B) :
  keeps used_list m -> (forall x, reads P (f x)) -> reads P (m ≫= f).
Proof.
  intros Hk Hf s y s' E. apply run_inv_bind in E as (x & s1 & E1 & E2).
  specialize (Hk s). rewrite E1 in Hk. cbn in Hk. rewrite <- Hk. exact (Hf x _ _ _ E2).
Qed.

Lemma reads_then {A B} (Q : list ListenerInfo -> A -> Prop) (P : list ListenerInfo -> B -> Prop)
    (m : UM A) (f : A -> UM B) :
  reads Q m -> (forall l x, Q l x -> returns (P l) (f x)) -> reads P (m ≫= f).
Proof.
  intros Hm Hf s y s' E. apply run_inv_bind in E as (x & s1 & E1 & E2).
  exact (Hf _ x (Hm _ _ _ E1) _ _ _ E2).
Qed.

Lemma reads_unwinding {A} P (m : UM A) d : reads P m -> reads P (unwinding d m).
Proof. intros Hm s x s' E. unfold unwinding in E. destruct (m s) as [[] s1] eqn:E1; simplify_eq. by eapply Hm. Qed.

Lemma trigger_poll_keeps : keeps used_list (trigger_poll show_io).
Proof. intros [u k]. cbn. by destruct (poll_triggers _ _ _ _) as [? []]. Qed.

Lemma write_pidfile_keeps : keeps used_list (in_te (inner write_pidfile) : UM _).
Proof.
  intros [u k]. unfold in_te, inner, field, write_pidfile, self, mbind, M_bind. cbn.
  destruct (pid_file _); [|done]. unfold kern. by destruct (write_pid_file _ k).
Qed.

Lemma get_fds_is_used (e : Ecdysis) (k : K) fds (s' : Ecdysis * K) :
  in_registry get_fds_for_child (e, k) = (Ret fds, s') -> fds = m_val (used_fds (registry e)).
Proof.
  unfold in_registry, get_fds_for_child, field, locked, self. cbn. destruct (m_poisoned _); [done|].
  by intros [= <- <-].
Qed.

(** The thread is given the list of that moment. *)
Lemma begin_upgrade_reads :
  reads (fun l r => match r with Ok fds => fds = l | Err _ => True end) (begin_upgrade show_io).
Proof.
  apply reads_bind; [by apply reloading_keeps|]. intros [[]|e]; [|by apply reads_ret].
  eapply (reads_then (fun l fds => fds = l)); [|intros l fds ->; by apply returns_ret].
  intros [u k] fds s' E. unfold in_te, inner, field in E. cbn beta iota zeta in E.
  destruct (in_registry get_fds_for_child (te_inner (up_te u), k)) as [o [e1 k1]] eqn:E1.
  injection E as -> _. by eapply get_fds_is_used.
Qed.

(** A poll that has a thread started gave it the list it found, and waits for it;
    one that does not have an answer yet does not end with an upgrade. *)
Definition fresh_poll (l : list ListenerInfo) (x : polled) : Prop :=
  match x with
  | (MpUpgrading _, Some fds) => fds = l
  | (MpUpgrading _, None) | (MpStart, _) | (_, Some _) => False
  | (MpDone r, None) => not_upgrade r
  | (MpWaiting, None) => True
  end.

Lemma finish_fresh m l : returns not_upgrade m -> returns (fresh_poll l) (finish m).
Proof. intros Hm. eapply returns_bind; [exact Hm|]. intros x Hx. by apply returns_ret. Qed.

Lemma finish_reads m : returns not_upgrade m -> reads fresh_poll (finish m).
Proof. intros Hm s x s' E. by eapply finish_fresh. Qed.

Lemma upgrade_broke_mode reason e : returns not_upgrade (upgrade_broke show_io reason e).
Proof.
  apply returns_dropping. eapply returns_bind; [apply returns_any|]. intros [[]|x] _; by apply returns_ret.
Qed.

Lemma poll_waiting_fresh : reads fresh_poll (poll_waiting show_io).
Proof.
  apply reads_bind; [apply trigger_poll_keeps|]. intros [[[reason ec]|e]|].
  - destruct ec; [|apply finish_reads, stop_branch_not_upgrade..].
    eapply reads_then; [apply reads_unwinding, begin_upgrade_reads|].
    intros l [fds|e] Hf; [by apply returns_ret|apply finish_fresh, upgrade_broke_mode].
  - apply finish_reads. eapply returns_bind; [apply returns_any|]. intros [[]|x] _; by apply returns_ret.
  - by apply reads_ret.
Qed.

Lemma poll_start_fresh : reads fresh_poll (poll_start show_io).
Proof.
  apply reads_bind; [by apply initialize_keeps|]. intros [[]|e]; [apply poll_waiting_fresh|by apply reads_ret].
Qed.

(** Every poll but two kinds is fresh: one that is still without an answer, and
    one that has a successful upgrade's. *)
Lemma mon_poll_cases answer pc s x s' :
  mon_poll show_io answer pc s = (Ret x, s') ->
  fresh_poll (used_list s.1) x \/
  (exists reason, pc = MpUpgrading reason /\ answer = None /\ x = (pc, None) /\ s' = s) \/
  (exists reason r, pc = MpUpgrading reason /\ answer = Some (Ok (Ok tt)) /\ x = (MpDone r, None)).
Proof.
  destruct pc as [| |reason|r]; cbn [mon_poll]; intros E.
  - left. by eapply poll_start_fresh.
  - left. by eapply poll_waiting_fresh.
  - destruct answer as [[[[]|ue]|e]|].
    + right; right. exists reason. apply run_inv_bind in E as (r & s1 & _ & E).
      injection E as <- _. by exists r.
    + left. revert E. apply reads_bind; [|intros _; apply poll_start_fresh].
      apply keeps_dropping; [apply write_pidfile_keeps|apply keeps_kern].
    + left. by eapply (finish_reads _ (upgrade_broke_mode reason e)).
    + right; left. injection E as <- <-. by exists reason.
  - done.
Qed.

(** *** and what it does to the supervisor's channel *)

Context `{WL : !WatchLaws C R W}.

(** The listeners are told to make way for the child only by a poll that ends with
    an upgrade. *)
Definition polled_chan (c : C) (r : outcome polled) (c' : C) : Prop :=
  match r with
  | Ret (MpDone (Ok (mode, _)), _) => stopped_as c (mode_condition mode) c'
  | Ret (MpDone (Err _), _) | Panic _ | Exit _ =>
    c' = c \/ exists ec, ec <> Upgrade /\ stopped_as c ec c'
  | Ret _ => c' = c
  end.

Lemma polled_bad c r ec c' :
  ec <> Upgrade -> c' = c \/ stopped_as c ec c' ->
  match r with Ret (MpDone (Err _), _) | Panic _ | Exit _ => True | _ => False end ->
  polled_chan c r c'.
Proof.
  intros Hec Hc Hr. destruct r as [[[| | |[]] ?]|msg|x]; try done; cbn;
    (destruct Hc; [by left|right; by exists ec]).
Qed.

Lemma shutdown_ends c msg s :
  chan s = c ->
  ends (polled_chan c)
    (finish (x ← on_shutdown show_io;
             mret match x with Err e => Err e | Ok _ => Err msg end)) s.
Proof.
  intros <-. unfold finish. apply ends_assoc. apply ends_bind; [apply on_shutdown_unstopped| |by left..].
  intros [[]|x] s1 Hc; (eapply ends_ret; [exact Hc|]; by left).
Qed.

Lemma ends_finish_dropping (Q : outcome polled -> C -> Prop) m (d : UM unit) s :
  unstopped d -> ends Q (finish m) s -> ends Q (finish (dropping m d)) s.
Proof.
  intros Hd. unfold ends, finish, dropping, mbind, M_bind, chan.
  destruct (m s) as [[x|msg|z] s1]; cbn; rewrite ?Hd; done.
Qed.

Lemma broke_ends c reason e s :
  chan s = c -> ends (polled_chan c) (finish (upgrade_broke show_io reason e)) s.
Proof.
  intros Hc. apply ends_finish_dropping; [apply keeps_kern|]. by apply shutdown_ends.
Qed.

Lemma begin_upgrade_unstopped : unstopped (begin_upgrade show_io : UM _).
Proof.
  apply keeps_bindq.
  - by apply reloading_keeps.
  - intros _. apply keeps_bind; [apply unstopped_inner|]. intros. apply keeps_ret.
Qed.

Lemma poll_waiting_ends c s : chan s = c -> ends (polled_chan c) (poll_waiting show_io) s.
Proof.
  intros Hc. apply ends_bind; [| |rewrite Hc; by left..].
  { intros [u k]. cbn. by destruct (poll_triggers _ _ _ _) as [? []]. }
  intros p s1 Hc1. rewrite Hc in Hc1. destruct p as [[[reason ec]|e]|].
  - assert (Hstop : forall ec, ec <> Upgrade ->
      ends (polled_chan c) (finish (stop_branch show_io reason ec)) s1).
    { intros ec' Hec. apply (stop_branch_ends show_io (WL := WL)); [done|..]; rewrite Hc1.
      - intros m r s' <- Hs'. eapply ends_ret; [reflexivity|exact Hs'].
      - intros e s' Hs'. eapply ends_ret; [reflexivity|]. by eapply polled_bad.
      - intros msg c' Hs'. by eapply polled_bad.
      - intros x c' Hs'. by eapply polled_bad. }
    destruct ec; [|by apply Hstop..].
    apply ends_bind; [apply keeps_unwinding; [apply begin_upgrade_unstopped|apply keeps_kern]| |rewrite Hc1; by left..].
    intros [fds|e] s2 Hc2; [eapply ends_ret; [exact Hc2|done]|apply broke_ends; congruence].
  - by apply shutdown_ends.
  - by eapply ends_ret.
Qed.

Lemma poll_start_ends c s : chan s = c -> ends (polled_chan c) (poll_start show_io) s.
Proof.
  intros Hc. apply ends_bind; [apply initialize_unstopped| |rewrite Hc; by left..].
  intros [[]|e] s1 Hc1; [apply poll_waiting_ends; congruence|].
  eapply ends_ret; [reflexivity|]. left. congruence.
Qed.

Lemma mon_poll_ends answer pc s :
  ends (polled_chan (chan s)) (mon_poll show_io answer pc) s.
Proof.
  destruct pc as [| |reason|r]; cbn [mon_poll].
  - by apply poll_start_ends.
  - by apply poll_waiting_ends.
  - destruct answer as [[[[]|ue]|e]|].
    + apply ends_finish_dropping; [apply keeps_kern|]. unfold finish. apply ends_assoc.
      apply (ends_quit (WL := WL)); [|by left..]. intros s1 Hs1. eapply ends_ret; [reflexivity|exact Hs1].
    + apply ends_bind; [apply keeps_dropping; [apply unstopped_inner|apply keeps_kern]| |by left..].
      intros x s1 Hc1. by apply poll_start_ends.
    + by apply broke_ends.
    + by eapply ends_ret.
  - by left.
Qed.

Lemma drop_upgrader_unstopped x : unstopped (drop_upgrader x : UM unit).
Proof.
  apply keeps_bind; [apply keeps_self|]. intros u. apply keeps_bind; [apply keeps_kern|]. intros _.
  destruct x as [[[]]|], (up_notifier u); first [apply keeps_ret|apply keeps_kern].
Qed.

(** Dropping the locals changes neither what the poll returns nor the channel. *)
Lemma fut_poll_ret answer pc s x s' :
  fut_poll show_io answer pc s = (Ret x, s') ->
  exists s1, mon_poll show_io answer pc s = (Ret x, s1) /\ chan s' = chan s1.
Proof.
  intros ([pc' sp] & s1 & E1 & E)%run_inv_bind. exists s1. destruct pc' as [| | |r].
  1-3: by injection E as <- <-.
  apply run_inv_bind in E as ([] & s2 & E2 & E). injection E as <- <-. split; [done|].
  pose proof (drop_upgrader_unstopped r s1) as H. rewrite E2 in H. exact H.
Qed.

Lemma drop_triggers_run (l : list (Trigger (W := W) * ExitCondition)) (k : K) :
  exists k', for_each (fun t => drop_trigger t.1) l k = (Ret tt, k').
Proof.
  revert k. induction l as [|[[kind stream|path ss] ec] l IH]; intros k; cbn.
  - by eexists.
  - apply IH.
  - unfold close_fd_quiet, call, mbind, M_bind, mret, M_ret. destruct (sys_close _ k) as [? k1]. apply IH.
Qed.

Lemma drop_upgrader_run x s : exists s', drop_upgrader x s = (Ret tt, s').
Proof.
  destruct s as [u k]. destruct (drop_triggers_run (up_triggers u) k) as [k' E].
  unfold drop_upgrader. rewrite (run_bind _ _ _ u (u, k)) by done.
  rewrite (run_bind _ _ _ tt (u, k')) by (unfold kern; by rewrite E).
  destruct x as [[[]]|], (up_notifier u); try (by eexists);
    unfold kern, close_fd_quiet, call, mbind, M_bind, mret, M_ret; destruct (sys_close _ k'); by eexists.
Qed.

Lemma fut_poll_ends answer pc s :
  ends (polled_chan (chan s)) (fut_poll show_io answer pc) s.
Proof.
  pose proof (mon_poll_ends answer pc s) as H. unfold ends, fut_poll, mbind, M_bind in *.
  destruct (mon_poll show_io answer pc s) as [[[[| | |r] sp]|msg|z] s1]; try exact H.
  pose proof (drop_upgrader_unstopped r s1) as Hc.
  destruct (drop_upgrader_run r s1) as [s2 E]. rewrite E in *. unfold chan in *. cbn in *. by rewrite Hc.
Qed.
End after_poll.

(** ** Witness *)

(** The run of [MonitorSpec] in which an upgrade fails and a stop follows, as
    polls. *)
Lemma polls_are_monitor_witness :
  polls show_error idle_app failing_thread 10 (both_hup, signalled) = hup_run /\
  hup_run.1 = Ret (Some (Ok (ModeFullStop, ReasonSignal 1))).
Proof.
  assert (E : hup_run.1 = Ret (Some (Ok (ModeFullStop, ReasonSignal 1)))) by (vm_compute; reflexivity).
  split; [|exact E].
  refine (proj1 (polls_are_monitor show_error idle_app failing_thread 3 2 0 (both_hup, signalled)) _).
  change (monitor show_error idle_app failing_thread 3 2 (both_hup, signalled)) with hup_run.
  rewrite E. discriminate.
Defined.
