(* ===== verification/Builder.v ===== *)
(** * Builder: [TokioEcdysisBuilder] of [src/tokio_ecdysis/mod.rs]

    The object a program configures before it reports readiness: the triggers
    in the order they are registered, the systemd notifier, and the wrapped
    [TokioEcdysis]. [ready] consumes it: it becomes the upgrader of [Monitor],
    or every descriptor it holds is closed. *)

From S2P Require Import Prelude Text Addr Posix PosixModel Utils Registry RegistrySpec.
From S2P Require Import Bincode Listener Inheriter Executioner Ecdysis EcdysisSpec.
From S2P Require Import Supervisor SystemdSockets TokioEcdysis TokioSpec Monitor MonitorSpec.
Local Open Scope Z_scope.

(** tokio's [signal]: the handler is installed, the result is a stream. *)
Class SignalOps (K : Type) := { signal : Z -> K -> result nat io_error * K }.

Section builder.
Context {K : Type} `{HV : HasView K, FO : FdOps K, PO : PipeOps K, PR : ProcOps K,
  FS : FsOps K, SO : SockOps K, BC : Bincode K, AO : AsyncOps K, RO : ReactorOps K, GO : SignalOps K}.
Context {C R W : Type} `{WO : WatchOps C R W}.
#[local] Notation TE := (TokioEcdysis (C := C) (R := R)).
#[local] Notation TR := (Trigger (W := W)).
#[local] Notation UP := (Upgrader (C := C) (R := R) (W := W)).
Context (show_io : io_error -> string).
Context (debug_var : VarError -> string) (debug_parse : IntErrorKind -> string).

Record TokioEcdysisBuilder : Type := MkBuilder {
  tb_te : TE;
  tb_triggers : list (TR * ExitCondition);
  tb_notifier : option Z
}.

Definition BM (A : Type) : Type := M (TokioEcdysisBuilder * K) A.

Definition set_tb_te (t : TE) (b : TokioEcdysisBuilder) : TokioEcdysisBuilder :=
  MkBuilder t (tb_triggers b) (tb_notifier b).

(** [Deref]: the methods of the wrapped object. *)
Definition on_te {A} (m : M (TE * K) A) : BM A := field tb_te set_tb_te m.

Definition TokioEcdysisBuilder_new (upgrade_signal_kind : Z) : M K (result TokioEcdysisBuilder io_error) :=
  stream ←? call (signal upgrade_signal_kind);
  t ← TokioEcdysis_new;
  mret (Ok (MkBuilder t [(TSignal upgrade_signal_kind stream, Upgrade)] None)).

Definition push_trigger (t : TR) (ec : ExitCondition) : BM unit :=
  b ← self;
  set_self (MkBuilder (tb_te b) (tb_triggers b ++ [(t, ec)]) (tb_notifier b)).

Definition trigger_on_signal (signal_kind : Z) (ec : ExitCondition) : BM (result unit io_error) :=
  stream ←? kern (call (signal signal_kind));
  _ ← push_trigger (TSignal signal_kind stream) ec;
  mret (Ok tt).

Definition stop_on_signal (signal_kind : Z) := trigger_on_signal signal_kind Stop.
Definition partial_stop_on_signal (signal_kind : Z) := trigger_on_signal signal_kind PartialStop.

(** The trigger's stream is the supervised listener of the path. *)
Definition uds_stream (l : StoppableStream (W := W) (St := UnixListener)) : StoppableStream (W := W) (St := Z) :=
  MkStoppableStream (unix_fd (ss_stream l)) (ss_stop l) (ss_rx l) (ss_state l).

Definition trigger_on_socket (listen_path : string) (ec : ExitCondition) : BM (result unit io_error) :=
  l ←? on_te (te_listen_unix Yes listen_path);
  _ ← push_trigger (TUds listen_path (uds_stream l)) ec;
  mret (Ok tt).

Definition upgrade_on_socket (listen_path : string) := trigger_on_socket listen_path Upgrade.
Definition stop_on_socket (listen_path : string) := trigger_on_socket listen_path Stop.
Definition partial_stop_on_socket (listen_path : string) := trigger_on_socket listen_path PartialStop.

Definition tb_set_pid_file (path : string) : BM unit := on_te (inner (set_pid_file path)).

(** A notifier that was there already is replaced, so closed. *)
Definition enable_systemd_notifications : BM (result unit SystemdNotifierError) :=
  n ←? kern SystemdNotifier_new;
  b ← self;
  _ ← match tb_notifier b with Some old => kern (close_fd_quiet old) | None => mret tt end;
  _ ← set_self (MkBuilder (tb_te b) (tb_triggers b) (Some n));
  mret (Ok tt).

(** The upgrader this builder becomes. *)
Definition as_upgrader (b : TokioEcdysisBuilder) : UP :=
  MkUpgrader (tb_te b) (tb_triggers b) (tb_notifier b) [].
Definition of_upgrader (u : UP) (b : TokioEcdysisBuilder) : TokioEcdysisBuilder :=
  MkBuilder (up_te u) (up_triggers u) (up_notifier u).

(** The extension, a [Duration], in microseconds. *)
Definition extend_systemd_timeouts (extension_us : Z) : BM (result unit io_error) :=
  b ← self;
  match tb_notifier b with
  | Some socket => field as_upgrader of_upgrader (notify_extend_timeouts show_io socket extension_us)
  | None => mret (Ok tt)
  end.

Definition tb_read_systemd_sockets : BM (result unit SystemdSocketsReadError) :=
  on_te (read_systemd_sockets debug_var debug_parse).

(** Dropping the parts [ready] took the builder apart into. *)
Definition TokioEcdysisBuilder_drop : BM unit :=
  b ← self;
  _ ← match tb_notifier b with Some socket => kern (close_fd_quiet socket) | None => mret tt end;
  _ ← kern (for_each (fun t => drop_trigger t.1) (tb_triggers b));
  on_te (inner Ecdysis_drop).

Definition tb_ready : BM (result UP io_error) :=
  owning TokioEcdysisBuilder_drop
    (_ ←? on_te (inner ready);
     b ← self;
     mret (Ok (as_upgrader b))).

(** ** Programs that configure a builder *)

Inductive setting : Type :=
| OnSignal (kind : Z) (ec : ExitCondition)
| OnSocket (path : string) (ec : ExitCondition)
| PidFile (path : string)
| Notifications
| ExtendTimeouts (us : Z)
| SystemdSocketsRead.

(** One call; the answer says whether it succeeded. *)
Definition configure1 (x : setting) : BM bool :=
  match x with
  | OnSignal kind ec => r ← trigger_on_signal kind ec; mret (is_ok r)
  | OnSocket path ec => r ← trigger_on_socket path ec; mret (is_ok r)
  | PidFile path => _ ← tb_set_pid_file path; mret true
  | Notifications => r ← enable_systemd_notifications; mret (is_ok r)
  | ExtendTimeouts us => r ← extend_systemd_timeouts us; mret (is_ok r)
  | SystemdSocketsRead => r ← tb_read_systemd_sockets; mret (is_ok r)
  end.

Fixpoint configure (l : list setting) : BM (list bool) :=
  match l with
  | [] => mret []
  | x :: l' => b ← configure1 x; bs ← configure l'; mret (b :: bs)
  end.
End builder.

(** What a trigger waits for, and what a program asked to wait for. *)
Inductive source : Type := FromSignal (kind : Z) | FromSocket (path : string).

Definition source_of {W} (t : Trigger (W := W)) : source :=
  match t with TSignal kind _ => FromSignal kind | TUds path _ => FromSocket path end.

Definition asked (x : setting * bool) : list (source * ExitCondition) :=
  match x with
  | (OnSignal kind ec, true) => [(FromSignal kind, ec)]
  | (OnSocket path ec, true) => [(FromSocket path, ec)]
  | _ => []
  end.
