(* ===== verification/BuilderSpec.v ===== *)
(** * BuilderSpec: what a configured builder becomes

    The triggers of the upgrader are the ones the program registered, in order
    and after the upgrade signal; a builder whose [ready] fails leaves no
    descriptor behind. *)

From S2P Require Import Prelude Text Addr Posix PosixModel Utils Registry RegistrySpec.
From S2P Require Import Bincode Listener Inheriter Executioner Ecdysis EcdysisSpec.
From S2P Require Import Supervisor SystemdSockets TokioEcdysis TokioSpec Monitor MonitorSpec Builder.
Local Open Scope Z_scope.

Section spec.
Context {K : Type} `{HV : HasView K, FO : FdOps K, PO : PipeOps K, PR : ProcOps K,
  FS : FsOps K, SO : SockOps K, BC : Bincode K, AO : AsyncOps K, RO : ReactorOps K, GO : SignalOps K}.
Context {C R W : Type} `{WO : WatchOps C R W}.
Context (show_io : io_error -> string).
Context (debug_var : VarError -> string) (debug_parse : IntErrorKind -> string).
#[local] Notation TB := (TokioEcdysisBuilder (C := C) (R := R) (W := W)).
#[local] Notation UP := (Upgrader (C := C) (R := R) (W := W)).
#[local] Notation configure := (configure show_io debug_var debug_parse).
#[local] Notation configure1 := (configure1 show_io debug_var debug_parse).

Definition sources (l : list (Trigger (W := W) * ExitCondition)) : list (source * ExitCondition) :=
  prod_map source_of id <$> l.

(** A call that leaves the triggers, then [new] is registered. *)
Definition appends {A} (m : M (TB * K) A) (new : A -> list (source * ExitCondition)) : Prop :=
  forall b k r b' k', m (b, k) = (Ret r, (b', k')) ->
    exists ts, tb_triggers b' = tb_triggers b ++ ts /\ sources ts = new r.

Lemma appends_same {A} (m : M (TB * K) A) :
  (forall s, tb_triggers (m s).2.1 = tb_triggers s.1) -> appends m (fun _ => []).
Proof.
  intros H b k r b' k' E. specialize (H (b, k)). rewrite E in H. cbn in H.
  exists []. by rewrite app_nil_r.
Qed.

Lemma appends_ret {A} (x : A) : appends (mret x) (fun _ => []).
Proof. by apply appends_same. Qed.

Lemma appends_kern {A} (m : M K A) : appends (kern m) (fun _ => []).
Proof. apply appends_same. intros [b k]. unfold kern. by destruct (m k). Qed.

Lemma appends_on_te {A} m : appends (on_te (A := A) m) (fun _ => []).
Proof. apply appends_same. intros [b k]. unfold on_te, field. by destruct (m (tb_te b, k)) as [? []]. Qed.

(** The second part may depend on what the first answered. *)
Lemma appends_bind {A B} (m : M (TB * K) A) (f : A -> M (TB * K) B) new1 new :
  appends m new1 -> (forall x, exists new2, appends (f x) new2 /\ forall y, new1 x ++ new2 y = new y) ->
  appends (m ≫= f) new.
Proof.
  intros Hm Hf b k r b' k' (x & [b1 k1] & E1 & E2)%run_inv_bind.
  destruct (Hm _ _ _ _ _ E1) as (ts1 & H1 & S1). destruct (Hf x) as (new2 & Hf2 & Hn).
  destruct (Hf2 _ _ _ _ _ E2) as (ts2 & H2 & S2).
  exists (ts1 ++ ts2). rewrite H2, H1, app_assoc. split; [done|].
  unfold sources in *. by rewrite fmap_app, S1, S2.
Qed.

(** A call that registers [x] when it succeeds. *)
Definition on_ok {A E} (x : source * ExitCondition) (r : result A E) : list (source * ExitCondition) :=
  if is_ok r then [x] else [].

Lemma appends_then_push {A} (m : M (TB * K) (result A io_error)) (mk : A -> Trigger (W := W)) ec src :
  appends m (fun _ => []) -> (forall x, source_of (mk x) = src) ->
  appends (x ←? m; _ ← push_trigger (mk x) ec; mret (Ok tt)) (on_ok (src, ec)).
Proof.
  intros Hm Hmk b k r b' k' H. unfold bindq in H.
  apply run_inv_bind in H as ([x|e] & [b1 k1] & E1 & E2); destruct (Hm _ _ _ _ _ E1) as (ts & H1 & S1).
  - injection E2 as <- <- <-. cbn. exists (ts ++ [(mk x, ec)]). rewrite H1, app_assoc. split; [done|].
    unfold sources in *. rewrite fmap_app, S1. cbn. unfold prod_map. cbn. by rewrite Hmk.
  - injection E2 as <- <- <-. by exists ts.
Qed.

Lemma enable_appends : appends enable_systemd_notifications (fun _ => []).
Proof.
  eapply appends_bind; [apply appends_kern|]. intros [n|e]; [|eexists; split; [apply appends_ret|done]].
  exists (fun _ => []). split; [|done]. apply appends_same. intros [b k].
  unfold mbind, M_bind, kern. cbn. destruct (tb_notifier b); [|done].
  by destruct (close_fd_quiet z k) as [[] ?].
Qed.

Lemma extend_appends us : appends (extend_systemd_timeouts show_io us) (fun _ => []).
Proof.
  apply appends_same. intros [b k]. unfold extend_systemd_timeouts.
  rewrite (run_bind _ _ (b, k) b (b, k)) by done. destruct (tb_notifier b) as [socket|]; [|done].
  assert (Hk : keeps (K := K) (up_triggers (C := C) (R := R) (W := W)) (notify_extend_timeouts show_io socket us)).
  { apply keeps_bindq; [apply keeps_ret|]. intros us'. apply keeps_bind; [apply keeps_kern|].
    intros [x|e]; [|apply keeps_ret]. intros [u k']. done. }
  specialize (Hk (as_upgrader b, k)). unfold field.
  by destruct (notify_extend_timeouts _ _ _ _) as [? []].
Qed.

(** A call whose answer is only looked at for success. *)
Lemma appends_is_ok {A E} (m : M (TB * K) (result A E)) new :
  appends m (fun r => new (is_ok r)) -> appends (r ← m; mret (is_ok r)) new.
Proof.
  intros Hm. intros b k r b' k' (x & [b1 k1] & E1 & E2)%run_inv_bind. injection E2 as <- <- <-.
  by apply Hm in E1.
Qed.

Lemma configure1_appends x : appends (configure1 x) (fun r => asked (x, r)).
Proof.
  destruct x; cbn [Builder.configure1].
  - apply appends_is_ok, appends_then_push; [apply appends_kern|done].
  - apply appends_is_ok, (appends_then_push _ (fun l => TUds path (uds_stream l))); [apply appends_on_te|done].
  - eapply appends_bind; [apply appends_on_te|]. intros []. eexists. split; [apply appends_ret|done].
  - apply appends_is_ok, enable_appends.
  - apply appends_is_ok, extend_appends.
  - apply appends_is_ok, appends_on_te.
Qed.

Lemma configure_appends l : appends (configure l) (fun rs => mjoin (asked <$> zip l rs)).
Proof.
  induction l as [|x l IH]; cbn [Builder.configure]; [apply appends_ret|].
  intros b k rs b' k' (r & [b1 k1] & E1 & E2)%run_inv_bind.
  apply run_inv_bind in E2 as (rs' & [b2 k2] & E2 & E3). injection E3 as <- <- <-.
  apply configure1_appends in E1 as (ts1 & H1 & S1). apply IH in E2 as (ts2 & H2 & S2).
  exists (ts1 ++ ts2). rewrite H2, H1, app_assoc. split; [done|]. cbn.
  unfold sources in *. by rewrite fmap_app, S1, S2.
Qed.

Lemma new_triggers kind k (b : TB) k' :
  TokioEcdysisBuilder_new kind k = (Ret (Ok b), k') ->
  exists stream, tb_triggers b = [(TSignal kind stream, Upgrade)] /\ tb_notifier b = None.
Proof.
  unfold TokioEcdysisBuilder_new, bindq. intros (r & k1 & E1 & E2)%run_inv_bind.
  destruct r as [stream|e]; [|done]. apply run_inv_bind in E2 as (t & k2 & _ & E2).
  injection E2 as <- <-. by exists stream.
Qed.

Lemma tb_ready_ok (b b' : TB) k (up : UP) k' :
  tb_ready (b, k) = (Ret (Ok up), (b', k')) ->
  up_triggers up = tb_triggers b /\ up_notifier up = tb_notifier b /\ up_sent up = [].
Proof.
  unfold tb_ready, owning. destruct (bindq _ _ _) as [[[x|e]| |] s1] eqn:E; intros H; simplify_eq.
  unfold bindq in E. apply run_inv_bind in E as (r & [b1 k1] & E1 & E2).
  destruct r as [x|e]; [|done]. injection E2 as <- <- <-. cbn.
  unfold on_te, field in E1. by destruct (inner ready _) as [? []]; simplify_eq/=.
Qed.

(** C26. The future waits for what the program registered: the triggers of the
    upgrader [ready] returns are the upgrade signal given to [new] and then, in
    the order of the calls, the sources of those registrations that succeeded,
    each with its own condition, whatever other calls configured the builder in
    between; and while that upgrade signal is pending, a poll answers with an
    upgrade, whatever else is ready. *)
Theorem triggers_as_registered (kind : Z) (l : list setting) (k k1 k2 k3 : K)
    (b b' b'' : TB) (outs : list bool) (up : UP) :
  TokioEcdysisBuilder_new kind k = (Ret (Ok b), k1) ->
  configure l (b, k1) = (Ret outs, (b', k2)) ->
  tb_ready (b', k2) = (Ret (Ok up), (b'', k3)) ->
  exists stream rest, up_triggers up = (TSignal kind stream, Upgrade) :: rest /\
    sources rest = mjoin (asked <$> zip l outs) /\
    forall c k4 k5, signal_next stream k4 = (Ready (Some tt), k5) ->
      poll_triggers show_io (up_triggers up) c k4 =
        (Ret (Ready (Ok (TrSignal kind, Upgrade))), (up_triggers up, k5)).
Proof.
  intros (stream & Hb & _)%new_triggers (rest & Hr & Hs)%configure_appends (Hu & _ & _)%tb_ready_ok.
  exists stream, rest. rewrite Hu, Hr, Hb. peel 2.
  intros c k4 k5 E. cbn. by rewrite E.
Qed.
End spec.

(** ** Failing [ready] *)

Section failure.
Context {K : Type} `{HV : HasView K, FO : FdOps K, FL : !FdLaws K, PO : PipeOps K,
  PL : !PipeLaws K, PR : ProcOps K, FS : FsOps K, FSL : !FsLaws K,
  SO : SockOps K, BC : Bincode K, AO : AsyncOps K, RO : ReactorOps K, GO : SignalOps K}.
Context {C R W : Type} `{WO : WatchOps C R W}.
#[local] Notation TB := (TokioEcdysisBuilder (C := C) (R := R) (W := W)).
#[local] Notation UP := (Upgrader (C := C) (R := R) (W := W)).

Definition listener_fd (t : Trigger (W := W)) : list Z :=
  match t with TSignal _ _ => [] | TUds _ l => [ss_stream l] end.

Definition trigger_fds (l : list (Trigger (W := W) * ExitCondition)) : list Z :=
  mjoin ((fun x => listener_fd x.1) <$> l).

(** The descriptors a builder holds. *)
Definition owned (b : TB) : list Z :=
  option_list (tb_notifier b) ++ trigger_fds (tb_triggers b) ++ object_fds (te_inner (tb_te b)).

(** From [k] to [k'] exactly the descriptors [l] have gone from the table. *)
Definition gone (l : list Z) (k k' : K) : Prop :=
  forall fd, fds k' !! fd = if decide (fd ∈ l) then None else fds k !! fd.

(** And nothing was written to a pipe. *)
Definition closes (l : list Z) (k k' : K) : Prop :=
  gone l k k' /\ v_written (view k') = v_written (view k).

Lemma gone_app l1 l2 k k1 k2 : gone l1 k k1 -> gone l2 k1 k2 -> gone (l1 ++ l2) k k2.
Proof.
  intros H1 H2 fd. rewrite H2, H1. destruct (decide (fd ∈ l1 ++ l2)) as [Hin|Hin];
    rewrite elem_of_app in Hin; repeat case_decide; naive_solver.
Qed.

Lemma gone_equiv l1 l2 k k' : (forall fd, fd ∈ l1 <-> fd ∈ l2) -> gone l1 k k' -> gone l2 k k'.
Proof. intros Hl H fd. rewrite H. repeat case_decide; naive_solver. Qed.

Lemma closes_nil k : closes [] k k.
Proof. split; [|done]. intros fd. by rewrite decide_False by apply not_elem_of_nil. Qed.

Lemma closes_app l1 l2 k k1 k2 : closes l1 k k1 -> closes l2 k1 k2 -> closes (l1 ++ l2) k k2.
Proof. intros [H1 W1] [H2 W2]. split; [by eapply gone_app|congruence]. Qed.

Lemma closes_equiv l1 l2 k k' : (forall fd, fd ∈ l1 <-> fd ∈ l2) -> closes l1 k k' -> closes l2 k k'.
Proof. intros Hl [H W']. split; [by eapply gone_equiv|done]. Qed.

Lemma closes_foldr (l : list ListenerInfo) k k' :
  view k' = set_fds (foldr (fun li t => delete (li_fd li) t) (fds k) l) (view k) ->
  closes (li_fd <$> l) k k'.
Proof.
  intros V. split; [|by rewrite V]. intros fd. by rewrite (fds_set_fds _ _ _ V), foldr_delete_lookup.
Qed.

Lemma close_closes fd k : exists k', close_fd_quiet fd k = (Ret tt, k') /\ closes [fd] k k'.
Proof.
  destruct (close_fd_quiet_run fd k) as (k' & E & V). exists k'. split; [done|].
  split; [|by rewrite V]. intros x.
  rewrite (fds_set_fds _ _ _ V), lookup_delete. repeat case_decide; set_solver.
Qed.

(** Dropping an optional descriptor of an object. *)
Lemma close_option_closes {O} (o : option Z) (x : O) k :
  exists k', match o with Some fd => kern (close_fd_quiet fd) | None => mret tt end (x, k) =
      (Ret tt, (x, k')) /\ closes (option_list o) k k'.
Proof.
  destruct o as [fd|]; [|exists k; split; [done|apply closes_nil]].
  destruct (close_closes fd k) as (k' & E & H). exists k'. split; [by apply run_kern|done].
Qed.

Lemma drop_triggers_closes l k :
  exists k', for_each (fun x => drop_trigger x.1) l k = (Ret tt, k') /\ closes (trigger_fds l) k k'.
Proof.
  revert k. induction l as [|[[kind st|path s] ec] l IH]; intros k; cbn.
  - exists k. split; [done|apply closes_nil].
  - apply IH.
  - destruct (close_closes (ss_stream s) k) as (k1 & E1 & H1). destruct (IH k1) as (k2 & E2 & H2).
    exists k2. rewrite (run_bind _ _ _ _ _ E1). split; [done|].
    by apply (closes_app [_] _ _ _ _ H1).
Qed.

Lemma Ecdysis_drop_closes e k i u :
  registry e = live i u ->
  exists s', Ecdysis_drop (e, k) = (Ret tt, s') /\ closes (object_fds e) k s'.2.
Proof.
  intros Hr. destruct (close_used_run i u k) as (k1 & E1 & V1).
  destruct (close_inherited_run i [] k1) as (k2 & E2 & V2).
  assert (Ed : reg_drop (registry e, k) = (Ret tt, (live [] [], k2))).
  { rewrite Hr. unfold reg_drop. by rewrite (run_bind _ _ _ _ _ E1). }
  apply in_registry_run in Ed. unfold Ecdysis_drop. rewrite (run_bind _ _ _ _ _ Ed).
  set (e' := set_registry (live [] []) e). rewrite (run_bind _ _ (e', k2) e' (e', k2)) by done.
  destruct (close_option_closes (ready_notifier e) e' k2) as (k3 & E3 & H3).
  exists (e', k3). split; [done|]. unfold object_fds. rewrite Hr. eapply closes_app; [|exact H3].
  cbn. eapply closes_equiv; [|eapply closes_app; apply closes_foldr; [exact V1|exact V2]].
  intros fd. rewrite fmap_app, !elem_of_app. tauto.
Qed.

Lemma builder_drop_closes (b : TB) k i u :
  registry (te_inner (tb_te b)) = live i u ->
  exists s', TokioEcdysisBuilder_drop (b, k) = (Ret tt, s') /\ closes (owned b) k s'.2.
Proof.
  intros Hr. unfold TokioEcdysisBuilder_drop. rewrite (run_bind _ _ (b, k) b (b, k)) by done.
  destruct (close_option_closes (tb_notifier b) b k) as (k1 & E1 & H1).
  destruct (drop_triggers_closes (tb_triggers b) k1) as (k2 & E2 & H2).
  destruct (Ecdysis_drop_closes _ k2 i u Hr) as ([e3 k3] & E3 & H3).
  rewrite (run_bind _ _ _ _ _ E1), (run_bind _ _ _ _ _ (run_kern _ b _ _ _ E2)).
  exists (set_tb_te (set_inner e3 (tb_te b)) b, k3). split; [by apply run_field, run_inner|].
  eapply closes_app; [exact H1|]. eapply closes_app; [exact H2|exact H3].
Qed.

Lemma run_on_ready (b : TB) k r e' k' :
  ready (te_inner (tb_te b), k) = (r, (e', k')) ->
  on_te (inner ready) (b, k) = (r, (set_tb_te (set_inner e' (tb_te b)) b, k')).
Proof. intros E. by apply run_field, run_inner. Qed.

(** What [ready] closed before it failed, and what the drop closes then. *)
Lemma owned_after_ready (b : TB) e' l k k1 k2 :
  gone l k k1 -> gone (owned (set_tb_te (set_inner e' (tb_te b)) b)) k1 k2 ->
  (forall fd, fd ∈ l ++ object_fds e' <-> fd ∈ object_fds (te_inner (tb_te b))) ->
  gone (owned b) k k2.
Proof.
  intros H1 H2 Hl. eapply gone_equiv; [|by eapply gone_app].
  intros fd. specialize (Hl fd). unfold owned. cbn. rewrite !elem_of_app in *. tauto.
Qed.

(** C27. [ready] of the builder in a child: either the parent has been told, once,
    and the builder's triggers and notifier live on in the upgrader with the
    object as [Ecdysis::ready] left it; or it fails or panics, and then exactly
    the descriptors the builder held (its notifier, its triggers' listeners,
    every socket of the registry, the pipe to the parent) are closed and all
    others untouched; if it panicked the parent has been told nothing. *)
Theorem builder_ready_spec (a : ARegistry) (b : TB) (k : K) (w : Z) (d : N) :
  ecdysis_at a (te_inner (tb_te b), k) -> holds_notifier w d (te_inner (tb_te b), k) ->
  (exists (up : UP) b' k', tb_ready (b, k) = (Ret (Ok up), (b', k')) /\
     up_triggers up = tb_triggers b /\ up_notifier up = tb_notifier b /\
     ready_done a (te_inner (tb_te b)) k w d (Ok tt) (te_inner (up_te up), k')) \/
  (exists o s', tb_ready (b, k) = (o, s') /\ gone (owned b) k s'.2 /\
     ((exists err, o = Ret (Err err)) \/
      (exists msg, o = Panic msg /\ v_written (view s'.2) = v_written (view k)))).
Proof.
  intros Hat Hn. pose proof Hat as (i & u & Hr & _). cbn in Hr.
  pose proof Hn as (Hw & _ & _). cbn in Hw. unfold tb_ready.
  destruct (ready_cases a _ k w d i u Hat Hn Hr)
    as [([[]|err] & [e1 k1] & E & Hreg & Hd)|(msg & k1 & path & E & _ & Hwr & T)];
    apply run_on_ready in E; [left|right..].
  - set (b1 := set_tb_te (set_inner e1 (tb_te b)) b) in *. exists (as_upgrader b1), b1, k1.
    split; [|done]. apply run_owning_ok. rewrite (run_bindq_ok _ _ _ _ _ E). done.
  - destruct (builder_drop_closes (set_tb_te (set_inner e1 (tb_te b)) b) k1 [] u Hreg) as (s2 & E2 & H2 & _).
    destruct Hd as (Hnone & _ & Ht & _). cbn in Hnone.
    exists (Ret (Err err)), s2. split; [|split; [|by left; eexists]].
    { erewrite run_owning_err; [by rewrite E2|]. by rewrite (run_bindq_err _ _ _ _ _ E). }
    apply (owned_after_ready b e1 (w :: (li_fd <$> i)) k k1); [|done|].
    + intros fd. cbn in Ht. rewrite (Ht i u fd Hr). repeat case_decide; set_solver.
    + intros fd. unfold object_fds. cbn in Hreg. rewrite Hreg, Hr, Hnone, Hw. cbn.
      rewrite fmap_app. set_solver.
  - set (e1 := set_registry (live [] u) (te_inner (tb_te b))) in *.
    destruct (builder_drop_closes (set_tb_te (set_inner e1 (tb_te b)) b) k1 [] u eq_refl) as (s2 & E2 & H2 & W2).
    exists (Panic msg), s2. split; [|split; [|right; exists msg; split; congruence]].
    { unfold owning. by rewrite (run_bindq_panic _ _ _ _ _ E), E2. }
    apply (owned_after_ready b e1 (li_fd <$> i) k k1); [|done|].
    + intros fd. by rewrite T, foldr_delete_lookup.
    + intros fd. unfold object_fds. rewrite Hr. cbn. rewrite fmap_app. set_solver.
Qed.
End failure.

(** ** Witnesses *)

#[export] Instance model_signals : SignalOps model := {| signal kind m := (Ok (Z.to_nat kind), m) |}.

#[local] Notation Chan := (RunState * nat * bool)%type.

Definition plain_builder : TokioEcdysisBuilder (C := Chan) (R := nat) (W := option nat) :=
  MkBuilder (MkTokio (MkSup 0%nat None) (None, 0%nat, true) (MkEcdysis reg_new None None false) None)
    [(TSignal 1 1, Upgrade)] None.

(** SIGTERM and a socket to stop, no systemd, a pidfile. *)
Definition settings : list setting :=
  [OnSignal 15 Stop; Notifications; OnSocket "/run/stop" Stop; PidFile "./pidfile"].

Definition configured :=
  configure show_error (fun _ => "") (fun _ => "") settings (plain_builder, boot ∅ ∅).
Definition readied := tb_ready configured.2.

Lemma new_plain : TokioEcdysisBuilder_new 1 (boot ∅ ∅) = (Ret (Ok plain_builder), boot ∅ ∅).
Proof. vm_compute. reflexivity. Qed.

Lemma configured_outcome : configured.1 = Ret [true; false; true; true].
Proof. vm_compute. reflexivity. Qed.

Lemma readied_ok : match readied.1 with Ret (Ok _) => True | _ => False end.
Proof. vm_compute. exact I. Qed.

Lemma triggers_as_registered_witness :
  exists up s stream rest, readied = (Ret (Ok up), s) /\
    up_triggers up = (TSignal 1 stream, Upgrade) :: rest /\
    sources rest = [(FromSignal 15, Stop); (FromSocket "/run/stop", Stop)].
Proof.
  pose proof configured_outcome as H2. pose proof readied_ok as H3. unfold readied in *.
  destruct configured as [o [b2 k2]] eqn:E2. cbn in H2, H3. subst o. cbn.
  destruct (tb_ready (b2, k2)) as [[[up|err]| |] [b3 k3]] eqn:E3; try done.
  destruct (triggers_as_registered show_error (fun _ => "") (fun _ => "") 1 settings _ _ _ _ _ _ _ _ _
    new_plain E2 E3) as (stream & rest & Ht & Hs & _).
  by exists up, (b3, k3), stream, rest.
Defined.

Definition child_builder : TokioEcdysisBuilder (C := Chan) (R := nat) (W := option nat) :=
  MkBuilder (MkTokio (MkSup 0%nat None) (None, 0%nat, true) child_object None)
    [(TSignal 1 1, Upgrade)] None.

Lemma builder_ready_spec_witness :
  exists up b k, tb_ready (child_builder, child_os) = (Ret (Ok up), (b, k)) /\
    up_triggers up = [(TSignal 1 1, Upgrade)].
Proof.
  destruct (builder_ready_spec _ child_builder child_os _ _ child_object_at child_holds_notifier)
    as [(up & b & k & E & Ht & _)|(o & s & E & _ & Ho)].
  - by exists up, b, k.
  - exfalso. revert E. destruct Ho as [[err ->]|(msg & -> & _)]; by vm_compute.
Defined.
