(* ===== verification/Lifecycle.v ===== *)
(** * Lifecycle: the monitor and the upgrade it runs, together

    [Monitor] leaves open what the thread running [executioner::upgrade] answers;
    here it is an interleaving of the threads of [UpgradeThreads], chosen by an
    arbitrary scheduler. *)

From S2P Require Import Prelude Text Addr Posix PosixModel Utils Registry RegistrySpec.
From S2P Require Import Bincode Listener Inheriter Executioner Ecdysis EcdysisSpec.
From S2P Require Import UpgradeThreads UpgradeSpec.
From S2P Require Import Supervisor SystemdSockets TokioEcdysis TokioSpec Monitor MonitorSpec MonitorTask.
Local Open Scope Z_scope.

(** ** Where an upgrade's exit comes from *)

Section exit.
Context {K : Type} `{HV : HasView K, FO : FdOps K, PO : PipeOps K, PR : ProcOps K,
  FS : FsOps K, SO : SockOps K, BC : Bincode K, AO : AsyncOps K, RO : ReactorOps K}.
Context {C R W : Type} `{WO : WatchOps C R W}.
#[local] Notation TE := (TokioEcdysis (C := C) (R := R)).
#[local] Notation UP := (Upgrader (C := C) (R := R) (W := W)).
Context (show_io : io_error -> string) (idle : TE * K -> TE * K).
Context (upgrade_thread : list ListenerInfo -> K -> result (result unit (UpgradeError K)) string * K).

(** The thread answered [Ok]. *)
Definition thread_succeeded : Prop :=
  exists l k1 k2, upgrade_thread l k1 = (Ok (Ok tt), k2).

Lemma up_upgrade_ok (s s' : UP * K) :
  up_upgrade show_io idle upgrade_thread s = (Ret (Ok (Ok tt)), s') -> thread_succeeded.
Proof.
  unfold up_upgrade, bindq. intros ([x|e] & s1 & _ & E)%run_inv_bind; [|done].
  apply run_inv_bind in E as (l & [u2 k2] & _ & E).
  apply run_inv_bind in E as (r & [u4 k4] & E4 & E). unfold kern, call in E4.
  destruct (upgrade_thread l k2) as [r' k5] eqn:E5. simplify_eq.
  apply run_inv_bind in E as (_ & s6 & _ & E). injection E as -> _.
  by exists l, k2, k4.
Qed.

Lemma run_unwinding_ret {S A} (d : M S unit) (m : M S A) s x s' :
  unwinding d m s = (Ret x, s') -> m s = (Ret x, s').
Proof. unfold unwinding. destruct (m s) as [[] ?]; by intros [= <- <-]. Qed.

Lemma run_dropping_inv {S A} (m : M S A) (d : M S unit) s x s' :
  dropping m d s = (Ret x, s') -> exists s1, m s = (Ret x, s1).
Proof. unfold dropping. destruct (m s) as [[] s1]; intros [= <- <-]. by exists s1. Qed.

Lemma monitor_upgrade_exit n w (s s' : UP * K) r :
  monitor show_io idle upgrade_thread n w s = (Ret (Some (Ok (ModeUpgrade, r))), s') ->
  thread_succeeded.
Proof.
  revert s. induction n as [|n IH]; intros s; cbn [monitor]; [done|].
  intros ([[]|e] & s1 & _ & E)%run_inv_bind; [|done].
  apply run_inv_bind in E as ([[[reason ec]|e]|] & s2 & _ & E); [|apply run_inv_bind in E as ([] & ? & _ & E); done|done].
  destruct ec.
  - apply run_inv_bind in E as (q & s3 & E3%run_unwinding_ret & E).
    destruct q as [[[]|e]|e]; [by eapply up_upgrade_ok| |].
    + apply run_inv_bind in E as (y & s4 & _ & E). by eapply IH.
    + apply run_dropping_inv in E as (s4 & E4). apply run_inv_bind in E4 as ([] & ? & _ & E4); done.
  - apply run_inv_bind in E as (x & s3 & E3 & E). injection E as -> <-. by apply stop_branch_not_upgrade in E3.
  - apply run_inv_bind in E as (x & s3 & E3 & E). injection E as -> <-. by apply stop_branch_not_upgrade in E3.
Qed.
End exit.

(** ** With the threads *)

Section lifecycle.
Context {K : Type} `{HV : HasView K, FO : FdOps K, PO : PipeOps K, PR : ProcOps K,
  FS : FsOps K, SO : SockOps K, BC : Bincode K, AO : AsyncOps K, RO : ReactorOps K}.
Context {C R W : Type} `{WO : WatchOps C R W}.
#[local] Notation TE := (TokioEcdysis (C := C) (R := R)).
#[local] Notation UP := (Upgrader (C := C) (R := R) (W := W)).
Context (show_io : io_error -> string) (idle : TE * K -> TE * K).
Context (capacity : nat).
Context (sched : list ListenerInfo -> K -> list (action (K := K)) * nat * K).

(** What a call of [upgrade] returned, if it has. *)
Definition returned (j : job (K := K)) : option (result unit (UpgradeError K)) :=
  match j_main j with
  | MDone r => Some r
  | MRefused => Some (Err (NotStarted "Already in upgrade"))
  | MFailed e => Some (Err e)
  | _ => None
  end.

(** The thread of [TokioEcdysisUpgrader::upgrade]: the scheduler gives the run of
    the process' upgrade calls, which of them is this one, and the operating
    system afterwards. A call that has not returned by the end of the run stands
    for a thread that ended without sending an answer. *)
Definition scheduled (fds : list ListenerInfo) (k : K) :
    result (result unit (UpgradeError K)) string * K :=
  let '(tr, i, k') := sched fds k in
  (match (s ← run capacity tr booted; j ← jobs s !! i; returned j) with
   | Some r => Ok r
   | None => Err "channel closed"
   end, k').

Lemma scheduled_ok fds k k' :
  scheduled fds k = (Ok (Ok tt), k') ->
  exists tr i s j, sched fds k = (tr, i, k') /\ run capacity tr booted = Some s /\
    jobs s !! i = Some j /\ j_main j = MDone (Ok tt).
Proof.
  unfold scheduled, returned. destruct (sched fds k) as [[tr i] k1].
  destruct (run capacity tr booted) as [s|] eqn:E; cbn; [|done].
  destruct (jobs s !! i) as [j|] eqn:Hj; cbn; [|done].
  destruct (j_main j) eqn:Hm; try done. intros [= -> <-]. by exists tr, i, s, j.
Qed.

(** The process hands over only to a child that is ready: if the future ends
    with an upgrade, then under whatever schedule the threads of its upgrade
    calls ran, the child of the call it waited for wrote "OK" to the ready pipe
    first, and the parent did not kill it. ([Service] says which sockets it was
    given.) *)
Theorem exits_only_for_ready_child (n w : nat) (s s' : UP * K) (r : ExitReason) :
  monitor show_io idle scheduled n w s = (Ret (Some (Ok (ModeUpgrade, r))), s') ->
  exists l k1 k2 tr i final j, sched l k1 = (tr, i, k2) /\
    run capacity tr booted = Some final /\ jobs final !! i = Some j /\
    (exists rest, p_wrote (j_proc j) = "OK" +:+ rest) /\ p_killed (j_proc j) = false.
Proof.
  intros (l & k1 & k2 & Et)%monitor_upgrade_exit.
  destruct (scheduled_ok _ _ _ Et) as (tr & i & final & j & Es & Er & Hj & Hm).
  destruct (done_ok_child capacity final i j) as (_ & _ & Hw & Hk); [by exists tr|done..|].
  by exists l, k1, k2, tr, i, final, j.
Qed.
End lifecycle.

(** ** Witness *)

#[local] Notation Chan := (RunState * nat * bool)%type.

(** The child reports at once, and the call goes to its end half a second later. *)
Definition prompt_trace : list (action (K := model)) :=
  prompt_child ++ [Tick 500] ++
  [watch; watch; watch; watch; Act 0 (Send false ChildExit); caller 0; caller 0].

Definition prompt_schedule (l : list ListenerInfo) (m : model) : list (action (K := model)) * nat * model :=
  (prompt_trace, 0%nat, m).

Definition upgrade_run :=
  monitor show_error idle_app (scheduled 4 prompt_schedule) 3 2 (both_hup, signalled).

Lemma upgrade_run_outcome : upgrade_run.1 = Ret (Some (Ok (ModeUpgrade, ReasonSignal 1))).
Proof. vm_compute. reflexivity. Qed.

Lemma exits_only_for_ready_child_witness :
  exists final j, run 4 prompt_trace booted = Some final /\
    jobs final !! 0%nat = Some j /\ p_killed (j_proc j) = false.
Proof.
  pose proof upgrade_run_outcome as H. destruct upgrade_run as [o s'] eqn:E. cbn in H. subst o.
  destruct (exits_only_for_ready_child _ _ _ _ _ _ _ _ _ E)
    as (l & k1 & k2 & tr & i & final & j & Es & Er & Hj & _ & Hk).
  unfold prompt_schedule in Es. apply pair_equal_spec in Es as [Es _].
  apply pair_equal_spec in Es as [<- <-].
  exists final, j. split; [exact Er|]. split; [exact Hj|exact Hk].
Defined.
