(* ===== verification/IpParse.v ===== *)
(** * IpParse: [IpAddr::from_str] of [std]

    The parser of [std::net] the example server's start-up goes through, on a
    string's bytes. A parser either consumes a prefix and returns the rest, or
    leaves the input alone ([read_atomically]). *)

From S2P Require Import Prelude Text Addr.
From Stdlib Require Import Ascii.
Local Open Scope Z_scope.

Inductive IpAddr : Type := Ip4 (bits : Z) | Ip6 (bits : Z).

#[export] Instance IpAddr_eq_dec : EqDecision IpAddr.
Proof. solve_decision. Defined.

Definition is_ipv6 (ip : IpAddr) : bool := match ip with Ip4 _ => false | Ip6 _ => true end.

(** [SocketAddr::new] *)
Definition socket_addr (ip : IpAddr) (port : Z) : SocketAddr :=
  match ip with Ip4 a => V4 a port | Ip6 a => V6 a port 0 0 end.

Definition parser (A : Type) : Type := string -> option (A * string).

(** [char::to_digit] *)
Definition to_digit (radix : Z) (c : ascii) : option Z :=
  let n := Z.of_nat (nat_of_ascii c) in
  let v := if (48 <=? n) && (n <=? 57) then Some (n - 48)
           else if (97 <=? n) && (n <=? 122) then Some (n - 87)
           else if (65 <=? n) && (n <=? 90) then Some (n - 55) else None in
  d ← v; if d <? radix then Some d else None.

(** As many digits as there are; more than [room] of them are an error. The
    answer carries how many were read. *)
Fixpoint read_digits (radix : Z) (room : nat) (s : string) (acc : Z) (count : nat) :
    option (Z * nat * string) :=
  match s with
  | EmptyString => Some (acc, count, s)
  | String c s' =>
    match to_digit radix c with
    | None => Some (acc, count, s)
    | Some d =>
      match room with
      | O => None
      | S room' => read_digits radix room' s' (acc * radix + d) (S count)
      end
    end
  end.

Definition read_number (radix : Z) (max_digits : nat) (allow_zero_prefix : bool) (hi : Z) : parser Z :=
  fun s =>
    '(v, count, rest) ← read_digits radix max_digits s 0 0;
    if bool_decide (count = 0%nat) then None
    else if negb allow_zero_prefix && bool_decide (String.get 0 s = Some "0"%char) && (1 <? Z.of_nat count)
    then None
    else if v <=? hi then Some (v, rest) else None.

(** [read_separator]: no separator before the first item. *)
Definition read_separator {A} (sep : ascii) (index : nat) (p : parser A) : parser A :=
  fun s =>
    match index, s with
    | O, _ => p s
    | S _, String c s' => if bool_decide (c = sep) then p s' else None
    | S _, EmptyString => None
    end.

Definition read_ipv4_addr : parser Z := fun s =>
  let octet i := read_separator "." i (read_number 10 3 false 255) in
  '(a, s) ← octet 0%nat s;
  '(b, s) ← octet 1%nat s;
  '(c, s) ← octet 2%nat s;
  '(d, s) ← octet 3%nat s;
  Some (((a * 256 + b) * 256 + c) * 256 + d, s).

(** [read_groups] into the [left] remaining groups, the next of which is number
    [i]; the flag says that an IPv4 address ended them. *)
Fixpoint read_groups (left i : nat) (s : string) : list Z * bool * string :=
  match left with
  | O => ([], false, s)
  | S left' =>
    match (if bool_decide (left' = 0%nat) then None else read_separator ":" i read_ipv4_addr s) with
    | Some (a, s') => ([a / 65536; a mod 65536], true, s')
    | None =>
      match read_separator ":" i (read_number 16 4 true 65535) s with
      | Some (g, s') => let '(gs, v4, s2) := read_groups left' (S i) s' in (g :: gs, v4, s2)
      | None => ([], false, s)
      end
    end
  end.

Definition groups_bits (gs : list Z) : Z := foldl (fun acc g => acc * 65536 + g) 0 gs.

Definition read_ipv6_addr : parser Z := fun s =>
  let '(head, head_ipv4, s) := read_groups 8 0 s in
  if bool_decide (length head = 8%nat) then Some (groups_bits head, s)
  else if (head_ipv4 : bool) then None
  else
    match s with
    | String c (String c' s) =>
      if bool_decide (c = ":"%char /\ c' = ":"%char) then
        let '(tail, _, s) := read_groups (7 - length head) 0 s in
        Some (groups_bits (head ++ replicate (8 - length head - length tail) 0 ++ tail), s)
      else None
    | _ => None
    end.

(** [read_ip_addr], and nothing may be left over. *)
Definition ip_from_str (s : string) : option IpAddr :=
  match (match read_ipv4_addr s with
         | Some (a, rest) => Some (Ip4 a, rest)
         | None => '(a, rest) ← read_ipv6_addr s; Some (Ip6 a, rest)
         end) with
  | Some (ip, EmptyString) => Some ip
  | _ => None
  end.

Example ip_examples :
  ip_from_str "0.0.0.0" = Some (Ip4 0) /\ ip_from_str "127.0.0.1" = Some (Ip4 (127 * 2 ^ 24 + 1)) /\
  ip_from_str "::1" = Some (Ip6 1) /\ ip_from_str "[::1]" = None /\
  ip_from_str "1:2:3:4:5:6:7:8" = Some (Ip6 (groups_bits [1; 2; 3; 4; 5; 6; 7; 8])) /\
  ip_from_str "::ffff:1.2.3.4" = Some (Ip6 (groups_bits [0; 0; 0; 0; 0; 65535; 258; 772])) /\
  ip_from_str "1::2::3" = None /\ ip_from_str "01.2.3.4" = None /\ ip_from_str "256.1.1.1" = None /\
  ip_from_str "1.2.3" = None /\ ip_from_str "" = None /\ ip_from_str "fe80::A" = Some (Ip6 (65152 * 2 ^ 112 + 10)).
Proof. by vm_compute. Qed.
