(* ===== verification/Echo.v ===== *)
(** * Echo: [examples/tokio_echo.rs], the echo server built on the library

    Start-up ([main] up to [ready]): the reload counter kept in the environment,
    the builder with its triggers, the TCP listener and the socket from systemd.
    Then serving: the accept loops, one task per connection, and the end of
    [main] once the library's future is over, as steps of a small system with a
    clock. The example needs the feature [systemd_sockets]; [systemd_notify] is
    a parameter. *)

From S2P Require Import Prelude Text Addr Posix PosixModel Utils Registry RegistrySpec.
From S2P Require Import Bincode Listener Inheriter Executioner Ecdysis EcdysisSpec.
From S2P Require Import Supervisor SystemdSockets TokioEcdysis TokioSpec Monitor MonitorSpec Builder.
From S2P Require Import IpParse.
From Stdlib Require Import Ascii.
Local Open Scope Z_scope.

Definition u32_max : Z := 2 ^ 32 - 1.

(** [str::parse::<u32>] *)
Definition parse_u32 (s : string) : result Z IntErrorKind :=
  match s with
  | EmptyString => Err Empty
  | String c EmptyString =>
    if bool_decide (c = "+"%char \/ c = "-"%char) then Err InvalidDigit
    else parse_pos u32_max s 0
  | String c s' =>
    if bool_decide (c = "+"%char) then parse_pos u32_max s' 0 else parse_pos u32_max s 0
  end.

Definition byte_char (n : Z) : ascii := ascii_of_nat (Z.to_nat (Z.land n 255)).

(** [u32::to_be_bytes] *)
Definition to_be_bytes (n : Z) : string :=
  String (byte_char (Z.shiftr n 24)) (String (byte_char (Z.shiftr n 16))
    (String (byte_char (Z.shiftr n 8)) (String (byte_char n) ""))).

(** What a client decodes. *)
Definition from_be_bytes (s : string) : option Z :=
  match s with
  | String a (String b (String c (String d ""))) =>
    let v x := Z.of_nat (nat_of_ascii x) in
    Some (((v a * 256 + v b) * 256 + v c) * 256 + v d)
  | _ => None
  end.

(** ** The environment of the running process *)

Class EnvOps (K : Type) := { env_set_var : string -> string -> K -> K }.

Definition set_env (env : gmap string (option string)) (v : kview) : kview :=
  KView (v_fds v) env (v_files v) (v_pid v) (v_args v) (v_pipes v) (v_written v).

Class EnvLaws (K : Type) `{HasView K, EnvOps K} : Prop := {
  set_var_view name val k :
    view (env_set_var name val k) = set_env (<[name := Some val]> (v_env (view k))) (view k)
}.

(** Socket options of [socket2]. *)
Class SockOptOps (K : Type) := {
  set_only_v6 : Z -> bool -> K -> result unit io_error * K;
  set_reuse_address : Z -> bool -> K -> result unit io_error * K
}.

Definition RELOADS : string := "ECDYSIS_RELOADS".

(** [unwrap] *)
Definition unwrap {S A E} (r : result A E) : M S A :=
  expect "called `Result::unwrap()` on an `Err` value" r.

(** [m] on an object the caller owns. *)
Definition on_object {O K A} (o : O) (m : M (O * K) A) : M K (A * O) := fun k =>
  let '(r, (o', k')) := m (o, k) in
  (match r with Ret a => Ret (a, o') | Panic p => Panic p | Exit c => Exit c end, k').

Section start.
Context {K : Type} `{HV : HasView K, FO : FdOps K, PO : PipeOps K, PR : ProcOps K,
  FS : FsOps K, SO : SockOps K, BC : Bincode K, AO : AsyncOps K, RO : ReactorOps K, GO : SignalOps K,
  EO : EnvOps K, OO : SockOptOps K}.
Context {C R W : Type} `{WO : WatchOps C R W}.
#[local] Notation TB := (TokioEcdysisBuilder (C := C) (R := R) (W := W)).
#[local] Notation UP := (Upgrader (C := C) (R := R) (W := W)).
Context (overflow_checks systemd_notify : bool).
Context (debug_var : VarError -> string) (debug_parse : IntErrorKind -> string)
  (debug_str : string -> string) (debug_info : SockInfo -> string).

Definition set_var (name val : string) : M K unit := fun k => (Ret tt, env_set_var name val k).

Definition set_listen_pid : M K unit :=
  r ← gets (env_var LISTEN_FDNAMES);
  match r with
  | Err _ => mret tt
  | Ok v =>
    if bool_decide (v = "") then mret tt
    else pid ← gets (fun k => v_pid (view k)); set_var LISTEN_PID (fmt_int pid)
  end.

(** [a + b] on [u32], with and without overflow checks. *)
Definition u32_add (a b : Z) : M K Z :=
  if bool_decide (a + b <= u32_max) then mret (a + b)
  else if overflow_checks then panic "attempt to add with overflow"
  else mret ((a + b) mod 2 ^ 32).

(** The [match] on "ECDYSIS_RELOADS" in [main]. *)
Definition count_reloads : M K Z :=
  r ← gets (env_var RELOADS);
  match r with
  | Err _ => _ ← set_var RELOADS "0"; mret 0
  | Ok s =>
    n ← unwrap (parse_u32 s);
    reload_count ← u32_add n 1;
    _ ← set_var RELOADS (fmt_int reload_count);
    mret reload_count
  end.

(** The first lines of [echo_server]. *)
Definition server_reloads : M K Z :=
  r ← gets (env_var RELOADS);
  s ← unwrap r;
  unwrap (parse_u32 s).

Definition echo_ip : M K IpAddr :=
  match ip_from_str "[::1]" with
  | Some ip_addr => mret ip_addr
  | None => expect_some "called `Result::unwrap()` on an `Err` value" (ip_from_str "0.0.0.0")
  end.

(** The closure given to [build_listen_tcp]. *)
Definition echo_sock_build (ip_addr : IpAddr) (b : Z) (addr : SocketAddr) :
    M K (result TcpListener io_error) :=
  owning (close_fd_quiet b)
    (_ ← (if is_ipv6 ip_addr
          then r ← call (set_only_v6 b true); expect "cannot set v6 here" r
          else mret tt);
     r ← call (set_reuse_address b true); _ ← expect "Cannot set REUSEADDR" r;
     r ← call (sock_bind b addr); _ ← expect "Cannot bind to provided IP" r;
     _ ←? call (sock_listen b 128);
     mret (Ok (MkTcp b))).

Definition SIGHUP : Z := 1.
Definition SIGUSR1 : Z := 10.
Definition SIGUSR2 : Z := 12.

(** The calls on the builder before the first listener. *)
Definition echo_setup : M (TB * K) unit :=
  r ← stop_on_signal SIGUSR1; _ ← unwrap r;
  r ← partial_stop_on_signal SIGUSR2; _ ← unwrap r;
  r ← upgrade_on_socket "/tmp/ecdysis_upgrade.sock"; _ ← unwrap r;
  r ← stop_on_socket "/tmp/ecdysis_exit.sock"; _ ← unwrap r;
  r ← partial_stop_on_socket "/tmp/ecdysis_partial_exit.sock"; _ ← unwrap r;
  _ ← tb_set_pid_file "./pidfile";
  _ ← (if systemd_notify then _ ← enable_systemd_notifications; mret tt else mret tt);
  _ ← tb_read_systemd_sockets debug_var debug_parse;
  mret tt.

(** All calls on the builder, up to [ready]. *)
Definition configure_echo (ip_addr : IpAddr) :
    M (TB * K) (StoppableStream (W := W) (St := TcpListener) *
                StoppableStream (W := W) (St := UnixListener)) :=
  _ ← echo_setup;
  r ← on_te (te_build_listen_tcp Yes (socket_addr ip_addr 22222) (echo_sock_build ip_addr));
  stream ← unwrap r;
  r ← on_te (systemd_listen_unix debug_str debug_info Yes "ecdysis_test_unix" "/tmp/ecdysis_int_test.sock");
  sd_stream ← unwrap r;
  mret (stream, sd_stream).

(** [main] up to the point where it awaits the future: the greeting's number,
    the two accept loops' streams and the upgrader. On the single thread the
    spawned tasks first run when [main] awaits; each then reads the number. *)
Definition echo_main : M K (Z * (StoppableStream (W := W) (St := TcpListener) *
                                 StoppableStream (W := W) (St := UnixListener)) * UP) :=
  _ ← set_listen_pid;
  _ ← count_reloads;
  r ← TokioEcdysisBuilder_new SIGHUP;
  b ← unwrap r;
  ip_addr ← echo_ip;
  '(streams, b) ← on_object b (configure_echo ip_addr);
  '(r, _) ← on_object b tb_ready;
  up ← unwrap r;
  reload_count ← server_reloads;
  mret (reload_count, streams, up).
End start.

(** ** Serving *)

(** One connection's task, byte by byte. The peer's side is there too:
    [cl_in] is everything it has sent. *)
Inductive client_state : Type := Greeting (rest : string) | Copying | Finished (eof : bool).

Record client : Type := MkClient {
  cl_state : client_state;
  cl_in : string;          (* sent by the peer *)
  cl_open : bool;          (* the peer may still send *)
  cl_unread : string;      (* of that, not read yet *)
  cl_buf : string;         (* read, not written yet *)
  cl_out : string          (* written to the peer *)
}.

Definition new_client (greeting : string) : client := MkClient (Greeting greeting) "" true "" "" "".

Inductive client_act : Type :=
| PeerSend (c : ascii) | PeerClose
| TaskWrite                (* one byte of the greeting, or of the copy *)
| TaskRead | TaskEof
| TaskFail.                (* a write of the greeting fails, or the copy does *)

Definition client_step (a : client_act) (c : client) : option client :=
  match a with
  | PeerSend x =>
    if cl_open c then
      Some (MkClient (cl_state c) (cl_in c +:+ String x "") true (cl_unread c +:+ String x "") (cl_buf c) (cl_out c))
    else None
  | PeerClose => Some (MkClient (cl_state c) (cl_in c) false (cl_unread c) (cl_buf c) (cl_out c))
  | TaskWrite =>
    match cl_state c with
    | Greeting (String x rest) =>
      Some (MkClient (Greeting rest) (cl_in c) (cl_open c) (cl_unread c) (cl_buf c) (cl_out c +:+ String x ""))
    | Greeting EmptyString =>
      Some (MkClient Copying (cl_in c) (cl_open c) (cl_unread c) (cl_buf c) (cl_out c))
    | Copying =>
      match cl_buf c with
      | String x rest => Some (MkClient Copying (cl_in c) (cl_open c) (cl_unread c) rest (cl_out c +:+ String x ""))
      | EmptyString => None
      end
    | Finished _ => None
    end
  | TaskRead =>
    match cl_state c, cl_unread c with
    | Copying, String x rest =>
      Some (MkClient Copying (cl_in c) (cl_open c) rest (cl_buf c +:+ String x "") (cl_out c))
    | _, _ => None
    end
  | TaskEof =>
    match cl_state c, cl_unread c, cl_buf c, cl_open c with
    | Copying, EmptyString, EmptyString, false =>
      Some (MkClient (Finished true) (cl_in c) false "" "" (cl_out c))
    | _, _, _, _ => None
    end
  | TaskFail =>
    match cl_state c with
    | Finished _ => None
    | _ => Some (MkClient (Finished false) (cl_in c) (cl_open c) (cl_unread c) (cl_buf c) (cl_out c))
    end
  end.

Definition client_done (c : client) : bool :=
  match cl_state c with Finished _ => true | _ => false end.

Section serving.
Context {C R W : Type} `{WO : WatchOps C R W}.

(** [echo_server]: the loop, then [wg.wait()]. *)
Inductive server_phase : Type := Accepting | Waiting | Ended.

Record server : Type := MkServer {
  sv_stream : StoppableStream (W := W) (St := unit);
  sv_phase : server_phase;
  sv_greeting : string;
  sv_clients : list client
}.

(** One poll of the task; [accepted] is what the listener would answer. *)
Definition server_step (c : C) (accepted : poll (option (result unit io_error))) (s : server) : option server :=
  match sv_phase s with
  | Accepting =>
    match poll_next (fun st => (accepted, st)) c (sv_stream s) with
    | (Pending, ss) => Some (MkServer ss Accepting (sv_greeting s) (sv_clients s))
    | (Ready (Some (Ok _)), ss) =>
      Some (MkServer ss Accepting (sv_greeting s) (sv_clients s ++ [new_client (sv_greeting s)]))
    | (Ready _, ss) => Some (MkServer ss Waiting (sv_greeting s) (sv_clients s))
    end
  | Waiting =>
    if forallb client_done (sv_clients s)
    then Some (MkServer (sv_stream s) Ended (sv_greeting s) (sv_clients s)) else None
  | Ended => None
  end.

(** The end of [main]: times in milliseconds. *)
Definition EXIT_AFTER_UPGRADE_DURATION : Z := 60000.
Definition forced_sleep : Z := 1000.

Inductive main_state : Type :=
| Awaiting                           (* ecdysis_fut *)
| Sleeping (exit_start : Z)          (* the forced second *)
| Joining (exit_start : Z) (i : nat) (* the handles of the first i servers are done *)
| Returned (exit_start : Z)
| ForcedExit (exit_start : Z).       (* process::exit(1) *)

Record world : Type := MkWorld {
  w_now : Z;
  w_chan : C;
  w_servers : list server;
  w_main : main_state
}.

Inductive world_event : Type :=
| Elapse (d : N)
| PollServer (i : nat) (accepted : poll (option (result unit io_error)))
| ClientDo (i j : nat) (a : client_act)
| FutureEnds (stopped : option ExitCondition)  (* as the monitor left the supervisor *)
| MainPoll
| TimerFires.

Definition over (m : main_state) : bool :=
  match m with Returned _ | ForcedExit _ => true | _ => false end.

(** [main] after the future. *)
Definition main_poll (now : Z) (servers : list server) (m : main_state) : option main_state :=
  match m with
  | Sleeping t => if bool_decide (t + forced_sleep <= now) then Some (Joining t 0) else None
  | Joining t i =>
    match servers !! i with
    | None => Some (Returned t)
    | Some s => match sv_phase s with Ended => Some (Joining t (S i)) | _ => None end
    end
  | Awaiting | Returned _ | ForcedExit _ => None
  end.

Definition world_step (e : world_event) (w : world) : option world :=
  if over (w_main w) then None
  else match e with
  | Elapse d => Some (MkWorld (w_now w + Z.of_N d) (w_chan w) (w_servers w) (w_main w))
  | PollServer i accepted =>
    s ← w_servers w !! i;
    s' ← server_step (w_chan w) accepted s;
    Some (MkWorld (w_now w) (w_chan w) (<[i := s']> (w_servers w)) (w_main w))
  | ClientDo i j a =>
    s ← w_servers w !! i;
    cl ← sv_clients s !! j;
    cl' ← client_step a cl;
    Some (MkWorld (w_now w) (w_chan w)
      (<[i := MkServer (sv_stream s) (sv_phase s) (sv_greeting s) (<[j := cl']> (sv_clients s))]> (w_servers w))
      (w_main w))
  | FutureEnds stopped =>
    match w_main w with
    | Awaiting =>
      let c := match stopped with Some ec => (stop_all ec (w_chan w)).2 | None => w_chan w end in
      Some (MkWorld (w_now w) c (w_servers w) (Sleeping (w_now w)))
    | _ => None
    end
  | MainPoll =>
    m ← main_poll (w_now w) (w_servers w) (w_main w);
    Some (MkWorld (w_now w) (w_chan w) (w_servers w) m)
  | TimerFires =>
    match w_main w with
    | Sleeping t | Joining t _ =>
      if bool_decide (t + EXIT_AFTER_UPGRADE_DURATION <= w_now w)
      then Some (MkWorld (w_now w) (w_chan w) (w_servers w) (ForcedExit t)) else None
    | _ => None
    end
  end.

Fixpoint world_run (tr : list world_event) (w : world) : option world :=
  match tr with
  | [] => Some w
  | e :: tr' => w' ← world_step e w; world_run tr' w'
  end.

(** [main] when it starts awaiting: both loops running, no connection yet. *)
Definition serving (now reload_count : Z) (c : C) (sup : Supervisor (R := R)) : world :=
  let s := MkServer (supervise_stream sup tt Yes) Accepting (to_be_bytes reload_count) [] in
  MkWorld now c [s; s] Awaiting.
End serving.
