(* ===== verification/EchoSpec.v ===== *)
(** * EchoSpec: what the echo server promises

    Every connection is greeted with the number of reloads and gets its own
    bytes back in order; the number counts the generations; a stopped server
    takes no new connection, ends gracefully only when every connection is done,
    and ends within a minute in any case. *)

From S2P Require Import Prelude Text Addr Posix PosixModel Utils Registry RegistrySpec.
From S2P Require Import Bincode Listener Inheriter Executioner Ecdysis EcdysisSpec Handover.
From S2P Require Import Supervisor SystemdSockets TokioEcdysis TokioSpec Monitor MonitorSpec.
From S2P Require Import Builder BuilderSpec IpParse Echo.
From Stdlib Require Import Ascii.
Local Open Scope Z_scope.

(** ** One connection *)

(** Where the bytes are: read, unread, buffered, written. *)
Definition client_inv (g : string) (c : client) : Prop :=
  exists read, cl_in c = read +:+ cl_unread c /\
    match cl_state c with
    | Greeting rest => g = cl_out c +:+ rest /\ read = "" /\ cl_buf c = ""
    | Copying => g +:+ read = cl_out c +:+ cl_buf c
    | Finished true => cl_out c = g +:+ cl_in c /\ cl_open c = false
    | Finished false => exists tail, g +:+ cl_in c = cl_out c +:+ tail
    end.

Lemma client_inv_new g : client_inv g (new_client g).
Proof. by exists "". Qed.

Lemma client_inv_prefix g c : client_inv g c -> exists tail, g +:+ cl_in c = cl_out c +:+ tail.
Proof.
  intros (read & Hin & H). destruct (cl_state c) as [rest| |[]].
  - destruct H as (-> & _). exists (rest +:+ cl_in c). by rewrite string_app_assoc.
  - exists (cl_buf c +:+ cl_unread c). by rewrite Hin, <- !string_app_assoc, H.
  - destruct H as [-> _]. exists "". by rewrite string_app_empty_r.
  - done.
Qed.

Lemma client_inv_step g a c c' : client_inv g c -> client_step a c = Some c' -> client_inv g c'.
Proof.
  intros Hi Hs. pose proof (client_inv_prefix g c Hi) as Hp. destruct Hi as (read & Hin & H).
  destruct a; cbn in Hs.
  - destruct (cl_open c) eqn:Ho; simplify_eq. exists read. cbn.
    split; [by rewrite Hin, string_app_assoc|]. destruct (cl_state c) as [| |[]]; try done.
    + by destruct H.
    + destruct H as [tail H]. exists (tail +:+ String c0 "").
      by rewrite <- !string_app_assoc, H, string_app_assoc.
  - simplify_eq. exists read. split; [done|]. cbn. destruct (cl_state c) as [| |[]]; try done. by destruct H.
  - destruct (cl_state c) as [[|x rest]| |]; [| |destruct (cl_buf c) as [|x rest] eqn:Eb|]; simplify_eq; exists read;
      (split; [done|]); cbn.
    + destruct H as (-> & -> & ->). by rewrite !string_app_empty_r.
    + destruct H as (-> & -> & ->). by rewrite string_app_assoc.
    + by rewrite H, string_app_assoc.
  - destruct (cl_state c), (cl_unread c) as [|x u] eqn:Eu; simplify_eq. exists (read +:+ String x "").
    cbn. rewrite Hin, string_app_assoc. split; [done|]. by rewrite <- string_app_assoc, H, string_app_assoc.
  - destruct (cl_state c), (cl_unread c) eqn:Eu, (cl_buf c) eqn:Eb, (cl_open c) eqn:Ho; simplify_eq.
    exists read. cbn. rewrite string_app_empty_r in H. split; [done|]. split; [|done].
    rewrite Hin, string_app_empty_r. done.
  - destruct (cl_state c) eqn:Es; simplify_eq; exists read; (split; [done|exact Hp]).
Qed.

Lemma client_done_stays a c c' : client_step a c = Some c' -> client_done c = true -> client_done c' = true.
Proof.
  unfold client_done. destruct (cl_state c) eqn:Es; [done..|]. intros H _.
  destruct a; cbn in H; rewrite ?Es in H; repeat case_match; simplify_eq; done.
Qed.

(** ** The server's tasks *)

Section serving.
Context {C R W : Type} `{WO : WatchOps C R W, WL : !WatchLaws C R W}.
Implicit Types (c : C) (s : server (W := W)) (w : world (C := C) (W := W)).

Record server_inv (g : string) c s : Prop := {
  si_wf : ss_wf c (sv_stream s);
  si_yes : ss_stop (sv_stream s) = Yes;
  si_greeting : sv_greeting s = g;
  si_clients : Forall (client_inv g) (sv_clients s);
  si_ended : sv_phase s = Ended -> forallb client_done (sv_clients s) = true
}.

(** [main] has waited for what it should have waited for. *)
Definition main_inv w : Prop :=
  match w_main w with
  | Awaiting => True
  | Sleeping t => t <= w_now w
  | Joining t i => t + forced_sleep <= w_now w /\
      forall j s, (j < i)%nat -> w_servers w !! j = Some s -> sv_phase s = Ended
  | Returned t => t + forced_sleep <= w_now w /\
      forall j s, w_servers w !! j = Some s -> sv_phase s = Ended
  | ForcedExit t => t + EXIT_AFTER_UPGRADE_DURATION <= w_now w
  end.

Record world_inv (g : string) w : Prop := {
  wi_servers : Forall (server_inv g (w_chan w)) (w_servers w);
  wi_main : main_inv w
}.

(** How a poll of the accept loop ends. *)
Lemma server_step_cases c accepted s s' :
  ss_wf c (sv_stream s) -> server_step c accepted s = Some s' ->
  sv_greeting s' = sv_greeting s /\ ss_wf c (sv_stream s') /\
  ss_stop (sv_stream s') = ss_stop (sv_stream s) /\ sv_phase s <> Ended /\
  (sv_clients s' = sv_clients s \/
   sv_clients s' = sv_clients s ++ [new_client (sv_greeting s)] /\ sv_phase s = Accepting /\
   should_continue (ss_stop (sv_stream s)) (wl_value c) = true) /\
  (sv_phase s' = Ended -> sv_phase s = Waiting /\ forallb client_done (sv_clients s') = true).
Proof.
  intros Hw E. unfold server_step in E. destruct (sv_phase s) eqn:Ep; [| |done].
  - pose proof (poll_next_wf (fun st => (accepted, st)) c _ Hw) as Hw'.
    destruct (poll_next_cases (fun st => (accepted, st)) c _ Hw) as (w' & _ & En). rewrite En in *.
    destruct (should_continue _ _) eqn:Ec; cbn in *.
    + destruct accepted as [[[[]|e]|]|]; simplify_eq; cbn; split_and!; auto; done.
    + simplify_eq. cbn. split_and!; auto; done.
  - destruct (forallb client_done (sv_clients s)) eqn:Ed; simplify_eq. cbn. split_and!; auto; done.
Qed.

Lemma server_inv_step g c accepted s s' :
  server_inv g c s -> server_step c accepted s = Some s' -> server_inv g c s'.
Proof.
  intros [Hw Hy Hg Hc He] E.
  destruct (server_step_cases _ _ _ _ Hw E) as (Hg' & Hw' & Hy' & _ & Hcl & He'). split; [done|congruence..| |].
  - destruct Hcl as [->|[-> _]]; [done|]. apply Forall_app. split; [done|].
    constructor; [|done]. rewrite Hg. apply client_inv_new.
  - intros H. by apply He'.
Qed.

Lemma forallb_insert {A} (f : A -> bool) (l : list A) j x y :
  l !! j = Some x -> (f x = true -> f y = true) -> forallb f l = true -> forallb f (<[j := y]> l) = true.
Proof.
  intros Hj Hf. revert j Hj. induction l as [|z l IH]; [done|]. intros [|j] Hj; cbn in *; intros [? ?]%andb_prop.
  - simplify_eq. rewrite Hf by done. done.
  - rewrite IH by done. by rewrite andb_true_r.
Qed.

Lemma server_inv_client g c s j cl cl' a :
  server_inv g c s -> sv_clients s !! j = Some cl -> client_step a cl = Some cl' ->
  server_inv g c (MkServer (sv_stream s) (sv_phase s) (sv_greeting s) (<[j := cl']> (sv_clients s))).
Proof.
  intros [Hw Hy Hg Hc He] Hj Ha. split; cbn; [done..| |].
  - apply Forall_insert; [done|]. eapply client_inv_step; [|done]. by eapply Forall_lookup_1.
  - intros Hp. eapply forallb_insert; [done| |by apply He]. intros Hd. by eapply client_done_stays.
Qed.

Lemma server_inv_stop g ec c s : server_inv g c s -> server_inv g (stop_all ec c).2 s.
Proof. intros []. split; try done. by apply stop_all_wf. Qed.

(** Replacing a server that has not ended, or one by another of the same phase. *)
Lemma main_inv_insert w i s s' :
  w_servers w !! i = Some s -> (sv_phase s = Ended -> sv_phase s' = Ended) -> main_inv w ->
  main_inv (MkWorld (w_now w) (w_chan w) (<[i := s']> (w_servers w)) (w_main w)).
Proof.
  intros Hi Hp Hm. unfold main_inv in *. cbn. destruct (w_main w); try done.
  - destruct Hm as [Ht Hm]. split; [done|]. intros j x Hj.
    intros [(-> & -> & _)|[_ Hx]]%list_lookup_insert_Some; [|by eapply Hm]. by eapply Hp, Hm.
  - destruct Hm as [Ht Hm]. split; [done|]. intros j x.
    intros [(-> & -> & _)|[_ Hx]]%list_lookup_insert_Some; [|by eapply Hm]. by eapply Hp, Hm.
Qed.

Lemma main_poll_inv w m :
  main_inv w -> main_poll (w_now w) (w_servers w) (w_main w) = Some m ->
  main_inv (MkWorld (w_now w) (w_chan w) (w_servers w) m).
Proof.
  unfold main_inv, main_poll. destruct (w_main w) as [|t|t i|t|t]; try done.
  - case_bool_decide; intros; simplify_eq. cbn. split; [done|lia].
  - intros [Ht Hm]. destruct (w_servers w !! i) as [s|] eqn:Hi.
    + destruct (sv_phase s) eqn:Ep; intros; simplify_eq. cbn. split; [done|]. intros j s' Hj Hs.
      destruct (decide (j = i)) as [->|]; [by simplify_eq|]. apply (Hm j s'); [lia|done].
    + intros; simplify_eq. cbn. split; [done|]. intros j s Hs.
      apply (Hm j s); [|done]. apply lookup_ge_None in Hi. apply lookup_lt_Some in Hs. lia.
Qed.

Lemma world_inv_step g e w w' : world_inv g w -> world_step e w = Some w' -> world_inv g w'.
Proof.
  intros [Hs Hm] E. unfold world_step in E. destruct (over (w_main w)) eqn:Eo; [done|].
  destruct e as [d|i accepted|i j a|stopped| |].
  - simplify_eq. split; [done|]. unfold main_inv in *. cbn.
    destruct (w_main w); try done; [lia|]. destruct Hm as [Ht Hm]. split; [lia|exact Hm].
  - destruct (w_servers w !! i) as [s|] eqn:Hi; simplify_eq/=.
    destruct (server_step _ _ s) as [s'|] eqn:Es; simplify_eq/=.
    pose proof (Forall_lookup_1 _ _ _ _ Hs Hi) as Hsi. split; cbn.
    + apply Forall_insert; [done|]. by eapply server_inv_step.
    + eapply main_inv_insert; [done| |done]. intros Hp.
      by destruct (server_step_cases _ _ _ _ (si_wf _ _ _ Hsi) Es) as (_ & _ & _ & Hne & _).
  - destruct (w_servers w !! i) as [s|] eqn:Hi; simplify_eq/=.
    destruct (sv_clients s !! j) as [cl|] eqn:Hj; simplify_eq/=.
    destruct (client_step a cl) as [cl'|] eqn:Ec; simplify_eq/=. split; cbn.
    + apply Forall_insert; [done|]. eapply server_inv_client; [|done..]. by eapply Forall_lookup_1.
    + by eapply main_inv_insert.
  - destruct (w_main w) eqn:Ew; simplify_eq. split; [|unfold main_inv; cbn; lia].
    destruct stopped as [ec|]; [|done]. cbn. eapply Forall_impl; [done|]. intros s. apply server_inv_stop.
  - destruct (main_poll _ _ _) as [m|] eqn:Ep; simplify_eq/=. split; [done|]. by apply main_poll_inv.
  - destruct (w_main w) eqn:Ew; try done; case_bool_decide; simplify_eq; (split; [done|]); unfold main_inv; cbn; lia.
Qed.

Lemma world_inv_run g tr w w' : world_inv g w -> world_run tr w = Some w' -> world_inv g w'.
Proof.
  revert w. induction tr as [|e tr IH]; intros w Hw E; cbn in E; [by simplify_eq|].
  destruct (world_step e w) as [w1|] eqn:E1; simplify_eq/=. eapply IH; [|done]. by eapply world_inv_step.
Qed.

Lemma serving_inv now n c sup : world_inv (to_be_bytes n) (serving now n c sup).
Proof.
  split; [|done].
  assert (server_inv (to_be_bytes n) c (MkServer (supervise_stream sup tt Yes) Accepting (to_be_bytes n) [])).
  { split; cbn; try done. apply supervised_wf. }
  constructor; [done|]. constructor; [done|constructor].
Qed.

(** ** After the stop *)

(** The channel holds a stop every stream heeds. *)
Definition stopped w : Prop := should_continue Yes (wl_value (w_chan w)) = false.

Definition connections w : list nat := (fun s => length (sv_clients s)) <$> w_servers w.

Lemma connections_insert w i s s' :
  w_servers w !! i = Some s -> length (sv_clients s') = length (sv_clients s) ->
  (fun s => length (sv_clients s)) <$> <[i := s']> (w_servers w) = connections w.
Proof.
  intros Hi Hl. unfold connections. rewrite list_fmap_insert, Hl.
  apply list_insert_id. by rewrite list_lookup_fmap, Hi.
Qed.

Lemma stopped_step g e w w' :
  world_inv g w -> w_main w <> Awaiting -> stopped w -> world_step e w = Some w' ->
  stopped w' /\ w_main w' <> Awaiting /\ connections w' = connections w.
Proof.
  intros [Hs _] Hna Hst E. unfold world_step in E. destruct (over (w_main w)); [done|].
  destruct e as [d|i accepted|i j a|st| |].
  - by simplify_eq.
  - destruct (w_servers w !! i) as [s|] eqn:Hi; simplify_eq/=.
    destruct (server_step _ _ s) as [s'|] eqn:Es; simplify_eq/=.
    pose proof (Forall_lookup_1 _ _ _ _ Hs Hi) as [Hw Hy _ _ _].
    destruct (server_step_cases _ _ _ _ Hw Es) as (_ & _ & _ & _ & Hcl & _).
    peel 2. apply (connections_insert w i s s'); [done|].
    destruct Hcl as [->|(_ & _ & Hc)]; [done|]. rewrite Hy in Hc. unfold stopped in Hst. congruence.
  - destruct (w_servers w !! i) as [s|] eqn:Hi; simplify_eq/=.
    destruct (sv_clients s !! j) as [cl|] eqn:Hj; simplify_eq/=.
    destruct (client_step a cl) as [cl'|] eqn:Ec; simplify_eq/=.
    peel 2. eapply connections_insert; [done|]. cbn. apply length_insert.
  - destruct (w_main w); simplify_eq.
  - unfold main_poll in E. destruct (w_main w); simplify_eq/=; repeat case_match; simplify_eq/=; done.
  - destruct (w_main w); try done; case_bool_decide; simplify_eq; done.
Qed.

Lemma stopped_world_run g tr w w' :
  world_inv g w -> w_main w <> Awaiting -> stopped w -> world_run tr w = Some w' ->
  connections w' = connections w.
Proof.
  revert w. induction tr as [|e tr IH]; intros w Hi Hn Hs E; cbn in E; [by simplify_eq|].
  destruct (world_step e w) as [w1|] eqn:E1; simplify_eq/=.
  destruct (stopped_step _ _ _ _ Hi Hn Hs E1) as (Hs1 & Hn1 & <-).
  eapply IH; [|done..]. by eapply world_inv_step.
Qed.

Lemma stop_stops w ec w' :
  world_step (FutureEnds (Some ec)) w = Some w' ->
  stopped w' /\ w_main w' <> Awaiting /\ connections w' = connections w.
Proof.
  unfold world_step. destruct (over (w_main w)); [done|]. destruct (w_main w); try done.
  intros; simplify_eq. destruct (stop_all_run ec (w_chan w)) as (c' & E & Hv & _).
  split; [|done]. unfold stopped. cbn. rewrite E. cbn. rewrite Hv. by destruct ec.
Qed.

(** ** Coming to the end *)

Definition all_done w : Prop := Forall (fun s => forallb client_done (sv_clients s) = true) (w_servers w).

Lemma world_run_app tr1 tr2 w : world_run (tr1 ++ tr2) w = w1 ← world_run tr1 w; world_run tr2 w1.
Proof.
  revert w. induction tr1 as [|e tr1 IH]; intros w; cbn; [done|].
  destruct (world_step e w); cbn; [apply IH|done].
Qed.

Lemma poll_server w i s s' accepted :
  over (w_main w) = false -> w_servers w !! i = Some s -> server_step (w_chan w) accepted s = Some s' ->
  world_step (PollServer i accepted) w =
    Some (MkWorld (w_now w) (w_chan w) (<[i := s']> (w_servers w)) (w_main w)).
Proof. intros Ho Hi Hs. unfold world_step. rewrite Ho, Hi. cbn. by rewrite Hs. Qed.

(** An accept loop that is polled after the stop ends, and its server too once
    the connections are done. *)
Lemma server_ends g c s :
  server_inv g c s -> should_continue Yes (wl_value c) = false -> forallb client_done (sv_clients s) = true ->
  sv_phase s <> Ended ->
  (sv_phase s = Waiting \/ exists s1, server_step c Pending s = Some s1 /\ sv_phase s1 = Waiting /\
     sv_clients s1 = sv_clients s) /\
  forall s1, sv_phase s1 = Waiting -> sv_clients s1 = sv_clients s ->
    exists s2, server_step c Pending s1 = Some s2 /\ sv_phase s2 = Ended /\ sv_clients s2 = sv_clients s.
Proof.
  intros [Hw Hy _ _ _] Hc Hd Hp. split.
  - destruct (sv_phase s) eqn:Ep; [right|by left|done]. unfold server_step. rewrite Ep.
    destruct (poll_next_cases (fun st => (Pending (A := option (result unit io_error)), st)) c _ Hw) as (w' & _ & ->).
    rewrite Hy, Hc. eexists. split; [reflexivity|done].
  - intros s1 Hp1 Hc1. unfold server_step. rewrite Hp1, Hc1, Hd. eexists. split; [reflexivity|done].
Qed.

Lemma end_one g w i s :
  world_inv g w -> over (w_main w) = false -> stopped w -> all_done w -> w_servers w !! i = Some s ->
  exists tr s', (length tr <= 2)%nat /\ sv_phase s' = Ended /\ sv_clients s' = sv_clients s /\
    world_run tr w = Some (MkWorld (w_now w) (w_chan w) (<[i := s']> (w_servers w)) (w_main w)).
Proof.
  intros [Hs _] Ho Hst Hd Hi. pose proof (Forall_lookup_1 _ _ _ _ Hs Hi) as Hsi.
  pose proof (Forall_lookup_1 _ _ _ _ Hd Hi) as Hdi. cbn in Hdi.
  assert (Hlt : (i < length (w_servers w))%nat) by (by eapply lookup_lt_Some).
  destruct (sv_phase s) eqn:Ep.
  3:{ exists [], s. split; [cbn; lia|]. peel 2. cbn. rewrite list_insert_id by done. by destruct w. }
  all: destruct (server_ends g (w_chan w) s Hsi Hst Hdi ltac:(by rewrite Ep)) as [H1 H2].
  - destruct H1 as [H1|(s1 & E1 & Hp1 & Hc1)]; [congruence|].
    destruct (H2 s1 Hp1 Hc1) as (s2 & E2 & Hp2 & Hc2).
    exists [PollServer i Pending; PollServer i Pending], s2. split; [cbn; lia|]. peel 2.
    cbn [world_run]. rewrite (poll_server w i s s1) by done. cbn.
    rewrite (poll_server _ i s1 s2); cbn; [by rewrite list_insert_insert_eq|done| |done].
    by apply list_lookup_insert_eq.
  - destruct (H2 s Ep eq_refl) as (s2 & E2 & Hp2 & Hc2).
    exists [PollServer i Pending], s2. split; [cbn; lia|]. peel 2.
    cbn [world_run]. by rewrite (poll_server w i s s2).
Qed.

Lemma end_first g w n :
  world_inv g w -> over (w_main w) = false -> stopped w -> all_done w -> (n <= length (w_servers w))%nat ->
  exists tr servers, (length tr <= 2 * n)%nat /\ length servers = length (w_servers w) /\
    world_run tr w = Some (MkWorld (w_now w) (w_chan w) servers (w_main w)) /\
    Forall (fun s => forallb client_done (sv_clients s) = true) servers /\
    forall j s, (j < n)%nat -> servers !! j = Some s -> sv_phase s = Ended.
Proof.
  intros Hi Ho Hst Hd. induction n as [|n IH]; intros Hn.
  { exists [], (w_servers w). split; [cbn; lia|]. split; [done|]. split; [by destruct w|]. split; [done|lia]. }
  destruct (IH ltac:(lia)) as (tr & servers & Hlen & Hl & E & Hd1 & He).
  pose proof (world_inv_run _ _ _ _ Hi E) as Hi1.
  destruct (lookup_lt_is_Some_2 servers n ltac:(lia)) as [s Hs].
  destruct (end_one g _ n s Hi1 Ho Hst Hd1 Hs) as (tr2 & s' & Hlen2 & Hp & Hc & E2). cbn in E2.
  exists (tr ++ tr2), (<[n := s']> servers). split; [rewrite length_app; lia|].
  split; [by rewrite length_insert|]. split; [rewrite world_run_app, E; exact E2|]. split.
  - apply Forall_insert; [done|]. rewrite Hc. by apply (Forall_lookup_1 _ _ _ _ Hd1 Hs).
  - intros j x Hj. intros [(<- & -> & _)|[Hne Hx]]%list_lookup_insert_Some; [done|]. apply (He j x); [lia|done].
Qed.

Lemma join_all now c servers t i :
  (forall j s, servers !! j = Some s -> sv_phase s = Ended) -> (i <= length servers)%nat ->
  exists tr, length tr = S (length servers - i) /\
    world_run (R := R) tr (MkWorld now c servers (Joining t i)) = Some (MkWorld now c servers (Returned t)).
Proof.
  intros He Hi. remember (length servers - i)%nat as n eqn:Hn. revert i Hi Hn. induction n as [|n IH]; intros i Hi Hn.
  - exists [MainPoll]. split; [done|]. cbn. rewrite lookup_ge_None_2 by lia. done.
  - destruct (lookup_lt_is_Some_2 servers i ltac:(lia)) as [s Hs].
    destruct (IH (S i) ltac:(lia) ltac:(lia)) as (tr & Hlen & E).
    exists (MainPoll :: tr). split; [cbn; lia|]. cbn. rewrite Hs, (He _ _ Hs). exact E.
Qed.

Lemma servers_length tr w w' :
  world_run (R := R) tr w = Some w' -> length (w_servers w') = length (w_servers w).
Proof.
  revert w. induction tr as [|e tr IH]; intros w E; cbn in E; [by simplify_eq|].
  destruct (world_step e w) as [w1|] eqn:E1; simplify_eq/=. rewrite (IH _ E).
  unfold world_step in E1. destruct (over _); [done|].
  destruct e; repeat case_match; simplify_eq/=; rewrite ?length_insert; try done;
    unfold mbind, option_bind in E1; repeat case_match; simplify_eq/=; by rewrite ?length_insert.
Qed.

(** The end of [main] from its sleep or its joins, when the servers have ended. *)
Lemma main_returns w :
  main_inv w -> over (w_main w) = false -> w_main w <> Awaiting ->
  (forall j s, w_servers w !! j = Some s -> sv_phase s = Ended) ->
  exists tr w', (length tr <= 3 + length (w_servers w))%nat /\ world_run (R := R) tr w = Some w' /\
    w_now w' <= w_now w + forced_sleep /\ exists t, w_main w' = Returned t.
Proof.
  intros Hm Ho Hna He. destruct w as [now c servers m]. cbn in *. unfold main_inv in Hm. cbn in Hm.
  destruct m as [|t|t i|t|t]; try done.
  - destruct (join_all (now + Z.of_N 1000) c servers t 0 He ltac:(lia)) as (tr & Hl & E).
    exists (Elapse 1000 :: MainPoll :: tr), (MkWorld (now + Z.of_N 1000) c servers (Returned t)).
    split; [cbn; lia|]. split; [|split; [cbn; unfold forced_sleep; lia|by eexists]].
    cbn. rewrite bool_decide_eq_true_2 by (unfold forced_sleep; lia). exact E.
  - destruct (decide (i <= length servers)%nat) as [Hi|Hi].
    + destruct (join_all now c servers t i He Hi) as (tr & Hl & E).
      exists tr, (MkWorld now c servers (Returned t)). split; [lia|]. split; [done|].
      split; [cbn; unfold forced_sleep; lia|by eexists].
    + exists [MainPoll], (MkWorld now c servers (Returned t)). split; [cbn; lia|].
      split; [|split; [cbn; unfold forced_sleep; lia|by eexists]].
      cbn. by rewrite lookup_ge_None_2 by lia.
Qed.

(** ** Properties of serving *)

(** C32. Every connection is served faithfully: at any moment of any run, what a
    connection has been sent is a prefix of the four bytes of the reload count
    followed by exactly the bytes its peer sent, in order; and once its task has
    ended at the end of the input, all of them have been returned. *)
Theorem echo_faithful (tr : list world_event) (now n : Z) (c : C) (sup : Supervisor (R := R))
    (w : world) (i j : nat) (s : server) (cl : client) :
  world_run tr (serving now n c sup) = Some w ->
  w_servers w !! i = Some s -> sv_clients s !! j = Some cl ->
  (exists tail, to_be_bytes n +:+ cl_in cl = cl_out cl +:+ tail) /\
  (cl_state cl = Finished true -> cl_out cl = to_be_bytes n +:+ cl_in cl).
Proof.
  intros E Hi Hj. pose proof (world_inv_run _ _ _ _ (serving_inv now n c sup) E) as [Hs _].
  pose proof (Forall_lookup_1 _ _ _ _ Hs Hi) as [_ _ _ Hc _].
  pose proof (Forall_lookup_1 _ _ _ _ Hc Hj) as Hcl. split; [by apply client_inv_prefix|].
  intros Hf. destruct Hcl as (read & _ & H). rewrite Hf in H. by destruct H.
Qed.

(** C31. A graceful exit cuts no connection: [main] returns only at least a second
    after the future ended and when every connection's task has ended; the
    process is forced to exit only a minute after; and from the moment the
    future ended with a stop, no server takes another connection. *)
Theorem graceful_exit (tr : list world_event) (now n : Z) (c : C) (sup : Supervisor (R := R))
    (w : world) :
  world_run tr (serving now n c sup) = Some w ->
  match w_main w with
  | Returned t => t + 1000 <= w_now w /\
      forall i j s cl, w_servers w !! i = Some s -> sv_clients s !! j = Some cl -> client_done cl = true
  | ForcedExit t => t + 60000 <= w_now w
  | _ => True
  end /\
  forall ec w1 tr2 w2, world_step (FutureEnds (Some ec)) w = Some w1 -> world_run tr2 w1 = Some w2 ->
    connections w2 = connections w.
Proof.
  intros E. pose proof (world_inv_run _ _ _ _ (serving_inv now n c sup) E) as [Hs Hm]. split.
  - unfold main_inv in Hm. destruct (w_main w) as [|t|t k|t|t]; try done.
    destruct Hm as [Ht He]. split; [exact Ht|]. intros i j s cl Hi Hj.
    pose proof (si_ended _ _ _ (Forall_lookup_1 _ _ _ _ Hs Hi) (He _ _ Hi)) as Hd.
    apply Is_true_true_2, forallb_True in Hd. by apply Is_true_true_1, (Forall_lookup_1 _ _ _ _ Hd Hj).
  - intros ec w1 tr2 w2 E1 E2. destruct (stop_stops _ _ _ E1) as (Hst & Hna & <-).
    eapply (stopped_world_run (to_be_bytes n)); [|done..]. eapply world_inv_step; [|exact E1]. by split.
Qed.

(** C33. The process ends: once the future is over, whatever its connections do it
    can be forced out within a minute; and if the supervisor was told to stop
    and no connection is left, the tasks alone bring [main] to a graceful
    return in at most nine steps and one second. *)
Theorem echo_exits (tr : list world_event) (now n : Z) (c : C) (sup : Supervisor (R := R)) (w : world) :
  world_run tr (serving now n c sup) = Some w ->
  w_main w <> Awaiting -> over (w_main w) = false ->
  (exists w' t, world_run [Elapse 60000; TimerFires] w = Some w' /\ w_main w' = ForcedExit t) /\
  (stopped w -> all_done w ->
   exists tr' w' t, (length tr' <= 9)%nat /\ world_run tr' w = Some w' /\
     w_now w' <= w_now w + 1000 /\ w_main w' = Returned t).
Proof.
  intros E Hna Ho. pose proof (world_inv_run _ _ _ _ (serving_inv now n c sup) E) as Hi.
  pose proof (servers_length _ _ _ E) as Hlen. split.
  - pose proof (wi_main _ _ Hi) as Hm. unfold main_inv in Hm. destruct w as [nw cw servers m]. cbn -[bool_decide Z.add] in *.
    destruct m as [|t|t k|t|t]; try done; unfold world_step; cbn -[bool_decide Z.add];
      (rewrite bool_decide_eq_true_2 by (unfold EXIT_AFTER_UPGRADE_DURATION, forced_sleep in *; lia));
      by eexists _, _.
  - intros Hst Hd.
    destruct (end_first _ w (length (w_servers w)) Hi Ho Hst Hd ltac:(lia)) as (tr1 & servers & Hl1 & Hl & E1 & _ & He).
    pose proof (world_inv_run _ _ _ _ Hi E1) as [_ Hm1].
    destruct (main_returns _ Hm1 Ho Hna) as (tr2 & w2 & Hl2 & E2 & Hn2 & t & Ht).
    { cbn. intros j s Hs. apply (He j s); [|done]. rewrite <- Hl. by eapply lookup_lt_Some. }
    cbn in Hl2, Hn2. exists (tr1 ++ tr2), w2, t. rewrite world_run_app, E1. cbn.
    split; [rewrite length_app; cbn in Hlen; lia|]. done.
Qed.
End serving.

(** ** The reload counter *)

Lemma parse_u32_fmt_int n : 0 <= n <= u32_max -> parse_u32 (fmt_int n) = Ok n.
Proof.
  intros Hn. unfold fmt_int. destruct (Z.ltb_spec n 0); [lia|]. unfold fmt_nonneg.
  destruct (fmt_aux_head (S (Z.to_nat (Z.log2 n))) n "" ltac:(lia) ltac:(lia)) as (d & s & Hd & E).
  assert (Ep : parse_u32 (String (digit_char d) s) = parse_pos u32_max (String (digit_char d) s) 0).
  { destruct (digit_not_sign d Hd) as [Hp Hm]. unfold parse_u32. destruct s.
    - by rewrite bool_decide_eq_false_2 by (intros [?|?]; done).
    - by rewrite bool_decide_eq_false_2 by done. }
  rewrite E, Ep, <- E. by erewrite parse_pos_fmt_aux; [|apply fmt_fuel_enough; lia|lia|done].
Qed.

Lemma byte_value n : Z.of_nat (nat_of_ascii (byte_char n)) = n mod 256.
Proof.
  unfold byte_char. change 255 with (Z.ones 8). rewrite Z.land_ones by lia. change (2 ^ 8) with 256.
  pose proof (Z.mod_pos_bound n 256 ltac:(lia)).
  rewrite nat_ascii_embedding by lia. lia.
Qed.

Lemma from_to_be_bytes n : 0 <= n <= u32_max -> from_be_bytes (to_be_bytes n) = Some n.
Proof.
  intros Hn. unfold u32_max in Hn. unfold to_be_bytes, from_be_bytes. rewrite !byte_value, !Z.shiftr_div_pow2 by lia.
  f_equal. change (2 ^ 24) with (256 * 256 * 256). change (2 ^ 16) with (256 * 256). change (2 ^ 8) with 256.
  rewrite <- !Z.div_div by lia.
  pose proof (Z.div_mod n 256 ltac:(lia)). pose proof (Z.div_mod (n / 256) 256 ltac:(lia)).
  pose proof (Z.div_mod (n / 256 / 256) 256 ltac:(lia)).
  assert (n / 256 / 256 / 256 < 256) by (repeat (apply Z.div_lt_upper_bound; [lia|]); lia).
  assert (0 <= n / 256 / 256 / 256) by (repeat (apply Z.div_pos; [|lia]); lia).
  rewrite (Z.mod_small (n / 256 / 256 / 256) 256) by lia. lia.
Qed.

Section reloads.
Context {K : Type} `{HV : HasView K, FO : FdOps K, FL : !FdLaws K, PO : PipeOps K, PL : !PipeLaws K,
  PR : ProcOps K, PRL : !ProcLaws K, FS : FsOps K, SO : SockOps K, BC : Bincode K, EO : EnvOps K, EL : !EnvLaws K}.
Context (overflow_checks : bool) (debug_io : io_error -> string).
Implicit Types (k : K).

(** The first lines of [main]. *)
#[local] Notation begin := (_ ← set_listen_pid; count_reloads overflow_checks).

(** [generation g k]: [k] is a process after the first lines of its [main], and
    [g] upgrades led to it from a process started without the variable. Between
    its start and its upgrade a process does anything that leaves the variable
    alone. *)
Inductive generation : nat -> K -> Prop :=
| generation_first k n k' :
    v_env (view k) !! RELOADS = None -> begin k = (Ret n, k') -> generation 0 k'
| generation_next g k k1 l kc rr sl s' n k' :
    generation g k -> v_env (view k1) !! RELOADS = v_env (view k) !! RELOADS ->
    env_args k1 <> [] -> Forall (fun li => is_Some (fds k1 !! li_fd li)) l ->
    upgrade_start debug_io true l (false, k1) = (Ret (Ok (Running kc, rr, sl)), s') ->
    begin kc = (Ret n, k') -> generation (S g) k'.

Lemma set_var_run name val k :
  exists k', set_var name val k = (Ret tt, k') /\
    view k' = set_env (<[name := Some val]> (v_env (view k))) (view k).
Proof. eexists. split; [reflexivity|]. apply set_var_view. Qed.

Lemma set_listen_pid_reloads k :
  exists k', set_listen_pid k = (Ret tt, k') /\ v_env (view k') !! RELOADS = v_env (view k) !! RELOADS.
Proof.
  unfold set_listen_pid. rewrite (run_bind _ _ k (env_var LISTEN_FDNAMES k) k) by done.
  destruct (env_var LISTEN_FDNAMES k) as [v|]; [|by exists k]. case_bool_decide; [by exists k|].
  rewrite (run_bind _ _ k (v_pid (view k)) k) by done.
  destruct (set_var_run LISTEN_PID (fmt_int (v_pid (view k))) k) as (k' & E & V).
  exists k'. split; [done|]. rewrite V. cbn. by rewrite lookup_insert_ne.
Qed.

Lemma count_reloads_first k :
  v_env (view k) !! RELOADS = None ->
  exists k', count_reloads overflow_checks k = (Ret 0, k') /\
    v_env (view k') !! RELOADS = Some (Some (fmt_int 0)).
Proof.
  intros Hv. unfold count_reloads. rewrite (run_bind _ _ k (env_var RELOADS k) k) by done.
  unfold env_var. rewrite Hv. destruct (set_var_run RELOADS "0" k) as (k' & E & V).
  exists k'. rewrite (run_bind _ _ _ _ _ E). split; [done|]. rewrite V. cbn. by rewrite lookup_insert_eq.
Qed.

Lemma count_reloads_next k n :
  v_env (view k) !! RELOADS = Some (Some (fmt_int n)) -> 0 <= n <= u32_max ->
  if overflow_checks && bool_decide (n = u32_max)
  then count_reloads overflow_checks k = (Panic "attempt to add with overflow", k)
  else exists k', count_reloads overflow_checks k = (Ret ((n + 1) mod 2 ^ 32), k') /\
    v_env (view k') !! RELOADS = Some (Some (fmt_int ((n + 1) mod 2 ^ 32))).
Proof.
  intros Hv Hn. unfold count_reloads. rewrite (run_bind _ _ k (env_var RELOADS k) k) by done.
  unfold env_var. rewrite Hv. unfold unwrap. rewrite parse_u32_fmt_int by done.
  rewrite (run_bind _ _ k n k) by done.
  assert (Hgo : forall m, m = (n + 1) mod 2 ^ 32 -> u32_add overflow_checks n 1 k = (Ret m, k) ->
    exists k', (reload_count ← u32_add overflow_checks n 1; _ ← set_var RELOADS (fmt_int reload_count);
                mret reload_count) k = (Ret ((n + 1) mod 2 ^ 32), k') /\
      v_env (view k') !! RELOADS = Some (Some (fmt_int ((n + 1) mod 2 ^ 32)))).
  { intros m -> E. destruct (set_var_run RELOADS (fmt_int ((n + 1) mod 2 ^ 32)) k) as (k' & E' & V).
    exists k'. rewrite (run_bind _ _ _ _ _ E), (run_bind _ _ _ _ _ E'). split; [done|].
    rewrite V. cbn. by rewrite lookup_insert_eq. }
  unfold u32_add in *. unfold u32_max in *. destruct (decide (n = 2 ^ 32 - 1)) as [->|Hne].
  - rewrite (bool_decide_eq_false_2 (2 ^ 32 - 1 + 1 <= 2 ^ 32 - 1)) in * by lia.
    rewrite bool_decide_eq_true_2 by done. destruct overflow_checks; cbn [andb]; [done|]. by eapply Hgo.
  - rewrite (bool_decide_eq_false_2 (n = 2 ^ 32 - 1)), andb_false_r by done.
    rewrite bool_decide_eq_true_2 in * by lia. eapply Hgo; [|done]. by rewrite Z.mod_small by lia.
Qed.

Lemma begin_run k (k' : K) n :
  begin k = (Ret n, k') ->
  exists k1, v_env (view k1) !! RELOADS = v_env (view k) !! RELOADS /\
    count_reloads overflow_checks k1 = (Ret n, k').
Proof.
  intros E. destruct (set_listen_pid_reloads k) as (k1 & E1 & V1).
  rewrite (run_bind _ _ _ _ _ E1) in E. by exists k1.
Qed.

Lemma child_env_reloads p (env : gmap string (option string)) :
  child_env true p env !! RELOADS = env !! RELOADS.
Proof.
  unfold child_env, RELOADS, LISTEN_FDS, LISTEN_FDNAMES, LISTEN_PID, ENV_PIPE_READY, ENV_PIPE_FDS, ENV_UPGRADE.
  by rewrite !lookup_delete_ne, !lookup_insert_ne by done.
Qed.

Lemma mod_range n : 0 <= n mod 2 ^ 32 <= u32_max.
Proof. pose proof (Z.mod_pos_bound n (2 ^ 32) ltac:(lia)). unfold u32_max. lia. Qed.

Lemma generation_env g k :
  generation g k ->
  v_env (view k) !! RELOADS = Some (Some (fmt_int (Z.of_nat g mod 2 ^ 32))) /\
  (overflow_checks = true -> Z.of_nat g <= u32_max).
Proof.
  induction 1 as [k n k' Hv (k1 & V1 & E)%begin_run|g k k1 l kc rr sl s' n k' _ [IH Hb] Hk1 Ha Hl Es (k2 & V2 & E)%begin_run].
  - rewrite <- V1 in Hv. destruct (count_reloads_first k1 Hv) as (k2 & E' & V).
    rewrite E in E'. simplify_eq. split; [done|]. unfold u32_max. lia.
  - destruct (upgrade_start_cases debug_io true l k1 Ha Hl)
      as [(kc' & rr' & sl' & k'' & rl & sr & d1 & d2 & d3 & d4 & Es' & Hus)|(? & ? & Es' & _)];
      rewrite Es in Es'; simplify_eq.
    pose proof (us_env _ _ _ _ _ _ _ _ _ _ _ _ _ Hus) as Henv.
    assert (Hv : v_env (view k2) !! RELOADS = Some (Some (fmt_int (Z.of_nat g mod 2 ^ 32))))
      by (by rewrite V2, Henv, child_env_reloads, Hk1).
    pose proof (count_reloads_next k2 _ Hv (mod_range _)) as Hn.
    destruct (overflow_checks && bool_decide (Z.of_nat g mod 2 ^ 32 = u32_max)) eqn:Eo; [congruence|].
    destruct Hn as (k3 & E3 & V3). rewrite E in E3. simplify_eq.
    rewrite Zplus_mod_idemp_l in V3. rewrite Nat2Z.inj_succ. split; [exact V3|].
    intros ->. specialize (Hb eq_refl). cbn in Eo. apply bool_decide_eq_false in Eo.
    unfold u32_max in *. rewrite Z.mod_small in Eo by lia. lia.
Qed.

(** C30. The greeting counts the upgrades: in the process that [g] upgrades led
    to, [echo_server] reads its counter without a panic, it is [g] modulo
    [2^32], and the four bytes of the greeting decode to it; with overflow
    checks the count is exact, because the generation after [u32::MAX] panics
    before it listens. *)
Theorem reload_count_is_generation (g : nat) (k : K) :
  generation g k ->
  server_reloads k = (Ret (Z.of_nat g mod 2 ^ 32), k) /\
  from_be_bytes (to_be_bytes (Z.of_nat g mod 2 ^ 32)) = Some (Z.of_nat g mod 2 ^ 32) /\
  (overflow_checks = true -> Z.of_nat g <= u32_max /\
     (Z.of_nat g = u32_max -> forall kc, v_env (view kc) !! RELOADS = v_env (view k) !! RELOADS ->
        count_reloads overflow_checks kc = (Panic "attempt to add with overflow", kc))).
Proof.
  intros [Hv Hb]%generation_env. split; [|split].
  - unfold server_reloads. rewrite (run_bind _ _ k (env_var RELOADS k) k) by done.
    unfold env_var. rewrite Hv. unfold unwrap. rewrite (run_bind _ _ k (fmt_int (Z.of_nat g mod 2 ^ 32)) k) by done.
    by rewrite parse_u32_fmt_int by apply mod_range.
  - apply from_to_be_bytes, mod_range.
  - intros Ho. split; [by apply Hb|]. intros Hg kc Hkc. rewrite <- Hkc in Hv.
    pose proof (count_reloads_next kc _ Hv (mod_range _)) as Hn. unfold u32_max in *.
    rewrite Ho, Z.mod_small in Hn by lia. rewrite bool_decide_eq_true_2 in Hn by done. by rewrite Ho.
Qed.
End reloads.

(** ** How [main] is wired *)

Section wiring.
Context {K : Type} `{HV : HasView K, FO : FdOps K, PO : PipeOps K, PR : ProcOps K,
  FS : FsOps K, SO : SockOps K, BC : Bincode K, AO : AsyncOps K, RO : ReactorOps K, GO : SignalOps K,
  EO : EnvOps K, OO : SockOptOps K}.
Context {C R W : Type} `{WO : WatchOps C R W}.
#[local] Notation TB := (TokioEcdysisBuilder (C := C) (R := R) (W := W)).
Context (overflow_checks systemd_notify : bool).
Context (debug_var : VarError -> string) (debug_parse : IntErrorKind -> string)
  (debug_str : string -> string) (debug_info : SockInfo -> string).

(** A registration [main] unwraps, and what follows. *)
Lemma appends_unwrap {A B} (m : M (TB * K) (result A io_error)) x (rest : M (TB * K) B) (l : list (source * ExitCondition)) :
  appends m (on_ok x) -> appends rest (fun _ => l) ->
  appends (r ← m; _ ← unwrap r; rest) (fun _ => x :: l).
Proof.
  intros Hm Hr. eapply appends_bind; [exact Hm|]. intros [a|e].
  - exists (fun _ => l). split; [|done]. intros b k y b' k' E. by apply Hr in E.
  - exists (fun _ => x :: l). split; [|done]. intros b k y b' k' E. done.
Qed.

Lemma appends_then {A B} (m : M (TB * K) A) (f : A -> M (TB * K) B) l :
  appends m (fun _ => []) -> (forall x, appends (f x) (fun _ => l)) -> appends (m ≫= f) (fun _ => l).
Proof. intros Hm Hf. eapply appends_bind; [done|]. intros x. exists (fun _ => l). by split. Qed.

Lemma trigger_on_signal_appends kind ec :
  appends (trigger_on_signal kind ec : M (TB * K) _) (on_ok (FromSignal kind, ec)).
Proof. apply appends_then_push; [apply appends_kern|done]. Qed.

Lemma trigger_on_socket_appends path ec :
  appends (trigger_on_socket path ec : M (TB * K) _) (on_ok (FromSocket path, ec)).
Proof. apply (appends_then_push _ (fun l => TUds path (uds_stream l))); [apply appends_on_te|done]. Qed.

Lemma appends_unwrap_none {E A} (r : result A E) : appends (unwrap r : M (TB * K) A) (fun _ => []).
Proof. apply appends_same. by intros [b k]; destruct r. Qed.

(** The triggers of the example, after the upgrade signal. *)
Definition echo_triggers : list (source * ExitCondition) :=
  [(FromSignal SIGUSR1, Stop); (FromSignal SIGUSR2, PartialStop);
   (FromSocket "/tmp/ecdysis_upgrade.sock", Upgrade); (FromSocket "/tmp/ecdysis_exit.sock", Stop);
   (FromSocket "/tmp/ecdysis_partial_exit.sock", PartialStop)].

Lemma echo_setup_appends :
  appends (echo_setup systemd_notify debug_var debug_parse : M (TB * K) _) (fun _ => echo_triggers).
Proof.
  unfold echo_setup, echo_triggers, stop_on_signal, partial_stop_on_signal,
    upgrade_on_socket, stop_on_socket, partial_stop_on_socket.
  do 2 (apply appends_unwrap; [apply trigger_on_signal_appends|]).
  do 3 (apply appends_unwrap; [apply trigger_on_socket_appends|]).
  apply appends_then; [apply appends_on_te|intros _].
  apply appends_then; [|intros _].
  { destruct systemd_notify; [|apply appends_ret].
    apply appends_then; [apply enable_appends|intros _; apply appends_ret]. }
  apply appends_then; [apply appends_on_te|intros _]. apply appends_ret.
Qed.

Lemma configure_echo_appends ip :
  appends (configure_echo systemd_notify debug_var debug_parse debug_str debug_info ip : M (TB * K) _)
    (fun _ => echo_triggers).
Proof.
  unfold configure_echo. eapply appends_bind; [apply echo_setup_appends|]. intros [].
  exists (fun _ => []). split; [|by intros; rewrite app_nil_r].
  apply appends_then; [apply appends_on_te|intros r1].
  apply appends_then; [apply appends_unwrap_none|intros stream].
  apply appends_then; [apply appends_on_te|intros r2].
  apply appends_then; [apply appends_unwrap_none|intros sd]. apply appends_ret.
Qed.

Lemma supervised_stop {L} stop (l : L) (s s' : TokioEcdysis (C := C) (R := R) * K) ss :
  supervised (W := W) stop l s = (Ret (Ok ss), s') -> ss_stop ss = stop.
Proof. destruct s as [t k]. by intros [= <- <-]. Qed.

Lemma async_listen_stop {L} `{Listener K L} stop m (s s' : TokioEcdysis (C := C) (R := R) * K)
    (ss : StoppableStream (W := W) (St := L)) :
  async_listen stop m s = (Ret (Ok ss), s') -> ss_stop ss = stop.
Proof.
  unfold async_listen, bindq. intros ([l|e] & s1 & _ & E)%run_inv_bind; [|done].
  apply run_inv_bind in E as ([u|e] & s2 & _ & E); [|done]. by apply supervised_stop in E.
Qed.

Lemma systemd_listen_stop {P} `{TryFromRawFd K P, Listener K P} stop name si
    (s s' : TokioEcdysis (C := C) (R := R) * K) (ss : StoppableStream (W := W) (St := P)) :
  systemd_listen debug_str debug_info stop name si s = (Ret (Ok ss), s') -> ss_stop ss = stop.
Proof.
  unfold systemd_listen, bindq. intros ([l|e] & s1 & _ & E)%run_inv_bind; [|done].
  apply run_inv_bind in E as ([u|e] & s2 & _ & E); [|done].
  unfold io_q in E. apply run_inv_bind in E as ([x|e] & s3 & E3 & E); [|done].
  apply supervised_stop in E3. by injection E as <- <-.
Qed.

Lemma run_on_te {A} (m : M (TokioEcdysis (C := C) (R := R) * K) A) (b b' : TB) k k' x :
  on_te m (b, k) = (Ret x, (b', k')) -> exists t', m (tb_te b, k) = (Ret x, (t', k')).
Proof.
  unfold on_te, field. destruct (m (tb_te b, k)) as [o [t k1]]. intros E. simplify_eq. by exists t.
Qed.

Lemma run_unwrap {S A E} (r : result A E) (s s' : S) x : unwrap r s = (Ret x, s') -> r = Ok x /\ s' = s.
Proof. destruct r; [by intros [= <- <-]|done]. Qed.

Lemma configure_echo_run ip (b b' : TB) k k' tcp sd :
  configure_echo systemd_notify debug_var debug_parse debug_str debug_info ip (b, k) = (Ret (tcp, sd), (b', k')) ->
  (exists b1 k1 s2, echo_setup systemd_notify debug_var debug_parse (b, k) = (Ret tt, (b1, k1)) /\
     te_build_listen_tcp Yes (socket_addr ip 22222) (echo_sock_build ip) (tb_te b1, k1) = (Ret (Ok tcp), s2)) /\
  ss_stop tcp = Yes /\ ss_stop sd = Yes.
Proof.
  unfold configure_echo. intros E.
  apply run_inv_bind in E as ([] & [b1 k1] & E0 & E).
  apply run_inv_bind in E as (r1 & [bb1 kk1] & (tt1 & E1)%run_on_te & E).
  apply run_inv_bind in E as (s1 & [bb2 kk2] & [-> [= -> ->]]%run_unwrap & E).
  apply run_inv_bind in E as (r2 & [bb3 kk3] & (tt2 & E2)%run_on_te & E).
  apply run_inv_bind in E as (s2 & [bb4 kk4] & [-> [= -> ->]]%run_unwrap & E).
  injection E as <- <- <- <-. split; [by exists b1, k1, (tt1, kk1)|].
  apply async_listen_stop in E1. by apply systemd_listen_stop in E2.
Qed.

(** The socket of a TCP listener that was asked for [addr]: the one inherited for
    it, or a new one that was bound to it and listens. *)
Definition listens_on (addr : SocketAddr) (s : Ecdysis * K) (l : TcpListener) : Prop :=
  (exists s', in_registry (inherit (Tcp addr)) s = (Ret (Some (tcp_fd l)), s')) \/
  (exists e1 k1 k2 k3 k4, in_registry (inherit (Tcp addr)) s = (Ret None, (e1, k1)) /\
     socket_new (for_address addr) STREAM k1 = (Ok (tcp_fd l), k2) /\
     set_reuse_address (tcp_fd l) true k2 = (Ok tt, k3) /\
     sock_bind (tcp_fd l) addr k3 = (Ok tt, k4) /\ (sock_listen (tcp_fd l) 128 k4).1 = Ok tt).

Lemma run_inv_owning {S A E} (d : M S unit) (m : M S (result A E)) s x s' :
  owning d m s = (Ret (Ok x), s') -> m s = (Ret (Ok x), s').
Proof. unfold owning. by destruct (m s) as [[[]| |] ?]. Qed.

Lemma run_inv_kern {O A} (m : M K A) (o o' : O) k k' x :
  kern m (o, k) = (Ret x, (o', k')) -> o' = o /\ m k = (Ret x, k').
Proof. unfold kern. destruct (m k). by intros [= <- <- <-]. Qed.

Lemma run_inv_call {S A} (f : S -> A * S) s x s' : call f s = (Ret x, s') -> f s = (x, s').
Proof. unfold call. destruct (f s). by intros [= <- <-]. Qed.

Lemma run_inv_expect {S A E} msg (r : result A E) (s s' : S) x :
  expect msg r s = (Ret x, s') -> r = Ok x /\ s' = s.
Proof. destruct r; [by intros [= <- <-]|done]. Qed.

Lemma echo_sock_build_ok a b addr k (l : TcpListener) k' :
  echo_sock_build (Ip4 a) b addr k = (Ret (Ok l), k') ->
  l = MkTcp b /\ exists k2 k3, set_reuse_address b true k = (Ok tt, k2) /\
    sock_bind b addr k2 = (Ok tt, k3) /\ (sock_listen b 128 k3).1 = Ok tt.
Proof.
  intros (? & k1 & [= _ <-] & E)%run_inv_owning%run_inv_bind.
  apply run_inv_bind in E as (r1 & k2 & E1%run_inv_call & E).
  apply run_inv_bind in E as ([] & k3 & [-> ->]%run_inv_expect & E).
  apply run_inv_bind in E as (r2 & k4 & E2%run_inv_call & E).
  apply run_inv_bind in E as ([] & k5 & [-> ->]%run_inv_expect & E).
  unfold bindq in E. apply run_inv_bind in E as ([[]|] & k6 & E3%run_inv_call & E); [|done].
  injection E as <- _. split; [done|]. exists k2, k4. by rewrite E3.
Qed.

Lemma build_listen_tcp_echo a addr (s s' : Ecdysis * K) (l : TcpListener) :
  build_listen_tcp addr (echo_sock_build (Ip4 a)) s = (Ret (Ok l), s') -> listens_on addr s l.
Proof.
  unfold build_listen_tcp. intros ([fd|] & [e1 k1] & E0 & E)%run_inv_bind.
  - injection E as <- _. left. by eexists.
  - right. unfold bindq in E. apply run_inv_bind in E as ([b|] & [e2 k2] & E1 & E); [|done].
    apply run_inv_kern in E1 as [-> E1%run_inv_call].
    apply run_inv_bind in E as ([l'|] & [e3 k3] & E2 & E); [|done].
    apply run_inv_kern in E2 as [-> (-> & k4 & k5 & H1 & H2 & H3)%echo_sock_build_ok].
    apply run_inv_owning, run_inv_bind in E as ([i|] & ? & _ & E); [|done].
    apply run_inv_bind in E as ([u|] & ? & _ & E); [|done]. injection E as <- _.
    by exists e1, k1, k2, k4, k5.
Qed.

Lemma te_build_listen_tcp_echo stop a addr (s s' : TokioEcdysis (C := C) (R := R) * K)
    (ss : StoppableStream (W := W) (St := TcpListener)) :
  te_build_listen_tcp stop addr (echo_sock_build (Ip4 a)) s = (Ret (Ok ss), s') ->
  listens_on addr (te_inner s.1, s.2) (ss_stream ss).
Proof.
  unfold te_build_listen_tcp, async_listen, bindq. destruct s as [t k].
  intros ([l|e] & s1 & E1 & E)%run_inv_bind; [|done].
  apply run_inv_bind in E as ([u|e] & [t2 k2] & _ & E); [|done].
  injection E as <- _. unfold inner, field in E1. cbn [fst snd] in *.
  destruct (build_listen_tcp _ _ (te_inner t, k)) as [o [e1 k1]] eqn:Eb. injection E1 as -> <-.
  by eapply build_listen_tcp_echo.
Qed.

Lemma echo_ip_run (k : K) : echo_ip k = (Ret (Ip4 0), k).
Proof. done. Qed.

(** [main] up to its first listener. *)
Definition main_until_listen : M K TB :=
  _ ← set_listen_pid;
  _ ← count_reloads overflow_checks;
  r ← TokioEcdysisBuilder_new SIGHUP;
  b ← unwrap r;
  _ ← echo_ip;
  '(_, b) ← on_object b (echo_setup systemd_notify debug_var debug_parse);
  mret b.

(** C35. How the example is wired: when [main] gets as far as awaiting the future,
    it waits for six triggers, in this order: SIGHUP, which upgrades, SIGUSR1,
    which stops, SIGUSR2, which stops partly, the upgrade socket, the exit
    socket and the partial-exit socket; both accept loops stop on a shutdown; and
    the listener of the first one is the socket that was inherited for
    0.0.0.0:22222, or else a new one that was bound to that address and listens
    (never "[::1]", which is not an address). *)
Theorem echo_wiring (k k' : K) (n : Z) tcp sd (up : Upgrader (C := C) (R := R) (W := W)) :
  echo_main overflow_checks systemd_notify debug_var debug_parse debug_str debug_info k =
    (Ret (n, (tcp, sd), up), k') ->
  sources (up_triggers up) = (FromSignal SIGHUP, Upgrade) :: echo_triggers /\
  ss_stop tcp = Yes /\ ss_stop sd = Yes /\
  exists b1 k1, main_until_listen k = (Ret b1, k1) /\
    listens_on (V4 0 22222) (te_inner (tb_te b1), k1) (ss_stream tcp).
Proof.
  unfold echo_main, main_until_listen. intros E.
  apply run_inv_bind in E as (? & k1 & E1 & E). rewrite (run_bind _ _ _ _ _ E1).
  apply run_inv_bind in E as (? & k2 & E2 & E). rewrite (run_bind _ _ _ _ _ E2).
  apply run_inv_bind in E as (rb & k3 & Eb & E). rewrite (run_bind _ _ _ _ _ Eb).
  apply run_inv_bind in E as (b & k4 & Eu & E). rewrite (run_bind _ _ _ _ _ Eu).
  apply run_unwrap in Eu as [-> ->].
  apply run_inv_bind in E as (ip & k5 & Ei & E). rewrite (run_bind _ _ _ _ _ (echo_ip_run k3)).
  rewrite echo_ip_run in Ei. injection Ei as <- <-.
  apply run_inv_bind in E as ([[tcp0 sd0] b1] & k6 & Ec & E).
  apply run_inv_bind in E as ([r b2] & k8 & Er & E).
  apply run_inv_bind in E as (up0 & k9 & [-> ->]%run_unwrap & E).
  apply run_inv_bind in E as (m & k7 & _ & E). injection E as <- <- <- <- <-.
  unfold on_object in Ec, Er |- *.
  destruct (configure_echo _ _ _ _ _ _ (b, k3)) as [[[xt xs]| |] [b3 k10]] eqn:Ec'; simplify_eq.
  destruct (tb_ready (b1, k6)) as [[o| |] [b4 k11]] eqn:Er'; simplify_eq.
  destruct (new_triggers _ _ _ _ Eb) as (stream & Hb & _).
  destruct (configure_echo_appends _ _ _ _ _ _ Ec') as (ts & Hts & Hsrc).
  destruct (tb_ready_ok _ _ _ _ _ Er') as (Hu & _ & _).
  destruct (configure_echo_run _ _ _ _ _ _ _ Ec') as [(b0 & k0 & s2 & E0 & El) Hstop].
  split; [rewrite Hu, Hts, Hb; unfold sources; cbn; by f_equal|]. split; [apply Hstop|].
  split; [apply Hstop|]. exists b0, k0. unfold mbind, M_bind. rewrite E0. split; [done|].
  by apply te_build_listen_tcp_echo in El.
Qed.
End wiring.

(** ** Witnesses *)

#[export] Instance model_env : EnvOps model := {|
  env_set_var name val m := md_set (set_env (<[name := Some val]> (v_env (md_view m))) (md_view m)) m
|}.
#[export] Instance model_env_laws : EnvLaws model.
Proof. by split. Qed.

#[export] Instance model_sockopt : SockOptOps model := {|
  set_only_v6 fd b m := (Ok tt, m);
  set_reuse_address fd b m := (Ok tt, m)
|}.

#[local] Notation Chan := (RunState * nat * bool)%type.

Definition quiet_supervisor : Supervisor (R := nat) := MkSup 0%nat None.
Definition start_world := serving (C := Chan) (R := nat) (W := option nat) 0 2 (None, 0%nat, true) quiet_supervisor.

(** A client connects, gets its greeting, sends one byte, gets it back and
    leaves; then the process is told to stop, and ends. *)
Definition visit : list world_event :=
  [PollServer 0 (Ready (Some (Ok tt)))] ++ replicate 5 (ClientDo 0 0 TaskWrite) ++
  [ClientDo 0 0 (PeerSend "x"); ClientDo 0 0 TaskRead; ClientDo 0 0 TaskWrite; ClientDo 0 0 PeerClose;
   ClientDo 0 0 TaskEof].

Definition after (tr : list world_event) := default start_world (world_run (R := nat) tr start_world).

Lemma after_run tr : is_Some (world_run (R := nat) tr start_world) -> world_run tr start_world = Some (after tr).
Proof. intros [w E]. unfold after. by rewrite E. Qed.

Lemma echo_faithful_witness :
  exists s cl, w_servers (after visit) !! 0%nat = Some s /\ sv_clients s !! 0%nat = Some cl /\
    cl_out cl = to_be_bytes 2 +:+ "x".
Proof.
  eexists _, _. split; [vm_compute; reflexivity|]. split; [vm_compute; reflexivity|].
  refine (proj2 (echo_faithful (R := nat) visit 0 2 (None, 0%nat, true) quiet_supervisor (after visit) 0 0 _ _ _ _ _) _);
    [apply after_run; vm_compute; by eexists|vm_compute; reflexivity|vm_compute; reflexivity|reflexivity].
Defined.

Lemma graceful_exit_witness :
  exists w1, world_step (R := nat) (FutureEnds (Some Upgrade)) (after visit) = Some w1 /\
    connections w1 = [1%nat; 0%nat].
Proof.
  eexists. split; [vm_compute; reflexivity|].
  refine (proj2 (graceful_exit (R := nat) visit 0 2 (None, 0%nat, true) quiet_supervisor (after visit) _)
    Upgrade _ [] _ _ eq_refl); [apply after_run; vm_compute; by eexists|vm_compute; reflexivity].
Defined.

Lemma echo_exits_witness :
  exists tr w t, (length tr <= 9)%nat /\ world_run (R := nat) tr (after (visit ++ [FutureEnds (Some Stop)])) = Some w /\
    w_main w = Returned t.
Proof.
  destruct (echo_exits (R := nat) (visit ++ [FutureEnds (Some Stop)]) 0 2 (None, 0%nat, true) quiet_supervisor
    (after (visit ++ [FutureEnds (Some Stop)]))) as [_ H];
    [apply after_run; vm_compute; by eexists|vm_compute; discriminate|vm_compute; reflexivity|].
  destruct H as (tr & w & t & Hl & E & _ & Hw); [vm_compute; reflexivity| |by exists tr, w, t].
  vm_compute. apply Forall_cons_2; [reflexivity|]. apply Forall_cons_2; [reflexivity|]. apply Forall_nil_2.
Defined.

(** The process systemd starts: one named socket, on descriptor 3. *)
Definition systemd_os : model :=
  Model (md_view (boot {[LISTEN_FDNAMES := Some "ecdysis_test_unix"]} {[3 := Fd 30 false]})) 64
    {[30%N := inr "/tmp/ecdysis_int_test.sock"]} true.

Definition echo_run := echo_main (C := Chan) (R := nat) (W := option nat) true true (fun _ => "") (fun _ => "")
  quoted unshown systemd_os.

Lemma echo_run_returns : match echo_run.1 with Ret _ => True | _ => False end.
Proof. vm_compute. exact I. Qed.

Lemma echo_wiring_witness :
  exists n streams up, echo_run.1 = Ret (n, streams, up) /\
    sources (up_triggers up) = (FromSignal SIGHUP, Upgrade) :: echo_triggers.
Proof.
  pose proof echo_run_returns as H. destruct echo_run as [[[[n [tcp sd]] up]| |] k'] eqn:E;
    [|destruct H|destruct H].
  destruct (echo_wiring true true _ _ _ _ _ _ _ _ _ _ E) as [Hs _].
  exists n, (tcp, sd), up. split; [reflexivity|exact Hs].
Defined.

(** The first process and its first child. *)
Definition first_os : model := (set_listen_pid (boot ∅ ∅)).2.
Definition parent_os : model := (count_reloads true first_os).2.

Definition upgraded := upgrade_start show_error true [] (false, parent_os).
Definition started_child : model :=
  match upgraded.1 with Ret (Ok (Running kc, _, _)) => kc | _ => parent_os end.
Definition second_os : model := (count_reloads true (set_listen_pid started_child).2).2.

Lemma reload_count_is_generation_witness :
  server_reloads parent_os = (Ret 0, parent_os) /\ server_reloads second_os = (Ret 1, second_os).
Proof.
  assert (H0 : generation true show_error 0 parent_os).
  { apply (generation_first true show_error (boot ∅ ∅) 0 parent_os); vm_compute; reflexivity. }
  split; [by apply (reload_count_is_generation true show_error 0 parent_os)|].
  apply (reload_count_is_generation true show_error 1 second_os).
  eapply (generation_next true show_error 0 parent_os parent_os [] started_child);
    [exact H0|reflexivity|vm_compute; discriminate|constructor|vm_compute; reflexivity|vm_compute; reflexivity].
Defined.
