(* ===== verification/Service.v ===== *)
(** * Service: the example's process as a whole

    Everything of [examples/tokio_echo.rs] after start-up, under one scheduler:
    the library's future as the task [main] awaits ([MonitorTask]), the calls of
    [upgrade] as threads over their children ([UpgradeThreads]), the accept
    loops, the connections' tasks and the end of [main] ([Echo]). They share the
    supervisor's channel, the registry, the flag [UPGRADING] and the clock. A
    run is any sequence of events; each is one poll of a task, one atomic action
    of a thread or of a child, or something the rest of the program does.

    The theorems: what the serving half of the process does is a run of [Echo],
    so its theorems hold here; and the listeners make way for another process
    only when a call of [upgrade], which was given the sockets the registry used
    when the call was made, has a child that is ready. *)

From S2P Require Import Prelude Text Addr Posix PosixModel Utils Registry RegistrySpec.
From S2P Require Import Bincode Listener Inheriter Executioner Ecdysis EcdysisSpec.
From S2P Require Import UpgradeThreads UpgradeSpec.
From S2P Require Import Supervisor SystemdSockets TokioEcdysis TokioSpec Monitor MonitorSpec MonitorTask.
From S2P Require Import Lifecycle Builder Echo EchoSpec.
Local Open Scope Z_scope.

Section service.
Context {K : Type} `{HV : HasView K, FO : FdOps K, PO : PipeOps K, PR : ProcOps K,
  FS : FsOps K, SO : SockOps K, BC : Bincode K, AO : AsyncOps K, RO : ReactorOps K}.
Context {C R W : Type} `{WO : WatchOps C R W}.
#[local] Notation TE := (TokioEcdysis (C := C) (R := R)).
#[local] Notation UP := (Upgrader (C := C) (R := R) (W := W)).
Context (show_io debug_io : io_error -> string) (systemd_sockets : bool) (capacity : nat).

(** A call of [upgrade]: the list it was given, and whether its thread panicked
    before the child's threads were there. *)
Record call_info : Type := MkCallInfo { ci_fds : list ListenerInfo; ci_panicked : bool }.

Record service : Type := MkService {
  s_up : UP;                     (* the future's own state *)
  s_os : K;
  s_pc : mon_pc;                 (* where it awaits *)
  s_awaited : nat;               (* the call whose answer it awaits, or awaited last *)
  s_calls : list call_info;      (* by index, like the jobs of [s_threads] *)
  s_threads : system (K := K);
  s_servers : list (server (W := W));
  s_main : main_state;
  s_panicked : bool              (* the future panicked, and [main] with it *)
}.

Definition s_chan (s : service) : C := te_chan (up_te (s_up s)).

(** The process as [Echo] sees it. *)
Definition world_of (s : service) : world (C := C) (W := W) :=
  MkWorld (now (s_threads s)) (s_chan s) (s_servers s) (s_main s).

(** What the call's thread has sent. *)
Definition answer_of_call (i : nat) (s : service) : option (answer_type (K := K)) :=
  c ← s_calls s !! i;
  if ci_panicked c then Some (Err "channel closed")
  else j ← jobs (s_threads s) !! i; Ok <$> returned j.

Definition set_threads (t : system) (s : service) : service :=
  MkService (s_up s) (s_os s) (s_pc s) (s_awaited s) (s_calls s) t (s_servers s) (s_main s) (s_panicked s).
Definition set_os (k : K) (s : service) : service :=
  MkService (s_up s) k (s_pc s) (s_awaited s) (s_calls s) (s_threads s) (s_servers s) (s_main s)
    (s_panicked s).
Definition set_calls (l : list call_info) (s : service) : service :=
  MkService (s_up s) (s_os s) (s_pc s) (s_awaited s) l (s_threads s) (s_servers s) (s_main s) (s_panicked s).

(** A thread that is about to call [upgrade] with a list. *)
Definition add_call (fds : list ListenerInfo) (s : service) : service :=
  let t := s_threads s in
  set_threads (MkSys (now t) (upgrading t) (jobs t ++ [called]))
    (set_calls (s_calls s ++ [MkCallInfo fds false]) s).

Inductive s_event : Type :=
| SPoll                                 (* [main], awaiting the future *)
| SCall                                 (* another thread calls [Ecdysis::upgrade] *)
| SStart (i n : nat)                    (* a call creates its pipes and its child *)
| SThreads (a : action (K := K))        (* time, the calls' threads, the children *)
| SServe (e : world_event)              (* the servers, the connections, the end of [main] *)
| SOthers (e : Ecdysis) (sd : option SystemdSockets) (k : K).
    (* the rest of the program and of the world: listen calls, signals, bytes *)

(** One poll of the future. When it is ready, [main] goes on. *)
Definition s_poll (s : service) : option service :=
  match s_main s with
  | Awaiting =>
    Some
      (match fut_poll show_io (answer_of_call (s_awaited s) s) (s_pc s) (s_up s, s_os s) with
       | (Ret (pc, sp), (u, k)) =>
         let main := match pc with MpDone _ => Sleeping (now (s_threads s)) | _ => Awaiting end in
         let s' aw := MkService u k pc aw (s_calls s) (s_threads s) (s_servers s) main false in
         match sp with
         | Some fds => add_call fds (s' (length (jobs (s_threads s))))
         | None => s' (s_awaited s)
         end
       | (_, (u, k)) =>
         MkService u k (s_pc s) (s_awaited s) (s_calls s) (s_threads s) (s_servers s) Awaiting true
       end)
  | _ => None
  end.

(** The part of [upgrade] that [Executioner] models, in the call's thread. *)
Definition s_start (i n : nat) (s : service) : option service :=
  c ← s_calls s !! i;
  j ← jobs (s_threads s) !! i;
  match j_main j, ci_panicked c with
  | MStart, false =>
    match upgrade_start debug_io systemd_sockets (ci_fds c) (false, s_os s) with
    | (Ret res, (_, k)) =>
      t ← sys_step capacity (Act i (Main (res_map (fun _ => n) res))) (s_threads s);
      Some (set_os k (set_threads t s))
    | (_, (_, k)) =>
      Some (set_os k (set_calls (<[i := MkCallInfo (ci_fds c) true]> (s_calls s)) s))
    end
  | _, _ => None
  end.

(** The threads' other actions. *)
Definition by_threads (t : system (K := K)) (a : action (K := K)) : bool :=
  match a with
  | Call => false
  | Act i (Main _) =>
    match jobs t !! i with
    | Some j => match j_main j with MStart => false | _ => true end
    | None => false
    end
  | _ => true
  end.

Definition s_serve (e : world_event) (s : service) : option service :=
  match e with
  | Elapse _ | FutureEnds _ => None
  | _ =>
    w ← world_step (R := R) e (world_of s);
    Some (MkService (s_up s) (s_os s) (s_pc s) (s_awaited s) (s_calls s) (s_threads s)
            (w_servers w) (w_main w) (s_panicked s))
  end.

Definition set_rest (e : Ecdysis) (sd : option SystemdSockets) (u : UP) : UP :=
  set_te (MkTokio (te_supervisor (up_te u)) (te_chan (up_te u)) e sd) u.

Definition s_step (e : s_event) (s : service) : option service :=
  if s_panicked s || over (s_main s) then None
  else match e with
  | SPoll => s_poll s
  | SCall =>
    match in_registry get_fds_for_child (te_inner (up_te (s_up s)), s_os s) with
    | (Ret fds, _) => Some (add_call fds s)
    | _ => None
    end
  | SStart i n => s_start i n s
  | SThreads a =>
    if by_threads (s_threads s) a then
      t ← sys_step capacity a (s_threads s);
      Some (set_threads t s)
    else None
  | SServe e => s_serve e s
  | SOthers e sd k =>
    Some (set_os k
      (MkService (set_rest e sd (s_up s)) (s_os s) (s_pc s) (s_awaited s) (s_calls s) (s_threads s)
         (s_servers s) (s_main s) (s_panicked s)))
  end.

Fixpoint s_run (tr : list s_event) (s : service) : option service :=
  match tr with
  | [] => Some s
  | e :: tr' => s' ← s_step e s; s_run tr' s'
  end.

(** [main] when it starts to await: what [echo_main] returned, both accept loops
    running, no call of [upgrade] yet. *)
Definition awaiting (n : Z) (u : UP) (k : K) : service :=
  MkService u k MpStart 0 [] booted
    (w_servers (serving 0 n (te_chan (up_te u)) (te_supervisor (up_te u)))) Awaiting false.

(** ** The calls of [upgrade] *)

#[local] Notation run_start := (upgrade_start debug_io systemd_sockets).
Implicit Types (l : list call_info) (t : system (K := K)) (j : job (K := K)) (s : service).

(** In the run [tr] from [s0], one step made call number [i], with the sockets the
    registry used at that moment. *)
Definition was_called (s0 : service) (tr : list s_event) (i : nat) (fds : list ListenerInfo) : Prop :=
  exists tr1 e tr2 s1 s2, tr = tr1 ++ e :: tr2 /\ s_run tr1 s0 = Some s1 /\ s_step e s1 = Some s2 /\
    length (s_calls s1) = i /\ s_calls s2 = s_calls s1 ++ [MkCallInfo fds false] /\
    fds = used_list (s_up s1).

(** In that run, call number [i] started a child with the list, on the system as it
    was at that moment. *)
Definition was_started (s0 : service) (tr : list s_event) (i : nat) (fds : list ListenerInfo) : Prop :=
  exists tr1 n tr2 s1 c o, tr = tr1 ++ SStart i n :: tr2 /\ s_run tr1 s0 = Some s1 /\
    run_start fds (false, s_os s1) = (Ret (Ok c), o).

Context `{WL : !WatchLaws C R W}.

(** What is known of the calls, when [made] and [begun] hold what is known of how
    they came about. *)
Section calls.
Context (made begun : nat -> list ListenerInfo -> Prop).

Record calls_inv l t : Prop := {
  ca_reach : reachable capacity t;
  ca_len : length l = length (jobs t);
  ca_fds : forall i c, l !! i = Some c -> made i (ci_fds c);
  ca_child : forall i c j, l !! i = Some c -> jobs t !! i = Some j -> started j -> begun i (ci_fds c)
}.

(** The call has returned [Ok]. *)
Definition call_done l t (i : nat) : Prop :=
  exists c j, l !! i = Some c /\ ci_panicked c = false /\ jobs t !! i = Some j /\ j_main j = MDone (Ok tt).

Lemma reachable_step a t t' : reachable capacity t -> sys_step capacity a t = Some t' -> reachable capacity t'.
Proof. intros [tr E] Ea. exists (tr ++ [a]). rewrite run_app, E. cbn. by rewrite Ea. Qed.

Lemma sys_step_length a t t' :
  sys_step capacity a t = Some t' -> a <> Call -> length (jobs t') = length (jobs t).
Proof.
  destruct a as [d| |i ev]; cbn; intros E Ha; [by simplify_eq|done|].
  destruct (jobs t !! i) as [j|]; simplify_eq/=.
  destruct (job_step _ _ _ _ _) as [[u j']|]; simplify_eq/=. apply length_insert.
Qed.

(** Only the start of the child takes a call to having one. *)
Lemma s_run_app tr1 tr2 s : s_run (tr1 ++ tr2) s = s' ← s_run tr1 s; s_run tr2 s'.
Proof.
  revert s. induction tr1 as [|e tr1 IH]; intros s; cbn; [done|]. destruct (s_step e s); cbn; [apply IH|done].
Qed.

Lemma started_step ev u n j u' j' :
  job_step capacity ev u n j = Some (u', j') ->
  (match ev with Main _ => j_main j <> MStart | _ => True end) -> started j' -> started j.
Proof.
  destruct j as [m sd wc wr p]. unfold started. destruct ev as [st|f e|f|f|c]; cbn; intros E Hev H.
  - destruct m; cbn in E; repeat case_match; simplify_eq/=; done.
  - destruct (send_step _ _ _ _ _) as [[]|]; simplify_eq/=. done.
  - destruct (waitc_step _ _ _ _ _) as [[]|]; simplify_eq/=. done.
  - destruct (waitr_step _ _ _) as [[]|]; simplify_eq/=. done.
  - destruct (may_act _ _); [|done]. destruct (child_step _ _); simplify_eq/=. done.
Qed.

(** A call that has returned stays as it is. *)
Lemma done_step ev u n j u' j' r :
  job_step capacity ev u n j = Some (u', j') -> j_main j = MDone r -> j_main j' = MDone r.
Proof.
  destruct j as [m sd wc wr p]. destruct ev as [st|f e|f|f|c]; cbn; intros E ->.
  - done.
  - destruct (send_step _ _ _ _ _) as [[]|]; simplify_eq/=. done.
  - destruct (waitc_step _ _ _ _ _) as [[]|]; simplify_eq/=. done.
  - destruct (waitr_step _ _ _) as [[]|]; simplify_eq/=. done.
  - destruct (may_act _ _); [|done]. destruct (child_step _ _); simplify_eq/=. done.
Qed.

Lemma calls_threads l t a t' :
  calls_inv l t -> by_threads t a = true -> sys_step capacity a t = Some t' -> calls_inv l t'.
Proof.
  intros [Hr Hl Hf Hc] Ha E. split; [by eapply reachable_step| |done|].
  - rewrite (sys_step_length _ _ _ E); [done|]. by intros ->.
  - intros i c j' Hi Hj' Hh.
    destruct (sys_step_job _ _ _ _ _ _ E Hj') as [(-> & _)|[[Hj _]|(ev & j & -> & Hj & Es)]];
      [done|by eapply Hc|].
    eapply (Hc i c j Hi Hj), started_step; [exact Es| |exact Hh].
    destruct ev; try done. cbn in Ha. rewrite Hj in Ha. by destruct (j_main j).
Qed.

Lemma calls_add l t fds :
  calls_inv l t -> made (length l) fds ->
  calls_inv (l ++ [MkCallInfo fds false]) (MkSys (now t) (upgrading t) (jobs t ++ [called])).
Proof.
  intros [Hr Hl Hf Hc] Hfds. split; cbn.
  - by apply (reachable_step Call t).
  - rewrite !length_app, Hl. done.
  - intros i c [Hi|[Hi Hi']]%lookup_app_Some; [by apply Hf|].
    apply list_lookup_singleton_Some in Hi' as [? <-]. by replace i with (length l) by lia.
  - intros i c j [Hi|[Hi ?]]%lookup_app_Some [Hj|[Hj Hj']]%lookup_app_Some Hh.
    + by eapply Hc.
    + apply lookup_lt_Some in Hi. lia.
    + apply lookup_lt_Some in Hj. lia.
    + apply list_lookup_singleton_Some in Hj' as [_ <-]. done.
Qed.

Lemma calls_start l t i n c j k res o t' :
  (forall ch, run_start (ci_fds c) (false, k) = (Ret (Ok ch), o) -> begun i (ci_fds c)) ->
  calls_inv l t -> l !! i = Some c -> jobs t !! i = Some j -> j_main j = MStart ->
  run_start (ci_fds c) (false, k) = (Ret res, o) ->
  sys_step capacity (Act i (Main (res_map (fun _ => n) res))) t = Some t' ->
  calls_inv l t'.
Proof.
  intros Hbegun [Hr Hl Hf Hc] Hi Hj Hm E Et. split; [by eapply reachable_step| |done|].
  - by rewrite (sys_step_length _ _ _ Et).
  - intros i0 c0 j0 Hi0 Hj0 Hh.
    destruct (sys_step_job _ _ _ _ _ _ Et Hj0) as [(? & _)|[[Hj1 _]|(ev & j1 & Ha & Hj1 & Es)]];
      [done|by eapply Hc|].
    injection Ha as <- <-. simplify_eq. cbn in Es. unfold main_step in Es. rewrite Hm in Es.
    destruct res as [ch|e]; cbn in Es; simplify_eq/=; [|done]. by eapply Hbegun.
Qed.

Lemma calls_panicked l t i c :
  calls_inv l t -> l !! i = Some c -> calls_inv (<[i := MkCallInfo (ci_fds c) true]> l) t.
Proof.
  intros [Hr Hl Hf Hc] Hi. split; [done|by rewrite length_insert| |].
  - intros i0 c0 [(<- & <- & _)|[_ Hi0]]%list_lookup_insert_Some; [by apply (Hf i c)|by apply Hf].
  - intros i0 c0 j0 [(<- & <- & _)|[_ Hi0]]%list_lookup_insert_Some Hj Hh; [|by eapply Hc].
    by apply (Hc i c j0).
Qed.

Lemma call_done_step l t a t' i :
  call_done l t i -> sys_step capacity a t = Some t' -> call_done l t' i.
Proof.
  intros (c & j & Hi & Hp & Hj & Hm) E.
  destruct (job_survives _ _ _ _ _ _ E Hj) as [j' Hj']. exists c, j'. peel 3.
  destruct (sys_step_job _ _ _ _ _ _ E Hj') as [(_ & _ & ?)|[[? _]|(ev & j1 & _ & ? & Es)]];
    [congruence|by simplify_eq|simplify_eq; by eapply done_step].
Qed.

Lemma call_done_add l t i x :
  call_done l t i -> call_done (l ++ [x]) (MkSys (now t) (upgrading t) (jobs t ++ [called])) i.
Proof.
  intros (c & j & Hi & Hp & Hj & Hm). exists c, j. cbn.
  rewrite !lookup_app_l by (by eapply lookup_lt_Some). done.
Qed.

Lemma call_done_panicked l t i0 j0 x i :
  call_done l t i -> jobs t !! i0 = Some j0 -> j_main j0 = MStart -> call_done (<[i0 := x]> l) t i.
Proof.
  intros (c & j & Hi & Hp & Hj & Hm) Hj0 Hm0. exists c, j.
  rewrite list_lookup_insert_ne; [done|]. intros ->. simplify_eq. congruence.
Qed.

(** What a call that returned [Ok] did. *)
Lemma call_done_ready l t i :
  calls_inv l t -> call_done l t i ->
  exists c j, l !! i = Some c /\ jobs t !! i = Some j /\ made i (ci_fds c) /\
    begun i (ci_fds c) /\ (exists rest, p_wrote (j_proc j) = "OK" +:+ rest) /\
    p_killed (j_proc j) = false.
Proof.
  intros [Hr Hl Hf Hc] (c & j & Hi & _ & Hj & Hm). exists c, j. peel 2.
  split; [by apply Hf|].
  split; [apply (Hc i c j); [done..|unfold started; by rewrite Hm]|].
  by destruct (done_ok_child capacity t i j Hr Hj Hm) as (_ & _ & ?).
Qed.

(** ** The invariant of a run *)

(** What the listeners have been told. *)
Definition told s : Prop :=
  match s_pc s, s_panicked s with
  | MpDone (Ok (mode, _)), _ => wl_value (s_chan s) = Some (mode_condition mode)
  | MpDone (Err _), _ | _, true => wl_value (s_chan s) <> Some Upgrade
  | _, false => wl_value (s_chan s) = None
  end.

Record s_inv (w0 : world (C := C) (W := W)) s : Prop := {
  iv_calls : calls_inv (s_calls s) (s_threads s);
  iv_done : match s_pc s with
            | MpDone (Ok (ModeUpgrade, _)) => call_done (s_calls s) (s_threads s) (s_awaited s)
            | _ => True
            end;
  iv_main : match s_pc s with MpDone _ => s_main s <> Awaiting | _ => s_main s = Awaiting end;
  iv_told : told s;
  iv_world : s_panicked s = false -> exists tr, world_run (R := R) tr w0 = Some (world_of s)
}.

Lemma world_snoc tr e w0 w w' :
  world_run (R := R) tr w0 = Some w -> world_step (R := R) e w = Some w' ->
  exists tr', world_run (R := R) tr' w0 = Some w'.
Proof. intros E Es. exists (tr ++ [e]). rewrite world_run_app, E. cbn. by rewrite Es. Qed.

(** An event of the serving half leaves the clock and the channel alone, and
    [main] does not start or stop awaiting. *)
Lemma serve_frame e w w' :
  world_step (R := R) e w = Some w' -> (match e with Elapse _ | FutureEnds _ => False | _ => True end) ->
  w_now w' = w_now w /\ w_chan w' = w_chan w /\ (w_main w' = Awaiting <-> w_main w = Awaiting).
Proof.
  unfold world_step. destruct (over (w_main w)) eqn:Eo; [done|]. intros E He.
  destruct e as [d|i acc|i k a|st| |]; try done.
  - destruct (w_servers w !! i) as [s|]; simplify_eq/=.
    destruct (server_step _ _ s) as [s'|]; simplify_eq/=. done.
  - destruct (w_servers w !! i) as [s|]; simplify_eq/=.
    destruct (sv_clients s !! k) as [cl|]; simplify_eq/=.
    destruct (client_step a cl) as [cl'|]; simplify_eq/=. done.
  - destruct (main_poll _ _ _) as [m|] eqn:Em; simplify_eq/=. peel 2.
    unfold main_poll in Em. destruct (w_main w); repeat case_match; by simplify_eq.
  - destruct (w_main w) eqn:Ew; try done; case_bool_decide; simplify_eq; done.
Qed.

Lemma act_keeps_now i ev t t' : sys_step capacity (Act i ev) t = Some t' -> now t' = now t.
Proof.
  cbn. intros E. destruct (jobs t !! i) as [j|]; simplify_eq/=.
  destruct (job_step _ _ _ _ _) as [[u j']|]; by simplify_eq/=.
Qed.

(** A step that is not a poll of the future: the calls move on, and the serving
    half stands still or takes a step. *)
Lemma other_inv w0 s s' :
  s_inv w0 s -> calls_inv (s_calls s') (s_threads s') ->
  (forall i, call_done (s_calls s) (s_threads s) i -> call_done (s_calls s') (s_threads s') i) ->
  s_pc s' = s_pc s -> s_awaited s' = s_awaited s -> s_panicked s' = s_panicked s ->
  s_chan s' = s_chan s -> (s_main s' = Awaiting <-> s_main s = Awaiting) ->
  world_of s' = world_of s \/ (exists e, world_step (R := R) e (world_of s) = Some (world_of s')) ->
  s_inv w0 s'.
Proof.
  intros [Hca Hd Hm Ht Hw] Hca' Hd' Epc Ea Ep Ec Em Ew. split; [done|..].
  - rewrite Epc, Ea. destruct (s_pc s) as [| | |[[[]]|]]; try done. by apply Hd'.
  - rewrite Epc. destruct (s_pc s); by rewrite Em.
  - unfold told. by rewrite Epc, Ep, Ec.
  - rewrite Ep. intros Hp. destruct (Hw Hp) as [tr Etr].
    destruct Ew as [->|[e Ee]]; [by exists tr|by eapply world_snoc].
Qed.

Lemma add_call_calls fds s :
  s_calls (add_call fds s) = s_calls s ++ [MkCallInfo fds false] /\
  s_threads (add_call fds s) =
    MkSys (now (s_threads s)) (upgrading (s_threads s)) (jobs (s_threads s) ++ [called]).
Proof. done. Qed.

Lemma add_call_inv w0 fds s : s_inv w0 s -> made (length (s_calls s)) fds -> s_inv w0 (add_call fds s).
Proof.
  intros Hi Hf. eapply other_inv; [exact Hi|..]; try done.
  - apply calls_add; [apply Hi|done].
  - intros i. apply call_done_add.
  - by left.
Qed.

(** The serving half of the process, when the future is ready. *)
Lemma future_ends s c pc :
  s_main s = Awaiting -> polled_chan (s_chan s) (Ret (pc, None)) c -> (exists r, pc = MpDone r) ->
  exists e, world_step (R := R) e (world_of s) =
    Some (MkWorld (now (s_threads s)) c (s_servers s) (Sleeping (now (s_threads s)))).
Proof.
  intros Hm Hc [r ->]. unfold polled_chan in Hc.
  assert (Hs : forall ec, stopped_as (s_chan s) ec c -> exists e, world_step (R := R) e (world_of s) =
    Some (MkWorld (now (s_threads s)) c (s_servers s) (Sleeping (now (s_threads s))))).
  { intros ec (-> & _). exists (FutureEnds (Some ec)). unfold world_step, world_of. cbn. by rewrite Hm. }
  destruct r as [[mode reason]|e]; [by eapply Hs|].
  destruct Hc as [->|(ec & _ & Hc)]; [|by eapply Hs].
  exists (FutureEnds None). unfold world_step, world_of. cbn. by rewrite Hm.
Qed.

(** A call that has answered [Ok (Ok ())] is one that has returned [Ok]. *)
Lemma answered_done i s :
  answer_of_call i s = Some (Ok (Ok tt)) -> call_done (s_calls s) (s_threads s) i.
Proof.
  unfold answer_of_call. destruct (s_calls s !! i) as [c|] eqn:Hc; [|done]. cbn.
  destruct (ci_panicked c) eqn:Hp; [done|].
  destruct (jobs (s_threads s) !! i) as [j|] eqn:Hj; [|done]. cbn.
  intros (r & Hr & Er)%fmap_Some. injection Er as <-. exists c, j. peel 3. unfold returned in Hr. by destruct (j_main j); simplify_eq.
Qed.

Lemma bad_told c r c' :
  wl_value c = None -> polled_chan c r c' ->
  match r with Ret (MpDone (Err _), _) | Panic _ | Exit _ => True | _ => False end ->
  wl_value c' <> Some Upgrade.
Proof.
  intros Hv Hc Hr.
  assert (H : c' = c \/ exists ec, ec <> Upgrade /\ stopped_as c ec c').
  { by destruct r as [[[| | |[[]|]] ?]|msg|x]. }
  destruct H as [->|(ec & Hec & _ & Hc' & _)]; congruence.
Qed.

(** The future still awaits something. *)
Lemma pending_inv w0 s u k pc aw :
  s_inv w0 s -> s_main s = Awaiting -> s_panicked s = false -> te_chan (up_te u) = s_chan s ->
  (match pc with MpDone _ => False | _ => True end) ->
  s_inv w0 (MkService u k pc aw (s_calls s) (s_threads s) (s_servers s) Awaiting false).
Proof.
  intros [Hca _ Hm Ht Hw] Em Hp Ec Hpc.
  assert (Hv : wl_value (s_chan s) = None).
  { unfold told in Ht. rewrite Hp in Ht. by destruct (s_pc s). }
  split; cbn; [done|by destruct pc|by destruct pc| |].
  - unfold told, s_chan. cbn. rewrite Ec. by destruct pc.
  - intros _. destruct (Hw Hp) as [tr E]. exists tr. rewrite E. unfold world_of, s_chan. cbn.
    by rewrite Ec, Em.
Qed.

(** The future is ready. *)
Lemma ready_inv w0 s u k r :
  s_inv w0 s -> s_main s = Awaiting -> s_panicked s = false ->
  polled_chan (s_chan s) (Ret (MpDone r, None)) (te_chan (up_te u)) ->
  (not_upgrade r \/ call_done (s_calls s) (s_threads s) (s_awaited s)) ->
  s_inv w0 (MkService u k (MpDone r) (s_awaited s) (s_calls s) (s_threads s) (s_servers s)
              (Sleeping (now (s_threads s))) false).
Proof.
  intros [Hca _ Hm Ht Hw] Em Hp Hc Hr.
  assert (Hv : wl_value (s_chan s) = None).
  { unfold told in Ht. rewrite Hp in Ht. by destruct (s_pc s). }
  split; cbn; [done| |done| |].
  - destruct r as [[[] reason]|e]; try done. by destruct Hr.
  - unfold told, s_chan. cbn. destruct r as [[mode reason]|e]; [by destruct Hc as (_ & ? & _)|].
    by eapply bad_told.
  - intros _. destruct (Hw Hp) as [tr E].
    destruct (future_ends s _ (MpDone r) Em Hc) as [e He]; [by eexists|]. by eapply world_snoc.
Qed.

(** What a step adds to what is known. *)
Definition step_tells (e : s_event) s s' : Prop :=
  (forall fds, s_calls s' = s_calls s ++ [MkCallInfo fds false] -> fds = used_list (s_up s) ->
     made (length (s_calls s)) fds) /\
  (forall i n fds c o, e = SStart i n -> run_start fds (false, s_os s) = (Ret (Ok c), o) -> begun i fds).

Lemma poll_inv w0 s s' :
  step_tells SPoll s s' -> s_inv w0 s -> s_panicked s = false -> s_poll s = Some s' -> s_inv w0 s'.
Proof.
  intros [Htell _] Hi Hp. unfold s_poll. destruct (s_main s) eqn:Em; try done.
  pose proof (fut_poll_ends show_io (answer_of_call (s_awaited s) s) (s_pc s) (s_up s, s_os s)) as Hc.
  unfold ends in Hc. change (chan (s_up s, s_os s)) with (s_chan s) in Hc.
  destruct (fut_poll _ _ _ _) as [o [u k]] eqn:E. cbn [fst snd] in Hc.
  change (chan (u, k)) with (te_chan (up_te u)) in Hc.
  assert (Hv : wl_value (s_chan s) = None).
  { pose proof (iv_told _ _ Hi) as Ht. pose proof (iv_main _ _ Hi) as Hm. unfold told in Ht.
    rewrite Hp in Ht. by destruct (s_pc s). }
  assert (Hbad : (match o with Ret (MpDone (Err _), _) | Panic _ | Exit _ => True | _ => False end) ->
    (match o with Ret _ => False | _ => True end) ->
    s_inv w0 (MkService u k (s_pc s) (s_awaited s) (s_calls s) (s_threads s) (s_servers s) Awaiting true)).
  { intros Hb _. pose proof (iv_main _ _ Hi) as Hm. split; cbn; [apply Hi|apply Hi| |..].
    - by destruct (s_pc s).
    - pose proof (bad_told _ _ _ Hv Hc Hb). unfold told, s_chan. cbn. by destruct (s_pc s).
    - done. }
  destruct o as [[pc sp]|msg|z]; intros [= <-]; [|by apply Hbad..]. clear Hbad.
  apply fut_poll_ret in E as (s1 & E & _). apply mon_poll_cases in E.
  destruct E as [Hf|[(reason & Epc & _ & Ex & _)|(reason & r & _ & Ha & Ex)]].
  - destruct pc as [| |reason|r], sp as [fds|]; try done; cbn in Hf, Hc.
    + by apply pending_inv.
    + apply add_call_inv; [by apply pending_inv|]. by apply Htell.
    + apply ready_inv; try done. by left.
  - injection Ex as -> ->. rewrite Epc in *. by apply pending_inv.
  - injection Ex as -> ->. apply ready_inv; try done. right. by apply answered_done.
Qed.

Lemma s_step_inv w0 e s s' :
  step_tells e s s' -> s_inv w0 s -> s_step e s = Some s' -> s_inv w0 s'.
Proof.
  intros Htell Hi. unfold s_step. destruct (s_panicked s || over (s_main s)) eqn:Ho; [done|].
  apply orb_false_iff in Ho as [Hp Ho]. pose proof (iv_calls _ _ Hi) as Hca.
  destruct e as [| |i n|a|e|e sd k].
  - by apply poll_inv.
  - destruct (in_registry _ _) as [[fds| |] [e1 k1]] eqn:E; intros [= <-].
    apply add_call_inv; [done|]. apply Htell; [done|]. by eapply get_fds_is_used.
  - unfold s_start. destruct (s_calls s !! i) as [c|] eqn:Hc; [|done]. cbn [mbind option_bind].
    destruct (jobs (s_threads s) !! i) as [j|] eqn:Hj; [|done]. cbn [mbind option_bind].
    destruct (j_main j) eqn:Hm; try done. destruct (ci_panicked c) eqn:Hcp; [done|].
    destruct (run_start _ _) as [[res|msg|z] [b k]] eqn:E.
    2-3: intros [= <-]; eapply other_inv; [exact Hi|by apply calls_panicked| |done..|by left];
      intros i0 Hd; by eapply call_done_panicked.
    destruct (sys_step _ _ _) as [t|] eqn:Et; [|done]. intros [= <-].
    eapply other_inv; [exact Hi|eapply calls_start; try done; intros ch Ech; by eapply Htell| |done..|].
    + intros i0 Hd. by eapply call_done_step.
    + left. apply act_keeps_now in Et. unfold world_of. cbn. by rewrite Et.
  - destruct (by_threads _ a) eqn:Ha; [|done].
    destruct (sys_step _ _ _) as [t|] eqn:Et; [|done]. intros [= <-].
    eapply other_inv; [exact Hi|by eapply calls_threads| |done..|].
    + intros i0 Hd. by eapply call_done_step.
    + destruct a as [d| |i ev]; [|done|].
      * right. exists (Elapse d). unfold world_step, world_of. cbn. rewrite Ho.
        cbn in Et. by injection Et as <-.
      * left. apply act_keeps_now in Et. unfold world_of. cbn. by rewrite Et.
  - destruct e as [d|i acc|i j a|st| |]; try done; unfold s_serve;
      (destruct (world_step _ _) as [w|] eqn:Ew; [|done]); intros [= <-];
      destruct (serve_frame _ _ _ Ew I) as (En & Ec & Em);
      (eapply other_inv; [exact Hi|done|done|done|done|done|done|exact Em|]);
      right; eexists; rewrite Ew; destruct w; cbn in *; subst; done.
  - intros [= <-]. eapply other_inv; [exact Hi|done..|]. by left.
Qed.

End calls.

(** What is known of the calls grows with the run. *)
Lemma calls_inv_mono (P P' Q Q' : nat -> list ListenerInfo -> Prop) l t :
  (forall i fds, P i fds -> P' i fds) -> (forall i fds, Q i fds -> Q' i fds) ->
  calls_inv P Q l t -> calls_inv P' Q' l t.
Proof. intros HP HQ [Hr Hl Hf Hc]. split; eauto. Qed.

Lemma s_inv_mono (P P' Q Q' : nat -> list ListenerInfo -> Prop) w0 s :
  (forall i fds, P i fds -> P' i fds) -> (forall i fds, Q i fds -> Q' i fds) ->
  s_inv P Q w0 s -> s_inv P' Q' w0 s.
Proof. intros HP HQ [Hca Hd Hm Ht Hw]. split; try done. by eapply calls_inv_mono. Qed.

Lemma was_called_app s0 tr e i fds : was_called s0 tr i fds -> was_called s0 (tr ++ e) i fds.
Proof. intros (tr1 & x & tr2 & s1 & s2 & -> & H). exists tr1, x, (tr2 ++ e), s1, s2. by rewrite <- app_assoc. Qed.

Lemma was_started_app s0 tr e i fds : was_started s0 tr i fds -> was_started s0 (tr ++ e) i fds.
Proof. intros (tr1 & n & tr2 & s1 & c & o & -> & H). exists tr1, n, (tr2 ++ e), s1, c, o. by rewrite <- app_assoc. Qed.

(** The invariant of the runs from [s0]. *)
Definition run_inv s0 tr w0 s : Prop := s_inv (was_called s0 tr) (was_started s0 tr) w0 s.

Lemma run_inv_step s0 tr w0 e s s' :
  s_run tr s0 = Some s -> s_step e s = Some s' -> run_inv s0 tr w0 s -> run_inv s0 (tr ++ [e]) w0 s'.
Proof.
  intros Er Es Hi. eapply s_step_inv; [|eapply s_inv_mono; [..|exact Hi]|exact Es].
  - split.
    + intros fds Hc Hf. by exists tr, e, [], s, s'.
    + intros i n fds c o -> Eo. by exists tr, n, [], s, c, o.
  - apply was_called_app.
  - apply was_started_app.
Qed.

Lemma s_run_inv s0 w0 tr2 tr s s' :
  s_run tr s0 = Some s -> run_inv s0 tr w0 s -> s_run tr2 s = Some s' -> run_inv s0 (tr ++ tr2) w0 s'.
Proof.
  revert tr s. induction tr2 as [|e tr2 IH]; intros tr s E Hi E2; cbn in E2.
  { simplify_eq. by rewrite app_nil_r. }
  destruct (s_step e s) as [s1|] eqn:E1; simplify_eq/=.
  rewrite cons_middle, app_assoc. eapply IH; [|by eapply run_inv_step|done].
  rewrite s_run_app, E. cbn. by rewrite E1.
Qed.

(** What [main] sees when it starts to await. *)
Definition first_world (n : Z) (u : UP) : world (C := C) (W := W) :=
  serving 0 n (te_chan (up_te u)) (te_supervisor (up_te u)).

Lemma awaiting_inv n (u : UP) (k : K) :
  wl_value (te_chan (up_te u)) = None -> run_inv (awaiting n u k) [] (first_world n u) (awaiting n u k).
Proof.
  intros Hv. split; cbn; [|done|done|exact Hv|].
  - split; [by exists []|done|done|done].
  - intros _. by exists [].
Qed.

Lemma run_from_start n u k tr s :
  wl_value (te_chan (up_te u)) = None -> s_run tr (awaiting n u k) = Some s ->
  run_inv (awaiting n u k) tr (first_world n u) s.
Proof. intros Hv. by apply (s_run_inv _ _ tr [] (awaiting n u k)), awaiting_inv. Qed.

(** After the future, what [Echo]'s system can do the process can do. *)
Lemma serve_lifts e s w' :
  s_panicked s = false -> s_main s <> Awaiting -> world_step (R := R) e (world_of s) = Some w' ->
  exists e' s', s_step e' s = Some s' /\ world_of s' = w' /\ s_panicked s' = false /\ s_main s' <> Awaiting.
Proof.
  intros Hp Hm E. assert (Ho : over (s_main s) = false).
  { unfold world_step in E. cbn in E. by destruct (over (s_main s)). }
  destruct e as [d|i acc|i j a|st| |].
  1:{ exists (SThreads (Tick d)). unfold s_step. rewrite Hp, Ho. cbn. eexists. split; [reflexivity|].
      unfold world_step in E. cbn in E. rewrite Ho in E. by injection E as <-. }
  3:{ unfold world_step in E. cbn in E. rewrite Ho in E. by destruct (s_main s). }
  all: destruct (serve_frame _ _ _ E I) as (En & Ec & Em).
  all: match type of E with world_step ?e _ = _ => exists (SServe e) end.
  all: unfold s_step, s_serve; rewrite Hp, Ho, E; eexists; split; [reflexivity|].
  all: split; [destruct w'; cbn in *; by subst|]; split; [done|]; cbn; by intros H%Em.
Qed.

Lemma serving_lifts tr s w' :
  s_panicked s = false -> s_main s <> Awaiting -> world_run (R := R) tr (world_of s) = Some w' ->
  exists tr' s', s_run tr' s = Some s' /\ world_of s' = w'.
Proof.
  revert s. induction tr as [|e tr IH]; intros s Hp Hm E; cbn in E.
  - simplify_eq. by exists [], s.
  - destruct (world_step e (world_of s)) as [w1|] eqn:E1; simplify_eq/=.
    destruct (serve_lifts _ _ _ Hp Hm E1) as (e' & s1 & Es & <- & Hp1 & Hm1).
    destruct (IH s1 Hp1 Hm1 E) as (tr' & s' & Er & Hw). exists (e' :: tr'), s'. cbn. by rewrite Es.
Qed.

(** ** Properties *)



End service.

(** ** Witnesses *)

#[local] Notation Chan := (RunState * nat * bool)%type.

Definition first_state : service (K := model) (C := Chan) (R := nat) (W := option nat) :=
  awaiting 2 both_hup signalled.

Definition events : list (s_event (K := model)) -> option service :=
  fun tr => s_run show_error show_error false 4 tr first_state.

(** SIGHUP arrives; a connection is taken while the child starts; the child
    reports, and the call returns. *)
Definition child_starting : list (s_event (K := model)) := [SPoll; SThreads (caller 0); SStart 0 0].
Definition hangup : list (s_event (K := model)) :=
  child_starting ++ [SServe (PollServer 0 (Ready (Some (Ok tt))))] ++
  (SThreads <$> drop 3 prompt_trace).

Definition state_after (tr : list (s_event (K := model))) : service := default first_state (events tr).

Lemma events_after tr :
  match events tr with Some _ => true | None => false end = true -> events tr = Some (state_after tr).
Proof. unfold state_after. by destruct (events tr). Qed.



